(* ===== verification/_CoqProject ===== *)
-Q . S2P
Prelude.v
GoStrings.v
GoPaths.v
GoShell.v
PermTypes.v
PermStore.v
PermCommand.v
PermManager.v
NetAddr.v
EgressPolicy.v
EgressGuard.v
GoHTTP.v
EgressMask.v
EgressServer.v
EgressSocks.v
GoFloat.v
GoTime.v
PoderStore.v
JobStore.v
SqlJobs.v
SandboxStore.v
Leases.v
TokenStore.v
Auth.v
Scheduler.v
Create.v
Resume.v
Reclaim.v
E2BGateway.v
E2BServer.v
E2BWire.v
E2BEnvd.v
OsSandbox.v
Seatbelt.v
MandatoryWalk.v
AgentSandbox.v
