(* ===== verification/Prelude.v ===== *)
(** * SandrPod: a verification library

    SandrPod runs untrusted code in sandboxes. This library models the parts of
    its Go code that decide what a sandbox may do, where it runs and who may reach
    it, and proves what those decisions guarantee. Everything below names files
    under [src/].

    ** The program's parts

    - The permission gate ([pkg/permission]) sits in front of file, command and
      terminal requests. A [Manager] consults hardlocks, the mandatory deny list,
      the work directory, permanent and session grants, and at last a human; a
      [Store] keeps the rules and writes them to permissions.json.
    - Process isolation ([pkg/sandbox], [cmd/agent]) is the second line behind the
      gate: every command an agent starts is wrapped by bubblewrap or Seatbelt,
      whose policy is computed from the gate's rules just before the start.
    - The egress proxy ([pkg/egress]) is a sandbox's only way to the network. A
      policy decides on names, a guard decides on the addresses they resolve to,
      and a masker replaces credentials inside the sandbox by sentinels and puts
      them back on the way out. An HTTP proxy and a SOCKS5 proxy share all three.
    - The fleet ([pkg/sandpod], [pkg/store], [pkg/store/sqldb]) keeps workers, jobs,
      sandboxes, tokens and tunnel owners, in memory or in a database. The
      scheduler picks a worker for a new sandbox, or makes a machine and waits for
      its worker to register.
    - The control plane ([pkg/server]) authenticates requests, creates sandboxes
      through the scheduler and the workers' tunnels, takes up deliveries other
      instances dropped, and reclaims what is idle or dead.
    - The E2B gateway ([pkg/e2bcompat], [pkg/server/e2bgateway.go]) speaks the
      protocol of E2B's SDKs over the same stores and tunnels.

    ** Files

    Foundations: this file (results, lists, prefix tests, time, the tactics and
    hints the others use); GoStrings ([strings], [strconv], [path/filepath]);
    GoPaths (laws of cleaned absolute paths); GoShell (quoting for a POSIX shell
    and reading it back); GoHTTP (headers, host:port, base64); GoFloat
    ([float64]); GoTime (calendar dates and RFC 3339 text); NetAddr ([net/netip]).

    The permission gate: PermTypes (types.go, notifier.go), PermStore (store.go),
    PermCommand (policy.go, seeds.go), PermManager (manager.go, the test of
    mandatory.go), MandatoryWalk (the walk of mandatory.go).

    Process isolation: OsSandbox (sandbox.go, bwrap.go), Seatbelt (seatbelt.go,
    the choice of a backend, the wrapper in pkg/toolbox/sandbox.go), AgentSandbox
    (the policy built in cmd/agent/main.go, over all of the above).

    The egress proxy: EgressPolicy (policy.go), EgressGuard (guard.go), EgressMask
    (credential.go, maskfiles.go), EgressServer (server.go, proxy.go,
    terminate.go, the destination test of mitm.go), EgressSocks (socks.go).

    The fleet: PoderStore (poder_store.go, the repository interface of repo.go),
    JobStore (job.go, job_store.go, memory.go), SqlJobs (sqldb/job_repo.go),
    SandboxStore (sandbox_store.go, sqldb/sandbox_repo.go), TokenStore (API tokens
    and tunnel owners, in memory and in sqldb), Leases (provision_lock.go,
    tombstones.go, the VM tenants of scheduler.go), Scheduler (scheduler.go).

    The control plane: Auth (auth.go, ratelimit.go, tokens_api.go, the gates of
    main.go), Create (create.go, provision.go, the create handler of main.go),
    Resume (resume.go), Reclaim (reclaim.go, the reapers and the heartbeat of
    main.go).

    The E2B gateway: E2BGateway (gateway.go, controlplane.go, apikey.go), E2BServer
    (server/e2bgateway.go), E2BWire (protobuf.go, protobuf_process.go, the frames
    of envd.go), E2BEnvd (envd.go, process.go, watch.go, codeinterp.go).

    ** How state and effects are modelled

    A Go value is a value: structs are records, string enumerations are inductive
    types whose last constructor, where the code accepts other strings, holds
    them. A shared object is a field of a state that each operation takes and
    returns: the rule store with its file ([Store]), the world of a permission
    call (rules, audit rows, prompts), the world of a proxy connection (server,
    connections opened, bytes sent, replies), the scheduler with its claims and
    the calls made to the cloud, the world of a create or of a gateway request
    (stores, tombstones, owners, calls made over tunnels). Effects are recorded in
    such a world in the order the code performs them, so a theorem can speak of
    what was never done.

    What the code reads from outside is an argument: the clock at each point it
    is read, the outcome of a disk write or of a statement, the file system's
    answers, the resolver, the interface list, the order in which Go ranges over a
    map or the engine returns rows, the answers of a cloud provider or of a
    tunnel. Hash functions are arguments too. The store operations run under the
    code's own mutexes, so each is one step; where the code makes two critical
    sections of what should be one ([MemJobRepo.ClaimJob], the release of a
    provisioning claim, the key index behind the token table) the model has a step
    for each. A slice out of range is [None] where lengths come from outside. Where a handler is slow (a
    schedule, a delivery), what everybody else does meanwhile is an argument, and
    where several instances share a database (Resume, Reclaim) a step relation
    interleaves them with arbitrary other steps.

    Interfaces of the code are classes with laws: the worker repository
    (PoderStore), the sandbox backend of the E2B control plane (E2BGateway,
    discharged by E2BServer), the protobuf primitives (E2BWire, with an instance).

    ** What the theorems show

    - The gate: a hardlock or a mandatory deny is final, every allow has one of the
      listed reasons, a session grant stays in its session, hardlocks persist
      along every run of the store, and a successful write reads back.
    - Process isolation: a started process sees nothing below a hard-locked path and
      writes nothing below a path the walk of the work tree lists, both as they are
      when it starts; a policy that cannot be kept refuses the command; the Seatbelt text decides as
      its rules do, whatever characters the paths hold.
    - The proxy: nothing leaves except with the token, to a destination the policy
      allows, over an address that was vetted in that very call; deciders fail
      closed; policies are compiled whole; masked text unmasks to itself, and a
      re-signed AWS request verifies under the real key.
    - The fleet: a sandbox is only placed on a worker that satisfies every
      condition, and on the least loaded such worker; a machine made for nothing is
      given back, or the cases where it stays are named; jobs are handed out oldest
      first and not again before their timeout; the database answers as the in-memory stores do, up to the resolution of its text
      timestamps.
    - The control plane: a request is served under the identity of a credential it
      carries; an issued key follows the store, and a revoked one is refused for good
      once what was in flight has landed; the quota holds for a request nothing
      interferes with; a create settles its record and its job, or leaves them as
      the peer that took it over will find them; claims of one job are spaced by the
      start times of their passes; what was idle or dead for long enough, and
      nothing else, is reclaimed.
    - The E2B gateway: no request reaches a plane without the identity that plane
      asks for, no caller changes a sandbox of somebody else, and none is reached
      except the way [slips_by] names (a header the gateway does not authorize);
      both encodings of a call mean the same to a reader of each, and every stream
      reads back.

    A theorem about a behaviour that is not the documented one states what the
    code does (the wildcard without a label boundary, zoned IPv6 literals, the
    claim race, the first registration, the paths the walk misses, the revoked key a
    reload brings back, the quota two requests pass together, the header behind the
    placeholder host).

    ** Bounds and fuel

    Loops that end on a list or a string are structural. The others carry fuel: the
    registration wait and the readiness wait of the scheduler, whose fuel is two
    more than the interval fits into the timeout (proved enough whenever each turn
    advances the clock by the interval), and the text replacement, tokenizing and
    decoding loops, whose fuel is the length of the text, which every turn
    shortens. Go's [int] is [Z]: the figures compared and counted are far from the
    bounds of 64 bits, and the theorems do not depend on wrap-around. Byte values,
    addresses, the numbers of the wire formats and floats are kept at their width.

    ** Not modelled

    Wire and file formats other than those named (JSON texts, TLS, x509), byte
    streaming once a connection is open, logging, the cloud SDK clients, the tools
    that run inside a sandbox, command-line parsing, the SDKs in other languages.

    ** Plan

    Next, in this order: the SQL worker table; the audit recorder and its uploader;
    the MCP bridge's request rewriting and session table; the worker's Docker and
    egress bookkeeping ([pkg/poder]); the toolbox's sessions and files. *)

From stdpp Require Export prelude strings pretty gmap fin_maps list sorting.

#[global] Set Default Proof Using "Type".

(** ** Results of fallible Go functions

    A Go function that returns [(T, error)] becomes a function into
    [result T]; the error carries the message the code builds. *)
Inductive result (A : Type) : Type :=
| Ok (a : A)
| Err (msg : string).
Arguments Ok {A} a.
Arguments Err {A} msg.

Declare Scope go_scope.
Delimit Scope go_scope with go.

Definition rbind {A B} (r : result A) (k : A → result B) : result B :=
  match r with
  | Ok a => k a
  | Err e => Err e
  end.

Definition rmap {A B} (f : A → B) (r : result A) : result B :=
  match r with
  | Ok a => Ok (f a)
  | Err e => Err e
  end.

(** [if err != nil { return fmt.Errorf("prefix%w", err) }] *)
Definition wrap_err {A} (prefix : string) (r : result A) : result A :=
  match r with
  | Ok a => Ok a
  | Err e => Err (prefix +:+ e)
  end.

Notation "'let!' x ':=' r 'in' k" := (rbind r (λ x, k))
  (at level 200, x pattern, r at level 100, k at level 200) : go_scope.
#[global] Open Scope go_scope.

Definition is_ok {A} (r : result A) : bool :=
  match r with
  | Ok _ => true
  | Err _ => false
  end.

Definition isSome {A} (o : option A) : bool :=
  match o with
  | Some _ => true
  | None => false
  end.

#[global] Instance result_eq_dec {A} `{EqDecision A} : EqDecision (result A).
Proof. solve_decision. Defined.

Lemma rbind_Ok {A B} (r : result A) (k : A → result B) b :
  rbind r k = Ok b ↔ ∃ a, r = Ok a ∧ k a = Ok b.
Proof. destruct r; naive_solver. Qed.

Lemma wrap_err_Ok {A} p (r : result A) a : wrap_err p r = Ok a ↔ r = Ok a.
Proof. destruct r; naive_solver. Qed.

Lemma rmap_Ok {A B} (f : A → B) (r : result A) b :
  rmap f r = Ok b ↔ ∃ a, r = Ok a ∧ b = f a.
Proof. destruct r; naive_solver. Qed.

(** ** Time

    An instant is a number of nanoseconds; [0] is Go's zero [time.Time], the
    one [IsZero] recognises. A duration is a number of nanoseconds too. *)
Notation gotime := Z.

Definition is_zero_time (t : gotime) : bool := bool_decide (t = 0%Z).
Definition ns_second : Z := 1000000000.
Definition ns_minute : Z := 60 * ns_second.
Definition ns_hour : Z := 60 * ns_minute.
(** [a.After(b)] and [a.Before(b)]. *)
Definition after (a b : gotime) : bool := bool_decide (b < a)%Z.
Definition before (a b : gotime) : bool := bool_decide (a < b)%Z.

(** Go's [int64] keeps 64 bits of a product. *)
Definition int64 (z : Z) : Z := ((z + 2 ^ 63) mod 2 ^ 64 - 2 ^ 63)%Z.
(** [a.Sub(b)] stays within a duration's bounds. *)
Definition sub_time (a b : gotime) : Z := Z.max (- 2 ^ 63) (Z.min (2 ^ 63 - 1) (a - b)).

Lemma int64_id z : (- 2 ^ 63 ≤ z < 2 ^ 63)%Z → int64 z = z.
Proof. intros H. unfold int64. rewrite Z.mod_small; lia. Qed.

Lemma sub_time_gt a b d : (0 ≤ d)%Z → (d < sub_time a b)%Z → (d < a - b)%Z.
Proof. unfold sub_time. lia. Qed.

(** ** Tactics *)

(** Case analysis on the innermost scrutinee of the goal or of a hypothesis,
    recording the equation. *)
Ltac case_goal :=
  match goal with
  | |- context [ match ?x with _ => _ end ] =>
      lazymatch x with
      | context [ match _ with _ => _ end ] => fail
      | _ => destruct x eqn:?
      end
  end.

Ltac case_hyp H :=
  match type of H with
  | context [ match ?x with _ => _ end ] =>
      lazymatch x with
      | context [ match _ with _ => _ end ] => fail
      | _ => destruct x eqn:?
      end
  end.

(** Turns boolean tests of the context and of the goal into propositions. *)
Ltac simpl_bool :=
  repeat match goal with
  | H : bool_decide _ = true |- _ => apply bool_decide_eq_true in H
  | H : bool_decide _ = false |- _ => apply bool_decide_eq_false in H
  | H : negb _ = true |- _ => apply negb_true_iff in H
  | H : negb _ = false |- _ => apply negb_false_iff in H
  | H : _ && _ = true |- _ => apply andb_true_iff in H; destruct H
  | H : _ || _ = false |- _ => apply orb_false_iff in H; destruct H
  | H : is_true _ |- _ => apply Is_true_true in H
  | |- bool_decide _ = true => apply bool_decide_eq_true
  | |- bool_decide _ = false => apply bool_decide_eq_false
  | |- _ && _ = true => apply andb_true_iff; split
  end.

(** Unfolds the result monad in a hypothesis that says a computation ended
    in [Ok]. *)
Ltac inv_ok :=
  repeat match goal with
  | H : rbind _ _ = Ok _ |- _ =>
      apply rbind_Ok in H; let a := fresh "a" in destruct H as (a & ? & H)
  | H : wrap_err _ _ = Ok _ |- _ => apply wrap_err_Ok in H
  | H : rmap _ _ = Ok _ |- _ =>
      apply rmap_Ok in H; let a := fresh "a" in destruct H as (a & H & ?)
  | H : Ok _ = Ok _ |- _ => injection H as H; subst
  | H : Err _ = Ok _ |- _ => discriminate H
  end.

(** ** Lists the components share *)

(** The loop [for _, x := range l { if p(x) { return x, true } }]. *)
Fixpoint find_first {A} (p : A → bool) (l : list A) : option A :=
  match l with
  | [] => None
  | x :: l => if p x then Some x else find_first p l
  end.

Lemma find_first_Some {A} (p : A → bool) l x :
  find_first p l = Some x → x ∈ l ∧ p x = true.
Proof.
  induction l as [|y l IH]; simpl; [done|].
  destruct (p y) eqn:E; intros H; simplify_eq; [set_solver|].
  destruct (IH H). set_solver.
Qed.

Lemma find_first_None {A} (p : A → bool) l :
  find_first p l = None ↔ ∀ x, x ∈ l → p x = false.
Proof.
  induction l as [|y l IH]; simpl; [set_solver|].
  destruct (p y) eqn:E; split.
  - done.
  - intros H. rewrite H in E; [done|set_solver].
  - intros H x [->|?]%elem_of_cons; [done|]. by apply IH.
  - intros H. apply IH. set_solver.
Qed.

(** The first element satisfying the test comes with the fact that nothing
    before it does. *)
Lemma find_first_split {A} (p : A → bool) l x :
  find_first p l = Some x ↔
  p x = true ∧ ∃ l1 l2, l = l1 ++ x :: l2 ∧ ∀ y, y ∈ l1 → p y = false.
Proof.
  split.
  - induction l as [|y l IH]; simpl; [done|].
    destruct (p y) eqn:E; intros H; simplify_eq.
    { split; [done|]. exists [], l. set_solver. }
    destruct (IH H) as (? & l1 & l2 & -> & Hl1). split; [done|].
    exists (y :: l1), l2. split; [done|]. intros z [->|?]%elem_of_cons; auto.
  - intros (Hx & l1 & l2 & -> & Hl1). induction l1 as [|y l1 IH]; simpl.
    { by rewrite Hx. }
    rewrite (Hl1 y) by set_solver. apply IH. set_solver.
Qed.

(** [for _, x := range l { if p(x) { return true } }; return false]. *)
Definition any {A} (p : A → bool) (l : list A) : bool := existsb p l.

Lemma any_true {A} (p : A → bool) l : any p l = true ↔ ∃ x, x ∈ l ∧ p x = true.
Proof.
  unfold any. rewrite existsb_exists. by setoid_rewrite <- list_elem_of_In.
Qed.

Lemma any_false {A} (p : A → bool) l : any p l = false ↔ ∀ x, x ∈ l → p x = false.
Proof.
  split.
  - intros H x Hx. destruct (p x) eqn:E; [|done].
    assert (any p l = true) by (apply any_true; eauto). congruence.
  - intros H. destruct (any p l) eqn:E; [|done].
    apply any_true in E as (x & ? & Hp). rewrite H in Hp; done.
Qed.

(** [l[:0]]-and-append compaction: keep what passes the test, in order. *)
Definition keep {A} (p : A → bool) (l : list A) : list A := List.filter p l.

Lemma elem_of_keep {A} (p : A → bool) l x : x ∈ keep p l ↔ x ∈ l ∧ p x = true.
Proof. unfold keep. by rewrite !list_elem_of_In, filter_In. Qed.

#[export] Instance keep_perm {A} (p : A → bool) : Proper (Permutation ==> Permutation) (keep p).
Proof.
  intros l1 l2 H. induction H as [|x l1 l2 H IH|x y l|l1 l2 l3 _ IH1 _ IH2]; simpl.
  - done.
  - destruct (p x); by rewrite IH.
  - destruct (p x), (p y); done || constructor.
  - by rewrite IH1.
Qed.

Lemma keep_sublist {A} (p : A → bool) l : keep p l `sublist_of` l.
Proof.
  induction l as [|x l IH]; simpl; [constructor|].
  destruct (p x); by constructor.
Qed.

Lemma sublist_same_length {A} (l1 l2 : list A) :
  l1 `sublist_of` l2 → length l1 = length l2 → l1 = l2.
Proof.
  induction 1 as [|x l1 l2 H IH|x l1 l2 H IH]; simpl; intros E; [done| |].
  - f_equal. apply IH. lia.
  - apply sublist_length in H. lia.
Qed.

Lemma keep_same_length {A} (p : A → bool) l : length (keep p l) = length l → keep p l = l.
Proof. apply sublist_same_length, keep_sublist. Qed.

Lemma keep_NoDup {A B} (f : A → B) (p : A → bool) l :
  NoDup (f <$> l) → NoDup (f <$> keep p l).
Proof. intros H. eapply sublist_NoDup; [exact H|]. apply fmap_sublist, keep_sublist. Qed.

Lemma keep_app {A} (p : A → bool) l1 l2 : keep p (l1 ++ l2) = keep p l1 ++ keep p l2.
Proof. apply List.filter_app. Qed.

(** ** Loops over the values of a map

    The code ranges over the values of a map, in some order, and each turn changes
    only the entry of the value at hand. Such a loop computes [omap]. *)
Definition well_keyed {A} (key : A → string) (m : gmap string A) : Prop :=
  ∀ k x, m !! k = Some x → key x = k.

Section Entries.
Context {A S : Type} (key : A → string) (get : S → gmap string A) (f : A → option A) (step : S → A → S).
Hypothesis step_entry : ∀ s x, get s !! key x = Some x →
  get (step s x) = partial_alter (λ _, f x) (key x) (get s).

Lemma fold_entries_lookup xs : ∀ s, NoDup (key <$> xs) → (∀ x, x ∈ xs → get s !! key x = Some x) →
  (∀ x, x ∈ xs → get (foldl step s xs) !! key x = f x) ∧
  (∀ k, k ∉ key <$> xs → get (foldl step s xs) !! k = get s !! k).
Proof using All.
  induction xs as [|x xs IH]; simpl; intros s ND Hin; [set_solver|].
  apply NoDup_cons in ND as (Hx & ND).
  assert (Hg : get (step s x) = partial_alter (λ _, f x) (key x) (get s)) by (apply step_entry, Hin; set_solver).
  destruct (IH (step s x) ND) as (IH1 & IH2).
  { intros y Hy. rewrite Hg, lookup_partial_alter_ne; [apply Hin; set_solver|].
    intros E. apply Hx. rewrite E. by apply list_elem_of_fmap_2. }
  split.
  - intros y [->|Hy]%elem_of_cons; [|auto].
    rewrite IH2 by done. by rewrite Hg, lookup_partial_alter_eq.
  - intros k [Hk Hk']%not_elem_of_cons. rewrite IH2 by done. by rewrite Hg, lookup_partial_alter_ne.
Qed.

Lemma fold_entries s xs : well_keyed key (get s) → xs ≡ₚ (snd <$> map_to_list (get s)) →
  get (foldl step s xs) = omap f (get s).
Proof using All.
  intros WK HP.
  assert (Hel : ∀ x, x ∈ xs ↔ get s !! key x = Some x).
  { intros x. rewrite HP, list_elem_of_fmap. split.
    - intros ([k y] & -> & Hy%elem_of_map_to_list). simpl. by rewrite (WK _ _ Hy).
    - intros Hx. exists (key x, x). split; [done|]. by apply elem_of_map_to_list. }
  assert (Hkeys : key <$> xs ≡ₚ (map_to_list (get s)).*1).
  { rewrite HP, <- list_fmap_compose.
    assert (E : ∀ l : list (string * A), (∀ p, p ∈ l → key (p.2) = p.1) → (key ∘ snd) <$> l = fst <$> l).
    { intros l Hl. apply list_fmap_ext. intros i p Hp. apply Hl. by eapply list_elem_of_lookup_2. }
    rewrite E; [done|]. intros [k y] Hy%elem_of_map_to_list. by apply WK. }
  destruct (fold_entries_lookup xs s) as (H1 & H2).
  { rewrite Hkeys. apply NoDup_fst_map_to_list. }
  { intros x. apply Hel. }
  apply map_eq. intros k. rewrite lookup_omap. destruct (get s !! k) as [x|] eqn:Hk; simpl.
  - assert (Hx : x ∈ xs) by (apply Hel; by rewrite (WK _ _ Hk)).
    specialize (H1 x Hx). by rewrite (WK _ _ Hk) in H1.
  - rewrite H2; [done|]. rewrite Hkeys. intros ([k' y] & -> & Hy%elem_of_map_to_list)%list_elem_of_fmap.
    simpl in Hk. congruence.
Qed.
End Entries.

Create HintDb sandrpod.
#[export] Hint Resolve keep_sublist : sandrpod.
#[export] Hint Rewrite @rbind_Ok @rmap_Ok @wrap_err_Ok @any_true @any_false
  @elem_of_keep : sandrpod.
