(* ===== verification/GoStrings.v ===== *)
(** Go's [strings], [strconv] and [path/filepath] as far as the modelled code
    uses them. A Go string is a sequence of bytes, here a [string]; letter case
    and white space are those of ASCII (a non-ASCII byte is left unchanged by
    [to_lower] and is never white space), and paths are Unix paths. *)

From S2P Require Import Prelude.
From Stdlib Require Export Ascii.

Abbreviation char := Ascii.ascii.

(** ** Characters *)

Definition code (c : char) : nat := nat_of_ascii c.
Definition is_upper (c : char) : bool := (65 <=? code c) && (code c <=? 90).
Definition is_lower (c : char) : bool := (97 <=? code c) && (code c <=? 122).
Definition is_digit (c : char) : bool := (48 <=? code c) && (code c <=? 57).
Definition is_space (c : char) : bool :=
  ((9 <=? code c) && (code c <=? 13)) || (code c =? 32).
Definition lower_char (c : char) : char :=
  if is_upper c then ascii_of_nat (code c + 32) else c.
Definition upper_char (c : char) : char :=
  if is_lower c then ascii_of_nat (code c - 32) else c.

Definition slash : char := "/"%char.
Definition dquote : char := ascii_of_nat 34.
Definition backslash : char := ascii_of_nat 92.
Definition newline : char := ascii_of_nat 10.
Definition str1 (c : char) : string := String c EmptyString.

(** ** Strings *)

Definition len (s : string) : Z := Z.of_nat (String.length s).

Fixpoint map_string (f : char → char) (s : string) : string :=
  match s with
  | EmptyString => EmptyString
  | String c s => String (f c) (map_string f s)
  end.

Definition to_lower : string → string := map_string lower_char.
Definition to_upper : string → string := map_string upper_char.
Definition equal_fold (a b : string) : bool := bool_decide (to_lower a = to_lower b).

Fixpoint has_prefix (s p : string) {struct p} : bool :=
  match p, s with
  | EmptyString, _ => true
  | String _ _, EmptyString => false
  | String a p, String b s => bool_decide (a = b) && has_prefix s p
  end.

(** [s[len(p):]] when [s] begins with [p]. *)
Fixpoint drop_prefix (s p : string) {struct p} : string :=
  match p, s with
  | String _ p, String _ s => drop_prefix s p
  | _, _ => s
  end.

Definition trim_prefix (s p : string) : string :=
  if has_prefix s p then drop_prefix s p else s.

Fixpoint has_suffix (s p : string) : bool :=
  if bool_decide (s = p) then true
  else match s with
       | EmptyString => false
       | String _ s => has_suffix s p
       end.

(** [s[:n]] and [s[n:]], with the slice bounds clipped to the string. *)
Fixpoint take_str (n : nat) (s : string) : string :=
  match n, s with
  | S n, String c s => String c (take_str n s)
  | _, _ => EmptyString
  end.
Fixpoint drop_str (n : nat) (s : string) : string :=
  match n, s with
  | S n, String _ s => drop_str n s
  | _, _ => s
  end.

Definition trim_suffix (s p : string) : string :=
  if has_suffix s p then take_str (String.length s - String.length p) s else s.

Fixpoint contains (s sub : string) : bool :=
  has_prefix s sub ||
  match s with
  | EmptyString => false
  | String _ s => contains s sub
  end.

Fixpoint mem_char (c : char) (s : string) : bool :=
  match s with
  | EmptyString => false
  | String d s => bool_decide (c = d) || mem_char c s
  end.

(** [strings.ContainsAny(s, chars)]. *)
Fixpoint contains_any (s chars : string) : bool :=
  match s with
  | EmptyString => false
  | String c s => mem_char c chars || contains_any s chars
  end.

Fixpoint count_char (c : char) (s : string) : nat :=
  match s with
  | EmptyString => 0
  | String d s => (if bool_decide (c = d) then 1 else 0) + count_char c s
  end.

Fixpoint trim_left (s : string) : string :=
  match s with
  | String c s' => if is_space c then trim_left s' else s
  | EmptyString => EmptyString
  end.

Fixpoint trim_right (s : string) : string :=
  match s with
  | EmptyString => EmptyString
  | String c s =>
      match trim_right s with
      | EmptyString => if is_space c then EmptyString else str1 c
      | t => String c t
      end
  end.

Definition trim_space (s : string) : string := trim_right (trim_left s).

(** [strings.Split(s, string(sep))]: never empty. *)
Fixpoint split (sep : char) (s : string) : list string :=
  match s with
  | EmptyString => [EmptyString]
  | String c s =>
      if bool_decide (c = sep) then EmptyString :: split sep s
      else match split sep s with
           | [] => [str1 c]
           | w :: ws => String c w :: ws
           end
  end.

Fixpoint join (sep : string) (l : list string) : string :=
  match l with
  | [] => EmptyString
  | [s] => s
  | s :: l => s +:+ sep +:+ join sep l
  end.

(** [strings.Cut(s, string(sep))]. *)
Fixpoint cut (sep : char) (s : string) : option (string * string) :=
  match s with
  | EmptyString => None
  | String c s =>
      if bool_decide (c = sep) then Some (EmptyString, s)
      else match cut sep s with
           | Some (a, b) => Some (String c a, b)
           | None => None
           end
  end.

(** The text before and after the last occurrence of [sep]
    ([strings.LastIndexByte]). *)
Fixpoint cut_last (sep : char) (s : string) : option (string * string) :=
  match s with
  | EmptyString => None
  | String c s =>
      match cut_last sep s with
      | Some (a, b) => Some (String c a, b)
      | None => if bool_decide (c = sep) then Some (EmptyString, s) else None
      end
  end.

(** [fmt.Sprintf("%q", s)]: printable characters verbatim, the others escaped. *)
Definition hex_digit (n : nat) : char :=
  if n <? 10 then ascii_of_nat (48 + n) else ascii_of_nat (87 + n).
Definition quote_char (c : char) : string :=
  if bool_decide (c = dquote) || bool_decide (c = backslash)
  then String backslash (str1 c)
  else match code c with
       | 7 => String backslash "a"
       | 8 => String backslash "b"
       | 9 => String backslash "t"
       | 10 => String backslash "n"
       | 11 => String backslash "v"
       | 12 => String backslash "f"
       | 13 => String backslash "r"
       | n => if (n <? 32) || (n =? 127)
              then String backslash (String "x"%char
                     (String (hex_digit (n / 16)) (str1 (hex_digit (n mod 16)))))
              else str1 c
       end.
Fixpoint quote_body (s : string) : string :=
  match s with
  | EmptyString => EmptyString
  | String c s => quote_char c +:+ quote_body s
  end.
Definition quote (s : string) : string :=
  String dquote (quote_body s) +:+ str1 dquote.

Definition itoa (n : Z) : string := pretty n.

(** [strconv.Atoi]: an optional sign and at least one decimal digit, within
    the range of a 64-bit [int]. *)
Fixpoint digits_val (s : string) (acc : Z) : option Z :=
  match s with
  | EmptyString => Some acc
  | String c s =>
      if is_digit c then digits_val s (10 * acc + Z.of_nat (code c - 48)) else None
  end.
Definition int_range (z : Z) : bool :=
  bool_decide (- 2 ^ 63 ≤ z < 2 ^ 63)%Z.
Definition atoi (s : string) : option Z :=
  let signed (sgn : Z) (t : string) :=
    match t with
    | EmptyString => None
    | _ => match digits_val t 0 with
           | Some v => if int_range (sgn * v) then Some (sgn * v)%Z else None
           | None => None
           end
    end in
  match s with
  | String c t =>
      if bool_decide (c = "-"%char) then signed (-1)%Z t
      else if bool_decide (c = "+"%char) then signed 1%Z t
      else signed 1%Z s
  | EmptyString => None
  end.

(** ** Unix paths *)

(** [filepath.Clean]: the components are read left to right onto a stack
    (innermost first); [..] removes the top unless there is nothing to remove. *)
Fixpoint clean_stack (rooted : bool) (stack comps : list string) : list string :=
  match comps with
  | [] => stack
  | c :: comps =>
      if bool_decide (c = EmptyString) || bool_decide (c = ".")
      then clean_stack rooted stack comps
      else if bool_decide (c = "..")
      then match stack with
           | top :: rest =>
               if bool_decide (top = "..") then clean_stack rooted (c :: stack) comps
               else clean_stack rooted rest comps
           | [] => if rooted then clean_stack rooted [] comps
                   else clean_stack rooted [c] comps
           end
      else clean_stack rooted (c :: stack) comps
  end.

Definition is_abs (p : string) : bool := has_prefix p "/".

Definition clean (p : string) : string :=
  let comps := rev (clean_stack (is_abs p) [] (split slash p)) in
  if is_abs p then String slash (join "/" comps)
  else match comps with
       | [] => "."
       | _ => join "/" comps
       end.

Fixpoint trim_slashes (s : string) : string :=
  match s with
  | EmptyString => EmptyString
  | String c s =>
      match trim_slashes s with
      | EmptyString => if bool_decide (c = slash) then EmptyString else str1 c
      | t => String c t
      end
  end.

Definition base (p : string) : string :=
  match p with
  | EmptyString => "."
  | _ => match trim_slashes p with
         | EmptyString => "/"
         | t => match cut_last slash t with
                | Some (_, b) => b
                | None => t
                end
         end
  end.

Definition dir (p : string) : string :=
  match cut_last slash p with
  | Some (a, _) => clean (a +:+ "/")
  | None => clean EmptyString
  end.

(** [filepath.Join(a, b)]. *)
Definition join2 (a b : string) : string :=
  match a, b with
  | EmptyString, EmptyString => EmptyString
  | EmptyString, _ => clean b
  | _, _ => clean (a +:+ "/" +:+ b)
  end.

(** ** Lemmas *)

#[local] Arguments String.append : simpl nomatch.

Lemma app_cons_str c (a b : string) : String c a +:+ b = String c (a +:+ b).
Proof. done. Qed.

Lemma app_nil_r_str (s : string) : s +:+ EmptyString = s.
Proof. induction s as [|c s IH]; [done|]. by rewrite app_cons_str, IH. Qed.

Lemma app_assoc_str (a b c : string) : (a +:+ b) +:+ c = a +:+ b +:+ c.
Proof. induction a as [|d a IH]; [done|]. by rewrite !app_cons_str, IH. Qed.

Lemma length_app_str (a b : string) :
  String.length (a +:+ b) = String.length a + String.length b.
Proof. induction a as [|c a IH]; [done|]. rewrite app_cons_str. simpl. by rewrite IH. Qed.

Lemma app_inj_l_str (a b c : string) : a +:+ b = a +:+ c → b = c.
Proof. induction a as [|x a IH]; [done|]. rewrite !app_cons_str. intros [= H]. by apply IH. Qed.

Lemma has_prefix_spec s p : has_prefix s p = true ↔ ∃ r, s = p +:+ r.
Proof.
  revert s; induction p as [|a p IH]; intros s; simpl.
  { split; [by exists s|]. by destruct s. }
  destruct s as [|b s]; simpl.
  { split; [done|]. by intros [r ?]. }
  rewrite andb_true_iff, bool_decide_eq_true, IH. split.
  - intros [-> [r ->]]. by exists r.
  - intros [r [= -> ->]]. eauto.
Qed.

Lemma drop_prefix_app p r : drop_prefix (p +:+ r) p = r.
Proof. induction p; [by destruct r|done]. Qed.

Lemma has_suffix_spec s p : has_suffix s p = true ↔ ∃ r, s = r +:+ p.
Proof.
  induction s as [|c s IH]; simpl.
  - case_bool_decide as E; split; try done.
    + intros _. exists EmptyString. by rewrite <- E.
    + intros [r Hr]. by destruct r.
  - case_bool_decide as E; split; try done.
    + intros _. by exists EmptyString.
    + rewrite IH. intros [r ->]. by exists (String c r).
    + intros [[|d r] Hr]; [done|]. injection Hr as -> ->. apply IH. by exists r.
Qed.

Lemma take_str_app a b : take_str (String.length a) (a +:+ b) = a.
Proof. induction a; [by destruct b|]. by f_equal/=. Qed.

Lemma drop_str_app a b : drop_str (String.length a) (a +:+ b) = b.
Proof. induction a as [|c a IH]; [by destruct b|exact IH]. Qed.

Lemma trim_prefix_app p r : trim_prefix (p +:+ r) p = r.
Proof.
  unfold trim_prefix.
  replace (has_prefix (p +:+ r) p) with true by (symmetry; apply has_prefix_spec; eauto).
  apply drop_prefix_app.
Qed.

Lemma mem_char_app c a b : mem_char c (a +:+ b) = mem_char c a || mem_char c b.
Proof. induction a as [|d a IH]; [done|]. simpl. by rewrite IH, orb_assoc. Qed.

Lemma split_not_nil sep s : split sep s ≠ [].
Proof.
  destruct s as [|c s]; simpl; [done|].
  case_bool_decide; [done|]. by destruct (split sep s).
Qed.

(** Splitting and joining are inverse. *)
Lemma join_split sep s : join (str1 sep) (split sep s) = s.
Proof.
  induction s as [|c s IH]; [done|]. simpl.
  pose proof (split_not_nil sep s) as Hne.
  case_bool_decide as E; destruct (split sep s) as [|w ws]; try done; subst.
  - done.
  - by destruct ws.
Qed.

Lemma split_nosep sep s w : w ∈ split sep s → mem_char sep w = false.
Proof.
  revert w; induction s as [|c s IH]; intros w; simpl.
  { intros ->%list_elem_of_singleton. done. }
  case_bool_decide as E.
  - intros [->|?]%elem_of_cons; [done|]. by apply IH.
  - destruct (split sep s) as [|v vs] eqn:Es.
    { intros ->%list_elem_of_singleton. simpl. rewrite orb_false_r.
      by apply bool_decide_eq_false; intros ->. }
    intros [->|?]%elem_of_cons; simpl.
    + rewrite IH by set_solver. rewrite orb_false_r.
      apply bool_decide_eq_false. congruence.
    + apply IH. set_solver.
Qed.

Lemma split_word sep w : mem_char sep w = false → split sep w = [w].
Proof.
  induction w as [|c w IH]; [done|]. simpl. intros [H1 H2]%orb_false_iff.
  simpl_bool. rewrite bool_decide_eq_false_2 by congruence. by rewrite IH.
Qed.

Lemma split_app sep w s :
  mem_char sep w = false → split sep (w +:+ String sep s) = w :: split sep s.
Proof.
  induction w as [|c w IH]; simpl.
  - intros _. by rewrite bool_decide_eq_true_2.
  - intros [H1 H2]%orb_false_iff. simpl_bool.
    rewrite bool_decide_eq_false_2 by congruence.
    by setoid_rewrite (IH H2).
Qed.

Lemma split_join sep l :
  l ≠ [] → (∀ w, w ∈ l → mem_char sep w = false) →
  split sep (join (str1 sep) l) = l.
Proof.
  induction l as [|w l IH]; [done|]. intros _ Hl.
  destruct l as [|v l].
  { apply split_word, Hl. set_solver. }
  change (join (str1 sep) (w :: v :: l)) with (w +:+ String sep (join (str1 sep) (v :: l))).
  rewrite split_app by (apply Hl; set_solver).
  rewrite IH; [done|done|]. intros. apply Hl. set_solver.
Qed.

Lemma cut_last_spec sep s a b :
  cut_last sep s = Some (a, b) → s = a +:+ String sep b ∧ mem_char sep b = false.
Proof.
  revert a b; induction s as [|c s IH]; intros a b; simpl; [done|].
  destruct (cut_last sep s) as [[a' b']|] eqn:E.
  - intros [= <- <-]. destruct (IH a' b' eq_refl) as [-> ?]. done.
  - case_bool_decide as Ec; [|done]. intros [= <- <-]. subst c. split; [done|].
    clear IH. induction s as [|d s IHs]; [done|]. simpl in E |- *.
    destruct (cut_last sep s) as [[]|]; [done|].
    case_bool_decide; [done|]. rewrite IHs by done.
    by rewrite bool_decide_eq_false_2.
Qed.

Lemma cut_last_None sep s : cut_last sep s = None ↔ mem_char sep s = false.
Proof.
  induction s as [|c s IH]; simpl; [done|].
  destruct (cut_last sep s) as [[]|].
  - split; [done|]. intros [_ ?]%orb_false_iff. by apply IH in H.
  - case_bool_decide as E; subst.
    + rewrite bool_decide_eq_true_2 by done. done.
    + rewrite bool_decide_eq_false_2 by done. simpl. by rewrite <- IH.
Qed.

#[export] Hint Rewrite has_prefix_spec has_suffix_spec app_nil_r_str app_assoc_str
  : gostrings.
