(* ===== verification/GoPaths.v ===== *)
(** Absolute Unix paths as lists of components: the laws of [clean], [dir],
    [base] and [join2] that the path checks rely on. *)

From S2P Require Import Prelude GoStrings.

#[local] Arguments String.append : simpl nomatch.

(** A path component that [clean] leaves alone. *)
Definition normal_comp (c : string) : Prop :=
  c ≠ "" ∧ c ≠ "." ∧ c ≠ ".." ∧ mem_char slash c = false.
#[global] Instance normal_comp_dec c : Decision (normal_comp c).
Proof. unfold normal_comp. apply _. Defined.

Definition abs_path (cs : list string) : string := String slash (join "/" cs).

Lemma split_app_sep sep a b :
  split sep (a +:+ String sep b) = split sep a ++ split sep b.
Proof.
  induction a as [|c a IH]; simpl.
  { by rewrite bool_decide_eq_true_2. }
  case_bool_decide; [by rewrite IH|].
  rewrite IH. pose proof (split_not_nil sep a). by destruct (split sep a).
Qed.

Lemma join_snoc sep cs c :
  join sep (cs ++ [c]) = match cs with [] => c | _ => join sep cs +:+ sep +:+ c end.
Proof.
  induction cs as [|d cs IH]; [done|]. simpl. rewrite IH.
  destruct cs as [|e cs]; [done|]. simpl. by rewrite !app_assoc_str.
Qed.

Lemma split_slash_join cs :
  Forall normal_comp cs → split slash (join "/" cs) = match cs with [] => [""] | _ => cs end.
Proof.
  intros H. destruct cs as [|c cs]; [done|]. apply (split_join slash); [done|].
  intros w Hw. rewrite Forall_forall in H. by destruct (H w Hw) as (_ & _ & _ & ?).
Qed.

Lemma clean_stack_normal rooted stack comps rest :
  Forall normal_comp comps →
  clean_stack rooted stack (comps ++ rest) = clean_stack rooted (rev comps ++ stack) rest.
Proof.
  revert stack; induction comps as [|c comps IH]; intros stack H; [done|].
  apply Forall_cons in H as [(Hc1 & Hc2 & Hc3 & _) H]. simpl.
  rewrite !bool_decide_eq_false_2 by done. simpl. rewrite IH by done.
  by rewrite <- app_assoc.
Qed.

Lemma clean_stack_inv stack comps :
  Forall normal_comp stack → (∀ w, w ∈ comps → mem_char slash w = false) →
  Forall normal_comp (clean_stack true stack comps).
Proof.
  revert stack; induction comps as [|c comps IH]; intros stack Hs Hc; [done|]. simpl.
  assert (∀ w, w ∈ comps → mem_char slash w = false) by set_solver.
  repeat case_bool_decide; simpl; try (by apply IH).
  - destruct stack as [|top rest]; [by apply IH|].
    apply Forall_cons in Hs as [(_ & _ & ? & _) ?].
    rewrite bool_decide_eq_false_2 by done. by apply IH.
  - apply IH; [|done]. apply Forall_cons. split; [|done].
    repeat split; try done. apply Hc. set_solver.
Qed.

Lemma clean_abs cs : Forall normal_comp cs → clean (abs_path cs) = abs_path cs.
Proof.
  intros H. unfold clean. replace (is_abs (abs_path cs)) with true by done.
  unfold abs_path. simpl. rewrite split_slash_join by done. f_equal. f_equal.
  destruct cs as [|c cs]; [done|].
  rewrite <- (app_nil_r (c :: cs)) at 1. rewrite clean_stack_normal by done.
  rewrite app_nil_r. apply rev_involutive.
Qed.

Lemma clean_abs_slash cs : Forall normal_comp cs → clean (abs_path cs +:+ "/") = abs_path cs.
Proof.
  intros H. unfold clean. replace (is_abs _) with true by done.
  unfold abs_path. f_equal. f_equal. simpl. rewrite (split_app_sep slash _ EmptyString), split_slash_join by done.
  destruct cs as [|c cs]; [done|].
  rewrite clean_stack_normal by done. simpl. rewrite app_nil_r.
  by rewrite rev_app_distr, rev_involutive.
Qed.

Lemma cut_last_app sep a b :
  mem_char sep b = false → cut_last sep (a +:+ String sep b) = Some (a, b).
Proof.
  intros Hb. induction a as [|c a IH]; simpl; [|by rewrite IH].
  apply cut_last_None in Hb. by rewrite Hb, bool_decide_eq_true_2.
Qed.

Lemma abs_path_snoc cs c :
  abs_path (cs ++ [c]) = (match cs with [] => "" | _ => abs_path cs end) +:+ String slash c.
Proof. unfold abs_path. rewrite join_snoc. by destruct cs. Qed.

Lemma dir_abs cs c : Forall normal_comp (cs ++ [c]) → dir (abs_path (cs ++ [c])) = abs_path cs.
Proof.
  intros H. pose proof H as (Hcs & (_ & _ & _ & Hc)%Forall_singleton)%Forall_app.
  unfold dir. rewrite abs_path_snoc, cut_last_app by done.
  destruct cs as [|d cs]; [reflexivity|]. by apply clean_abs_slash.
Qed.

Lemma trim_slashes_id s c : c ≠ slash → trim_slashes (s +:+ str1 c) = s +:+ str1 c.
Proof.
  intros Hc. induction s as [|d s IH]; simpl.
  { by rewrite bool_decide_eq_false_2. }
  rewrite IH. by destruct s.
Qed.

Lemma last_char s : s ≠ "" → ∃ t c, s = t +:+ str1 c.
Proof.
  induction s as [|c s IH]; [done|]. intros _.
  destruct s as [|d s]; [by exists "", c|].
  destruct IH as (t & e & ->); [done|]. by exists (String c t), e.
Qed.

Lemma base_abs cs c : Forall normal_comp (cs ++ [c]) → base (abs_path (cs ++ [c])) = c.
Proof.
  intros (Hcs & (Hne & _ & _ & Hc)%Forall_singleton)%Forall_app.
  assert (trim_slashes (abs_path (cs ++ [c])) = abs_path (cs ++ [c])) as Ht.
  { rewrite abs_path_snoc. destruct (last_char c Hne) as (t & e & ->).
    change (String slash (t +:+ str1 e)) with (String slash t +:+ str1 e).
    rewrite <- app_assoc_str. apply trim_slashes_id.
    rewrite mem_char_app in Hc. apply orb_false_iff in Hc as [_ Hc]. simpl in Hc.
    rewrite orb_false_r in Hc. simpl_bool. congruence. }
  unfold base. rewrite Ht. destruct (abs_path (cs ++ [c])) as [|d p] eqn:E; [done|].
  rewrite <- E, abs_path_snoc, cut_last_app by done. done.
Qed.

Lemma join2_abs cs c : Forall normal_comp (cs ++ [c]) → join2 (abs_path cs) c = abs_path (cs ++ [c]).
Proof.
  intros H. unfold join2, abs_path at 1.
  transitivity (clean (abs_path cs +:+ "/" +:+ c)); [by destruct c|].
  destruct cs as [|d cs].
  - change (abs_path [] +:+ "/" +:+ c) with (String slash (String slash c)).
    apply Forall_singleton in H as (Hn & Hd & Hdd & Hs).
    unfold clean. replace (is_abs _) with true by done. simpl.
    rewrite split_word by done.
    change [c] with ([c] ++ []) at 1. by rewrite clean_stack_normal by by apply Forall_singleton.
  - replace (abs_path (d :: cs) +:+ "/" +:+ c) with (abs_path ((d :: cs) ++ [c])).
    + by apply clean_abs.
    + by rewrite abs_path_snoc.
Qed.

Lemma abs_path_inj cs ds :
  Forall normal_comp cs → Forall normal_comp ds → abs_path cs = abs_path ds → cs = ds.
Proof.
  intros Hc Hd [= E]. apply (f_equal (split slash)) in E.
  rewrite !split_slash_join in E by done.
  destruct cs as [|c cs], ds as [|d ds]; try done; simplify_eq.
  - apply Forall_cons in Hd as [(? & _) _]. done.
  - apply Forall_cons in Hc as [(? & _) _]. done.
Qed.

#[export] Hint Rewrite clean_abs dir_abs base_abs join2_abs using done : gopaths.
