(* ===== verification/GoShell.v ===== *)
(** Quoting for a POSIX shell, and how such a shell reads a quoted word back; the runes
    of a string, as a Go loop over them finds them. *)

From S2P Require Import Prelude GoStrings.

#[local] Arguments String.append : simpl nomatch.

Definition squote : char := "'"%char.

(** [strings.ReplaceAll(v, "'", `'\''`)], and the value between single quotes. *)
Fixpoint escape_squotes (v : string) : string :=
  match v with
  | EmptyString => EmptyString
  | String c v => (if bool_decide (c = squote) then "'\''" else str1 c) +:+ escape_squotes v
  end.
Definition sh_quoted (v : string) : string := "'" +:+ escape_squotes v +:+ "'".

(** How many bytes the rune at the start of a string takes: [0] when they are no UTF-8. *)
Definition byte_in (lo hi : nat) (s : string) : bool :=
  match s with String c _ => (lo <=? code c) && (code c <=? hi) | EmptyString => false end.
Definition follows (s : string) : bool := byte_in 128 191 s.
Definition rune_width (s : string) : nat :=
  let s1 := drop_str 1 s in
  let s2 := drop_str 2 s in
  let s3 := drop_str 3 s in
  let at_ lo hi := byte_in lo hi s in
  if at_ 0 127 then 1
  else if at_ 194 223 && follows s1 then 2
  else if (at_ 224 224 && byte_in 160 191 s1 || at_ 237 237 && byte_in 128 159 s1 ||
           (at_ 225 236 || at_ 238 239) && follows s1) && follows s2 then 3
  else if (at_ 240 240 && byte_in 144 191 s1 || at_ 244 244 && byte_in 128 143 s1 || at_ 241 243 && follows s1) &&
          follows s2 && follows s3 then 4
  else 0.

(** The runes of a string put back together: each byte that is no part of one has become
    U+FFFD. *)
Definition replacement : string := String (ascii_of_nat 239) (String (ascii_of_nat 191) (String (ascii_of_nat 189) "")).
Fixpoint rune_loop (fuel : nat) (s : string) : string :=
  match fuel, s with
  | S fuel, String _ rest =>
      match rune_width s with
      | O => replacement +:+ rune_loop fuel rest
      | w => take_str w s +:+ rune_loop fuel (drop_str w s)
      end
  | _, _ => ""
  end.
Definition runes_of (s : string) : string := rune_loop (String.length s) s.

Lemma runes_ascii s : (∀ c, mem_char c s = true → code c <= 127) → runes_of s = s.
Proof.
  unfold runes_of. induction s as [|c s IH]; intros Hs; [done|]. cbn [String.length rune_loop].
  assert (Hw : rune_width (String c s) = 1).
  { unfold rune_width. cbn [byte_in]. replace (code c <=? 127) with true; [done|]. symmetry. apply Nat.leb_le, Hs.
    cbn [mem_char]. by rewrite bool_decide_eq_true_2. }
  rewrite Hw. cbn. change ("" +:+ ?x) with x. unfold String.append. f_equal. destruct s; [done|]. apply IH. intros d Hd.
  apply Hs. cbn [mem_char] in *. by rewrite Hd, orb_true_r.
Qed.

Example runes_examples :
  runes_of "a'b" = "a'b" ∧ runes_of (String (ascii_of_nat 195) (String (ascii_of_nat 169) "x")) =
                             String (ascii_of_nat 195) (String (ascii_of_nat 169) "x") ∧
  runes_of (String (ascii_of_nat 255) "x") = replacement +:+ "x".
Proof. vm_compute. done. Qed.

(** How a POSIX shell reads one word, as far as it can be read without
    expanding anything: [None] when an unquoted character would be interpreted. *)
Fixpoint sh_word (quotedp : bool) (s : string) : option (string * string) :=
  match s with
  | EmptyString => if quotedp then None else Some ("", "")
  | String c t =>
      if quotedp then
        if bool_decide (c = squote) then sh_word false t
        else (λ r, (String c (fst r), snd r)) <$> sh_word true t
      else if bool_decide (c = squote) then sh_word true t
      else if bool_decide (c = backslash) then
        match t with
        | String d t' => (λ r, (String d (fst r), snd r)) <$> sh_word false t'
        | EmptyString => None
        end
      else if is_space c then Some ("", s)
      else if is_upper c || is_lower c || is_digit c || mem_char c "-_=/.:,@%+"
      then (λ r, (String c (fst r), snd r)) <$> sh_word false t
      else None
  end.

(** The first [n] words. *)
Fixpoint sh_words (n : nat) (s : string) : option (list string) :=
  match n with
  | O => Some []
  | S n => match sh_word false (trim_left s) with Some (w, rest) => cons w <$> sh_words n rest | None => None end
  end.

Lemma sh_word_escape v t :
  sh_word true (escape_squotes v +:+ String squote t) = (λ r, (v +:+ fst r, snd r)) <$> sh_word false t.
Proof.
  induction v as [|c v IH]; simpl.
  - by destruct (sh_word false t) as [[]|].
  - case_bool_decide.
    + subst c. simpl. rewrite IH. by destruct (sh_word false t) as [[]|].
    + simpl. rewrite bool_decide_eq_false_2 by done. rewrite IH. by destruct (sh_word false t) as [[]|].
Qed.

Lemma sh_word_quoted v t : sh_word false (sh_quoted v +:+ t) = (λ r, (v +:+ fst r, snd r)) <$> sh_word false t.
Proof.
  unfold sh_quoted. rewrite !app_assoc_str.
  change ("'" +:+ escape_squotes v +:+ "'" +:+ t) with (String squote (escape_squotes v +:+ String squote t)).
  cbn [sh_word]. rewrite bool_decide_eq_true_2 by done. apply sh_word_escape.
Qed.

(** Words before a space or the end. *)
Definition ends_word (rest : string) : Prop := match rest with String c _ => c = " "%char | EmptyString => True end.

Lemma sh_word_end rest : ends_word rest → sh_word false rest = Some ("", rest).
Proof. destruct rest as [|c rest]; [done|]. intros Hr. simpl in Hr. by subst c. Qed.

Lemma sh_word_q v rest : ends_word rest → sh_word false (sh_quoted v +:+ rest) = Some (v, rest).
Proof. intros Hr. rewrite sh_word_quoted, sh_word_end by done. simpl. by rewrite app_nil_r_str. Qed.

Lemma trim_left_q v rest : trim_left (sh_quoted v +:+ rest) = sh_quoted v +:+ rest.
Proof. done. Qed.

Lemma sh_words_q n v rest : ends_word rest → sh_words (S n) (sh_quoted v +:+ rest) = cons v <$> sh_words n rest.
Proof. intros Hr. cbn [sh_words]. by rewrite trim_left_q, sh_word_q. Qed.

Lemma sh_words_space n v rest : ends_word rest → sh_words (S n) (String " "%char (sh_quoted v +:+ rest)) = cons v <$> sh_words n rest.
Proof. intros Hr. rewrite <- (sh_words_q n v rest) by done. cbn [sh_words]. by rewrite !trim_left_q. Qed.

(** A word of plain characters, after a space. *)
Fixpoint plain (w : string) : bool :=
  match w with
  | EmptyString => true
  | String c w => negb (bool_decide (c = squote)) && negb (is_space c) && negb (bool_decide (c = backslash)) &&
                  (is_upper c || is_lower c || is_digit c || mem_char c "-_=/.:,@%+") && plain w
  end.
Lemma sh_word_plain w rest : ends_word rest → plain w = true → sh_word false (w +:+ rest) = Some (w, rest).
Proof.
  intros Hr. induction w as [|c w IH].
  - intros _. change ("" +:+ rest) with rest. by apply sh_word_end.
  - cbn [plain]. rewrite !andb_true_iff, !negb_true_iff. intros ((((Hq & Hs) & Hb) & Hc) & Hw). rewrite app_cons_str.
    cbn [sh_word]. by rewrite Hq, Hb, Hs, Hc, IH.
Qed.
Lemma sh_words_plain n c w rest : ends_word rest → plain (String c w) = true →
  sh_words (S n) (String " "%char (String c w +:+ rest)) = cons (String c w) <$> sh_words n rest.
Proof.
  intros Hr Hw. cbn [sh_words].
  assert (E : trim_left (String " "%char (String c w +:+ rest)) = String c w +:+ rest).
  { rewrite app_cons_str. cbn [trim_left]. change (is_space " "%char) with true. cbv iota. cbn [plain] in Hw.
    rewrite !andb_true_iff, !negb_true_iff in Hw. destruct Hw as ((((_ & Hs) & _) & _) & _). by rewrite Hs. }
  rewrite E, sh_word_plain by done. done.
Qed.
