(* ===== verification/PermTypes.v ===== *)
(** pkg/permission/types.go and notifier.go: the data of the permission gate.

    The string enumerations of the Go code are inductive types whose last
    constructor carries any other string. *)

From S2P Require Import Prelude GoStrings.

Inductive GOOS := Darwin | Linux | Windows.
#[global] Instance GOOS_eq_dec : EqDecision GOOS.
Proof. solve_decision. Defined.

Inductive Mode :=
| ModeRead | ModeWrite | ModeReadWrite | ModeExec | ModeDeny
| ModeOther (s : string).
#[global] Instance Mode_eq_dec : EqDecision Mode.
Proof. solve_decision. Defined.

(** [func (granted Mode) Allows(requested Mode) bool] *)
Definition Mode_Allows (granted requested : Mode) : bool :=
  if bool_decide (granted = ModeReadWrite)
  then bool_decide (requested = ModeRead) || bool_decide (requested = ModeWrite)
       || bool_decide (requested = ModeReadWrite)
  else bool_decide (granted = requested).

Inductive RuleScope :=
| ScopePermanent | ScopeSession | ScopeHardlock
| ScopeOther (s : string).
#[global] Instance RuleScope_eq_dec : EqDecision RuleScope.
Proof. solve_decision. Defined.

Inductive Action := ActionAllow | ActionDeny | ActionAsk.
#[global] Instance Action_eq_dec : EqDecision Action.
Proof. solve_decision. Defined.

Record Rule := mkRule {
  rule_path : string;
  rule_mode : Mode;
  rule_scope : RuleScope;
  rule_granted_at : gotime;
  rule_expires_at : gotime;
  rule_session_id : string;
  rule_note : string;
}.
#[global] Instance Rule_eq_dec : EqDecision Rule.
Proof. solve_decision. Defined.

Definition rule_with_mode (m : Mode) (r : Rule) : Rule :=
  {| rule_path := rule_path r; rule_mode := m; rule_scope := rule_scope r;
     rule_granted_at := rule_granted_at r; rule_expires_at := rule_expires_at r;
     rule_session_id := rule_session_id r; rule_note := rule_note r |}.

Record CommandPolicy := mkCommandPolicy {
  cp_deny : list string;
  cp_warn : list string;
}.
#[global] Instance CommandPolicy_eq_dec : EqDecision CommandPolicy.
Proof. solve_decision. Defined.

Record Snapshot := mkSnapshot {
  sn_version : Z;
  sn_user : string;
  sn_work_dir : string;
  sn_rules : list Rule;
  sn_session_grants : list Rule;
  sn_command_policy : CommandPolicy;
  sn_updated_at : gotime;
}.
#[global] Instance Snapshot_eq_dec : EqDecision Snapshot.
Proof. solve_decision. Defined.

Definition with_rules (rs : list Rule) (s : Snapshot) : Snapshot :=
  {| sn_version := sn_version s; sn_user := sn_user s; sn_work_dir := sn_work_dir s;
     sn_rules := rs; sn_session_grants := sn_session_grants s;
     sn_command_policy := sn_command_policy s; sn_updated_at := sn_updated_at s |}.
Definition with_session_grants (rs : list Rule) (s : Snapshot) : Snapshot :=
  {| sn_version := sn_version s; sn_user := sn_user s; sn_work_dir := sn_work_dir s;
     sn_rules := sn_rules s; sn_session_grants := rs;
     sn_command_policy := sn_command_policy s; sn_updated_at := sn_updated_at s |}.
Definition with_command_policy (p : CommandPolicy) (s : Snapshot) : Snapshot :=
  {| sn_version := sn_version s; sn_user := sn_user s; sn_work_dir := sn_work_dir s;
     sn_rules := sn_rules s; sn_session_grants := sn_session_grants s;
     sn_command_policy := p; sn_updated_at := sn_updated_at s |}.
Definition with_stamp (v : Z) (now : gotime) (s : Snapshot) : Snapshot :=
  {| sn_version := v; sn_user := sn_user s; sn_work_dir := sn_work_dir s;
     sn_rules := sn_rules s; sn_session_grants := sn_session_grants s;
     sn_command_policy := sn_command_policy s; sn_updated_at := now |}.

Record Request := mkRequest {
  req_path : string;
  req_mode : Mode;
  req_reason : string;
  req_caller : string;
  req_session_id : string;
}.

Definition req_with_path (p : string) (r : Request) : Request :=
  {| req_path := p; req_mode := req_mode r; req_reason := req_reason r;
     req_caller := req_caller r; req_session_id := req_session_id r |}.

Record Decision := mkDecision {
  dec_action : Action;
  dec_reason : string;
  dec_model_reason : string;
}.
#[global] Instance Decision_eq_dec : EqDecision Decision.
Proof. solve_decision. Defined.

Definition allow : Decision := mkDecision ActionAllow "" "".
Definition deny (reason model_reason : string) : Decision :=
  mkDecision ActionDeny reason model_reason.

(** [func (d Decision) Explanation() string] *)
Definition Explanation (d : Decision) : string :=
  if bool_decide (dec_model_reason d = "") then dec_reason d else dec_model_reason d.

Inductive PromptResponse :=
| PromptAllowOnce | PromptAllowSession | PromptAllowPermanent
| PromptDeny | PromptTimeout
| PromptOther (s : string).
#[global] Instance PromptResponse_eq_dec : EqDecision PromptResponse.
Proof. solve_decision. Defined.

(** An answer that lets a request through. *)
Definition is_consent (p : PromptResponse) : bool :=
  match p with
  | PromptAllowOnce | PromptAllowSession | PromptAllowPermanent => true
  | _ => false
  end.

(** The [Notifier] interface: what [Ask] returned, which is a response or an
    infrastructure error. *)
Class Notifier (N : Type) := Ask : N → Request → result PromptResponse.

Inductive NopNotifier := MkNopNotifier.
#[global] Instance NopNotifier_Ask : Notifier NopNotifier := λ _ _, Ok PromptDeny.

Inductive AlwaysAllowNotifier := MkAlwaysAllowNotifier.
#[global] Instance AlwaysAllowNotifier_Ask : Notifier AlwaysAllowNotifier :=
  λ _ _, Ok PromptAllowOnce.
