(* ===== verification/PermStore.v ===== *)
(** pkg/permission/store.go: the rule table behind permissions.json.

    A [Store] is the in-memory snapshot together with the file it is flushed
    to. The file holds a snapshot as a value: the JSON encoding is not part of
    the model, its failures are ([FileCorrupt], [IOMarshal]). Every operation
    takes the instant it runs at and the outcome of its disk write, so the
    theorems cover a full disk as well as a healthy one. *)

From S2P Require Import Prelude GoStrings PermTypes.

Definition CurrentVersion : Z := 1.

Inductive FileState :=
| FileMissing
| FileUnreadable (e : string)
| FileCorrupt (e : string)
| FileHolds (s : Snapshot).

Record Store := mkStore {
  st_path : string;
  st_snap : Snapshot;
  st_disk : FileState;
}.

(** Where [flushLocked] stops. *)
Inductive FlushIO :=
| IOok
| IOmkdir (e : string)
| IOmarshal (e : string)
| IOwrite (e : string)
| IOrename (e : string).

Definition fresh_snapshot (now : gotime) : Snapshot :=
  mkSnapshot CurrentVersion "" "" [] [] (mkCommandPolicy [] []) now.

(** [func LoadStore(path string) (Store, error)] *)
Definition LoadStore (now : gotime) (path : string) (f : FileState) : result Store :=
  match f with
  | FileMissing => Ok (mkStore path (fresh_snapshot now) f)
  | FileUnreadable e => Err ("read permissions store: " +:+ e)
  | FileCorrupt e => Err ("parse permissions store at " +:+ path +:+ ": " +:+ e)
  | FileHolds s =>
      let v := if bool_decide (sn_version s = 0%Z) then CurrentVersion else sn_version s in
      if bool_decide (CurrentVersion < v)%Z
      then Err ("permissions store version " +:+ itoa v +:+ " is newer than supported ("
                +:+ itoa CurrentVersion +:+ ") - please upgrade sandrpod")
      else Ok (mkStore path (with_stamp v (sn_updated_at s) s) f)
  end.

(** [func (s Store) flushLocked() error] *)
Definition flushLocked (now : gotime) (io : FlushIO) (st : Store) : Store * option string :=
  let v := if bool_decide (sn_version (st_snap st) = 0%Z)
           then CurrentVersion else sn_version (st_snap st) in
  let snap := with_stamp v now (st_snap st) in
  let failed e := (mkStore (st_path st) snap (st_disk st), Some e) in
  match io with
  | IOok => (mkStore (st_path st) snap (FileHolds snap), None)
  | IOmkdir e => failed ("create permissions dir: " +:+ e)
  | IOmarshal e => failed ("marshal snapshot: " +:+ e)
  | IOwrite e => failed ("write tmp: " +:+ e)
  | IOrename e => failed ("rename tmp -> final: " +:+ e)
  end.

Definition with_snap (s : Snapshot) (st : Store) : Store :=
  mkStore (st_path st) s (st_disk st).

(** [func unionMode(a, b Mode) Mode] *)
Definition unionMode (a b : Mode) : Mode :=
  if bool_decide (a = ModeDeny) || bool_decide (b = ModeDeny)
  then if bool_decide (a = ModeDeny) then a else b
  else if bool_decide (a = ModeReadWrite) || bool_decide (b = ModeReadWrite)
  then ModeReadWrite
  else if (bool_decide (a = ModeRead) && bool_decide (b = ModeWrite))
          || (bool_decide (a = ModeWrite) && bool_decide (b = ModeRead))
  then ModeReadWrite
  else b.

(** [func upsertRule(rules []Rule, r Rule) []Rule] *)
Fixpoint upsertRule (rules : list Rule) (r : Rule) : list Rule :=
  match rules with
  | [] => [r]
  | existing :: rest =>
      if bool_decide (rule_path existing ≠ rule_path r)
      then existing :: upsertRule rest r
      else if bool_decide (rule_scope existing = ScopeHardlock)
              && bool_decide (rule_scope r ≠ ScopeHardlock)
      then existing :: rest
      else
        let r := if bool_decide (rule_scope existing = ScopePermanent)
                    && bool_decide (rule_scope r = ScopePermanent)
                 then rule_with_mode (unionMode (rule_mode existing) (rule_mode r)) r
                 else r in
        r :: rest
  end.

(** [func cleanRulePath(p string) string] *)
Definition cleanRulePath (p : string) : string :=
  if bool_decide (p = "") then p else clean p.

(** The fields [AddPermanentRule] and [AddSessionRule] fill in. *)
Definition stamp_rule (now : gotime) (scope : RuleScope) (r : Rule) : Rule :=
  {| rule_path := cleanRulePath (rule_path r); rule_mode := rule_mode r;
     rule_scope := scope;
     rule_granted_at :=
       if is_zero_time (rule_granted_at r) then now else rule_granted_at r;
     rule_expires_at := rule_expires_at r; rule_session_id := rule_session_id r;
     rule_note := rule_note r |}.

(** [func (s Store) AddPermanentRule(r Rule) error] *)
Definition AddPermanentRule (now : gotime) (io : FlushIO) (r : Rule) (st : Store)
    : Store * option string :=
  let r := stamp_rule now ScopePermanent r in
  flushLocked now io
    (with_snap (with_rules (upsertRule (sn_rules (st_snap st)) r) (st_snap st)) st).

(** [func (s Store) AddSessionRule(r Rule) error] *)
Definition AddSessionRule (now : gotime) (io : FlushIO) (r : Rule) (st : Store)
    : Store * option string :=
  let r := stamp_rule now ScopeSession r in
  flushLocked now io
    (with_snap (with_session_grants
                  (upsertRule (sn_session_grants (st_snap st)) r) (st_snap st)) st).

Definition hardlock_rule (now : gotime) (path : string) : Rule :=
  mkRule (cleanRulePath path) ModeDeny ScopeHardlock now 0 "" "".

(** [func (s Store) AddHardlock(path string) error] *)
Definition AddHardlock (now : gotime) (io : FlushIO) (path : string) (st : Store)
    : Store * option string :=
  flushLocked now io
    (with_snap (with_rules (upsertRule (sn_rules (st_snap st)) (hardlock_rule now path))
                  (st_snap st)) st).

(** The rules [RemoveRule] keeps. *)
Definition survives_removal (path : string) (removeHardlock : bool) (r : Rule) : bool :=
  if bool_decide (rule_path r = path)
  then bool_decide (rule_scope r = ScopeHardlock) && negb removeHardlock
  else true.

(** [func (s Store) RemoveRule(path string, removeHardlock bool) error] *)
Definition RemoveRule (now : gotime) (io : FlushIO) (path : string)
    (removeHardlock : bool) (st : Store) : Store * option string :=
  flushLocked now io
    (with_snap (with_rules (keep (survives_removal path removeHardlock)
                              (sn_rules (st_snap st))) (st_snap st)) st).

Definition grant_expired (now : gotime) (r : Rule) : bool :=
  negb (is_zero_time (rule_expires_at r)) && after now (rule_expires_at r).

(** [func (s Store) PurgeExpiredSessions(now time.Time, terminated map[string]bool) error];
    [at] is the cut-off the caller passes, [now] the instant of the flush. *)
Definition PurgeExpiredSessions (now : gotime) (io : FlushIO) (at_ : gotime)
    (terminated : string → bool) (st : Store) : Store * option string :=
  let grants := sn_session_grants (st_snap st) in
  let out := keep (λ r, negb (grant_expired at_ r)
                        && negb (terminated (rule_session_id r))) grants in
  if bool_decide (length out = length grants) then (st, None)
  else flushLocked now io (with_snap (with_session_grants out (st_snap st)) st).

(** [func (s Store) SetCommandPolicy(p CommandPolicy) error] *)
Definition SetCommandPolicy (now : gotime) (io : FlushIO) (p : CommandPolicy) (st : Store)
    : Store * option string :=
  flushLocked now io (with_snap (with_command_policy p (st_snap st)) st).

(** [func (s Store) Snapshot() Snapshot]: a copy, so a caller that keeps it
    does not see later changes. *)
Definition Store_Snapshot (st : Store) : Snapshot := st_snap st.

(** ** The store as a transition system *)

Inductive store_op :=
| OpAddPermanent (r : Rule)
| OpAddSession (r : Rule)
| OpAddHardlock (path : string)
| OpRemove (path : string) (removeHardlock : bool)
| OpPurge (at_ : gotime) (terminated : string → bool)
| OpSetCommandPolicy (p : CommandPolicy).

Definition run_op (now : gotime) (io : FlushIO) (op : store_op) (st : Store)
    : Store * option string :=
  match op with
  | OpAddPermanent r => AddPermanentRule now io r st
  | OpAddSession r => AddSessionRule now io r st
  | OpAddHardlock p => AddHardlock now io p st
  | OpRemove p b => RemoveRule now io p b st
  | OpPurge t f => PurgeExpiredSessions now io t f st
  | OpSetCommandPolicy p => SetCommandPolicy now io p st
  end.

(** One operation, at any instant, whatever the disk does. *)
Inductive store_step (ok : store_op → Prop) : Store → Store → Prop :=
| store_step_intro now io op st st' e :
    ok op → run_op now io op st = (st', e) → store_step ok st st'.

(** Every operation but the unlock of one path. *)
Definition not_unlock (path : string) (op : store_op) : Prop :=
  match op with
  | OpRemove p true => p ≠ path
  | _ => True
  end.

Definition hardlocked (path : string) (st : Store) : Prop :=
  ∃ r, r ∈ sn_rules (st_snap st) ∧ rule_path r = path ∧ rule_scope r = ScopeHardlock.

(** No path has two rules, in either table. *)
Definition store_wf (st : Store) : Prop :=
  NoDup (rule_path <$> sn_rules (st_snap st)) ∧
  NoDup (rule_path <$> sn_session_grants (st_snap st)).

(** ** Lemmas on the operations *)

Lemma run_op_rules now io op st :
  sn_rules (st_snap (run_op now io op st).1) =
  match op with
  | OpAddPermanent r => upsertRule (sn_rules (st_snap st)) (stamp_rule now ScopePermanent r)
  | OpAddHardlock p => upsertRule (sn_rules (st_snap st)) (hardlock_rule now p)
  | OpRemove p b => keep (survives_removal p b) (sn_rules (st_snap st))
  | _ => sn_rules (st_snap st)
  end.
Proof. destruct op, io; try done; simpl; unfold PurgeExpiredSessions; by case_bool_decide. Qed.

Lemma run_op_grants now io op st :
  sn_session_grants (st_snap (run_op now io op st).1) =
  match op with
  | OpAddSession r =>
      upsertRule (sn_session_grants (st_snap st)) (stamp_rule now ScopeSession r)
  | OpPurge t f => keep (λ r, negb (grant_expired t r) && negb (f (rule_session_id r)))
                     (sn_session_grants (st_snap st))
  | _ => sn_session_grants (st_snap st)
  end.
Proof.
  destruct op, io; try done; simpl; unfold PurgeExpiredSessions; case_bool_decide as E;
    try done; simpl; symmetry; by apply keep_same_length.
Qed.

Lemma elem_of_upsertRule_inv rules r x :
  x ∈ upsertRule rules r → x ∈ rules ∨
  (rule_path x = rule_path r ∧ rule_scope x = rule_scope r ∧
   rule_session_id x = rule_session_id r ∧ rule_expires_at x = rule_expires_at r).
Proof.
  induction rules as [|y rules IH]; simpl.
  { intros ->%list_elem_of_singleton. by right. }
  repeat case_match; intros [->|Hx]%elem_of_cons; rewrite ?elem_of_cons;
    first [by auto 10 | destruct (IH Hx); auto].
Qed.

(** After a permanent read/write grant some rule for its path lets the granted
    mode through, unless a hardlock or a deny entry holds the path. *)
Lemma upsertRule_grants rules r :
  rule_scope r = ScopePermanent →
  rule_mode r = ModeRead ∨ rule_mode r = ModeWrite ∨ rule_mode r = ModeReadWrite →
  (∀ y, y ∈ rules → rule_path y = rule_path r →
        rule_scope y ≠ ScopeHardlock ∧ (rule_scope y = ScopePermanent → rule_mode y ≠ ModeDeny)) →
  ∃ x, x ∈ upsertRule rules r ∧ rule_path x = rule_path r ∧ rule_scope x = ScopePermanent ∧
       rule_mode x ≠ ModeDeny ∧ Mode_Allows (rule_mode x) (rule_mode r) = true.
Proof.
  intros Hs Hm.
  assert (Mode_Allows (rule_mode r) (rule_mode r) = true ∧ rule_mode r ≠ ModeDeny) as [? ?]
    by (destruct Hm as [->|[->| ->]]; done).
  induction rules as [|y rules IH]; intros Hy; simpl.
  { exists r. split; [set_solver|]. done. }
  case_bool_decide as E.
  - destruct IH as (x & ? & ?); [set_solver|]. exists x. set_solver.
  - destruct (Hy y) as [Hh Hd]; [set_solver|done|].
    rewrite bool_decide_eq_false_2 by done. simpl.
    eexists. split; [by left|]. rewrite Hs, (bool_decide_eq_true_2 (ScopePermanent = _)) by done.
    rewrite andb_true_r. case_bool_decide as Ep; simpl; [|done].
    specialize (Hd Ep). split; [done|]. split; [done|].
    by destruct (rule_mode y), Hm as [->|[->| ->]].
Qed.

Lemma upsertRule_paths rules r p :
  p ∈ rule_path <$> upsertRule rules r ↔ p ∈ rule_path <$> rules ∨ p = rule_path r.
Proof.
  induction rules as [|y rules IH]; simpl; [set_solver|].
  repeat case_bool_decide; simpl; rewrite ?elem_of_cons, ?IH;
    repeat (case_match; simpl); set_solver.
Qed.

Lemma upsertRule_NoDup rules r :
  NoDup (rule_path <$> rules) → NoDup (rule_path <$> upsertRule rules r).
Proof.
  induction rules as [|y rules IH]; simpl; intros H.
  { apply NoDup_singleton. }
  apply NoDup_cons in H as [Hy H]. case_bool_decide as E; simpl.
  - apply NoDup_cons. split; [|auto]. rewrite upsertRule_paths. naive_solver.
  -
    repeat (case_match; simpl); apply NoDup_cons; split; try done; congruence.
Qed.

(** A hardlock survives an upsert: same-path rules of another scope are
    refused, a same-path hardlock replaces it by a hardlock. *)
Lemma upsertRule_hardlock rules r p :
  (∃ x, x ∈ rules ∧ rule_path x = p ∧ rule_scope x = ScopeHardlock) →
  ∃ x, x ∈ upsertRule rules r ∧ rule_path x = p ∧ rule_scope x = ScopeHardlock.
Proof.
  intros (x & Hx & Hp & Hs). induction rules as [|y rules IH]; [set_solver|]. simpl.
  case_bool_decide as E.
  - apply elem_of_cons in Hx as [->|Hx]; [exists y; set_solver|].
    destruct (IH Hx) as (z & ? & ?). exists z. set_solver.
  - apply elem_of_cons in Hx as [<-|Hx].
    + rewrite Hs, bool_decide_eq_true_2 by done. simpl. case_bool_decide as Er; simpl.
      * exists x. set_solver.
      * exists r. split; [set_solver|]. split; congruence.
    + repeat case_match; exists x; set_solver.
Qed.

Lemma hardlock_step path st st' :
  store_step (not_unlock path) st st' → hardlocked path st → hardlocked path st'.
Proof.
  intros [now io op st1 st2 e Hok Hrun] Hh. unfold hardlocked.
  replace st2 with (run_op now io op st1).1 by (by rewrite Hrun).
  rewrite run_op_rules. destruct op; try done; try by apply upsertRule_hardlock.
  destruct Hh as (x & Hx & Hp & Hs). exists x. split; [|done].
  apply elem_of_keep. split; [done|]. unfold survives_removal.
  case_bool_decide; [|done]. rewrite bool_decide_eq_true_2 by done.
  destruct removeHardlock; simpl in *; congruence.
Qed.

Lemma store_wf_step ok st st' : store_step ok st st' → store_wf st → store_wf st'.
Proof.
  intros [now io op st1 st2 e _ Hrun] [H1 H2]. unfold store_wf.
  replace st2 with (run_op now io op st1).1 by (by rewrite Hrun).
  rewrite run_op_rules, run_op_grants.
  split; destruct op; auto using upsertRule_NoDup, keep_NoDup.
Qed.

Lemma run_op_disk now io op st :
  match (run_op now io op st).2 with
  | None => st_disk (run_op now io op st).1 = FileHolds (st_snap (run_op now io op st).1)
            ∨ (run_op now io op st).1 = st
  | Some _ => st_disk (run_op now io op st).1 = st_disk st
  end.
Proof.
  destruct op, io; simpl; try (by left); try done;
    unfold PurgeExpiredSessions; case_bool_decide; simpl; auto.
Qed.

(** ** Properties *)

(** C31: an operator's hardlock is permanent. Whatever sequence of grants,
    removals, purges and policy changes runs on the store, and whatever the
    disk does at each flush, a hardlocked path stays hardlocked until an
    unlock ([RemoveRule] with [removeHardlock]) names exactly that path. *)
Theorem hardlock_persists (path : string) (st st' : Store) :
  rtc (store_step (not_unlock path)) st st' → hardlocked path st → hardlocked path st'.
Proof. induction 1; eauto using hardlock_step. Qed.

Definition demo_store : Store :=
  mkStore "/p" (with_rules [hardlock_rule 1 "~/.ssh"] (fresh_snapshot 1)) FileMissing.
Definition demo_grant (path session : string) (m : Mode) : Rule :=
  mkRule path m ScopePermanent 0 0 session "".

Lemma hardlock_persists_witness :
  ∃ st', rtc (store_step (not_unlock "~/.ssh")) demo_store st' ∧ hardlocked "~/.ssh" st'.
Proof.
  set (st1 := (run_op 2 IOok (OpAddPermanent (demo_grant "~/.ssh/" "" ModeRead)) demo_store).1).
  set (st2 := (run_op 3 (IOwrite "full") (OpRemove "~/.ssh" false) st1).1).
  assert (Hsteps : rtc (store_step (not_unlock "~/.ssh")) demo_store st2).
  { eapply rtc_l; [by apply (store_step_intro _ 2 IOok
      (OpAddPermanent (demo_grant "~/.ssh/" "" ModeRead)) demo_store st1 None)|].
    apply rtc_once. by apply (store_step_intro _ 3 (IOwrite "full")
      (OpRemove "~/.ssh" false) st1 st2 (Some "write tmp: full")). }
  exists st2. split; [exact Hsteps|].
  apply (hardlock_persists "~/.ssh" demo_store st2 Hsteps).
  exists (hardlock_rule 1 "~/.ssh"). repeat split. by left.
Defined.

Lemma upsertRule_replaces rules r x :
  NoDup (rule_path <$> rules) → (∀ y, y ∈ rules → rule_scope y ≠ ScopeHardlock) →
  x ∈ upsertRule rules r → rule_path x = rule_path r →
  rule_session_id x = rule_session_id r.
Proof.
  intros Hnd Hnh Hx Hp. induction rules as [|y rules IH]; simpl in Hx.
  { by apply list_elem_of_singleton in Hx as ->. }
  apply NoDup_cons in Hnd as [Hy Hnd].
  case_bool_decide as E.
  - apply elem_of_cons in Hx as [->|Hx]; [congruence|]. apply IH; set_solver.
  - rewrite bool_decide_eq_false_2 in Hx by (apply Hnh; set_solver). simpl in Hx.
    apply elem_of_cons in Hx as [->|Hx].
    + by case_match.
    + exfalso. apply Hy. rewrite E, <- Hp. by apply list_elem_of_fmap_2.
Qed.

(** the two rule tables hold at most one rule per path, and every
    operation of the store keeps it that way, starting from the fresh snapshot
    [LoadStore] creates when the file does not exist. *)
Theorem store_wf_reachable (now : gotime) (path : string) (st0 st : Store) :
  LoadStore now path FileMissing = Ok st0 →
  rtc (store_step (λ _, True)) st0 st → store_wf st.
Proof.
  intros [= <-] H. remember (mkStore path (fresh_snapshot now) FileMissing) as st0 eqn:E.
  assert (store_wf st0) as Hwf by (subst; split; apply NoDup_nil_2).
  clear E. induction H; eauto using store_wf_step.
Qed.

(** durability. When an operation reports success the file holds exactly
    the snapshot in memory and loading it gives the same store back (or the
    operation changed nothing); when it reports an error the file is what it
    was before, never a truncated one. *)
Theorem run_op_durable (now now' : gotime) (io : FlushIO) (op : store_op) (st st' : Store)
    (e : option string) :
  (sn_version (st_snap st) = 0 ∨ sn_version (st_snap st) = CurrentVersion)%Z →
  run_op now io op st = (st', e) →
  match e with
  | None => st' = st ∨ LoadStore now' (st_path st') (st_disk st') = Ok st'
  | Some _ => st_disk st' = st_disk st
  end.
Proof.
  intros Hv Hrun.
  pose proof (run_op_disk now io op st) as Hd. rewrite Hrun in Hd. simpl in Hd.
  destruct e as [e|]; [done|]. destruct Hd as [Hd|]; [|by left].
  assert (st' = st ∨ sn_version (st_snap st') = CurrentVersion) as [->|Hv'].
  { replace st' with (run_op now io op st).1 by (by rewrite Hrun).
    destruct op, io; simpl in *; try unfold PurgeExpiredSessions;
      repeat case_bool_decide; simpl; repeat case_bool_decide; simpl; auto;
      try (right; destruct Hv; congruence); congruence. }
  { by left. }
  right. unfold LoadStore. rewrite Hd, Hv'. simpl. f_equal.
  destruct st' as [p s d]; simpl in *. subst d. f_equal.
  destruct s; simpl in *. by subst.
Qed.

Definition permissive (m : Mode) : Prop :=
  m = ModeRead ∨ m = ModeWrite ∨ m = ModeReadWrite.

(** Re-granting a path widens the grant and nothing more. The union of
    two read/write modes lets exactly those reads and writes through that one
    of the two lets through, and a deny entry is never widened. *)
Theorem unionMode_join (a b requested : Mode) :
  permissive a → permissive b → requested = ModeRead ∨ requested = ModeWrite →
  Mode_Allows (unionMode a b) requested = Mode_Allows a requested || Mode_Allows b requested
  ∧ unionMode a ModeDeny = ModeDeny ∧ unionMode ModeDeny b = ModeDeny.
Proof. intros [->|[->| ->]] [->|[->| ->]] [-> | ->]; done. Qed.

(** A session grant replaces the grant of any other session on the same
    path, because the table is keyed by path alone: once session B has been
    allowed a path, the consent session A had been given for it is gone. *)
Theorem session_grant_clobbered (now : gotime) (io : FlushIO) (r : Rule) (st : Store)
    (g : Rule) :
  store_wf st →
  (∀ y, y ∈ sn_session_grants (st_snap st) → rule_scope y = ScopeSession) →
  g ∈ sn_session_grants (st_snap (AddSessionRule now io r st).1) →
  rule_path g = cleanRulePath (rule_path r) →
  rule_session_id g = rule_session_id r.
Proof.
  intros [_ Hnd] Hscope Hg Hp.
  pose proof (run_op_grants now io (OpAddSession r) st) as Heq. simpl in Heq.
  rewrite Heq in Hg.
  change (rule_session_id r) with (rule_session_id (stamp_rule now ScopeSession r)).
  eapply upsertRule_replaces; [exact Hnd| |exact Hg|done].
  intros y Hy. by rewrite Hscope.
Qed.

Definition session_store : Store :=
  (AddSessionRule 1 IOok (demo_grant "/w/f" "A" ModeRead)
     (mkStore "/p" (fresh_snapshot 1) FileMissing)).1.

Lemma session_grant_clobbered_witness :
  (∃ g, g ∈ sn_session_grants (st_snap session_store) ∧ rule_session_id g = "A") ∧
  ∀ g, g ∈ sn_session_grants (st_snap
         (AddSessionRule 2 IOok (demo_grant "/w/f" "B" ModeRead) session_store).1) →
       rule_path g = "/w/f" → rule_session_id g = "B".
Proof.
  split.
  { eexists. split; [by left|reflexivity]. }
  intros g Hg Hp.
  apply (session_grant_clobbered 2 IOok (demo_grant "/w/f" "B" ModeRead) session_store g);
    [split; simpl; [apply NoDup_nil_2|apply NoDup_singleton]| |exact Hg|exact Hp].
  intros y Hy. by apply list_elem_of_singleton in Hy as ->.
Defined.
