(* ===== verification/PermCommand.v ===== *)
(** pkg/permission/policy.go and seeds.go: the command deny/warn lists and the
    first-run seeds. *)

From S2P Require Import Prelude GoStrings PermTypes PermStore.

Inductive HitAction := HitDeny | HitWarn.

Record CommandHit := mkHit {
  hit_token : string;
  hit_command : string;
  hit_action : HitAction;
}.

(** The separators of [tokenize]: white space, shell punctuation, quotes. *)
Definition seps : string :=
  String " "%char (String (Ascii.ascii_of_nat 9) (String (Ascii.ascii_of_nat 13)
    (String newline ";|&<>()`"))) +:+ String dquote "'".
Definition is_sep (c : char) : bool := mem_char c seps.

Definition flush (cur : string) : list string :=
  if bool_decide (cur = "") then [] else [cur].

Fixpoint tokenize_from (code cur : string) : list string :=
  match code with
  | EmptyString => flush cur
  | String c code =>
      if is_sep c then flush cur ++ tokenize_from code ""
      else tokenize_from code (cur +:+ str1 c)
  end.

(** [func tokenize(code string) []string] *)
Definition tokenize (code : string) : list string := tokenize_from code "".

(** [func normalizeCommandName(s string) string] *)
Definition normalizeCommandName (os : GOOS) (s : string) : string :=
  let s := trim_prefix s (String "."%char (str1 backslash)) in
  let s := trim_prefix s "./" in
  let s := if has_suffix (to_lower s) ".exe" then take_str (String.length s - 4) s else s in
  if bool_decide (os = Windows) then to_lower s else s.

(** The name a token is looked up under. *)
Definition token_name (os : GOOS) (tok : string) : string :=
  normalizeCommandName os (base tok).

Definition listed (os : GOOS) (entries : list string) (name : string) : bool :=
  bool_decide (name ∈ normalizeCommandName os <$> entries).

Fixpoint scan_tokens (os : GOOS) (p : CommandPolicy) (toks : list string)
    (warns : list CommandHit) : list CommandHit * option CommandHit * bool :=
  match toks with
  | [] => (warns, None, false)
  | tok :: toks =>
      let name := token_name os tok in
      if listed os (cp_deny p) name then (warns, Some (mkHit tok name HitDeny), true)
      else if listed os (cp_warn p) name
      then scan_tokens os p toks (warns ++ [mkHit tok name HitWarn])
      else scan_tokens os p toks warns
  end.

(** [func CheckCommandPolicy(policy CommandPolicy, code string) (warns, deny, hasDeny)] *)
Definition CheckCommandPolicy (os : GOOS) (p : CommandPolicy) (code : string)
    : list CommandHit * option CommandHit * bool :=
  if bool_decide (code = "") then ([], None, false)
  else match tokenize code with
       | [] => ([], None, false)
       | toks => scan_tokens os p toks []
       end.

(** [func DefaultCommandPolicy() CommandPolicy] *)
Definition DefaultCommandPolicy : CommandPolicy :=
  mkCommandPolicy
    ["scp"; "rsync"; "sftp"; "nc"; "ncat"; "socat"; "ssh-keygen"; "ssh-add";
     "launchctl"; "crontab"; "schtasks"; "systemctl"; "sudo"; "doas"; "su";
     "diskutil"; "dd"; "mkfs"; "sandrpod-tray"]
    ["curl"; "wget"; "osascript"].

(** [func SeedCommandPolicyIfEmpty(store Store) (added bool, err error)] *)
Definition SeedCommandPolicyIfEmpty (now : gotime) (io : FlushIO) (st : Store)
    : Store * bool * option string :=
  let cp := sn_command_policy (Store_Snapshot st) in
  if bool_decide (cp_deny cp ≠ []) || bool_decide (cp_warn cp ≠ [])
  then (st, false, None)
  else match SetCommandPolicy now io DefaultCommandPolicy st with
       | (st', Some e) => (st', false, Some e)
       | (st', None) => (st', true, None)
       end.

Definition common_seeds : list string :=
  ["~/.ssh"; "~/.aws"; "~/.gnupg"; "~/.kube"; "~/.config/gh"; "~/.docker";
   "~/.sandrpod/permissions.json"; "~/.sandrpod/mcp_grants.json";
   "~/.sandrpod/audit"; "~/.sandrpod/oauth"].

Definition os_seeds (os : GOOS) : list string :=
  match os with
  | Darwin =>
      ["~/Library/Keychains"; "~/Library/Application Support/Google/Chrome";
       "~/Library/Application Support/Firefox";
       "~/Library/Application Support/com.apple.sharedfilelist";
       "~/Library/Mail"; "~/Library/Messages"; "~/Library/Cookies"]
  | Linux =>
      ["~/.mozilla"; "~/.config/google-chrome"; "~/.config/chromium";
       "~/.local/share/keyrings"; "~/.thunderbird"]
  | Windows =>
      ["~/AppData/Roaming/Microsoft/Crypto"; "~/AppData/Local/Google/Chrome";
       "~/AppData/Local/Microsoft/Edge"]
  end.

Definition seed_rule (now : gotime) (note path : string) : Rule :=
  mkRule path ModeDeny ScopeHardlock now 0 "" note.

(** [func DefaultHardlockSeeds() []Rule] *)
Definition DefaultHardlockSeeds (os : GOOS) (now : gotime) : list Rule :=
  (seed_rule now "default seed: authentication material" <$> common_seeds)
  ++ (seed_rule now "default seed: personal data (OS-specific)" <$> os_seeds os).

(** The loop of [SeedHardlocksIfEmpty]: [io] is the outcome of the flush of
    each seed; a failed one is skipped in the count and the loop goes on. *)
Fixpoint seed_loop (now : gotime) (io : string → FlushIO) (rs : list Rule) (st : Store)
    (added : Z) : Store * Z :=
  match rs with
  | [] => (st, added)
  | r :: rs =>
      match AddHardlock now (io (rule_path r)) (rule_path r) st with
      | (st', Some _) => seed_loop now io rs st' added
      | (st', None) => seed_loop now io rs st' (added + 1)%Z
      end
  end.

(** [func SeedHardlocksIfEmpty(store Store) (int, error)] *)
Definition SeedHardlocksIfEmpty (os : GOOS) (now : gotime) (io : string → FlushIO)
    (st : Store) : Store * Z * option string :=
  if bool_decide (sn_rules (Store_Snapshot st) ≠ []) then (st, 0%Z, None)
  else let '(st', n) := seed_loop now io (DefaultHardlockSeeds os now) st 0 in (st', n, None).

(** ** Lemmas *)

#[local] Arguments String.append : simpl nomatch.

Fixpoint all_chars (p : char → bool) (s : string) : bool :=
  match s with
  | EmptyString => true
  | String c s => p c && all_chars p s
  end.
Definition is_word (s : string) : Prop :=
  s ≠ "" ∧ all_chars (λ c, negb (is_sep c)) s = true.

Lemma all_chars_app p a b : all_chars p (a +:+ b) = all_chars p a && all_chars p b.
Proof. induction a as [|c a IH]; [done|]. simpl. by rewrite IH, andb_assoc. Qed.

Lemma elem_of_flush cur t : t ∈ flush cur ↔ t = cur ∧ cur ≠ "".
Proof. unfold flush. case_bool_decide; set_solver. Qed.

Lemma tokenize_from_word w s cur rest :
  all_chars (λ c, negb (is_sep c)) w = true → is_sep s = true → cur +:+ w ≠ "" →
  cur +:+ w ∈ tokenize_from (w +:+ String s rest) cur.
Proof.
  revert cur; induction w as [|c w IH]; intros cur Hw Hs Hne; simpl in *.
  - rewrite Hs, app_nil_r_str in *. apply elem_of_app. left. by apply elem_of_flush.
  - apply andb_true_iff in Hw as [Hc Hw]. apply negb_true_iff in Hc. rewrite Hc.
    replace (cur +:+ String c w) with ((cur +:+ str1 c) +:+ w) by (by rewrite app_assoc_str).
    apply IH; [done|done|]. rewrite app_assoc_str. by destruct cur.
Qed.

Lemma tokenize_from_sep a s rest cur t :
  is_sep s = true → t ∈ tokenize_from rest "" → t ∈ tokenize_from (a +:+ String s rest) cur.
Proof.
  intros Hs Ht. revert cur; induction a as [|c a IH]; intros cur; simpl.
  - rewrite Hs. apply elem_of_app. by right.
  - destruct (is_sep c); [apply elem_of_app; right|]; apply IH.
Qed.

Definition is_warn (os : GOOS) (p : CommandPolicy) (tok : string) : bool :=
  listed os (cp_warn p) (token_name os tok).
Definition is_deny (os : GOOS) (p : CommandPolicy) (tok : string) : bool :=
  listed os (cp_deny p) (token_name os tok).
Definition warn_hit (os : GOOS) (tok : string) : CommandHit :=
  mkHit tok (token_name os tok) HitWarn.

Lemma scan_tokens_spec os p toks warns :
  scan_tokens os p toks warns =
  match find_first (is_deny os p) toks with
  | Some tok => ((scan_tokens os p toks warns).1.1,
                 Some (mkHit tok (token_name os tok) HitDeny), true)
  | None => (warns ++ (warn_hit os <$> keep (is_warn os p) toks), None, false)
  end.
Proof.
  revert warns; induction toks as [|t toks IH]; intros warns; simpl.
  { by rewrite app_nil_r. }
  unfold is_deny at 1. destruct (listed os (cp_deny p) _); [done|].
  unfold is_warn at 1. destruct (listed os (cp_warn p) _); rewrite IH;
    destruct (find_first _ _); simpl; rewrite <- ?app_assoc; done.
Qed.

Lemma CheckCommandPolicy_deny os p code :
  (CheckCommandPolicy os p code).2 = true ↔ ∃ t, t ∈ tokenize code ∧ is_deny os p t = true.
Proof.
  assert ((CheckCommandPolicy os p code).2 = isSome (find_first (is_deny os p) (tokenize code)))
    as ->.
  { unfold CheckCommandPolicy. case_bool_decide; [by subst|].
    destruct (tokenize code) as [|t l] eqn:E; [done|].
    rewrite scan_tokens_spec. by destruct (find_first _ _). }
  destruct (find_first _ _) as [t|] eqn:E; simpl; split; try done.
  - apply find_first_Some in E. eauto.
  - intros (t & Ht & Hd). rewrite find_first_None in E. by rewrite E in Hd.
Qed.

Lemma AddHardlock_locks now io path p st :
  hardlocked p st ∨ cleanRulePath path = p → hardlocked p (AddHardlock now io path st).1.
Proof.
  intros H. unfold hardlocked.
  pose proof (run_op_rules now io (OpAddHardlock path) st) as E. simpl in E. rewrite E.
  destruct H as [H| <-]; [by apply upsertRule_hardlock|].
  generalize (sn_rules (st_snap st)) as rules. intros rules.
  destruct (decide (Exists (λ x, rule_path x = cleanRulePath path) rules)) as [Hex|Hex].
  - clear E. induction rules as [|y rules IH]; [by apply Exists_nil in Hex|]. simpl.
    case_bool_decide as Ey.
    + apply Exists_cons in Hex as [?|Hex]; [done|].
      destruct (IH Hex) as (x & ? & ?). exists x. set_solver.
    + simpl. repeat case_match; simpl_bool; try done;
        eexists; (split; [by left|]); done.
  - assert (upsertRule rules (hardlock_rule now path) = rules ++ [hardlock_rule now path]) as ->.
    { clear E. induction rules as [|y rules IH]; [done|]. simpl.
      rewrite bool_decide_eq_true_2; [|intros ?; apply Hex; by left].
      f_equal. apply IH. intros ?. apply Hex. by right. }
    exists (hardlock_rule now path). set_solver.
Qed.

Lemma seed_loop_locks now io rs st n p :
  hardlocked p st ∨ p ∈ cleanRulePath ∘ rule_path <$> rs →
  hardlocked p (seed_loop now io rs st n).1.
Proof.
  revert st n; induction rs as [|r rs IH]; intros st n H; simpl.
  { set_solver. }
  pose proof (AddHardlock_locks now (io (rule_path r)) (rule_path r) p st) as Hl.
  destruct (AddHardlock _ _ _ _) as [st' [e|]]; apply IH; simpl in *; set_solver.
Qed.

Lemma scan_tokens_first os p l1 t l2 warns :
  (∀ x, x ∈ l1 → is_deny os p x = false) → is_deny os p t = true →
  scan_tokens os p (l1 ++ t :: l2) warns =
  (warns ++ (warn_hit os <$> keep (is_warn os p) l1),
   Some (mkHit t (token_name os t) HitDeny), true).
Proof.
  intros Hl1 Ht. revert warns; induction l1 as [|x l1 IH]; intros warns; simpl.
  { unfold is_deny in Ht. by rewrite Ht, app_nil_r. }
  assert (is_deny os p x = false) as Hx by (apply Hl1; set_solver).
  unfold is_deny in Hx. rewrite Hx. unfold is_warn at 1.
  destruct (listed os (cp_warn p) _); rewrite IH by set_solver; simpl;
    rewrite <- ?app_assoc; done.
Qed.

(** ** Properties *)

(** the command gate blocks on the first denied token and on nothing
    else. A scan that ends in a denial names a token of the code whose
    normalised base name is on the deny list, no token before it is denied,
    and the warnings it returns are the warn-listed tokens before it, in
    order; a scan without a denial has looked at every token. *)
Theorem CheckCommandPolicy_first_denial (os : GOOS) (p : CommandPolicy) (code : string) :
  match CheckCommandPolicy os p code with
  | (warns, Some h, has) =>
      has = true ∧ hit_action h = HitDeny ∧ is_deny os p (hit_token h) = true ∧
      ∃ l1 l2, tokenize code = l1 ++ hit_token h :: l2 ∧
               (∀ x, x ∈ l1 → is_deny os p x = false) ∧
               warns = warn_hit os <$> keep (is_warn os p) l1
  | (warns, None, has) =>
      has = false ∧ (∀ x, x ∈ tokenize code → is_deny os p x = false) ∧
      warns = warn_hit os <$> keep (is_warn os p) (tokenize code)
  end.
Proof.
  assert (Hscan : CheckCommandPolicy os p code = scan_tokens os p (tokenize code) []).
  { unfold CheckCommandPolicy. case_bool_decide; [by subst|].
    by destruct (tokenize code). }
  rewrite Hscan. destruct (find_first (is_deny os p) (tokenize code)) as [t|] eqn:E.
  - apply find_first_split in E as (Ht & l1 & l2 & -> & Hl1).
    rewrite scan_tokens_first by done. simpl. eauto 10.
  - rewrite scan_tokens_spec, E. by rewrite find_first_None in E.
Qed.

(** quoting and punctuation do not hide a command from the gate. A word
    whose name is on the deny list blocks the submission wherever it stands
    between two separators (spaces, quotes, pipes, redirections, ...), so
    writing it in quotes changes nothing. *)
Theorem denied_word_blocks (os : GOOS) (p : CommandPolicy) (pre w post name : string)
    (s1 s2 : char) :
  is_sep s1 = true → is_sep s2 = true → is_word w →
  name ∈ cp_deny p → token_name os w = normalizeCommandName os name →
  (CheckCommandPolicy os p (pre +:+ String s1 (w +:+ String s2 post))).2 = true.
Proof.
  intros Hs1 Hs2 [Hne Hw] Hin Hname. apply CheckCommandPolicy_deny. exists w. split.
  - apply tokenize_from_sep; [done|]. by apply (tokenize_from_word w s2 "").
  - apply bool_decide_eq_true. rewrite Hname. by apply list_elem_of_fmap_2.
Qed.

(** First-run protection does not depend on the disk. Seeding a store
    without rules hardlocks every default path of the platform in memory, even
    when some (or all) of the flushes fail. *)
Theorem seeds_all_locked (os : GOOS) (now : gotime) (io : string → FlushIO) (st : Store)
    (p : string) :
  sn_rules (st_snap st) = [] → p ∈ common_seeds ++ os_seeds os →
  hardlocked p (SeedHardlocksIfEmpty os now io st).1.1.
Proof.
  intros Hst Hp. unfold SeedHardlocksIfEmpty, Store_Snapshot.
  rewrite Hst, bool_decide_eq_false_2 by (intros H; by apply H).
  pose proof (seed_loop_locks now io (DefaultHardlockSeeds os now) st 0 p) as H.
  destruct (seed_loop _ _ _ _ _) as [st' n]. apply H. right.
  assert (cleanRulePath ∘ rule_path <$> DefaultHardlockSeeds os now
          = common_seeds ++ os_seeds os) as ->; [|done].
  destruct os; vm_compute; reflexivity.
Qed.
