(* ===== verification/PermManager.v ===== *)
(** pkg/permission/manager.go and mandatory.go: the decision engine of the
    permission gate.

    What the Go code asks the operating system is the record [OSView]; what it
    changes is the record [world] (the rule store, the audit rows emitted, the
    prompts shown); the instants a call reads the clock at and the outcome of
    its disk write are the record [call_env]. *)

From S2P Require Import Prelude GoStrings GoPaths PermTypes PermStore PermCommand.

Record OSView := mkOS {
  os_goos : GOOS;
  os_eval_symlinks : string → option string;
  os_getwd : result string;
  os_user_home : string;
  os_lstat_regular : string → bool;
}.

(** ** Paths *)

Definition caseInsensitiveFS (os : OSView) : bool :=
  bool_decide (os_goos os = Darwin) || bool_decide (os_goos os = Windows).

(** [func pathInside(child, parent string) bool] *)
Definition pathInside (os : OSView) (child parent : string) : bool :=
  if bool_decide (parent = "") then false
  else
    let child := if caseInsensitiveFS os then to_lower child else child in
    let parent := if caseInsensitiveFS os then to_lower parent else parent in
    if bool_decide (child = parent) then true
    else has_prefix child (parent +:+ "/").

(** [func expandTilde(p, home string) string] *)
Definition expandTilde (p home : string) : string :=
  if bool_decide (home = "") || negb (has_prefix p "~") then p
  else if bool_decide (p = "~") then home
  else if has_prefix p "~/" then join2 home (drop_str 2 p)
  else p.

(** [func resolveAncestors(p string) string], by fuel: one unit per ancestor. *)
Fixpoint resolve_fuel (os : OSView) (fuel : nat) (p : string) : string :=
  match os_eval_symlinks os p with
  | Some resolved => resolved
  | None =>
      let parent := dir p in
      if bool_decide (parent = p) then p
      else match fuel with
           | O => p
           | S fuel => join2 (resolve_fuel os fuel parent) (base p)
           end
  end.
Definition resolveAncestors (os : OSView) (p : string) : string :=
  resolve_fuel os (String.length p) p.

(** [filepath.Abs]. *)
Definition abs (os : OSView) (p : string) : result string :=
  if is_abs p then Ok (clean p)
  else match os_getwd os with
       | Ok wd => Ok (join2 wd p)
       | Err e => Err e
       end.

(** [func canonicalize(p string) (string, error)] *)
Definition canonicalize (os : OSView) (p : string) : result string :=
  if bool_decide (p = "") then Ok ""
  else let! a := abs os p in Ok (resolveAncestors os (clean a)).

(** [func ruleAbsPath(p, home string) string] *)
Definition ruleAbsPath (os : OSView) (p home : string) : string :=
  let expanded := expandTilde p home in
  if negb (is_abs expanded) then expanded
  else match canonicalize os expanded with
       | Ok c => if bool_decide (c = "") then clean expanded else c
       | Err _ => clean expanded
       end.

(** ** Mandatory deny *)

Definition dangerousFiles : list string :=
  [".bashrc"; ".bash_profile"; ".bash_login"; ".zshrc"; ".zprofile"; ".zshenv";
   ".profile"; ".gitconfig"; ".gitmodules"; ".ripgreprc"; ".mcp.json"].
Definition dangerousDirs : list string :=
  [".vscode"; ".idea"; ".claude/commands"; ".claude/agents"; ".git/hooks"].
Definition dangerousFilesInGit : list string := [".git/config"].

(** [func IsMandatoryDenied(path string) bool] *)
Definition IsMandatoryDenied (os : OSView) (path : string) : bool :=
  if bool_decide (path = "") then false
  else
    let c := clean path in
    let b := base c in
    if any (equal_fold b) dangerousFiles then true
    else if any (λ d, has_suffix c ("/" +:+ d) || contains c ("/" +:+ d +:+ "/"))
              dangerousDirs then true
    else if equal_fold b ".git" && os_lstat_regular os c then true
    else any (λ f, has_suffix c ("/" +:+ f)) dangerousFilesInGit.

(** ** Matching rules *)

(** [func matchHardlock(path string, rules []Rule, home string) *Rule] *)
Definition matchHardlock (os : OSView) (path : string) (rules : list Rule) (home : string)
    : option Rule :=
  find_first (λ r, bool_decide (rule_scope r = ScopeHardlock)
                   && pathInside os path (ruleAbsPath os (rule_path r) home)) rules.

(** [func HardlocksUnder(dir string, rules []Rule, home string) []string] *)
Definition HardlocksUnder (os : OSView) (d : string) (rules : list Rule) (home : string)
    : list string :=
  match canonicalize os d with
  | Err _ => []
  | Ok root =>
      if bool_decide (root = "") then []
      else
        let home := if bool_decide (home = "") then os_user_home os else home in
        rule_path <$> keep (λ r, bool_decide (rule_scope r = ScopeHardlock)
                            && pathInside os (ruleAbsPath os (rule_path r) home) root) rules
  end.

(** [func matchAllow(req Request, rules []Rule, home string) bool] *)
Definition matchAllow (os : OSView) (req : Request) (rules : list Rule) (home : string) : bool :=
  any (λ r, bool_decide (rule_scope r = ScopePermanent)
            && negb (bool_decide (rule_mode r = ModeDeny))
            && Mode_Allows (rule_mode r) (req_mode req)
            && pathInside os (req_path req) (ruleAbsPath os (rule_path r) home)) rules.

(** [func matchSessionAllow(req Request, grants []Rule, home string, now time.Time) bool] *)
Definition matchSessionAllow (os : OSView) (req : Request) (grants : list Rule)
    (home : string) (now : gotime) : bool :=
  any (λ r, negb (grant_expired now r)
            && negb (bool_decide (rule_session_id r ≠ "")
                     && bool_decide (rule_session_id r ≠ req_session_id req))
            && Mode_Allows (rule_mode r) (req_mode req)
            && pathInside os (req_path req) (ruleAbsPath os (rule_path r) home)) grants.

(** ** The manager *)

Record Manager (N : Type) := mkManager {
  m_notifier : N;
  m_work_dir : string;
  m_home_dir : string;
}.
Arguments mkManager {N}.
Arguments m_notifier {N}.
Arguments m_work_dir {N}.
Arguments m_home_dir {N}.

(** [func NewManager(opts Options) (Manager, error)]; a store or a notifier
    that is nil is [None]. *)
Definition NewManager {N} (os : OSView) (store : option Store) (notifier : option N)
    (workDir homeDir : string) : result (Manager N * Store) :=
  match store, notifier with
  | None, _ => Err "permission.NewManager: Store is required"
  | _, None => Err "permission.NewManager: Notifier is required (pass NopNotifier for fail-close)"
  | Some st, Some n =>
      let! wd := wrap_err "permission.NewManager: bad work_dir: " (canonicalize os workDir) in
      let hd := if bool_decide (homeDir = "") then os_user_home os else homeDir in
      Ok (mkManager n wd hd, st)
  end.

Record AuditRow := mkRow {
  au_source : string;
  au_decision : string;
  au_path : string;
  au_mode : option Mode;
  au_caller : string;
  au_session : string;
  au_reason : string;
  au_model_reason : string;
  au_command : string;
}.

Record world := mkWorld {
  w_store : Store;
  w_audit : list AuditRow;
  w_asked : list Request;
}.
Definition w_with_store (st : Store) (w : world) : world :=
  mkWorld st (w_audit w) (w_asked w).
Definition w_emit (r : AuditRow) (w : world) : world :=
  mkWorld (w_store w) (w_audit w ++ [r]) (w_asked w).
Definition w_ask (r : Request) (w : world) : world :=
  mkWorld (w_store w) (w_audit w) (w_asked w ++ [r]).

(** The clock readings of one call ([t_first] before the lock, [t_locked] once
    it is held, [t_answer] after the prompt) and the outcome of its flush. *)
Record call_env := mkEnv {
  t_first : gotime;
  t_locked : gotime;
  t_answer : gotime;
  env_io : FlushIO;
}.

Definition action_string (a : Action) : string :=
  match a with ActionAllow => "allow" | ActionDeny => "deny" | ActionAsk => "ask" end.

(** [func (m *Manager) recordDecision(source string, dec Decision, req Request)] *)
Definition recordDecision (source : string) (dec : Decision) (req : Request) (w : world) : world :=
  w_emit (mkRow source (action_string (dec_action dec)) (req_path req) (Some (req_mode req))
            (req_caller req) (req_session_id req) (dec_reason dec) (dec_model_reason dec) "") w.

Definition hardlock_denial (p : string) : Decision :=
  deny ("path " +:+ quote p +:+ " is hard-locked (use `sandrpod-tray unlock` to enable)")
    (p +:+ " is hard-locked by the operator's policy and cannot be read or written; do not retry, and ask the user to unlock it in the tray if this is genuinely needed").
Definition mandatory_denial (p : string) : Decision :=
  deny ("path " +:+ quote p +:+ " is protected: agent-writable persistence (git hooks/config, shell startup, MCP config, IDE launch config) is denied even inside the work tree")
    (p +:+ " is write-protected: git hooks, shell startup files, MCP config and IDE launch config cannot be modified by the agent even inside the work tree. Write somewhere else, or ask the user to make the change").

Definition session_ttl : Z := 8 * ns_hour.

Definition session_rule (now : gotime) (req : Request) : Rule :=
  mkRule (req_path req) (req_mode req) ScopeSession 0 (now + session_ttl)
    (req_session_id req) "".
Definition permanent_rule (req : Request) : Rule :=
  mkRule (req_path req) (req_mode req) ScopePermanent 0 0 "" "".

Section Manager.
  Context {N : Type} `{Notifier N}.
  Variable os : OSView.
  Variable m : Manager N.

(** Steps 1 to 5 of [checkBody], on a request whose path is canonical. *)
Definition quick_decision (snap : Snapshot) (now : gotime) (req : Request) : option Decision :=
  match matchHardlock os (req_path req) (sn_rules snap) (m_home_dir m) with
  | Some _ => Some (hardlock_denial (req_path req))
  | None =>
      if bool_decide (req_mode req ≠ ModeRead) && IsMandatoryDenied os (req_path req)
      then Some (mandatory_denial (req_path req))
      else if bool_decide (m_work_dir m ≠ "") && pathInside os (req_path req) (m_work_dir m)
      then Some allow
      else if matchAllow os req (sn_rules snap) (m_home_dir m) then Some allow
      else if matchSessionAllow os req (sn_session_grants snap) (m_home_dir m) now
      then Some allow
      else None
  end.

(** [func (m *Manager) askAndPersist(ctx, req Request) Decision] *)
Definition askAndPersist (env : call_env) (req : Request) (w : world) : Decision * world :=
  let snap := Store_Snapshot (w_store w) in
  if matchAllow os req (sn_rules snap) (m_home_dir m)
     || matchSessionAllow os req (sn_session_grants snap) (m_home_dir m) (t_locked env)
  then (allow, w)
  else
    let w := w_ask req w in
    match Ask (m_notifier m) req with
    | Err e => (deny ("permission prompt failed: " +:+ e) "", w)
    | Ok PromptAllowOnce => (allow, w)
    | Ok PromptAllowSession =>
        if bool_decide (req_session_id req = "") then (allow, w)
        else (allow, w_with_store (AddSessionRule (t_answer env) (env_io env)
                                     (session_rule (t_answer env) req) (w_store w)).1 w)
    | Ok PromptAllowPermanent =>
        (allow, w_with_store (AddPermanentRule (t_answer env) (env_io env)
                                (permanent_rule req) (w_store w)).1 w)
    | Ok PromptDeny =>
        (deny "denied by user" (req_path req +:+ " was refused by the user; do not retry it, and choose another approach"), w)
    | Ok PromptTimeout =>
        (deny "permission prompt timed out (fail-close)" ("nobody answered the consent prompt for " +:+ req_path req +:+ " in time, so the request was refused; the user may be away"), w)
    | Ok (PromptOther s) =>
        (deny ("unknown prompt response " +:+ quote s) "the consent prompt returned an unusable answer, so the request was refused", w)
    end.

(** The request as [checkBody] evaluates it. *)
Definition canonical_request (req : Request) : Request :=
  match canonicalize os (req_path req) with
  | Ok p => req_with_path p req
  | Err _ => req
  end.

(** [func (m *Manager) checkBody(ctx, req Request) Decision] *)
Definition checkBody (env : call_env) (req : Request) (w : world) : Decision * world :=
  if bool_decide (req_path req = "")
  then (deny "empty path" "the request had no path", w)
  else
    let req := canonical_request req in
    match quick_decision (Store_Snapshot (w_store w)) (t_first env) req with
    | Some d => (d, w)
    | None => askAndPersist env req w
    end.

(** [func (m *Manager) Check(ctx, req Request) Decision] *)
Definition Check (env : call_env) (req : Request) (w : world) : Decision * world :=
  let '(dec, w) := checkBody env req w in
  (dec, recordDecision "path" dec req w).

Definition exec_row (decision reason model_reason command : string) : AuditRow :=
  mkRow "exec" decision "" None "" "" reason model_reason command.
Definition emit_warns (ws : list CommandHit) (w : world) : world :=
  foldl (λ w h, w_emit (exec_row "warn" (hit_token h) "" (hit_command h)) w) w ws.

Record ExecDecision := mkExec {
  ex_action : Action;
  ex_reason : string;
  ex_warns : list CommandHit;
  ex_deny : option CommandHit;
}.

(** [func (m *Manager) CheckExec(code string) ExecDecision] *)
Definition CheckExec (code : string) (w : world) : ExecDecision * world :=
  let snap := Store_Snapshot (w_store w) in
  let '(warns, dny, hasDeny) := CheckCommandPolicy (os_goos os) (sn_command_policy snap) code in
  let w := emit_warns warns w in
  match hasDeny, dny with
  | true, Some d =>
      let reason := "command " +:+ quote (hit_command d) +:+ " is denied by policy (matched token " +:+ quote (hit_token d) +:+ ")" in
      (mkExec ActionDeny reason warns (Some d),
       w_emit (exec_row "deny" reason
                 (hit_command d +:+ " is on the command deny list; choose a different tool or ask the user")
                 (hit_command d)) w)
  | _, _ => (mkExec ActionAllow "" warns None, w_emit (exec_row "allow" "" "" "") w)
  end.

(** [func (m *Manager) AuditExecOnly(code string)] *)
Definition AuditExecOnly (code : string) (w : world) : world :=
  let '(warns, dny, hasDeny) :=
    CheckCommandPolicy (os_goos os) (sn_command_policy (Store_Snapshot (w_store w))) code in
  let w := emit_warns warns w in
  match hasDeny, dny with
  | true, Some d =>
      w_emit (exec_row "warn" "deny-listed token permitted (code-interpreter is audit-only)" "" (hit_command d)) w
  | _, _ => w_emit (exec_row "allow" "" "" "") w
  end.

Definition pty_request (sandboxName sessionID : string) : Request :=
  mkRequest ("PTY:" +:+ sandboxName) ModeExec
    "AI 请求打开交互式终端会话（一旦允许，AI 在该会话中可以执行任意 shell 命令，仅受路径授权和命令策略限制）"
    "pty.open" sessionID.

(** The answer to a PTY prompt: the decision and the session rule to store. *)
Definition pty_answer (env : call_env) (req : Request) (r : result PromptResponse)
    : Decision * option Rule :=
  let keep_session :=
    if bool_decide (req_session_id req = "") then None
    else Some (session_rule (t_answer env) req) in
  match r with
  | Err e => (deny ("pty consent prompt failed: " +:+ e) "", None)
  | Ok PromptAllowOnce => (allow, None)
  | Ok PromptAllowSession => (allow, keep_session)
  | Ok PromptAllowPermanent => (allow, keep_session)
  | Ok PromptDeny => (deny "PTY denied by user" "", None)
  | Ok PromptTimeout => (deny "PTY consent prompt timed out (fail-close)" "", None)
  | Ok (PromptOther s) => (deny ("unknown prompt response " +:+ quote s) "", None)
  end.

(** [func (m *Manager) CheckPTY(ctx, sandboxName, sessionID string) Decision] on
    a manager that is not nil. *)
Definition CheckPTY_on (env : call_env) (sandboxName sessionID : string) (w : world)
    : Decision * world :=
  let req := pty_request sandboxName sessionID in
  let granted now := matchSessionAllow os req
                       (sn_session_grants (Store_Snapshot (w_store w))) (m_home_dir m) now in
  if granted (t_first env) || granted (t_locked env)
  then (allow, recordDecision "pty" allow req w)
  else
    let w := w_ask req w in
    let '(dec, rule) := pty_answer env req (Ask (m_notifier m) req) in
    let w := match rule with
             | Some r => w_with_store (AddSessionRule (t_answer env) (env_io env) r (w_store w)).1 w
             | None => w
             end in
    (dec, recordDecision "pty" dec req w).
End Manager.

(** [CheckPTY] on a manager that may be nil (the gate is off). *)
Definition CheckPTY {N} `{Notifier N} (os : OSView) (m : option (Manager N)) (env : call_env)
    (sandboxName sessionID : string) (w : world) : Decision * world :=
  match m with
  | None => (allow, w)
  | Some m => CheckPTY_on os m env sandboxName sessionID w
  end.

(** ** Lemmas *)

Section ManagerFacts.
  Context {N : Type} `{!Notifier N}.
  Variable os : OSView.
  Variable m : Manager N.

Lemma Check_unfold env req w :
  Check os m env req w =
  ((checkBody os m env req w).1, recordDecision "path" (checkBody os m env req w).1 req
                                   (checkBody os m env req w).2).
Proof. unfold Check. by destruct (checkBody _ _ _ _ _). Qed.

Lemma canonical_request_mode req : req_mode (canonical_request os req) = req_mode req.
Proof. unfold canonical_request. by destruct (canonicalize _ _). Qed.

Lemma canonical_request_session req :
  req_session_id (canonical_request os req) = req_session_id req.
Proof. unfold canonical_request. by destruct (canonicalize _ _). Qed.

Lemma quick_decision_allow snap now req d :
  quick_decision os m snap now req = Some d → dec_action d = ActionAllow →
  matchHardlock os (req_path req) (sn_rules snap) (m_home_dir m) = None ∧
  (req_mode req = ModeRead ∨ IsMandatoryDenied os (req_path req) = false) ∧
  ((m_work_dir m ≠ "" ∧ pathInside os (req_path req) (m_work_dir m) = true) ∨
   matchAllow os req (sn_rules snap) (m_home_dir m) = true ∨
   matchSessionAllow os req (sn_session_grants snap) (m_home_dir m) now = true).
Proof.
  unfold quick_decision. intros Hq Ha.
  destruct (matchHardlock _ _ _ _); [by simplify_eq|]. split; [done|].
  destruct (bool_decide (req_mode req ≠ ModeRead) && _) eqn:E1; [by simplify_eq|].
  apply andb_false_iff in E1 as [E1|E1]; simpl_bool.
  all: split; [by first [left; by apply dec_stable | by right | by left]|].
  all: destruct (bool_decide _ && _) eqn:E2; simpl_bool; [by left|].
  all: right; destruct (matchAllow _ _ _ _); [by left|]; right;
    by destruct (matchSessionAllow _ _ _ _ _).
Qed.

Lemma quick_decision_none snap now req :
  quick_decision os m snap now req = None →
  matchHardlock os (req_path req) (sn_rules snap) (m_home_dir m) = None ∧
  (req_mode req = ModeRead ∨ IsMandatoryDenied os (req_path req) = false).
Proof.
  unfold quick_decision. destruct (matchHardlock _ _ _ _); [done|].
  destruct (bool_decide (req_mode req ≠ ModeRead) && _) eqn:E1; [done|].
  intros _. split; [done|].
  apply andb_false_iff in E1 as [E1|E1]; simpl_bool; [left; by apply dec_stable|by right].
Qed.

(** What [askAndPersist] does to the prompts shown, and when it allows. *)
Lemma askAndPersist_spec env req w :
  let r := askAndPersist os m env req w in
  (w_asked r.2 = w_asked w ∧ r.2 = w ∧ dec_action r.1 = ActionAllow ∧
   (matchAllow os req (sn_rules (st_snap (w_store w))) (m_home_dir m) = true ∨
    matchSessionAllow os req (sn_session_grants (st_snap (w_store w))) (m_home_dir m)
      (t_locked env) = true)) ∨
  (w_asked r.2 = w_asked w ++ [req] ∧ w_audit r.2 = w_audit w ∧
   (dec_action r.1 = ActionAllow ↔ ∃ a, Ask (m_notifier m) req = Ok a ∧ is_consent a = true)).
Proof.
  unfold askAndPersist, Store_Snapshot. simpl.
  destruct (matchAllow _ _ _ _ || _) eqn:E; simpl.
  { left. apply orb_true_iff in E. auto. }
  right. destruct (Ask (m_notifier m) req) as [[]|]; simpl; try case_bool_decide; simpl;
    (split; [done|split; [done|]]); naive_solver.
Qed.

(** A prompt answered [allow_permanent] was not decided by the rules, and
    upserts the request as a permanent rule. *)
Lemma Check_asked_permanent env req w :
  req_path req ≠ "" →
  Ask (m_notifier m) (canonical_request os req) = Ok PromptAllowPermanent →
  w_asked (Check os m env req w).2 = w_asked w ++ [canonical_request os req] →
  quick_decision os m (st_snap (w_store w)) (t_first env) (canonical_request os req) = None ∧
  sn_rules (st_snap (w_store (Check os m env req w).2)) =
  upsertRule (sn_rules (st_snap (w_store w)))
    (stamp_rule (t_answer env) ScopePermanent (permanent_rule (canonical_request os req))).
Proof.
  intros Hne Hask. rewrite Check_unfold. unfold checkBody, Store_Snapshot.
  rewrite bool_decide_eq_false_2 by done. simpl.
  assert (Hlen : ∀ l : list Request, l ≠ l ++ [canonical_request os req]).
  { intros l Hl. apply (f_equal length) in Hl. rewrite length_app in Hl. simpl in Hl. lia. }
  destruct (quick_decision _ _ _ _ _); [by intros ?%Hlen|].
  unfold askAndPersist, Store_Snapshot. destruct (_ || _); simpl; [by intros ?%Hlen|].
  rewrite Hask. intros _. split; [done|]. apply (run_op_rules _ _ (OpAddPermanent _)).
Qed.

Lemma checkBody_session_rules env req w :
  req_session_id req = "" →
  sn_session_grants (st_snap (w_store (checkBody os m env req w).2)) =
  sn_session_grants (st_snap (w_store w)).
Proof.
  intros Hs. unfold checkBody. case_bool_decide; [done|].
  destruct (quick_decision _ _ _ _ _); [done|].
  unfold askAndPersist. destruct (_ || _); [done|].
  destruct (Ask _ _) as [[]|]; simpl; try done.
  - rewrite canonical_request_session, Hs. by case_bool_decide.
  - apply (run_op_grants _ _ (OpAddPermanent _)).
Qed.
End ManagerFacts.

(** Every answer but the three consents refuses. *)
Lemma pty_answer_allow env req r :
  dec_action (pty_answer env req r).1 = ActionAllow ↔ ∃ a, r = Ok a ∧ is_consent a = true.
Proof. destruct r as [[]|]; naive_solver. Qed.

Lemma pty_answer_rule env req r g :
  (pty_answer env req r).2 = Some g →
  rule_session_id g = req_session_id req ∧ req_session_id req ≠ "" ∧
  rule_expires_at g = (t_answer env + session_ttl)%Z.
Proof. destruct r as [[]|]; simpl; try done; case_bool_decide; naive_solver. Qed.

(** ** Properties *)

(** C1: a hardlock wins over everything. When the canonical path of a request
    lies under a hardlock rule, [Check] denies it whatever the work directory,
    the other rules, the session grants and the human would say: no prompt is
    shown, the rule store does not change, and the one audit row says deny. *)
Theorem hardlock_wins {N} `{!Notifier N} (os : OSView) (m : Manager N) (env : call_env)
    (req : Request) (w : world) (p : string) (r : Rule) :
  canonicalize os (req_path req) = Ok p → req_path req ≠ "" →
  r ∈ sn_rules (st_snap (w_store w)) → rule_scope r = ScopeHardlock →
  pathInside os p (ruleAbsPath os (rule_path r) (m_home_dir m)) = true →
  let '(d, w') := Check os m env req w in
  d = hardlock_denial p ∧ w_store w' = w_store w ∧ w_asked w' = w_asked w ∧
  ∃ row, w_audit w' = w_audit w ++ [row] ∧ au_decision row = "deny".
Proof.
  intros Hc Hne Hr Hs Hin. rewrite Check_unfold. unfold checkBody.
  rewrite bool_decide_eq_false_2 by done.
  assert (quick_decision os m (Store_Snapshot (w_store w)) (t_first env)
            (canonical_request os req) = Some (hardlock_denial p)) as ->.
  { unfold quick_decision, canonical_request. rewrite Hc. simpl.
    destruct (matchHardlock _ _ _ _) eqn:E; [done|].
    unfold matchHardlock in E. rewrite find_first_None in E.
    specialize (E r Hr). by rewrite Hs, bool_decide_eq_true_2, Hin in E. }
  simpl. split; [done|]. split; [done|]. split; [done|]. by eexists.
Qed.

Definition unix (links : string → option string) : OSView :=
  mkOS Linux links (Ok "/home/u") "/home/u" (λ _, false).
(** A file system in which every path exists and nothing is a link. *)
Definition plain_os : OSView := unix (λ p, Some p).
Definition home_manager : Manager AlwaysAllowNotifier :=
  mkManager MkAlwaysAllowNotifier "/home/u" "/home/u".
Definition demo_env : call_env := mkEnv 10 11 12 IOok.
Definition demo_world : world := mkWorld demo_store [] [].
Definition demo_request (p : string) (md : Mode) : Request := mkRequest p md "" "files.read" "s1".

Lemma hardlock_wins_witness :
  let '(d, w') := Check plain_os home_manager demo_env
                    (demo_request "/home/u/.ssh/id_rsa" ModeRead) demo_world in
  d = hardlock_denial "/home/u/.ssh/id_rsa" ∧ w_store w' = demo_store ∧ w_asked w' = [] ∧
  ∃ row, w_audit w' = [] ++ [row] ∧ au_decision row = "deny".
Proof.
  apply (hardlock_wins plain_os home_manager demo_env
           (demo_request "/home/u/.ssh/id_rsa" ModeRead) demo_world "/home/u/.ssh/id_rsa"
           (hardlock_rule 1 "~/.ssh"));
    [vm_compute; reflexivity|done|by left|done|vm_compute; reflexivity].
Defined.

(** The specification of the gate: what must hold of a request that is let
    through, where [w] and [w'] are the states around the call. *)
Definition gate_policy {N} `{!Notifier N} (os : OSView) (m : Manager N) (env : call_env)
    (req : Request) (w w' : world) : Prop :=
  let req' := canonical_request os req in
  let snap := st_snap (w_store w) in
  req_path req ≠ "" ∧
  matchHardlock os (req_path req') (sn_rules snap) (m_home_dir m) = None ∧
  (req_mode req = ModeRead ∨ IsMandatoryDenied os (req_path req') = false) ∧
  ((m_work_dir m ≠ "" ∧ pathInside os (req_path req') (m_work_dir m) = true) ∨
   matchAllow os req' (sn_rules snap) (m_home_dir m) = true ∨
   (∃ t, (t = t_first env ∨ t = t_locked env) ∧
         matchSessionAllow os req' (sn_session_grants snap) (m_home_dir m) t = true) ∨
   (w_asked w' = w_asked w ++ [req'] ∧
    ∃ a, Ask (m_notifier m) req' = Ok a ∧ is_consent a = true)).

(** C6: the gate fails closed. [Check] allows a request only when its path is
    not empty, no hardlock covers the canonical path, a write does not hit a
    mandatory-deny path, and one of four things holds: the path is under the
    work directory, a permanent rule covers it, a live session grant covers it,
    or the human was shown exactly this request and consented. *)
Theorem Check_allow_sources {N} `{!Notifier N} (os : OSView) (m : Manager N)
    (env : call_env) (req : Request) (w : world) :
  dec_action (Check os m env req w).1 = ActionAllow →
  gate_policy os m env req w (Check os m env req w).2.
Proof.
  unfold gate_policy. rewrite Check_unfold. intros Ha.
  unfold checkBody in *. case_bool_decide as Hp; [done|]. split; [done|]. simpl in *.
  rewrite <- (canonical_request_mode os req).
  destruct (quick_decision _ _ _ _ _) as [d|] eqn:E; simpl in *.
  - destruct (quick_decision_allow _ _ _ _ _ _ E Ha) as (? & ? & Hsrc).
    split; [done|]. split; [done|]. naive_solver.
  - destruct (quick_decision_none _ _ _ _ _ E) as (? & ?).
    split; [done|]. split; [done|].
    destruct (askAndPersist_spec os m env (canonical_request os req) w)
      as [(_ & _ & _ & [?|?])|(Hq & _ & Hiff)].
    + auto.
    + right; right; left. eauto.
    + right; right; right. split; [exact Hq|]. by apply Hiff.
Qed.

Lemma Check_allow_sources_witness :
  let req := demo_request "/srv/data" ModeRead in
  let w' := (Check plain_os home_manager demo_env req demo_world).2 in
  w_asked w' = [req] ∧ gate_policy plain_os home_manager demo_env req demo_world w'.
Proof.
  split; [vm_compute; reflexivity|].
  apply Check_allow_sources. vm_compute; reflexivity.
Defined.

(** C23: persistence points inside the work tree stay write-protected. A
    request that is not a plain read and whose canonical path is on the
    mandatory-deny list is denied without a prompt and without touching the
    store, even under the work directory and with a permanent grant on it. *)
Theorem mandatory_deny_wins {N} `{!Notifier N} (os : OSView) (m : Manager N)
    (env : call_env) (req : Request) (w : world) (p : string) :
  canonicalize os (req_path req) = Ok p → req_path req ≠ "" →
  req_mode req ≠ ModeRead → IsMandatoryDenied os p = true →
  let '(d, w') := Check os m env req w in
  dec_action d = ActionDeny ∧ w_store w' = w_store w ∧ w_asked w' = w_asked w.
Proof.
  intros Hc Hne Hm Hd. rewrite Check_unfold. unfold checkBody.
  rewrite bool_decide_eq_false_2 by done.
  assert (∃ d, quick_decision os m (Store_Snapshot (w_store w)) (t_first env)
            (canonical_request os req) = Some d ∧ dec_action d = ActionDeny) as (d & -> & ?).
  { unfold quick_decision, canonical_request. rewrite Hc. simpl.
    destruct (matchHardlock _ _ _ _); [by eexists|].
    rewrite Hd, bool_decide_eq_true_2 by done. by eexists. }
  done.
Qed.

Lemma mandatory_deny_wins_witness :
  let '(d, w') := Check plain_os home_manager demo_env
                    (demo_request "/home/u/proj/.git/hooks/pre-commit" ModeWrite) demo_world in
  dec_action d = ActionDeny ∧ w_store w' = demo_store ∧ w_asked w' = [].
Proof.
  apply (mandatory_deny_wins plain_os home_manager demo_env
           (demo_request "/home/u/proj/.git/hooks/pre-commit" ModeWrite) demo_world
           "/home/u/proj/.git/hooks/pre-commit");
    [vm_compute; reflexivity|done|done|vm_compute; reflexivity].
Defined.

Lemma pathInside_refl os p : p ≠ "" → pathInside os p p = true.
Proof. intros ?. unfold pathInside. rewrite bool_decide_eq_false_2 by done. by case_bool_decide. Qed.

Lemma abs_not_tilde p home : is_abs p = true → expandTilde p home = p.
Proof.
  intros H. unfold expandTilde. destruct p as [|c p]; [done|]. unfold is_abs in H. simpl in *.
  destruct (bool_decide (home = "")); [done|].
  apply andb_true_iff in H as [H _]. simpl_bool. subst c. done.
Qed.

Lemma ruleAbsPath_stable os p home :
  is_abs p = true → canonicalize os p = Ok p → ruleAbsPath os p home = p.
Proof.
  intros Ha Hc. unfold ruleAbsPath. rewrite abs_not_tilde by done. rewrite Ha, Hc. simpl.
  case_bool_decide; [by subst|done].
Qed.

Lemma matchHardlock_upsert os p rules r home :
  rule_scope r ≠ ScopeHardlock →
  matchHardlock os p rules home = None → matchHardlock os p (upsertRule rules r) home = None.
Proof.
  unfold matchHardlock. rewrite !find_first_None. intros Hr H x Hx.
  apply elem_of_upsertRule_inv in Hx as [Hx|(_ & Hs & _)]; [by apply H|].
  by rewrite bool_decide_eq_false_2 by congruence.
Qed.

(** consent is remembered. If the human answers [allow_permanent] to a
    read or write request for a path whose canonical form is stable, every
    later identical request is allowed without another prompt, whatever the
    disk did when the rule was flushed and however long ago it was; the only
    exception is a permanent deny entry stored for that very path. *)
Theorem permanent_consent_remembered {N} `{!Notifier N} (os : OSView) (m : Manager N)
    (env env' : call_env) (req : Request) (w : world) (p : string) :
  req_path req ≠ "" → canonicalize os (req_path req) = Ok p →
  is_abs p = true → clean p = p → canonicalize os p = Ok p → permissive (req_mode req) →
  (∀ y, y ∈ sn_rules (st_snap (w_store w)) → rule_path y = p →
        rule_scope y = ScopePermanent → rule_mode y ≠ ModeDeny) →
  Ask (m_notifier m) (canonical_request os req) = Ok PromptAllowPermanent →
  let w1 := (Check os m env req w).2 in
  w_asked w1 = w_asked w ++ [canonical_request os req] →
  let '(d, w2) := Check os m env' req w1 in
  d = allow ∧ w_asked w2 = w_asked w1.
Proof.
  intros Hne Hcan Habs Hclean Hstable Hmode Hdeny Hask w1 Hasked.
  assert (Hp : p ≠ "") by (by intros ->).
  set (req' := canonical_request os req) in *.
  assert (Hpath : req_path req' = p) by (unfold req', canonical_request; by rewrite Hcan).
  assert (Hm : req_mode req' = req_mode req) by apply canonical_request_mode.
  destruct (Check_asked_permanent os m env req w Hne Hask Hasked) as [Hq Hrules].
  fold w1 req' in Hq, Hrules.
  destruct (quick_decision_none _ _ _ _ _ Hq) as (Hh & Hmand). rewrite Hpath in Hh, Hmand.
  set (r := stamp_rule (t_answer env) ScopePermanent (permanent_rule req')).
  assert (Hr : rule_path r = p).
  { unfold r. simpl. unfold cleanRulePath. rewrite Hpath. by case_bool_decide. }
  fold r in Hrules.
  destruct (upsertRule_grants (sn_rules (st_snap (w_store w))) r) as (x & Hx & Hxp & Hxs & Hxd & Hxa).
  { done. } { simpl. by rewrite Hm. }
  { rewrite Hr. intros y Hy Hyp. split; [|by intros; eapply Hdeny].
    intros Hys. unfold matchHardlock in Hh. rewrite find_first_None in Hh.
    specialize (Hh y Hy).
    rewrite Hys, Hyp, ruleAbsPath_stable, pathInside_refl in Hh by done. done. }
  assert (Hok : quick_decision os m (st_snap (w_store w1)) (t_first env') req' = Some allow).
  { unfold quick_decision. rewrite Hrules, Hpath, matchHardlock_upsert by done.
    replace (bool_decide (req_mode req' ≠ ModeRead) && IsMandatoryDenied os p) with false.
    2:{ symmetry. destruct Hmand as [->| ->]; [by rewrite bool_decide_eq_false_2 by (intros H; by apply H)|apply andb_false_r]. }
    destruct (bool_decide _ && pathInside _ _ _); [done|].
    replace (matchAllow _ _ _ _) with true; [done|]. symmetry. apply any_true. exists x.
    split; [done|]. rewrite Hxs, Hpath, Hxp, Hr, ruleAbsPath_stable, pathInside_refl by done.
    rewrite !bool_decide_eq_true_2, bool_decide_eq_false_2 by done. simpl in Hxa. by rewrite Hxa. }
  rewrite Check_unfold. unfold checkBody, Store_Snapshot.
  rewrite bool_decide_eq_false_2 by done. simpl. fold req'. by rewrite Hok.
Qed.

(** A notifier that always gives the same answer. *)
Inductive ScriptedNotifier := Answers (r : result PromptResponse).
#[global] Instance ScriptedNotifier_Ask : Notifier ScriptedNotifier :=
  λ n _, match n with Answers r => r end.
Definition scripted (a : PromptResponse) : Manager ScriptedNotifier :=
  mkManager (Answers (Ok a)) "/home/u/proj" "/home/u".

Lemma CheckPTY_unfold {N} `{!Notifier N} os (m : Manager N) env sb sid w :
  let req := pty_request sb sid in
  let granted t := matchSessionAllow os req (sn_session_grants (st_snap (w_store w)))
                     (m_home_dir m) t in
  let ans := pty_answer env req (Ask (m_notifier m) req) in
  CheckPTY os (Some m) env sb sid w =
  if granted (t_first env) || granted (t_locked env)
  then (allow, recordDecision "pty" allow req w)
  else (ans.1, recordDecision "pty" ans.1 req
                 (match ans.2 with
                  | Some r => w_with_store (AddSessionRule (t_answer env) (env_io env) r
                                              (w_store w)).1 (w_ask req w)
                  | None => w_ask req w
                  end)).
Proof.
  simpl. unfold CheckPTY_on, Store_Snapshot. destruct (_ || _); [done|].
  by destruct (pty_answer _ _ _) as [d [r|]].
Qed.

Lemma CheckPTY_grants {N} `{!Notifier N} os (m : Manager N) env sb sid w g :
  g ∈ sn_session_grants (st_snap (w_store (CheckPTY os (Some m) env sb sid w).2)) →
  g ∈ sn_session_grants (st_snap (w_store w)) ∨
  (rule_session_id g = sid ∧ sid ≠ "" ∧ rule_expires_at g = (t_answer env + session_ttl)%Z).
Proof.
  rewrite CheckPTY_unfold. destruct (_ || _); [by left|].
  destruct (pty_answer env _ _) as [d [r|]] eqn:Ea; [|by left]. simpl.
  pose proof (run_op_grants (t_answer env) (env_io env) (OpAddSession r) (w_store w)) as Hr.
  simpl in Hr. rewrite Hr. intros [?|(_ & _ & Hs & He)]%elem_of_upsertRule_inv; [by left|right].
  destruct (pty_answer_rule env (pty_request sb sid) (Ask (m_notifier m) (pty_request sb sid)) r)
    as (Hrs & Hne & Hx); [by rewrite Ea|].
  simpl in *. split; [congruence|]. split; [done|]. congruence.
Qed.

(** a terminal is never granted for ever. Opening a PTY never changes the
    permanent rules, whatever the human answers ([allow_permanent] included);
    it is allowed only by a live session grant or by a consent given to this
    very prompt; and a grant it stores belongs to the session that asked, which
    is not empty, and expires eight hours after the answer. *)
Theorem CheckPTY_session_scoped {N} `{!Notifier N} (os : OSView) (m : Manager N)
    (env : call_env) (sandboxName sessionID : string) (w : world) :
  let req := pty_request sandboxName sessionID in
  let grants := sn_session_grants (st_snap (w_store w)) in
  let '(d, w') := CheckPTY os (Some m) env sandboxName sessionID w in
  sn_rules (st_snap (w_store w')) = sn_rules (st_snap (w_store w)) ∧
  (dec_action d = ActionAllow ↔
     (∃ t, (t = t_first env ∨ t = t_locked env) ∧
           matchSessionAllow os req grants (m_home_dir m) t = true) ∨
     (∃ a, Ask (m_notifier m) req = Ok a ∧ is_consent a = true)) ∧
  (∀ g, g ∈ sn_session_grants (st_snap (w_store w')) → g ∈ grants ∨
     (rule_session_id g = sessionID ∧ sessionID ≠ "" ∧
      rule_expires_at g = (t_answer env + session_ttl)%Z)) ∧
  ∃ row, w_audit w' = w_audit w ++ [row] ∧
         au_decision row = action_string (dec_action d).
Proof.
  intros req grants. subst grants.
  pose proof (CheckPTY_grants os m env sandboxName sessionID w) as Hgrants. revert Hgrants.
  rewrite CheckPTY_unfold. fold req.
  destruct (matchSessionAllow _ _ _ _ (t_first env) || _) eqn:E.
  { apply orb_true_iff in E. split; [done|]. split; [naive_solver|].
    split; [done|]. by eexists. }
  intros Hgrants. apply orb_false_iff in E as [E1 E2].
  destruct (pty_answer env req (Ask (m_notifier m) req)) as [d o] eqn:Ea.
  assert (Hallow : dec_action d = ActionAllow ↔
                   ∃ a, Ask (m_notifier m) req = Ok a ∧ is_consent a = true).
  { rewrite <- (pty_answer_allow env req). by rewrite Ea. }
  split_and!.
  - destruct o; [apply (run_op_rules _ _ (OpAddSession _))|done].
  - rewrite Hallow. split; [by right|].
    intros [(t & [->| ->] & Ht)|]; [congruence|congruence|done].
  - exact Hgrants.
  - by destruct o; eexists.
Qed.

(** The calls that reach the gate from a sandbox. *)
Inductive gate_step {N} `{!Notifier N} (os : OSView) (m : Manager N) : world → world → Prop :=
| gate_check env req w : gate_step os m w (Check os m env req w).2
| gate_pty env sb sid w : gate_step os m w (CheckPTY os (Some m) env sb sid w).2
| gate_exec code w : gate_step os m w (CheckExec os code w).2
| gate_audit code w : gate_step os m w (AuditExecOnly os code w).

Definition grants_have_session (w : world) : Prop :=
  ∀ g, g ∈ sn_session_grants (st_snap (w_store w)) → rule_session_id g ≠ "".

Lemma emit_warns_store ws w : w_store (emit_warns ws w) = w_store w.
Proof. unfold emit_warns. revert w; induction ws as [|h ws IH]; intros w; [done|]. simpl. by rewrite IH. Qed.

Lemma Check_grants {N} `{!Notifier N} os (m : Manager N) env req w g :
  g ∈ sn_session_grants (st_snap (w_store (Check os m env req w).2)) →
  g ∈ sn_session_grants (st_snap (w_store w)) ∨
  (rule_session_id g = req_session_id req ∧ req_session_id req ≠ "").
Proof.
  rewrite Check_unfold. simpl. unfold checkBody. case_bool_decide; [by left|].
  destruct (quick_decision _ _ _ _ _); [by left|].
  unfold askAndPersist. destruct (_ || _); [by left|].
  destruct (Ask _ _) as [[]|]; simpl; try by left.
  - rewrite canonical_request_session. case_bool_decide; [by left|]. simpl.
    set (r := session_rule _ _).
    pose proof (run_op_grants (t_answer env) (env_io env) (OpAddSession r) (w_store w)) as Hr.
    simpl in Hr. rewrite Hr.
    intros [?|(_ & _ & Hs & _)]%elem_of_upsertRule_inv; [by left|right].
    simpl in Hs. by rewrite canonical_request_session in Hs.
  - set (r := permanent_rule _).
    pose proof (run_op_grants (t_answer env) (env_io env) (OpAddPermanent r) (w_store w)) as Hr.
    simpl in Hr. rewrite Hr. by left.
Qed.

Lemma gate_step_grants {N} `{!Notifier N} os (m : Manager N) w w' :
  gate_step os m w w' → grants_have_session w → grants_have_session w'.
Proof.
  intros [env req w0|env sb sid w0|code w0|code w0] Hw g Hg.
  - apply Check_grants in Hg as [?|[-> ?]]; [by apply Hw|done].
  - apply CheckPTY_grants in Hg as [?|(-> & ? & _)]; [by apply Hw|done].
  - apply Hw. revert Hg. unfold CheckExec.
    destruct (CheckCommandPolicy _ _ _) as [[ws o] b].
    by destruct b, o; simpl; rewrite emit_warns_store.
  - apply Hw. revert Hg. unfold AuditExecOnly.
    destruct (CheckCommandPolicy _ _ _) as [[ws o] b].
    by destruct b, o; simpl; rewrite emit_warns_store.
Qed.

(** C28: session isolation. Starting from a store whose session grants all name
    a session, no sequence of gate calls (checks, terminals, executions) leads
    to a state in which a session grant covers a request of another session, an
    expired grant covers anything, or a request without a session is covered by
    any session grant at all. *)
Theorem session_isolation {N} `{!Notifier N} (os : OSView) (m : Manager N) (w0 w : world)
    (req : Request) (now : gotime) :
  grants_have_session w0 → rtc (gate_step os m) w0 w →
  matchSessionAllow os req (sn_session_grants (st_snap (w_store w))) (m_home_dir m) now = true →
  ∃ g, g ∈ sn_session_grants (st_snap (w_store w)) ∧
       rule_session_id g = req_session_id req ∧ req_session_id req ≠ "" ∧
       (rule_expires_at g = 0 ∨ now ≤ rule_expires_at g)%Z ∧
       Mode_Allows (rule_mode g) (req_mode req) = true ∧
       pathInside os (req_path req) (ruleAbsPath os (rule_path g) (m_home_dir m)) = true.
Proof.
  intros Hw0 Hsteps. assert (Hw : grants_have_session w).
  { induction Hsteps; eauto using gate_step_grants. }
  unfold matchSessionAllow. intros (g & Hg & Hm)%any_true. exists g.
  apply andb_true_iff in Hm as [Hm Hin]. apply andb_true_iff in Hm as [Hm Hmode].
  apply andb_true_iff in Hm as [Hexp Hs]. specialize (Hw g Hg).
  rewrite bool_decide_eq_true_2 in Hs by done. simpl_bool.
  assert (rule_session_id g = req_session_id req) as Hsid.
  { destruct (decide (rule_session_id g = req_session_id req)); [done|].
    by rewrite bool_decide_eq_true_2 in Hs. }
  split; [done|]. split; [done|]. split; [congruence|]. split; [|done].
  unfold grant_expired, is_zero_time, after in Hexp.
  apply andb_false_iff in Hexp as [Hexp|Hexp]; simpl_bool; [by left|right; lia].
Qed.

Definition granted_world : world :=
  (Check plain_os (scripted PromptAllowSession) demo_env (demo_request "/srv/d" ModeRead)
     demo_world).2.

Lemma session_isolation_witness :
  ∃ g, g ∈ sn_session_grants (st_snap (w_store granted_world)) ∧
       rule_session_id g = "s1" ∧ "s1" ≠ "" ∧
       (rule_expires_at g = 0 ∨ 100 ≤ rule_expires_at g)%Z ∧
       Mode_Allows (rule_mode g) ModeRead = true ∧
       pathInside plain_os "/srv/d" (ruleAbsPath plain_os (rule_path g) "/home/u") = true.
Proof.
  apply (session_isolation plain_os (scripted PromptAllowSession) demo_world granted_world
           (demo_request "/srv/d" ModeRead) 100).
  - intros g Hg. by apply elem_of_nil in Hg.
  - apply rtc_once. constructor.
  - vm_compute. reflexivity.
Defined.

#[local] Arguments String.append : simpl nomatch.

Lemma join_app ds es :
  ds ≠ [] → es ≠ [] → join "/" (ds ++ es) = join "/" ds +:+ "/" +:+ join "/" es.
Proof.
  intros Hd He. induction ds as [|d ds IH]; [done|].
  destruct ds as [|d' ds]; [by destruct es|].
  change (join "/" ((d :: d' :: ds) ++ es)) with (d +:+ "/" +:+ join "/" ((d' :: ds) ++ es)).
  rewrite IH by done. change (join "/" (d :: d' :: ds)) with (d +:+ "/" +:+ join "/" (d' :: ds)).
  by rewrite !app_assoc_str.
Qed.

Lemma join_not_slash cs r : Forall normal_comp cs → join "/" cs ≠ String slash r.
Proof.
  destruct cs as [|c cs]; [done|]. intros [(Hne & _ & _ & Hs) _]%Forall_cons H.
  destruct c as [|x c]; [done|]. simpl in Hs. apply orb_false_iff in Hs as [Hs _]. simpl_bool.
  destruct cs; simpl in H; injection H as ? _; congruence.
Qed.

(** the textual containment test is component-wise containment. On a
    case-sensitive file system a clean absolute path is inside another one
    exactly when the other's components are a prefix of its own, so [/home/ab]
    is not inside [/home/a]; but the root contains only itself, because the
    test appends a separator to a parent that already ends in one. *)
Theorem pathInside_components (os : OSView) (child parent : list string) :
  caseInsensitiveFS os = false → Forall normal_comp child → Forall normal_comp parent →
  pathInside os (abs_path child) (abs_path parent) = true ↔
  match parent with
  | [] => child = []
  | _ => parent `prefix_of` child
  end.
Proof.
  intros Hos Hc Hp. unfold pathInside. rewrite Hos, bool_decide_eq_false_2 by done.
  case_bool_decide as E.
  { apply abs_path_inj in E as ->; try done. by destruct parent. }
  rewrite has_prefix_spec. destruct parent as [|d ds].
  - split; [|by intros ->]. intros [r Hr]. injection Hr as Hr.
    by apply join_not_slash in Hr.
  - split.
    + intros [r Hr].
      assert (join "/" child = join "/" (d :: ds) +:+ String slash r) as Hj.
      { injection Hr as Hr. change (join "/" child = (join "/" (d :: ds) +:+ "/") +:+ r) in Hr.
        by rewrite Hr, app_assoc_str. }
      clear Hr. rename Hj into Hr. apply (f_equal (split slash)) in Hr.
      rewrite split_app_sep, !split_slash_join in Hr by done.
      destruct child as [|c cs].
      * exfalso. apply (f_equal length) in Hr. rewrite length_app in Hr. simpl in Hr.
        pose proof (split_not_nil slash r). destruct (split slash r); [done|]. simpl in Hr. lia.
      * exists (split slash r). exact Hr.
    + intros [es ->]. destruct es as [|e es]; [by rewrite app_nil_r in E|].
      exists (join "/" (e :: es)). unfold abs_path.
      rewrite join_app by done.
      change (String slash (join "/" (d :: ds) +:+ "/" +:+ join "/" (e :: es)) =
              String slash ((join "/" (d :: ds) +:+ "/") +:+ join "/" (e :: es))).
      by rewrite app_assoc_str.
Qed.
