(* ===== verification/NetAddr.v ===== *)
(** Go's [net/netip] as far as pkg/egress uses it: addresses, prefixes, their
    parsers, their printer and their classes. An address is a number of 32 or
    128 bits; an IPv6 address also carries its zone. *)

From S2P Require Import Prelude GoStrings.

#[local] Open Scope Z_scope.

Inductive Addr :=
| V4 (n : Z)
| V6 (n : Z) (zone : string).
#[global] Instance Addr_eq_dec : EqDecision Addr.
Proof. solve_decision. Defined.

(** ** Parsing *)

(** One decimal field of a dotted quad: no leading zero, at most 255. *)
Definition parse_octet (s : string) : option Z :=
  match s with
  | EmptyString => None
  | String c t =>
      if bool_decide (c = "0"%char) && negb (bool_decide (t = "")) then None
      else match digits_val s 0 with
           | Some v => if bool_decide (v ≤ 255) && bool_decide (String.length s ≤ 3)%nat
                       then Some v else None
           | None => None
           end
  end.

Definition parse_v4_bytes (s : string) : option (list Z) :=
  match parse_octet <$> split "."%char s with
  | [Some a; Some b; Some c; Some d] => Some [a; b; c; d]
  | _ => None
  end.

(** The big-endian number a list of bytes stands for. *)
Fixpoint be_val (bs : list Z) (acc : Z) : Z :=
  match bs with
  | [] => acc
  | b :: bs => be_val bs (256 * acc + b)
  end.

Definition parse_v4 (s : string) : option Addr :=
  (λ bs, V4 (be_val bs 0)) <$> parse_v4_bytes s.

Definition hex_val (c : char) : option Z :=
  if is_digit c then Some (Z.of_nat (code c) - 48)
  else if (97 <=? code c)%nat && (code c <=? 102)%nat then Some (Z.of_nat (code c) - 87)
  else if (65 <=? code c)%nat && (code c <=? 70)%nat then Some (Z.of_nat (code c) - 55)
  else None.

(** The hexadecimal digits a group starts with: how many, their value, and the
    rest of the text. *)
Fixpoint hex_group (s : string) (off : nat) (acc : Z) : nat * Z * string :=
  match s with
  | String c t =>
      match hex_val c with
      | Some d => hex_group t (S off) (16 * acc + d)
      | None => (off, acc, s)
      end
  | EmptyString => (off, acc, s)
  end.

(** The group loop of [parseIPv6]: [bytes] are those read so far and [ell] the
    position of the [::] among them. Eight groups fill the address, so eight
    units of fuel read all of it. *)
Fixpoint v6_groups (fuel : nat) (s : string) (bytes : list Z) (ell : option nat)
    : option (list Z * option nat * string) :=
  match fuel with
  | O => Some (bytes, ell, s)
  | S fuel =>
      let '(off, acc, rest) := hex_group s 0 0 in
      if (off =? 0)%nat || (4 <? off)%nat then None
      else match rest with
           | String "."%char _ =>
               if (negb (isSome ell) && negb (length bytes =? 12)%nat)
                  || (16 <? length bytes + 4)%nat then None
               else (λ bs, (bytes ++ bs, ell, "")) <$> parse_v4_bytes s
           | EmptyString => Some (bytes ++ [acc / 256; acc mod 256], ell, "")
           | String ":"%char EmptyString => None
           | String ":"%char (String ":"%char rest2) =>
               if isSome ell then None
               else
                 let bytes := bytes ++ [acc / 256; acc mod 256] in
                 let ell := Some (length bytes) in
                 match rest2 with
                 | EmptyString => Some (bytes, ell, "")
                 | _ => v6_groups fuel rest2 bytes ell
                 end
           | String ":"%char rest1 =>
               v6_groups fuel rest1 (bytes ++ [acc / 256; acc mod 256]) ell
           | _ => None
           end
  end.

Definition v6_finish (r : list Z * option nat * string) : option (list Z) :=
  let '(bytes, ell, rest) := r in
  if negb (bool_decide (rest = "")) then None
  else match ell with
       | None => if (length bytes =? 16)%nat then Some bytes else None
       | Some e =>
           if (16 <=? length bytes)%nat then None
           else Some (take e bytes ++ replicate (16 - length bytes) 0 ++ drop e bytes)
       end.

Definition parse_v6 (s : string) : option Addr :=
  let with_zone (s zone : string) :=
    let r :=
      if has_prefix s "::" then
        match drop_str 2 s with
        | EmptyString => Some (replicate 16 0)
        | t => v6_groups 8 t [] (Some 0%nat) ≫= v6_finish
        end
      else v6_groups 8 s [] None ≫= v6_finish in
    (λ bs, V6 (be_val bs 0) zone) <$> r in
  match cut "%"%char s with
  | Some (a, z) => if bool_decide (z = "") then None else with_zone a z
  | None => with_zone s ""
  end.

Fixpoint first_mark (s : string) : option char :=
  match s with
  | EmptyString => None
  | String c s =>
      if bool_decide (c = "."%char) || bool_decide (c = ":"%char) || bool_decide (c = "%"%char)
      then Some c else first_mark s
  end.

(** [netip.ParseAddr]. *)
Definition ParseAddr (s : string) : option Addr :=
  match first_mark s with
  | Some "."%char => parse_v4 s
  | Some ":"%char => parse_v6 s
  | _ => None
  end.

(** ** Operations *)

Definition Is4In6 (a : Addr) : bool :=
  match a with
  | V6 n _ => bool_decide (Z.shiftr n 32 = 65535)
  | V4 _ => false
  end.

(** [Addr.Unmap]: an IPv4-mapped IPv6 address becomes the IPv4 one. *)
Definition Unmap (a : Addr) : Addr :=
  match a with
  | V6 n _ => if Is4In6 a then V4 (n mod 2 ^ 32) else a
  | V4 _ => a
  end.

Definition BitLen (a : Addr) : Z := match a with V4 _ => 32 | V6 _ _ => 128 end.
Definition addr_bits (a : Addr) : Z := match a with V4 n => n | V6 n _ => n end.
Definition addr_zone (a : Addr) : string := match a with V4 _ => "" | V6 _ z => z end.

(** The class predicates look through an IPv4-mapped address, as Go's do. *)
Definition IsLoopback (a : Addr) : bool :=
  match Unmap a with
  | V4 n => bool_decide (Z.shiftr n 24 = 127)
  | V6 n _ => bool_decide (n = 1)
  end.
Definition IsUnspecified (a : Addr) : bool :=
  bool_decide (a = V4 0) || bool_decide (a = V6 0 "").
Definition IsLinkLocalUnicast (a : Addr) : bool :=
  match Unmap a with
  | V4 n => bool_decide (Z.shiftr n 16 = 43518) (* 169.254 *)
  | V6 n _ => bool_decide (Z.shiftr n 118 = 1018) (* fe80::/10 *)
  end.
Definition IsMulticast (a : Addr) : bool :=
  match Unmap a with
  | V4 n => bool_decide (Z.shiftr n 28 = 14)
  | V6 n _ => bool_decide (Z.shiftr n 120 = 255)
  end.

(** ** Prefixes *)

Record Prefix := mkPrefix { px_addr : Addr; px_bits : Z }.
#[global] Instance Prefix_eq_dec : EqDecision Prefix.
Proof. solve_decision. Defined.

(** [Prefix.Masked]. *)
Definition Masked (p : Prefix) : Prefix :=
  let low := BitLen (px_addr p) - px_bits p in
  let m n := Z.shiftl (Z.shiftr n low) low in
  mkPrefix (match px_addr p with V4 n => V4 (m n) | V6 n z => V6 (m n) z end) (px_bits p).

(** [Prefix.Contains]: same family, no zone, same leading bits. *)
Definition Contains (p : Prefix) (ip : Addr) : bool :=
  bool_decide (addr_zone ip = "") && bool_decide (BitLen (px_addr p) = BitLen ip)
  && bool_decide (Z.shiftr (Z.lxor (addr_bits ip) (addr_bits (px_addr p)))
                    (BitLen ip - px_bits p) = 0).

(** [netip.ParsePrefix]. *)
Definition ParsePrefix (s : string) : option Prefix :=
  match cut_last slash s with
  | None => None
  | Some (a, b) =>
      match ParseAddr a with
      | None => None
      | Some ip =>
          if negb (bool_decide (addr_zone ip = "")) then None
          else
            let bad_lead := match b with
                            | String c (String _ _) =>
                                negb (is_digit c && negb (bool_decide (c = "0"%char)))
                            | _ => false
                            end in
            if bad_lead then None
            else match atoi b with
                 | Some n => if bool_decide (0 ≤ n ≤ BitLen ip) then Some (mkPrefix ip n) else None
                 | None => None
                 end
      end
  end.

(** ** Printing *)

Definition v4_string (n : Z) : string :=
  itoa (Z.shiftr n 24 mod 256) +:+ "." +:+ itoa (Z.shiftr n 16 mod 256) +:+ "."
  +:+ itoa (Z.shiftr n 8 mod 256) +:+ "." +:+ itoa (n mod 256).

Definition hex_char (d : Z) : char :=
  ascii_of_nat (Z.to_nat (if bool_decide (d < 10) then 48 + d else 87 + d)).
Definition hex16 (n : Z) : string :=
  let d k := str1 (hex_char (Z.shiftr n (4 * k) mod 16)) in
  if bool_decide (n < 16) then d 0
  else if bool_decide (n < 256) then d 1 +:+ d 0
  else if bool_decide (n < 4096) then d 2 +:+ d 1 +:+ d 0
  else d 3 +:+ d 2 +:+ d 1 +:+ d 0.

Definition groups_of (n : Z) : list Z :=
  (λ k, Z.shiftr n (16 * k) mod 65536) <$> [7; 6; 5; 4; 3; 2; 1; 0].

Fixpoint zero_run (l : list Z) : nat :=
  match l with
  | 0 :: l => S (zero_run l)
  | _ => O
  end.
(** The first longest run of at least two zero groups: (start, length). *)
Fixpoint best_run (l : list Z) (i : nat) (best : nat * nat) : nat * nat :=
  match l with
  | [] => best
  | _ :: t =>
      let r := zero_run l in
      best_run t (S i) (if (1 <? r)%nat && (snd best <? r)%nat then (i, r) else best)
  end.

Definition v6_string (n : Z) : string :=
  let gs := groups_of n in
  let '(st, ln) := best_run gs 0 (0, 0)%nat in
  if (ln =? 0)%nat then join ":" (hex16 <$> gs)
  else join ":" (hex16 <$> take st gs) +:+ "::" +:+ join ":" (hex16 <$> drop (st + ln) gs).

(** [Addr.String]. *)
Definition addr_string (a : Addr) : string :=
  match a with
  | V4 n => v4_string n
  | V6 n z =>
      (if Is4In6 a then "::ffff:" +:+ v4_string (n mod 2 ^ 32) else v6_string n)
      +:+ (if bool_decide (z = "") then "" else "%" +:+ z)
  end.

(** ** Facts *)

Example parse_examples :
  (ParseAddr "169.254.169.254", ParseAddr "::ffff:10.0.0.1", ParseAddr "fd00:ec2::254",
   ParseAddr "1.2.3", ParseAddr "01.2.3.4", ParseAddr "1::2::3", ParseAddr "fe80::1%eth0")
  = (Some (V4 2852039166), Some (V6 281470849515521 ""),
     Some (V6 336294982257581694735330614659971547732 ""), None, None, None,
     Some (V6 338288524927261089654018896841347694593 "eth0")).
Proof. vm_compute. reflexivity. Qed.

Example string_examples :
  (addr_string <$> ParseAddr "fd00:0ec2:0::254", addr_string <$> ParseAddr "10.0.0.255",
   addr_string <$> ParseAddr "1:0:0:2:0:0:0:3", addr_string <$> ParseAddr "::")
  = (Some "fd00:ec2::254", Some "10.0.0.255", Some "1:0:0:2::3", Some "::").
Proof. vm_compute. reflexivity. Qed.

(** [Unmap] is idempotent: its result is never IPv4-mapped. *)
Lemma Unmap_Unmap a : Unmap (Unmap a) = Unmap a.
Proof.
  destruct a as [n|n z]; [reflexivity|]. unfold Unmap at 2 3.
  destruct (Is4In6 (V6 n z)) eqn:E; [reflexivity|]. unfold Unmap. by rewrite E.
Qed.

Lemma Contains_zone p ip : Contains p ip = true → addr_zone ip = "".
Proof. unfold Contains. intros H. by simpl_bool. Qed.
