(* ===== verification/EgressPolicy.v ===== *)
(** pkg/egress/policy.go: the egress allow-list, its parser and its decision. *)

From S2P Require Import Prelude GoStrings NetAddr.

Record Policy := mkPolicy {
  po_allowed : list string;
  po_denied : list string;
  po_reasons : gmap string string;
  po_denied_addrs : list string;
  po_strict : bool;
}.

Record ERule := mkERule {
  er_raw : string;
  er_host : string;
  er_port : Z;
  er_wildcard : bool;
  er_is_ip : bool;
}.
#[global] Instance ERule_eq_dec : EqDecision ERule.
Proof. solve_decision. Defined.

Inductive Code :=
| CodeAllowed | CodeDeniedDomain | CodeNotAllowed | CodeDeniedAddress
| CodeDeciderUnavailable | CodeMaskedPlaintext | CodeAuthRequired
| CodeOther (s : string).
#[global] Instance Code_eq_dec : EqDecision Code.
Proof. solve_decision. Defined.

Definition code_string (c : Code) : string :=
  match c with
  | CodeAllowed => "allowed"
  | CodeDeniedDomain => "denied_domain"
  | CodeNotAllowed => "not_allowed"
  | CodeDeniedAddress => "denied_address"
  | CodeDeciderUnavailable => "decider_unavailable"
  | CodeMaskedPlaintext => "masked_credential_cleartext"
  | CodeAuthRequired => "proxy_auth_required"
  | CodeOther s => s
  end.

Record Verdict := mkVerdict {
  v_allow : bool;
  v_code : Code;
  v_rule : string;
  v_reason : string;
  v_host : string;
  v_port : Z;
  v_address : string;
}.
#[global] Instance Verdict_eq_dec : EqDecision Verdict.
Proof. solve_decision. Defined.

(** ** Entries *)

(** [func canonicalHost(h string) string] *)
Definition canonicalHost (h : string) : string :=
  let h := to_lower (trim_space h) in
  let h := trim_prefix h "[" in
  let h := trim_suffix h "]" in
  trim_suffix h ".".

(** [func isIPLiteral(host string) bool] *)
Definition isIPLiteral (host : string) : bool := isSome (ParseAddr (canonicalHost host)).

(** [func splitHostPort(s string) (host, port string, err error)] *)
Definition splitHostPort (s : string) : result (string * string) :=
  if has_prefix s "[" then
    match cut "]"%char s with
    | None => Err "unclosed `[` in IPv6 literal"
    | Some (before, rest) =>
        let host := drop_str 1 before in
        match rest with
        | EmptyString => Ok (host, "")
        | String c port =>
            if bool_decide (c = ":"%char) then Ok (host, port)
            else Err ("unexpected " +:+ quote rest +:+ " after `]`")
        end
    end
  else if (1 <? count_char ":"%char s)%nat
  then Err ("IPv6 literals with a port must be bracketed: [" +:+ s +:+ "]")
  else match cut_last ":"%char s with
       | Some (h, p) => Ok (h, p)
       | None => Ok (s, "")
       end.

Definition host_char (c : char) : bool :=
  is_lower c || is_digit c || bool_decide (c = "-"%char) || bool_decide (c = "_"%char).

Fixpoint find_bad_char (s : string) : option char :=
  match s with
  | EmptyString => None
  | String c s => if host_char c then find_bad_char s else Some c
  end.

Definition ends_with_dash (label : string) : bool :=
  has_prefix label "-" || has_suffix label "-".

Definition check_label (label : string) : option string :=
  if bool_decide (label = "") then Some "empty label"
  else if (63 <? String.length label)%nat
  then Some ("label " +:+ quote label +:+ " is longer than 63 bytes")
  else if ends_with_dash label
  then Some ("label " +:+ quote label +:+ " starts or ends with `-`")
  else match find_bad_char label with
       | Some c => Some ("label " +:+ quote label +:+ " has an unsupported character '"
                         +:+ str1 c +:+ "'")
       | None => None
       end.

Fixpoint check_labels (ls : list string) : option string :=
  match ls with
  | [] => None
  | l :: ls => match check_label l with Some e => Some e | None => check_labels ls end
  end.

(** [func validateHostname(h string) error] *)
Definition validateHostname (h : string) : option string :=
  if bool_decide (h = "") then Some "empty host"
  else if (253 <? String.length h)%nat then Some "host is longer than 253 bytes"
  else check_labels (split "."%char (trim_suffix h ".")).

Definition parse_port (raw portStr : string) : result Z :=
  if bool_decide (portStr = "") then Ok 0%Z
  else match atoi portStr with
       | Some p => if bool_decide (1 ≤ p ≤ 65535)%Z then Ok p
                   else Err (quote raw +:+ ": bad port " +:+ quote portStr)
       | None => Err (quote raw +:+ ": bad port " +:+ quote portStr)
       end.

(** What [compileRule] makes of the host part, once the port is known. *)
Definition compile_host (raw entry : string) (port : Z) (host : string) : result ERule :=
  if bool_decide (host = "*") then Ok (mkERule entry "*" port true false)
  else if has_prefix host "*." then
    if (String.length host <=? 3)%nat
    then Err (quote raw +:+ ": wildcard needs a domain after it")
    else Ok (mkERule entry ("." +:+ canonicalHost (trim_prefix (drop_str 1 host) "."))
               port true false)
  else if mem_char "*"%char host
  then Err (quote raw +:+ ": `*` is only supported as a leading `*.` label")
  else if isIPLiteral host then Ok (mkERule entry (canonicalHost host) port false true)
  else match validateHostname host with
       | Some e => Err (quote raw +:+ ": " +:+ e)
       | None => Ok (mkERule entry (canonicalHost host) port false false)
       end.

(** [func compileRule(raw string) (Rule, error)] *)
Definition compileRule (raw : string) : result ERule :=
  let entry := trim_space raw in
  if bool_decide (entry = "") then Err "empty entry"
  else if contains_any entry (String "/"%char (String " "%char (str1 (ascii_of_nat 9))))
  then Err (quote raw +:+ ": entries are host[:port], not URLs or paths")
  else
    let! hp := wrap_err (quote raw +:+ ": ") (splitHostPort entry) in
    let! port := parse_port raw (snd hp) in
    compile_host raw entry port (to_lower (fst hp)).

(** The loop of [compileRules]: [seen] are the raw texts already kept. *)
Fixpoint compile_loop (field : string) (entries seen : list string) : result (list ERule) :=
  match entries with
  | [] => Ok []
  | raw :: entries =>
      let! r := wrap_err ("egress policy: " +:+ field +:+ ": ") (compileRule raw) in
      if bool_decide (er_raw r ∈ seen) then compile_loop field entries seen
      else let! rs := compile_loop field entries (er_raw r :: seen) in Ok (r :: rs)
  end.

(** [func compileRules(entries []string, field string) ([]Rule, error)] *)
Definition compileRules (entries : list string) (field : string) : result (list ERule) :=
  compile_loop field entries [].

(** [func (r Rule) matches(host string, port int) bool] *)
Definition matches (r : ERule) (host : string) (port : Z) : bool :=
  if bool_decide (er_port r ≠ 0%Z) && bool_decide (er_port r ≠ port) then false
  else if bool_decide (er_host r = "*") then true
  else if er_is_ip r then bool_decide (er_host r = host)
  else if er_wildcard r then
    let suffix := drop_str 1 (er_host r) in
    has_suffix host suffix && (String.length suffix <? String.length host)%nat
  else bool_decide (er_host r = host).

(** ** Denied address ranges (the parser and the test live in guard.go) *)

Record cidrRule := mkCidr { ci_raw : string; ci_prefix : Prefix }.

(** [func (r cidrRule) contains(ip netip.Addr) bool] *)
Definition cidr_contains (r : cidrRule) (ip : Addr) : bool :=
  Contains (ci_prefix r) (Unmap ip).

(** [func parseCIDR(entry string) (cidrRule, error)]; the text of a netip
    error is abstracted to one message. *)
Definition parseCIDR (entry : string) : result cidrRule :=
  let e := trim_space entry in
  if contains e "/" then
    match ParsePrefix e with
    | None => Err (quote entry +:+ ": invalid prefix")
    | Some p =>
        if Is4In6 (px_addr p) then
          if bool_decide (px_bits p < 96)%Z
          then Err (quote entry +:+ ": an IPv4-mapped prefix must cover at least 96 bits")
          else Ok (mkCidr entry (Masked (mkPrefix (Unmap (px_addr p)) (px_bits p - 96))))
        else Ok (mkCidr entry (Masked p))
    end
  else match ParseAddr e with
       | None => Err (quote entry +:+ ": invalid address")
       | Some a => let a := Unmap a in Ok (mkCidr entry (mkPrefix a (BitLen a)))
       end.

Fixpoint parse_cidrs (entries : list string) : result (list cidrRule) :=
  match entries with
  | [] => Ok []
  | e :: es =>
      let! c := wrap_err "egress policy: denied_resolved_addresses: " (parseCIDR e) in
      let! cs := parse_cidrs es in Ok (c :: cs)
  end.

(** ** Policies *)

Record Compiled := mkCompiled {
  c_policy : Policy;
  c_allowed : list ERule;
  c_denied : list ERule;
  c_denied_addrs : list cidrRule;
}.

(** [func Parse(p Policy) (Compiled, error)] *)
Definition Parse (p : Policy) : result Compiled :=
  let! a := compileRules (po_allowed p) "allowed_domains" in
  let! d := compileRules (po_denied p) "denied_domains" in
  let! c := parse_cidrs (po_denied_addrs p) in
  Ok (mkCompiled p a d c).

(** [func (c Compiled) matchAllow(host string, port int) (Rule, bool)] *)
Definition matchAllowRule (c : Compiled) (host : string) (port : Z) : option ERule :=
  find_first (λ r, matches r host port) (c_allowed c).

Definition dest (h : string) (port : Z) : string := h +:+ ":" +:+ itoa port.

(** [func (c Compiled) Decide(host string, port int) Verdict] *)
Definition Decide (c : Compiled) (host : string) (port : Z) : Verdict :=
  let h := canonicalHost host in
  match find_first (λ r, matches r h port) (c_denied c) with
  | Some r =>
      let reason := default "" (po_reasons (c_policy c) !! er_raw r) in
      let reason := if bool_decide (reason = "")
                    then dest h port +:+ " is on the egress deny list" else reason in
      mkVerdict false CodeDeniedDomain (er_raw r) reason h port ""
  | None =>
      match matchAllowRule c h port with
      | Some r => mkVerdict true CodeAllowed (er_raw r) "" h port ""
      | None =>
          let reason := if po_strict (c_policy c)
                        then dest h port +:+ " is not allowed (strict allowlist)"
                        else dest h port +:+ " is not on the egress allow list" in
          mkVerdict false CodeNotAllowed "" reason h port ""
      end
  end.

(** [func (c Compiled) AllowsLiteral(host string, port int) bool] *)
Definition AllowsLiteral (c : Compiled) (host : string) (port : Z) : bool :=
  let h := canonicalHost host in
  any (λ r, er_is_ip r && matches r h port) (c_allowed c).

(** [func (c Compiled) DeniedAddressReason(ip netip.Addr) (string, bool)] *)
Definition DeniedAddressReason (c : Compiled) (ip : Addr) : option string :=
  ci_raw <$> find_first (λ r, cidr_contains r ip) (c_denied_addrs c).

(** [sort.Strings]: insertion into a sorted list, by byte order. *)
Fixpoint insert_str (s : string) (l : list string) : list string :=
  match l with
  | [] => [s]
  | x :: l => if String.leb s x then s :: x :: l else x :: insert_str s l
  end.
Definition sort_strings (l : list string) : list string := foldr insert_str [] l.

(** [func (c Compiled) Strings() (allow, deny []string)] *)
Definition Strings (c : Compiled) : list string * list string :=
  (sort_strings (er_raw <$> c_allowed c), sort_strings (er_raw <$> c_denied c)).

(** [func matchDomain(pattern, host string) bool] *)
Definition matchDomain (pattern host : string) : bool :=
  match compileRule pattern with
  | Err _ => false
  | Ok r => if bool_decide (er_port r ≠ 0%Z) then false else matches r host 0
  end.

(** ** Lemmas *)

#[local] Arguments String.append : simpl nomatch.

(** Every kept rule was compiled from an entry, and every entry is represented
    by a kept rule with its text. *)
Lemma compile_loop_spec field entries seen rs :
  compile_loop field entries seen = Ok rs →
  (∀ r, r ∈ rs → ∃ raw, raw ∈ entries ∧ compileRule raw = Ok r) ∧
  (∀ raw, raw ∈ entries → ∃ r, compileRule raw = Ok r ∧
     (er_raw r ∈ seen ∨ ∃ r', r' ∈ rs ∧ er_raw r' = er_raw r)).
Proof.
  revert seen rs; induction entries as [|raw entries IH]; intros seen rs H; simpl in H.
  { injection H as <-. set_solver. }
  apply rbind_Ok in H as (r & Er%wrap_err_Ok & H).
  case_bool_decide as Hs.
  - destruct (IH _ _ H) as [H1 H2]. split; [set_solver|].
    intros raw' [->|?]%elem_of_cons; [eauto|auto].
  - apply rbind_Ok in H as (rs' & H & [= <-]). destruct (IH _ _ H) as [H1 H2]. split.
    + intros r' [->|?]%elem_of_cons; [set_solver|]. destruct (H1 r'); set_solver.
    + intros raw' [->|Hr]%elem_of_cons; [exists r; set_solver|].
      destruct (H2 raw' Hr) as (r' & ? & [?|(r2 & ? & ?)]); exists r'; set_solver.
Qed.

Lemma compileRules_spec entries field rs :
  compileRules entries field = Ok rs →
  (∀ r, r ∈ rs → ∃ raw, raw ∈ entries ∧ compileRule raw = Ok r) ∧
  (∀ raw, raw ∈ entries → ∃ r r', compileRule raw = Ok r ∧ r' ∈ rs ∧ er_raw r' = er_raw r).
Proof.
  intros H. destruct (compile_loop_spec _ _ _ _ H) as [H1 H2]. split; [done|].
  intros raw Hr. destruct (H2 raw Hr) as (r & ? & [?|(r' & ? & ?)]); set_solver.
Qed.

Lemma compileRule_inv raw r :
  compileRule raw = Ok r →
  ∃ host portStr port,
    trim_space raw ≠ "" ∧ splitHostPort (trim_space raw) = Ok (host, portStr) ∧
    parse_port raw portStr = Ok port ∧
    compile_host raw (trim_space raw) port (to_lower host) = Ok r.
Proof.
  unfold compileRule. case_bool_decide; [done|]. destruct (contains_any _ _); [done|].
  intros ([h ps] & Hs%wrap_err_Ok & (port & Hp & Hc)%rbind_Ok)%rbind_Ok.
  simpl in *. eauto 10.
Qed.

(** The text of an entry only matters to the error messages. *)
Lemma parse_port_raw raw raw' s p : parse_port raw s = Ok p → parse_port raw' s = Ok p.
Proof. unfold parse_port. intros H. repeat case_match; congruence. Qed.
Lemma compile_host_raw raw raw' e p h r :
  compile_host raw e p h = Ok r → compile_host raw' e p h = Ok r.
Proof. unfold compile_host. intros H. repeat case_match; congruence. Qed.

Lemma compile_host_fields raw e p h r :
  compile_host raw e p h = Ok r → er_raw r = e ∧ er_port r = p.
Proof. unfold compile_host. intros H. repeat case_match; by simplify_eq. Qed.

Lemma compileRule_raw raw r : compileRule raw = Ok r → er_raw r = trim_space raw.
Proof. intros (h & ps & p & _ & _ & _ & Hc)%compileRule_inv. by apply compile_host_fields in Hc as []. Qed.

Lemma compileRule_port raw r : compileRule raw = Ok r → (0 ≤ er_port r ≤ 65535)%Z.
Proof.
  intros (h & ps & p & _ & _ & Hp & Hc)%compileRule_inv.
  apply compile_host_fields in Hc as [_ ->]. unfold parse_port in Hp.
  repeat (case_match; simpl_bool); simplify_eq; lia.
Qed.

Lemma compileRule_trim raw raw' r r' :
  compileRule raw = Ok r → compileRule raw' = Ok r' → trim_space raw = trim_space raw' → r = r'.
Proof.
  intros (h & ps & p & _ & Hs & Hp & Hc)%compileRule_inv.
  intros (h' & ps' & p' & _ & Hs' & Hp' & Hc')%compileRule_inv E.
  rewrite E in *. rewrite Hs in Hs'. simplify_eq.
  apply (parse_port_raw _ raw') in Hp. rewrite Hp in Hp'. simplify_eq.
  apply (compile_host_raw _ raw') in Hc. congruence.
Qed.

Lemma parse_cidrs_spec entries cs :
  parse_cidrs entries = Ok cs →
  (∀ c, c ∈ cs → ∃ e, e ∈ entries ∧ parseCIDR e = Ok c) ∧
  (∀ e, e ∈ entries → ∃ c, c ∈ cs ∧ parseCIDR e = Ok c).
Proof.
  revert cs; induction entries as [|e es IH]; intros cs H; simpl in H.
  { injection H as <-. set_solver. }
  apply rbind_Ok in H as (c & Hc%wrap_err_Ok & (cs' & H & [= <-])%rbind_Ok).
  destruct (IH _ H) as [H1 H2]. split.
  - intros c' [->|Hc']%elem_of_cons; [set_solver|]. destruct (H1 c' Hc'); set_solver.
  - intros e' [->|He]%elem_of_cons; [set_solver|]. destruct (H2 e' He); set_solver.
Qed.

(** The rules of a field are exactly the compiled entries of that field. *)
Lemma compileRules_exact entries field rs :
  compileRules entries field = Ok rs →
  ∀ r, r ∈ rs ↔ ∃ raw, raw ∈ entries ∧ compileRule raw = Ok r.
Proof.
  intros H r. destruct (compileRules_spec _ _ _ H) as [H1 H2]. split; [apply H1|].
  intros (raw & Hraw & Hr). destruct (H2 raw Hraw) as (r0 & r' & Hr0 & Hin & Heq).
  destruct (H1 r' Hin) as (raw' & _ & Hr').
  rewrite (compileRule_raw _ _ Hr'), (compileRule_raw _ _ Hr0) in Heq.
  by rewrite (compileRule_trim _ _ _ _ Hr Hr').
Qed.

Lemma compile_loop_ok field entries seen :
  (∀ raw, raw ∈ entries → is_ok (compileRule raw) = true) →
  is_ok (compile_loop field entries seen) = true.
Proof.
  revert seen; induction entries as [|raw entries IH]; intros seen H; [done|]. simpl.
  pose proof (H raw) as Hr. destruct (compileRule raw); simpl; [|by apply Hr; left].
  case_bool_decide; [apply IH; set_solver|].
  specialize (IH (er_raw a :: seen)). destruct (compile_loop _ _ _); [done|].
  apply IH. set_solver.
Qed.

Lemma parse_cidrs_ok entries :
  (∀ e, e ∈ entries → is_ok (parseCIDR e) = true) → is_ok (parse_cidrs entries) = true.
Proof.
  induction entries as [|e es IH]; intros H; [done|]. simpl.
  pose proof (H e) as He. destruct (parseCIDR e); simpl; [|by apply He; left].
  destruct (parse_cidrs es); [done|]. apply IH. set_solver.
Qed.

Lemma drop1_cons c s : drop_str 1 (String c s) = s.
Proof. by destruct s. Qed.

Lemma compile_host_wildcard raw e p h r :
  compile_host raw e p h = Ok r → er_wildcard r = true →
  (h = "*" ∧ er_host r = "*") ∨
  (∃ d, h = "*." +:+ d ∧ er_host r = String "."%char (canonicalHost (trim_prefix (String "."%char d) ".")) ∧
        er_is_ip r = false).
Proof.
  unfold compile_host. case_bool_decide as Hs.
  { intros [= <-] _. by left. }
  destruct (has_prefix h "*.") eqn:Hp.
  - apply has_prefix_spec in Hp as [d ->]. case_match; [done|]. intros [= <-] _.
    right. exists d. done.
  - intros H Hw. repeat case_match; by simplify_eq.
Qed.

(** ** Properties *)

(** What the policy file means: a destination is reachable when no deny entry
    covers it and some allow entry does. *)
Definition policy_allows (c : Compiled) (host : string) (port : Z) : Prop :=
  (∀ r, r ∈ c_denied c → matches r (canonicalHost host) port = false) ∧
  ∃ r, r ∈ c_allowed c ∧ matches r (canonicalHost host) port = true.

(** C27: deny first, allow only. [Decide] allows a destination exactly when no
    deny entry matches it and an allow entry does; a matching deny entry wins
    over every allow entry and is the one reported; an empty allow list allows
    nothing; every verdict is about the canonical destination, every refusal
    carries a reason, and the code says [allowed] exactly on an allow. *)
Theorem Decide_deny_first (c : Compiled) (host : string) (port : Z) :
  let v := Decide c host port in
  (v_allow v = true ↔ policy_allows c host port) ∧
  (v_allow v = true ↔ v_code v = CodeAllowed) ∧
  (v_code v = CodeDeniedDomain ↔
     ∃ r, r ∈ c_denied c ∧ matches r (canonicalHost host) port = true) ∧
  (v_code v = CodeDeniedDomain →
     ∃ r l1 l2, c_denied c = l1 ++ r :: l2 ∧ er_raw r = v_rule v ∧
       matches r (canonicalHost host) port = true ∧
       ∀ r', r' ∈ l1 → matches r' (canonicalHost host) port = false) ∧
  (v_allow v = false → v_reason v ≠ "") ∧
  v_host v = canonicalHost host ∧ v_port v = port.
Proof.
  intros v. unfold v, Decide, policy_allows, matchAllowRule.
  assert (Hne : ∀ p s, p +:+ ":" +:+ s ≠ "") by (intros p s; by destruct p).
  destruct (find_first _ (c_denied c)) as [r|] eqn:Ed.
  - pose proof Ed as (Hr & l1 & l2 & Hl & Hl1)%find_first_split.
    assert (r ∈ c_denied c) by (rewrite Hl; set_solver). simpl.
    split_and!; try done.
    + split; [done|]. intros [Hd _]. specialize (Hd r). rewrite Hr in Hd. naive_solver.
    + split; [|done]. intros _. eauto.
    + intros _. by exists r, l1, l2.
    + intros _. case_bool_decide; [|done]. unfold dest. rewrite !app_assoc_str. apply Hne.
  - rewrite find_first_None in Ed.
    assert (Hnd : ¬ ∃ r, r ∈ c_denied c ∧ matches r (canonicalHost host) port = true).
    { intros (r & Hr & Hm). by rewrite Ed in Hm. }
    destruct (find_first _ (c_allowed c)) as [r|] eqn:Ea; simpl.
    + apply find_first_Some in Ea as [? ?]. split_and!; try done. naive_solver.
    + rewrite find_first_None in Ea. split_and!; try done.
      * split; [done|]. intros [_ (r & Hr & Hm)]. by rewrite Ea in Hm.
      * intros _. destruct (po_strict _); unfold dest; rewrite !app_assoc_str; apply Hne.
Qed.

(** a policy file is applied whole or refused. [Parse] succeeds exactly
    when every allow entry, every deny entry and every address range is well
    formed; the compiled rules are then exactly the compiled entries, none lost
    and none invented, with ports between 0 (any) and 65535. *)
Theorem Parse_whole (p : Policy) :
  (is_ok (Parse p) = true ↔
     (∀ raw, raw ∈ po_allowed p ++ po_denied p → is_ok (compileRule raw) = true) ∧
     (∀ e, e ∈ po_denied_addrs p → is_ok (parseCIDR e) = true)) ∧
  (∀ c, Parse p = Ok c →
     (∀ r, r ∈ c_allowed c ↔ ∃ raw, raw ∈ po_allowed p ∧ compileRule raw = Ok r) ∧
     (∀ r, r ∈ c_denied c ↔ ∃ raw, raw ∈ po_denied p ∧ compileRule raw = Ok r) ∧
     (∀ r, r ∈ c_allowed c ++ c_denied c → (0 ≤ er_port r ≤ 65535)%Z) ∧
     (∀ x, x ∈ c_denied_addrs c ↔ ∃ e, e ∈ po_denied_addrs p ∧ parseCIDR e = Ok x)).
Proof.
  split.
  - split.
    + unfold Parse. intros H.
      destruct (compileRules (po_allowed p) _) as [a|] eqn:Ea; [|done].
      destruct (compileRules (po_denied p) _) as [d|] eqn:Ed; [|done].
      destruct (parse_cidrs _) as [x|] eqn:Ex; [|done]. split.
      * intros raw [Hr|Hr]%elem_of_app;
          [destruct (compileRules_spec _ _ _ Ea) as [_ H2]|destruct (compileRules_spec _ _ _ Ed) as [_ H2]];
          destruct (H2 raw Hr) as (? & ? & -> & _); done.
      * intros e He. destruct (parse_cidrs_spec _ _ Ex) as [_ H2].
        destruct (H2 e He) as (? & _ & ->). done.
    + intros [H1 H2]. unfold Parse, compileRules.
      pose proof (compile_loop_ok "allowed_domains" (po_allowed p) []) as Ha.
      pose proof (compile_loop_ok "denied_domains" (po_denied p) []) as Hd.
      pose proof (parse_cidrs_ok (po_denied_addrs p) H2) as Hc.
      destruct (compile_loop _ (po_allowed p) _); [|by apply Ha; set_solver].
      destruct (compile_loop _ (po_denied p) _); [|by apply Hd; set_solver].
      by destruct (parse_cidrs _).
  - unfold Parse. intros c (a & Ha & (d & Hd & (x & Hx & [= <-])%rbind_Ok)%rbind_Ok)%rbind_Ok.
    simpl. pose proof (compileRules_exact _ _ _ Ha) as Ha'.
    pose proof (compileRules_exact _ _ _ Hd) as Hd'.
    split_and!; try done.
    + intros r [(raw & _ & Hr)%Ha'|(raw & _ & Hr)%Hd']%elem_of_app;
        by eapply compileRule_port.
    + destruct (parse_cidrs_spec _ _ Hx) as [H1 H2]. intros y. split; [apply H1|].
      intros (e & He & Hy). destruct (H2 e He) as (y' & Hy' & E). congruence.
Qed.

Definition demo_policy : Policy :=
  mkPolicy ["*.npmjs.org"; "api.github.com:443"] ["telemetry.npmjs.org"] ∅ ["10.0.0.0/8"] false.

(** What a [*.] entry really covers. A wildcard rule compiled from
    [*.d] matches, on its port, every host that ends in [d] and is longer: no
    label boundary is asked for. So [*.npmjs.org] covers [evilnpmjs.org], a
    domain anyone can register, and not only the names below [npmjs.org]. *)
Theorem wildcard_has_no_label_boundary (raw : string) (r : ERule) :
  compileRule raw = Ok r → er_wildcard r = true → er_host r ≠ "*" →
  ∃ d, er_host r = "." +:+ d ∧
    (∀ host port, matches r host port = true ↔
       (er_port r = 0%Z ∨ er_port r = port) ∧ ∃ p, p ≠ "" ∧ host = p +:+ d) ∧
    (∀ port, er_port r = 0%Z ∨ er_port r = port → matches r ("evil" +:+ d) port = true).
Proof.
  intros (h & ps & pt & _ & _ & _ & Hc)%compileRule_inv Hw Hstar.
  destruct (compile_host_wildcard _ _ _ _ _ Hc Hw) as [[_ ?]|(d & _ & Hh & Hip)]; [done|].
  set (d' := canonicalHost _) in Hh. exists d'.
  assert (Hm : ∀ host port, matches r host port = true ↔
       (er_port r = 0%Z ∨ er_port r = port) ∧ ∃ p, p ≠ "" ∧ host = p +:+ d').
  { intros host port. unfold matches. rewrite Hh, Hip, Hw, drop1_cons.
    rewrite (bool_decide_eq_false_2 (String _ _ = "*")) by done.
    destruct (bool_decide (er_port r ≠ 0%Z) && bool_decide (er_port r ≠ port)) eqn:Ep.
    { simpl_bool. split; [done|]. intros [[?|?] _]; done. }
    apply andb_false_iff in Ep. rewrite andb_true_iff, has_suffix_spec, Nat.ltb_lt.
    split.
    - intros [[p ->] Hl]. split.
      { destruct Ep; simpl_bool; [left|right]; by apply dec_stable. }
      exists p. split; [|done]. intros ->. simpl in Hl. lia.
    - intros [_ (p & Hp & ->)]. split; [by exists p|]. rewrite length_app_str.
      destruct p; [done|]. simpl. lia. }
  split; [done|]. split; [done|]. intros port Hport. apply Hm. split; [done|]. by exists "evil".
Qed.

Example evil_is_allowed :
  (λ c, v_allow (Decide c "evilnpmjs.org" 443)) <$> match Parse demo_policy with Ok c => Some c | Err _ => None end
  = Some true.
Proof. vm_compute. reflexivity. Qed.
