(* ===== verification/EgressGuard.v ===== *)
(** pkg/egress/guard.go: the resolved-address check. A name on the allow list
    is resolved once, every answer is vetted, and one vetted address is dialled.

    The clock and the interface list are read again for every candidate
    address, so a run takes a [nat → Reading]: what is seen while the [i]-th
    candidate is checked. The resolver is the injectable [lookup] field of the
    source and a parameter here. *)

From S2P Require Import Prelude GoStrings NetAddr EgressPolicy.

(** ** Classes of addresses *)

(** [var metadataAddrs] *)
Definition metadataAddrs : list Addr :=
  omap ParseAddr
    ["100.100.100.200"; "168.63.129.16"; "192.0.0.192"; "169.254.169.254";
     "fd00:ec2::254"; "fd20:ce::254"; "fd00:c1::a9fe:a9fe"; "fd00:42::42"].

(** [func blockedClass(ip netip.Addr) string]; its two multicast cases name
    subsets of [IsMulticast] and say the same thing. *)
Definition blockedClass (ip : Addr) : string :=
  if IsLoopback ip then "a loopback address"
  else if IsUnspecified ip then "the unspecified address"
  else if IsLinkLocalUnicast ip then "a link-local address"
  else if IsMulticast ip then "a multicast address"
  else if any (λ m, bool_decide (m = ip)) metadataAddrs then "a cloud metadata endpoint"
  else "".

(** ** This host's own addresses *)

(** What [iface.Addrs()] lists: the two concrete types the code looks into,
    holding the bytes of a [net.IP], and any other. *)
Inductive IfAddr :=
| IPNetAddr (ip : list Z)
| IPAddrAddr (ip : list Z)
| OtherAddr.

(** [netip.AddrFromSlice]. *)
Definition AddrFromSlice (bs : list Z) : option Addr :=
  if (length bs =? 4)%nat then Some (V4 (be_val bs 0))
  else if (length bs =? 16)%nat then Some (V6 (be_val bs 0) "")
  else None.

Definition ifaddr_ip (a : IfAddr) : option Addr :=
  match a with
  | IPNetAddr bs | IPAddrAddr bs => Unmap <$> AddrFromSlice bs
  | OtherAddr => None
  end.

(** [func currentInterfaceAddrs()], given what [net.Interfaces] answers: an
    error, or one listing per interface, which may itself be an error. *)
Definition currentInterfaceAddrs (ifaces : result (list (result (list IfAddr))))
    : result (list Addr) :=
  let! l := ifaces in
  Ok (mbind (λ r, match r with Ok addrs => omap ifaddr_ip addrs | Err _ => [] end) l).

Definition ownAddrCacheTTL : Z := 30 * ns_second.

Record Reading := mkReading {
  rd_now : gotime;
  rd_ifaces : result (list (result (list IfAddr)));
}.

(** [type dialer struct]; [None] is the nil map. *)
Record dialer := mkDialer {
  d_policy : Compiled;
  d_timeout : Z;
  d_ownAddrs : option (list Addr);
  d_ownAt : gotime;
}.

(** [func newDialer(p Compiled, timeout)] *)
Definition newDialer (p : Compiled) (timeout : Z) : dialer :=
  mkDialer p (if bool_decide (timeout ≤ 0)%Z then (30 * ns_second)%Z else timeout) None 0.

(** [func (d dialer) setPolicy(p Compiled)] *)
Definition setPolicy (d : dialer) (p : Compiled) : dialer :=
  mkDialer p (d_timeout d) (d_ownAddrs d) (d_ownAt d).

(** [func (d dialer) isOwnAddr(ip netip.Addr) bool] *)
Definition isOwnAddr (rd : Reading) (d : dialer) (ip : Addr) : bool * dialer :=
  let lookup_in s := any (λ a, bool_decide (a = Unmap ip)) s in
  let refresh :=
    match currentInterfaceAddrs (rd_ifaces rd) with
    | Err _ => (true, d)
    | Ok addrs => (lookup_in addrs, mkDialer (d_policy d) (d_timeout d) (Some addrs) (rd_now rd))
    end in
  match d_ownAddrs d with
  | None => refresh
  | Some s =>
      if bool_decide (ownAddrCacheTTL < rd_now rd - d_ownAt d)%Z then refresh
      else (lookup_in s, d)
  end.

(** ** Refusals *)

(** [type DenyError struct] *)
Record DenyError := mkDeny { de_verdict : Verdict; de_lookup : option string }.

(** [func (e DenyError) Error() string] *)
Definition DenyError_Error (e : DenyError) : string :=
  if bool_decide (v_reason (de_verdict e) ≠ "") then v_reason (de_verdict e)
  else "connection refused by egress policy".

(** An error of the dial path: a refusal, a wrapper, or anything else. *)
Inductive goerror :=
| EDeny (d : DenyError)
| EWrap (msg : string) (e : goerror)
| ELeaf (msg : string).

(** [func asDenyError(err error) (DenyError, bool)] *)
Fixpoint asDenyError (e : goerror) : option DenyError :=
  match e with
  | EDeny d => Some d
  | EWrap _ e => asDenyError e
  | ELeaf _ => None
  end.

(** [func (d dialer) checkAddr(ip netip.Addr, host string, port int) DenyError] *)
Definition checkAddr (rd : Reading) (d : dialer) (ip : Addr) (host : string) (port : Z)
    : option DenyError * dialer :=
  let deny why :=
    mkDeny (mkVerdict false CodeDeniedAddress ""
              (host +:+ " resolves to " +:+ why +:+ ", which egress does not reach")
              host port (addr_string ip)) None in
  let class := blockedClass ip in
  if bool_decide (class ≠ "") then (Some (deny class), d)
  else match DeniedAddressReason (d_policy d) ip with
       | Some rule => (Some (deny ("a denied address range (" +:+ rule +:+ ")")), d)
       | None =>
           let '(own, d) := isOwnAddr rd d ip in
           (if own then Some (deny "this host's own address") else None, d)
       end.

Definition plain_deny (reason : string) (lookup : option string) : DenyError :=
  mkDeny (mkVerdict false CodeDeniedAddress "" reason "" 0 "") lookup.

(** The loop of [vet] over the resolver's answers; [first] is [firstRefusal]. *)
Fixpoint vet_loop (rds : nat → Reading) (i : nat) (d : dialer) (addrs : list Addr)
    (host : string) (port : Z) (first : string) : (Addr + DenyError) * dialer :=
  match addrs with
  | [] => (inr (mkDeny (mkVerdict false CodeDeniedAddress "" first host port "") None), d)
  | a :: addrs =>
      let a := Unmap a in
      match checkAddr (rds i) d a host port with
      | (Some deny, d) =>
          vet_loop rds (S i) d addrs host port
            (if bool_decide (first = "") then v_reason (de_verdict deny) else first)
      | (None, d) => (inl a, d)
      end
  end.

(** [func (d dialer) vet(ctx, host string, port int) (netip.Addr, DenyError)] *)
Definition vet (lookup : string → result (list Addr)) (rds : nat → Reading) (d : dialer)
    (host : string) (port : Z) : (Addr + DenyError) * dialer :=
  if isIPLiteral host then
    match ParseAddr (canonicalHost host) with
    | None => (inr (plain_deny (host +:+ " is not a usable address") None), d)
    | Some ip =>
        let ip := Unmap ip in
        if AllowsLiteral (d_policy d) host port then (inl ip, d)
        else match checkAddr (rds O) d ip host port with
             | (Some deny, d) => (inr deny, d)
             | (None, d) => (inl ip, d)
             end
    end
  else match lookup host with
       | Err e => (inr (plain_deny (host +:+ " did not resolve") (Some e)), d)
       | Ok [] => (inr (plain_deny (host +:+ " resolved to no addresses") None), d)
       | Ok addrs => vet_loop rds O d addrs host port ""
       end.

(** [net.JoinHostPort]. *)
Definition JoinHostPort (host port : string) : string :=
  if mem_char ":"%char host || mem_char "%"%char host
  then "[" +:+ host +:+ "]:" +:+ port else host +:+ ":" +:+ port.

(** [func (d dialer) dialAllowingVetted(...)]: the connection dialled is known
    by its target; [connect] is the operating system's answer to a target. *)
Definition dialAllowingVetted (lookup : string → result (list Addr)) (rds : nat → Reading)
    (connect : string → option goerror) (d : dialer) (host : string) (port : Z)
    : (string + goerror) * dialer :=
  match vet lookup rds d host port with
  | (inr deny, d) => (inr (EDeny deny), d)
  | (inl ip, d) =>
      let target := JoinHostPort (addr_string ip) (itoa port) in
      (match connect target with None => inl target | Some e => inr e end, d)
  end.

(** ** Lemmas *)

Lemma ifaddr_ip_zone a ip : ifaddr_ip a = Some ip → addr_zone ip = "" ∧ Unmap ip = ip.
Proof.
  assert (H : ∀ bs, Unmap <$> AddrFromSlice bs = Some ip → addr_zone ip = "" ∧ Unmap ip = ip).
  { intros bs. unfold AddrFromSlice.
    destruct (_ =? 4)%nat; [intros E|destruct (_ =? 16)%nat; intros E; [|done]];
      apply fmap_Some in E as (x & E & ->); simplify_eq; [done|].
    split; [|apply Unmap_Unmap]. unfold Unmap. by destruct (Is4In6 _). }
  destruct a; simpl; [apply H|apply H|done].
Qed.

Lemma currentInterfaceAddrs_zone ifs s ip :
  currentInterfaceAddrs ifs = Ok s → ip ∈ s → addr_zone ip = "" ∧ Unmap ip = ip.
Proof.
  intros (l & -> & [= <-])%rbind_Ok. intros (r & Hip & Hr)%list_elem_of_bind.
  destruct r as [addrs|]; [|set_solver].
  apply list_elem_of_omap in Hip as (a & _ & Ha). by eapply ifaddr_ip_zone.
Qed.

(** The cached interface set is what some past reading listed at [ownAt]. *)
Definition own_wf (hist : list Reading) (d : dialer) : Prop :=
  ∀ s, d_ownAddrs d = Some s →
    ∃ rd, rd ∈ hist ∧ rd_now rd = d_ownAt d ∧ currentInterfaceAddrs (rd_ifaces rd) = Ok s.

(** [ip] was not an address of this host, as read at most the TTL before. *)
Definition not_own (hist : list Reading) (now : gotime) (ip : Addr) : Prop :=
  ∃ rd s, rd ∈ hist ∧ currentInterfaceAddrs (rd_ifaces rd) = Ok s ∧ ip ∉ s ∧
          (now - rd_now rd ≤ ownAddrCacheTTL)%Z.

Lemma isOwnAddr_spec hist rd d ip b d' :
  own_wf hist d → isOwnAddr rd d ip = (b, d') →
  own_wf (rd :: hist) d' ∧ d_policy d' = d_policy d ∧
  (b = false → not_own (rd :: hist) (rd_now rd) (Unmap ip)).
Proof.
  intros Hwf. unfold isOwnAddr.
  assert (Hr : ∀ b d',
    match currentInterfaceAddrs (rd_ifaces rd) with
    | Err _ => (true, d)
    | Ok addrs => (any (λ a, bool_decide (a = Unmap ip)) addrs,
                   mkDialer (d_policy d) (d_timeout d) (Some addrs) (rd_now rd))
    end = (b, d') →
    own_wf (rd :: hist) d' ∧ d_policy d' = d_policy d ∧
    (b = false → not_own (rd :: hist) (rd_now rd) (Unmap ip))).
  { intros b0 d0. destruct (currentInterfaceAddrs _) as [s|] eqn:E; intros [= <- <-].
    - split_and!; [|done|].
      + intros ? [= <-]. exists rd. set_solver.
      + intros Hf. pose proof (proj1 (any_false _ _) Hf) as Hf'. exists rd, s. split_and!; [set_solver|done| |unfold ownAddrCacheTTL, ns_second; lia].
        intros Hin. apply Hf' in Hin. by simpl_bool.
    - split_and!; [|done|done]. intros s Hs. destruct (Hwf s Hs) as (rd' & ? & ?). exists rd'. set_solver. }
  destruct (d_ownAddrs d) as [s|] eqn:Es; [|apply Hr].
  case_bool_decide as Ht; [apply Hr|]. intros [= <- <-].
  destruct (Hwf s Es) as (rd' & Hin & Hnow & Hs). split_and!; [|done|].
  - intros s' Hs'. exists rd'. rewrite Es in Hs'. injection Hs' as <-. set_solver.
  - intros Hf. pose proof (proj1 (any_false _ _) Hf) as Hf'. exists rd', s. split_and!; [set_solver|done| |lia].
    intros Hin'. apply Hf' in Hin'. by simpl_bool.
Qed.

(** What an address must satisfy to be dialled without an explicit literal. *)
Definition address_ok (hist : list Reading) (now : gotime) (c : Compiled) (ip : Addr) : Prop :=
  blockedClass ip = "" ∧
  (∀ r, r ∈ c_denied_addrs c → cidr_contains r ip = false) ∧
  not_own hist now ip.

Lemma checkAddr_spec hist rd d ip host port o d' :
  own_wf hist d → checkAddr rd d ip host port = (o, d') → Unmap ip = ip →
  own_wf (rd :: hist) d' ∧ d_policy d' = d_policy d ∧
  match o with
  | None => address_ok (rd :: hist) (rd_now rd) (d_policy d) ip
  | Some e => v_allow (de_verdict e) = false ∧ v_code (de_verdict e) = CodeDeniedAddress ∧
              v_reason (de_verdict e) ≠ "" ∧ de_lookup e = None
  end.
Proof.
  intros Hwf H Hu. unfold checkAddr in H.
  assert (Hwf' : own_wf (rd :: hist) d).
  { intros s Hs. destruct (Hwf s Hs) as (rd' & ? & ?). exists rd'. set_solver. }
  assert (Hne : ∀ p s, p +:+ " resolves to " +:+ s ≠ "") by (intros p s; by destruct p).
  case_bool_decide as Hb.
  { injection H as <- <-. simpl. auto 10. }
  destruct (DeniedAddressReason _ _) as [rule|] eqn:Er.
  { injection H as <- <-. simpl. auto 10. }
  destruct (isOwnAddr rd d ip) as [own d1] eqn:Eo.
  destruct (isOwnAddr_spec _ _ _ _ _ _ Hwf Eo) as (H1 & H2 & H3).
  destruct own; injection H as <- <-; simpl; [by auto 10|].
  split_and!; [done|done|]. split_and!.
  - by destruct (decide (blockedClass ip = "")).
  - unfold DeniedAddressReason in Er.
    destruct (find_first _ _) eqn:Ef; [done|]. by apply find_first_None.
  - rewrite Hu in H3. by apply H3.
Qed.

Lemma address_ok_mono hist hist' now c ip :
  hist ⊆ hist' → address_ok hist now c ip → address_ok hist' now c ip.
Proof.
  intros Hs (? & ? & rd & s & Hin & ?). split_and!; [done|done|]. exists rd, s. set_solver.
Qed.

(** The readings seen while the first [n] candidates are checked, before those
    of earlier calls. *)
Definition seen (rds : nat → Reading) (n : nat) (hist : list Reading) : list Reading :=
  (rds <$> seq 0 n) ++ hist.

Lemma seen_S rds n hist : rds n :: seen rds n hist ⊆ seen rds (S n) hist.
Proof. unfold seen. rewrite seq_S, fmap_app. set_solver. Qed.

Lemma own_wf_mono hist hist' d : hist ⊆ hist' → own_wf hist d → own_wf hist' d.
Proof. intros Hs H s Hd. destruct (H s Hd) as (rd & ? & ?). exists rd. set_solver. Qed.

Lemma vet_loop_spec rds hist addrs host port : ∀ i d first r d',
  own_wf (seen rds i hist) d →
  vet_loop rds i d addrs host port first = (r, d') →
  (∃ n, own_wf (seen rds n hist) d') ∧ d_policy d' = d_policy d ∧
  match r with
  | inl ip => ∃ a n, a ∈ addrs ∧ ip = Unmap a ∧
                address_ok (seen rds (S n) hist) (rd_now (rds n)) (d_policy d) ip
  | inr e => v_allow (de_verdict e) = false ∧ v_code (de_verdict e) = CodeDeniedAddress ∧
             (first ≠ "" ∨ addrs ≠ [] → v_reason (de_verdict e) ≠ "") ∧ de_lookup e = None
  end.
Proof.
  induction addrs as [|a addrs IH]; intros i d first r d' Hwf H; simpl in H.
  { injection H as <- <-. split; [eauto|]. split; [done|]. simpl. naive_solver. }
  destruct (checkAddr _ _ _ _ _) as [o d1] eqn:Ec.
  destruct (checkAddr_spec _ _ _ _ _ _ _ _ Hwf Ec (Unmap_Unmap a)) as (H1 & H2 & H3).
  assert (Hwf1 : own_wf (seen rds (S i) hist) d1) by eauto using own_wf_mono, seen_S.
  destruct o as [e|].
  - destruct (IH _ _ _ _ _ Hwf1 H) as (H4 & H5 & H6). split; [done|]. split; [congruence|].
    destruct r as [ip|e'].
    + destruct H6 as (a' & n & ? & ? & ?). exists a', n. rewrite <- H2. set_solver.
    + destruct H6 as (? & ? & H6 & ?). split_and!; [done|done| |done].
      intros _. apply H6. left. case_bool_decide; [|done]. apply H3.
  - injection H as <- <-. split; [eauto|]. split; [done|]. exists a, i. split_and!; [set_solver|done|].
    eauto using address_ok_mono, seen_S.
Qed.

(** Why an address may be dialled for [host:port]. *)
Definition dial_reason (lookup : string → result (list Addr)) (rds : nat → Reading)
    (hist : list Reading) (c : Compiled) (host : string) (port : Z) (ip : Addr) : Prop :=
  (AllowsLiteral c host port = true ∧ Unmap <$> ParseAddr (canonicalHost host) = Some ip) ∨
  ((Unmap <$> ParseAddr (canonicalHost host) = Some ip ∨
    (isIPLiteral host = false ∧ ∃ l a, lookup host = Ok l ∧ a ∈ l ∧ ip = Unmap a)) ∧
   ∃ n, address_ok (seen rds (S n) hist) (rd_now (rds n)) c ip).

Lemma vet_spec lookup rds hist d host port r d' :
  own_wf hist d → vet lookup rds d host port = (r, d') →
  (∃ n, own_wf (seen rds n hist) d') ∧ d_policy d' = d_policy d ∧
  match r with
  | inl ip => dial_reason lookup rds hist (d_policy d) host port ip
  | inr e => v_allow (de_verdict e) = false ∧ v_code (de_verdict e) = CodeDeniedAddress ∧
             v_reason (de_verdict e) ≠ "" ∧
             (∀ m, de_lookup e = Some m ↔ isIPLiteral host = false ∧ lookup host = Err m)
  end.
Proof.
  intros Hwf. assert (Hwf0 : own_wf (seen rds 0 hist) d) by done.
  assert (Hne : ∀ p s, s ≠ "" → p +:+ s ≠ "") by (intros p s; by destruct p).
  unfold vet. destruct (isIPLiteral host) eqn:Hl.
  - unfold isIPLiteral in Hl. destruct (ParseAddr _) as [a|] eqn:Ea; [|done].
    destruct (AllowsLiteral _ _ _) eqn:Eal.
    { intros [= <- <-]. split; [by exists 0|]. split; [done|]. left. by rewrite Ea. }
    destruct (checkAddr _ _ _ _ _) as [o d1] eqn:Ec. intros H.
    destruct (checkAddr_spec _ _ _ _ _ _ _ _ Hwf Ec (Unmap_Unmap a)) as (H1 & H2 & H3).
    destruct o as [e|]; injection H as <- <-; (split; [by exists 1|]; split; [done|]).
    + destruct H3 as (? & ? & ? & H3). split_and!; try done. intros m. rewrite H3. naive_solver.
    + right. rewrite Ea. split; [by left|]. by exists 0.
  - destruct (lookup host) as [[|a addrs]|e] eqn:El.
    + intros [= <- <-]. split; [by exists 0|]. split; [done|]. simpl.
      split_and!; [done|done|by apply Hne|naive_solver].
    + intros H. destruct (vet_loop_spec _ _ _ _ _ _ _ _ _ _ Hwf0 H) as (H1 & H2 & H3).
      split; [done|]. split; [done|]. destruct r as [ip|e'].
      * destruct H3 as (a' & n & ? & ? & ?). right. split; [|by exists n].
        right. split; [done|]. by exists (a :: addrs), a'.
      * destruct H3 as (? & ? & H3 & Hlk). split_and!; [done|done|apply H3; by right|].
        intros m. rewrite Hlk. naive_solver.
    + intros [= <- <-]. split; [by exists 0|]. split; [done|]. simpl.
      split_and!; [done|done|by apply Hne|naive_solver].
Qed.

(** ** Runs of a dialer *)

Inductive dial_op :=
| ODial (lookup : string → result (list Addr)) (rds : nat → Reading)
        (connect : string → option goerror) (host : string) (port : Z)
| OSetPolicy (p : Compiled).

Definition dial_step (d : dialer) (o : dial_op) : dialer :=
  match o with
  | ODial lookup rds connect host port => snd (dialAllowingVetted lookup rds connect d host port)
  | OSetPolicy p => setPolicy d p
  end.

Definition run_dialer (d : dialer) (os : list dial_op) : dialer := fold_left dial_step os d.

Definition observed (os : list dial_op) (rd : Reading) : Prop :=
  ∃ lookup rds connect host port i, ODial lookup rds connect host port ∈ os ∧ rd = rds i.

Lemma dial_policy lookup rds connect d host port :
  d_policy (snd (dialAllowingVetted lookup rds connect d host port)) =
  d_policy (snd (vet lookup rds d host port)).
Proof. unfold dialAllowingVetted. by destruct (vet _ _ _ _ _) as [[ip|e] d']. Qed.

Lemma dial_state lookup rds connect d host port :
  snd (dialAllowingVetted lookup rds connect d host port) = snd (vet lookup rds d host port).
Proof. unfold dialAllowingVetted. by destruct (vet _ _ _ _ _) as [[ip|e] d']. Qed.

Lemma run_dialer_own p timeout os :
  ∃ hist, (∀ rd, rd ∈ hist → observed os rd) ∧ own_wf hist (run_dialer (newDialer p timeout) os).
Proof.
  induction os as [|o os IH] using rev_ind.
  { exists []. split; [intros rd Hrd; set_solver|]. intros s Hs. discriminate Hs. }
  destruct IH as (hist & Hobs & Hwf). unfold run_dialer in *. rewrite fold_left_app. simpl.
  assert (Hm : ∀ rd, observed os rd → observed (os ++ [o]) rd).
  { intros rd (l & r & c & h & pt & i & ? & ->). exists l, r, c, h, pt, i. set_solver. }
  destruct o as [lookup rds connect host port|p']; [|exists hist; split; [naive_solver|exact Hwf]].
  simpl. rewrite dial_state. destruct (vet _ _ _ _ _) as [r d'] eqn:Ev.
  destruct (vet_spec _ _ _ _ _ _ _ _ Hwf Ev) as ((n & Hn) & _). exists (seen rds n hist).
  split; [|done]. unfold seen. intros rd [(i & -> & _)%list_elem_of_fmap|?]%elem_of_app; [|auto].
  exists lookup, rds, connect, host, port, i. set_solver.
Qed.

(** ** Properties *)

(** C3: nothing is dialled unvetted. Whatever the dialer did before, a
    connection is only opened to the printed form of one address, and either the
    operator's allow list names that literal, or the address is the given
    literal or an answer of this very lookup, is in no blocked class, in no
    denied range of the policy in force, and not an address of this host as its
    interfaces were listed at most thirty seconds before the check. *)
Theorem dial_vetted (p : Compiled) (timeout : Z) (os : list dial_op)
    (lookup : string → result (list Addr)) (rds : nat → Reading)
    (connect : string → option goerror) (host : string) (port : Z) (target : string) (d' : dialer) :
  dialAllowingVetted lookup rds connect (run_dialer (newDialer p timeout) os) host port
    = (inl target, d') →
  ∃ ip hist, target = JoinHostPort (addr_string ip) (itoa port) ∧ connect target = None ∧
    (∀ rd, rd ∈ hist → observed os rd) ∧
    dial_reason lookup rds hist (d_policy (run_dialer (newDialer p timeout) os)) host port ip.
Proof.
  intros H. destruct (run_dialer_own p timeout os) as (hist & Hobs & Hwf).
  unfold dialAllowingVetted in H. destruct (vet _ _ _ _ _) as [[ip|e] d1] eqn:Ev; [|done].
  destruct (vet_spec _ _ _ _ _ _ _ _ Hwf Ev) as (_ & _ & Hr).
  destruct (connect _) eqn:Ec; [done|]. injection H as <- <-. by exists ip, hist.
Qed.

Definition demo_compiled : Compiled :=
  mkCompiled demo_policy [mkERule "*.example.com" ".example.com" 0 true false] []
    [mkCidr "10.0.0.0/8" (mkPrefix (V4 167772160) 8)].
Definition demo_rds (n : nat) : Reading :=
  mkReading (ns_minute * Z.of_nat (S n)) (Ok [Ok [IPNetAddr [192; 168; 1; 7]%Z]; Err "down"]).
Definition demo_lookup (host : string) : result (list Addr) :=
  Ok [V4 167772161; V4 3232235783; V4 134744072].

Lemma dial_vetted_witness :
  ∃ d', dialAllowingVetted demo_lookup demo_rds (λ _, None)
    (run_dialer (newDialer demo_compiled 0) []) "api.example.com" 443 = (inl "8.8.8.8:443", d') ∧
  ∃ ip hist, "8.8.8.8:443" = JoinHostPort (addr_string ip) (itoa 443) ∧
    (λ _ : string, @None goerror) "8.8.8.8:443" = None ∧
    (∀ rd, rd ∈ hist → observed [] rd) ∧
    dial_reason demo_lookup demo_rds hist
      (d_policy (run_dialer (newDialer demo_compiled 0) [])) "api.example.com" 443 ip.
Proof.
  eexists. split; [vm_compute; reflexivity|].
  eapply (dial_vetted demo_compiled 0 [] demo_lookup demo_rds (λ _, None) "api.example.com" 443).
  vm_compute. reflexivity.
Defined.

(** every failed dial says whose fault it is. A dial fails either with a
    refusal, always coded [denied_address], never an allow, with a reason, and
    carrying a resolver error exactly when the name did not resolve; or with the
    operating system's error for the vetted address. A literal the policy names
    is never refused. *)
Theorem dial_failure (lookup : string → result (list Addr)) (rds : nat → Reading)
    (connect : string → option goerror) (hist : list Reading) (d d' : dialer)
    (host : string) (port : Z) (e : goerror) :
  own_wf hist d →
  (∀ target err, connect target = Some err → asDenyError err = None) →
  dialAllowingVetted lookup rds connect d host port = (inr e, d') →
  match asDenyError e with
  | Some deny =>
      v_allow (de_verdict deny) = false ∧ v_code (de_verdict deny) = CodeDeniedAddress ∧
      DenyError_Error deny = v_reason (de_verdict deny) ∧ v_reason (de_verdict deny) ≠ "" ∧
      (∀ m, de_lookup deny = Some m ↔ isIPLiteral host = false ∧ lookup host = Err m) ∧
      ¬ (isIPLiteral host = true ∧ AllowsLiteral (d_policy d) host port = true)
  | None => ∃ ip, connect (JoinHostPort (addr_string ip) (itoa port)) = Some e ∧
                  dial_reason lookup rds hist (d_policy d) host port ip
  end.
Proof.
  intros Hwf Hc. unfold dialAllowingVetted.
  destruct (vet _ _ _ _ _) as [[ip|deny] d1] eqn:Ev;
    destruct (vet_spec _ _ _ _ _ _ _ _ Hwf Ev) as (_ & _ & Hr).
  - destruct (connect _) as [e'|] eqn:Ec; intros H; [|done]. injection H as <- <-.
    rewrite (Hc _ _ Ec). by exists ip.
  - intros H. injection H as <- <-. simpl. destruct Hr as (? & ? & Hr & ?).
    split_and!; try done.
    + unfold DenyError_Error. by case_bool_decide.
    + intros [Hl Ha]. unfold vet in Ev. rewrite Hl in Ev. unfold isIPLiteral in Hl.
      destruct (ParseAddr _); [|done]. by rewrite Ha in Ev.
Qed.

Lemma metadata_unzoned a : a ∈ metadataAddrs → addr_zone a = "".
Proof.
  assert (H : Forall (λ a, addr_zone a = "") metadataAddrs).
  { unfold metadataAddrs. vm_compute. repeat constructor. }
  rewrite Forall_forall in H. apply H.
Qed.

(** what a zone does to the address check. An IPv6 literal that carries a
    zone, and is not loopback, link-local or multicast, is passed whatever the
    policy denies: it equals no metadata endpoint, lies in no denied range and
    is no address of this host, because all three are compared with zone-less
    addresses. The zone can be any text, so it can also end in an allowed
    domain: [fd00:ec2::254%.example.com] is allowed by [*.example.com]. *)
Theorem zoned_literal_unchecked (lookup : string → result (list Addr)) (rds : nat → Reading)
    (hist : list Reading) (d : dialer) (host : string) (port : Z) (n : Z) (z : string) :
  own_wf hist d → is_ok (currentInterfaceAddrs (rd_ifaces (rds O))) = true →
  ParseAddr (canonicalHost host) = Some (V6 n z) → z ≠ "" →
  Is4In6 (V6 n z) = false → IsLoopback (V6 n z) = false →
  IsLinkLocalUnicast (V6 n z) = false → IsMulticast (V6 n z) = false →
  fst (vet lookup rds d host port) = inl (V6 n z) ∧
  blockedClass (V6 n z) = "" ∧
  (∀ r, cidr_contains r (V6 n z) = false) ∧
  fst (isOwnAddr (rds O) d (V6 n z)) = false.
Proof.
  intros Hwf Hifs Hp Hz H4 Hl Hll Hm.
  assert (Hu : Unmap (V6 n z) = V6 n z) by (unfold Unmap; by rewrite H4).
  assert (Hb : blockedClass (V6 n z) = "").
  { unfold blockedClass. rewrite Hl, Hll, Hm.
    assert (E : IsUnspecified (V6 n z) = false).
    { unfold IsUnspecified. apply orb_false_iff. split; simpl_bool; [done|]. by intros [= _ ?]. }
    rewrite E. destruct (any _ _) eqn:Ea; [|done].
    apply any_true in Ea as (m & Hin & Hma). simpl_bool. subst m.
    by apply metadata_unzoned in Hin. }
  assert (Hc : ∀ r, cidr_contains r (V6 n z) = false).
  { intros r. unfold cidr_contains. rewrite Hu. destruct (Contains _ _) eqn:Ec; [|done].
    by apply Contains_zone in Ec. }
  assert (Hin : ∀ ifs s, currentInterfaceAddrs ifs = Ok s →
                  any (λ a, bool_decide (a = V6 n z)) s = false).
  { intros ifs s Hs. destruct (any _ s) eqn:Ea; [|done].
    apply any_true in Ea as (a & Ha & Hz'). simpl_bool. subst a.
    by destruct (currentInterfaceAddrs_zone _ _ _ Hs Ha). }
  assert (Ho : fst (isOwnAddr (rds O) d (V6 n z)) = false).
  { unfold isOwnAddr. rewrite Hu. destruct (currentInterfaceAddrs _) as [s0|] eqn:E0; [|done].
    destruct (d_ownAddrs d) as [s|] eqn:Es; [|by eapply Hin].
    destruct (Hwf s Es) as (rd & _ & _ & Hs). case_bool_decide; simpl; by eapply Hin. }
  split; [|done]. unfold vet, isIPLiteral. rewrite Hp. simpl isSome. cbv iota. rewrite Hu.
  destruct (AllowsLiteral _ _ _); [done|]. unfold checkAddr. rewrite Hb.
  rewrite bool_decide_eq_false_2 by (intros H; by apply H).
  unfold DeniedAddressReason. destruct (find_first _ _) eqn:Ef.
  { apply find_first_Some in Ef as [_ Ef]. by rewrite Hc in Ef. }
  cbn [fmap option_fmap option_map].
  destruct (isOwnAddr _ _ _) as [own d1] eqn:Eo. cbn [fst] in Ho. by subst own.
Qed.

(** The allow list names one wildcard, every unique-local address is denied, and
    the AWS metadata endpoint is still reached. *)
Definition zone_policy : Compiled :=
  mkCompiled demo_policy [mkERule "*.example.com" ".example.com" 0 true false] []
    [mkCidr "fd00::/8" (mkPrefix (V6 (Z.shiftl 253 120) "") 8)].
Definition zone_addr : Addr := V6 336294982257581694735330614659971547732 ".example.com".
Definition zone_host : string := "fd00:ec2::254%.example.com".

Lemma zoned_literal_unchecked_witness :
  v_allow (Decide zone_policy zone_host 80) = true ∧
  ParseAddr "fd00:ec2::254" = Some (V6 336294982257581694735330614659971547732 "") ∧
  any (λ r, cidr_contains r (V6 336294982257581694735330614659971547732 "")) (c_denied_addrs zone_policy) = true ∧
  fst (vet demo_lookup demo_rds (newDialer zone_policy 0) zone_host 80)
    = inl zone_addr.
Proof.
  split; [vm_compute; reflexivity|]. split; [vm_compute; reflexivity|].
  split; [vm_compute; reflexivity|].
  assert (Hw : own_wf [] (newDialer zone_policy 0)) by (intros s Hs; discriminate Hs).
  assert (Hi : is_ok (currentInterfaceAddrs (rd_ifaces (demo_rds O))) = true)
    by (vm_compute; reflexivity).
  assert (Hp : ParseAddr (canonicalHost zone_host) = Some zone_addr) by (vm_compute; reflexivity).
  assert (H1 : Is4In6 zone_addr = false) by (vm_compute; reflexivity).
  assert (H2 : IsLoopback zone_addr = false) by (vm_compute; reflexivity).
  assert (H3 : IsLinkLocalUnicast zone_addr = false) by (vm_compute; reflexivity).
  assert (H4 : IsMulticast zone_addr = false) by (vm_compute; reflexivity).
  assert (Hz : ".example.com" ≠ "") by discriminate.
  destruct (zoned_literal_unchecked demo_lookup demo_rds [] (newDialer zone_policy 0) zone_host 80
    _ _ Hw Hi Hp Hz H1 H2 H3 H4) as [H _].
  exact H.
Defined.

(** A deny entry that is an address does not cover its IPv4-mapped spelling. *)
Example mapped_literal_evades_deny :
  match Parse (mkPolicy ["*"] ["10.0.0.5"] ∅ [] false) with
  | Ok c =>
      v_allow (Decide c "10.0.0.5" 80) = false ∧ v_allow (Decide c "::ffff:10.0.0.5" 80) = true ∧
      fst (vet demo_lookup demo_rds (newDialer c 0) "::ffff:10.0.0.5" 80) = inl (V4 167772165) ∧
      ParseAddr "10.0.0.5" = Some (V4 167772165)
  | Err _ => False
  end.
Proof. vm_compute. done. Qed.

(** Nor is the unspecified address refused once it carries a zone. *)
Example zoned_unspecified :
  fst (vet demo_lookup demo_rds (newDialer zone_policy 0) "::%.example.com" 8080)
    = inl (V6 0 ".example.com") ∧
  v_allow (Decide zone_policy "::%.example.com" 8080) = true ∧ blockedClass (V6 0 "") = "the unspecified address".
Proof. vm_compute. done. Qed.
