(* ===== verification/GoHTTP.v ===== *)
(** What the proxies use of Go's [net/http], [net] and [encoding/base64]:
    header maps with canonical keys, [net.SplitHostPort], standard base64. *)

From S2P Require Import Prelude GoStrings.

(** ** Headers *)

(** [http.Header]: values by canonical key. *)
Notation Header := (gmap string (list string)).

Definition token_char (c : char) : bool :=
  is_upper c || is_lower c || is_digit c || mem_char c "!#$%&'*+-.^_`|~".

Fixpoint all_chars (p : char → bool) (s : string) : bool :=
  match s with
  | EmptyString => true
  | String c s => p c && all_chars p s
  end.

Fixpoint mime_case (up : bool) (s : string) : string :=
  match s with
  | EmptyString => EmptyString
  | String c s =>
      String (if up then upper_char c else lower_char c) (mime_case (bool_decide (c = "-"%char)) s)
  end.

(** [textproto.CanonicalMIMEHeaderKey]. *)
Definition canonical_key (k : string) : string :=
  if all_chars token_char k then mime_case true k else k.

Definition h_values (h : Header) (k : string) : list string := default [] (h !! canonical_key k).
Definition h_get (h : Header) (k : string) : string :=
  match h_values h k with
  | v :: _ => v
  | [] => ""
  end.
Definition h_set (h : Header) (k v : string) : Header := <[canonical_key k := [v]]> h.
Definition h_add (h : Header) (k v : string) : Header :=
  <[canonical_key k := h_values h k ++ [v]]> h.
Definition h_del (h : Header) (k : string) : Header := delete (canonical_key k) h.

(** ** Host and port *)

(** [net.SplitHostPort]; the error's text is abstracted. *)
Definition SplitHostPort (s : string) : option (string * string) :=
  match cut_last ":"%char s with
  | None => None
  | Some (before, port) =>
      if has_prefix s "[" then
        match cut "]"%char (drop_str 1 s) with
        | None => None
        | Some (host, rest) =>
            if bool_decide (rest = ":" +:+ port) && negb (mem_char "["%char host)
               && negb (mem_char "["%char port) && negb (mem_char "]"%char port)
            then Some (host, port) else None
        end
      else if mem_char ":"%char before || mem_char "["%char s || mem_char "]"%char s then None
      else Some (before, port)
  end.

Fixpoint trim_left_set (cs s : string) : string :=
  match s with
  | String c t => if mem_char c cs then trim_left_set cs t else s
  | EmptyString => EmptyString
  end.
Fixpoint trim_right_set (cs s : string) : string :=
  match s with
  | String c t =>
      match trim_right_set cs t with
      | EmptyString => if mem_char c cs then EmptyString else str1 c
      | t => String c t
      end
  | EmptyString => EmptyString
  end.
(** [strings.Trim(s, cutset)] *)
Definition trim_set (s cs : string) : string := trim_right_set cs (trim_left_set cs s).

(** ** Base64 *)

Definition b64_char (c : char) : option Z :=
  let n := Z.of_nat (code c) in
  if is_upper c then Some (n - 65)%Z
  else if is_lower c then Some (n - 71)%Z
  else if is_digit c then Some (n + 4)%Z
  else if bool_decide (c = "+"%char) then Some 62%Z
  else if bool_decide (c = "/"%char) then Some 63%Z
  else None.

Definition byte_of (z : Z) : char := ascii_of_nat (Z.to_nat (z mod 256)%Z).

Fixpoint b64_quads (l : list char) : option string :=
  match l with
  | [] => Some ""
  | a :: b :: c :: d :: rest =>
      match b64_char a, b64_char b with
      | Some x, Some y =>
          let b0 := byte_of (x * 4 + y / 16) in
          match b64_char c, b64_char d with
          | Some z, Some w =>
              (λ t, String b0 (String (byte_of (y * 16 + z / 4)) (String (byte_of (z * 64 + w)) t)))
                <$> b64_quads rest
          | Some z, None =>
              if bool_decide (d = "="%char) && bool_decide (rest = [])
              then Some (String b0 (str1 (byte_of (y * 16 + z / 4)))) else None
          | None, _ =>
              if bool_decide (c = "="%char) && bool_decide (d = "="%char) && bool_decide (rest = [])
              then Some (str1 b0) else None
          end
      | _, _ => None
      end
  | _ => None
  end.

(** [base64.StdEncoding.DecodeString]: line breaks are skipped. *)
Definition b64_decode (s : string) : option string :=
  b64_quads (keep (λ c, negb (bool_decide (c = ascii_of_nat 10) || bool_decide (c = ascii_of_nat 13)))
    (String.list_ascii_of_string s)).

Example b64_examples :
  (b64_decode "c2FuZGJveDp0b2tlbg==", b64_decode "YWI6Yw=", b64_decode "YWI=", b64_decode "Y=I=",
   canonical_key "proxy-AUTHORIZATION", SplitHostPort "[::1]:80", SplitHostPort "a:b:80",
   trim_set "[::1]" "[]")
  = (Some "sandbox:token", None, Some "ab", None, "Proxy-Authorization", Some ("::1", "80"), None, "::1").
Proof. vm_compute. reflexivity. Qed.

(** ** Facts *)

Lemma h_del_get h k k' :
  h_values (h_del h k) k' = if bool_decide (canonical_key k = canonical_key k') then [] else h_values h k'.
Proof.
  unfold h_values, h_del. case_bool_decide as H.
  - by rewrite H, lookup_delete_eq.
  - by rewrite lookup_delete_ne.
Qed.

Lemma h_set_get h k v : h_get (h_set h k v) k = v.
Proof. unfold h_get, h_values, h_set. by rewrite lookup_insert_eq. Qed.

Lemma h_get_set_ne h k k' v :
  canonical_key k ≠ canonical_key k' → h_get (h_set h k v) k' = h_get h k'.
Proof. intros H. unfold h_get, h_values, h_set. by rewrite lookup_insert_ne. Qed.
