(* ===== verification/EgressMask.v ===== *)
(** pkg/egress/credential.go and maskfiles.go: the registry that replaces
    credentials by sentinels inside the sandbox and puts the real values back on
    the way out, and the AWS re-signing. Go iterates over its maps in any order:
    an operation that does takes the order as a list of the map's entries. *)

From S2P Require Import Prelude GoStrings GoPaths GoHTTP EgressPolicy.

(** [const SentinelPrefix] *)
Definition SentinelPrefix : string := "fake_value_".

(** [bytes.ReplaceAll(s, old, new)] for a non-empty [old]: leftmost occurrences
    first, not overlapping. The callers never pass an empty [old]. *)
Fixpoint replace_fuel (fuel : nat) (s old new : string) : string :=
  match fuel with
  | O => s
  | S fuel =>
      if has_prefix s old then new +:+ replace_fuel fuel (drop_prefix s old) old new
      else match s with
           | EmptyString => EmptyString
           | String c t => String c (replace_fuel fuel t old new)
           end
  end.
Definition replace_all (s old new : string) : string :=
  if bool_decide (old = "") then s else replace_fuel (S (String.length s)) s old new.

(** ** The registry *)

(** [type Credential struct] *)
Record Credential := mkCred { cr_name : string; cr_value : string; cr_aws_access_key : string }.

(** [type awsPair struct] *)
Record awsPair := mkAws { aw_access_key : string; aw_secret : string; aw_session_token : string }.

(** [type Masker struct] *)
Record Masker := mkMasker {
  mk_byName : gmap string string;
  mk_bySentinel : gmap string Credential;
  mk_aws : gmap string awsPair;
  mk_awsByReal : gmap string awsPair;
  mk_plaintext : bool;
}.

Definition pad_chars : string := "abcdefghijklmnopqrstuvwxyz0123456789_-".

Definition char_at (s : string) (n : nat) : char := default "a"%char (String.get n s).

(** The padding of [mintSentinel]: [rnd i] is the identifier of the [i]-th
    random uuid. *)
Fixpoint pad_from (rnd : nat → Z) (i n : nat) : string :=
  match n with
  | O => EmptyString
  | S n =>
      let k := (Z.land (Z.shiftr (rnd i) (Z.of_nat i mod 16)) 63 mod len pad_chars)%Z in
      String (char_at pad_chars (Z.to_nat k)) (pad_from rnd (S i) n)
  end.

(** [func mintSentinel(real string) string]; [uuid] is the new identifier. *)
Definition mintSentinel (uuid : string) (rnd : nat → Z) (real : string) : string :=
  let base := SentinelPrefix +:+ uuid in
  if (String.length real <=? String.length base)%nat then base
  else base +:+ pad_from rnd 0 (String.length real - String.length base).

(** The loop of [NewMasker] over the sorted names; [uuid] and [rnd] are the
    random identifiers drawn for each name. *)
Fixpoint mask_loop (uuid : string → string) (rnd : string → nat → Z) (values : gmap string string)
    (names : list string) (m : Masker) : result Masker :=
  match names with
  | [] => Ok m
  | name :: names =>
      let real := default "" (values !! name) in
      if bool_decide (real = "") then mask_loop uuid rnd values names m
      else if contains real SentinelPrefix
      then Err ("credential " +:+ quote name +:+ " contains " +:+ quote SentinelPrefix +:+
                ", which cannot be masked unambiguously")
      else
        let sentinel := mintSentinel (uuid name) (rnd name) real in
        mask_loop uuid rnd values names
          (mkMasker (<[name := sentinel]> (mk_byName m))
                    (<[sentinel := mkCred name real ""]> (mk_bySentinel m))
                    (mk_aws m) (mk_awsByReal m) (mk_plaintext m))
  end.

(** [func NewMasker(values map) (Masker, error)] *)
Definition NewMasker (uuid : string → string) (rnd : string → nat → Z) (values : gmap string string)
    : result Masker :=
  mask_loop uuid rnd values (sort_strings (fst <$> map_to_list values)) (mkMasker ∅ ∅ ∅ ∅ false).

Definition real_value (m : Masker) (sentinel : string) : string :=
  match mk_bySentinel m !! sentinel with
  | Some c => cr_value c
  | None => ""
  end.

(** [func sessionTokenValue(m Masker, name string) string] *)
Definition sessionTokenValue (m : Masker) (name : string) : string :=
  match mk_byName m !! name with
  | Some sentinel => real_value m sentinel
  | None => ""
  end.

(** [func (m Masker) LinkAWS(accessKey, secret, sessionToken string) error] *)
Definition LinkAWS (m : Masker) (accessKey secret sessionToken : string) : result Masker :=
  match mk_byName m !! accessKey with
  | None => Err ("aws access key id " +:+ quote accessKey +:+ " is not masked")
  | Some sentinel =>
      match mk_byName m !! secret with
      | None => Err ("aws secret " +:+ quote secret +:+ " is not masked")
      | Some secretSentinel =>
          let pair := mkAws (real_value m sentinel) (real_value m secretSentinel)
                            (sessionTokenValue m sessionToken) in
          Ok (mkMasker (mk_byName m) (mk_bySentinel m) (<[sentinel := pair]> (mk_aws m))
                       (<[aw_access_key pair := pair]> (mk_awsByReal m)) (mk_plaintext m))
      end
  end.

(** [SetAllowPlaintext], [AllowsPlaintext] *)
Definition SetAllowPlaintext (m : Masker) (v : bool) : Masker :=
  mkMasker (mk_byName m) (mk_bySentinel m) (mk_aws m) (mk_awsByReal m) v.
Definition AllowsPlaintext (m : Masker) : bool := mk_plaintext m.

(** [Names], [Env], [Len] *)
Definition Names (m : Masker) : list string := sort_strings (fst <$> map_to_list (mk_byName m)).
Definition Env (m : Masker) : list string :=
  (λ n, n +:+ "=" +:+ default "" (mk_byName m !! n)) <$> Names m.
Definition Len (m : Masker) : nat := size (mk_byName m).

(** ** Substitution *)

(** [func HasSentinel(b []byte) bool] *)
Definition HasSentinel (b : string) : bool := contains b SentinelPrefix.

(** The loop of [Substitute] over the entries of [bySentinel]: the rewritten
    bytes and the names used, in the order met. *)
Fixpoint substitute_loop (entries : list (string * Credential)) (out : string)
    : string * list string :=
  match entries with
  | [] => (out, [])
  | (sentinel, cred) :: entries =>
      if contains out sentinel then
        let '(out, used) := substitute_loop entries (replace_all out sentinel (cr_value cred)) in
        (out, cr_name cred :: used)
      else substitute_loop entries out
  end.

Definition sorted_set (l : list string) : list string := sort_strings (remove_dups l).

(** [func (m Masker) Substitute(b []byte) ([]byte, bool, []string)]; [m] is
    [None] for a nil registry, [order] lists the entries of [bySentinel]. *)
Definition Substitute (m : option Masker) (order : list (string * Credential)) (b : string)
    : string * bool * list string :=
  match m with
  | None => (b, false, [])
  | Some _ =>
      if negb (HasSentinel b) then (b, false, [])
      else
        let '(out, used) := substitute_loop order b in
        let names := sorted_set used in
        (out, (0 <? length names)%nat, names)
  end.

Definition substitute_value (m : option Masker) (order : list (string * Credential)) (v : string)
    : string := fst (fst (Substitute m order v)).

(** [func (m Masker) substituteHeaders(h http.Header) []string] *)
Definition substituteHeaders (m : option Masker) (order : list (string * Credential)) (h : Header)
    : Header * list string :=
  match m with
  | None => (h, [])
  | Some _ =>
      ((λ vs : list string, substitute_value m order <$> vs) <$> h,
       sorted_set (flat_map (λ kv, flat_map (λ v, snd (Substitute m order v)) (snd kv))
                    (map_to_list h)))
  end.

(** ** Masked files *)

(** The loop of [MaskFile]: [entries] is [byName] in iteration order. *)
Fixpoint mask_entries (m : Masker) (entries : list (string * string)) (out : string)
    : string * list string :=
  match entries with
  | [] => (out, [])
  | (name, sentinel) :: entries =>
      let real := real_value m sentinel in
      if bool_decide (real = "") || negb (contains out real) then mask_entries m entries out
      else
        let '(out, names) := mask_entries m entries (replace_all out real sentinel) in
        (out, name :: names)
  end.

(** [type MaskedFile struct] *)
Record MaskedFile := mkMasked { mf_real : string; mf_fake : string; mf_names : list string }.

(** [func (m Masker) MaskFile(path, dir string) (MaskedFile, error)]: the file
    system is what reading [path] gives, and the errors of creating the directory
    and of writing; the result adds the content written, if any. *)
Definition MaskFile (m : Masker) (order : list (string * string)) (read : result string)
    (mkdir write : option string) (path dir : string) : result (MaskedFile * option string) :=
  let! raw := wrap_err ("egress: read " +:+ path +:+ ": ") read in
  let '(out, names) := mask_entries m order raw in
  if (length names =? 0)%nat then Ok (mkMasked path "" [], None)
  else match mkdir with
       | Some e => Err ("egress: mask dir: " +:+ e)
       | None =>
           let fake := join2 dir (base path) in
           match write with
           | Some e => Err ("egress: write masked " +:+ fake +:+ ": " +:+ e)
           | None => Ok (mkMasked path fake names, Some out)
           end
       end.

(** ** AWS SigV4 *)

Definition awsSigV4Prefix : string := "AWS4-HMAC-SHA256".

(** [type awsScope struct] *)
Record awsScope := mkScope {
  as_key : string;
  as_date : string;
  as_region : string;
  as_service : string;
  as_signed : string;
  as_signature : string;
}.
#[global] Instance awsScope_eq_dec : EqDecision awsScope.
Proof. solve_decision. Defined.

(** One part of the header's list, added to the scope read so far; [None] is
    the early [return awsScope{}, false]. *)
Definition aws_part (out : awsScope) (part : string) : option awsScope :=
  match cut "="%char (trim_space part) with
  | None => Some out
  | Some (key, val) =>
      if bool_decide (key = "Credential") then
        match split slash val with
        | [k; d; r; s; last] =>
            if bool_decide (last = "aws4_request")
            then Some (mkScope k d r s (as_signed out) (as_signature out)) else None
        | _ => None
        end
      else if bool_decide (key = "SignedHeaders")
      then Some (mkScope (as_key out) (as_date out) (as_region out) (as_service out) val (as_signature out))
      else if bool_decide (key = "Signature")
      then Some (mkScope (as_key out) (as_date out) (as_region out) (as_service out) (as_signed out) val)
      else Some out
  end.

Fixpoint aws_parts (out : awsScope) (parts : list string) : option awsScope :=
  match parts with
  | [] => Some out
  | p :: parts => match aws_part out p with
                  | Some out => aws_parts out parts
                  | None => None
                  end
  end.

(** [func parseAWSAuth(header string) (awsScope, bool)] *)
Definition parseAWSAuth (header : string) : option awsScope :=
  if negb (has_prefix header (awsSigV4Prefix +:+ " ")) then None
  else
    match aws_parts (mkScope "" "" "" "" "" "") (split ","%char (trim_prefix header (awsSigV4Prefix +:+ " "))) with
    | None => None
    | Some out =>
        if bool_decide (as_key out = "") || bool_decide (as_signed out = "")
           || bool_decide (as_signature out = "")
        then None else Some out
    end.

Definition hex_byte (c : char) : string :=
  String (hex_digit (code c / 16)) (str1 (hex_digit (code c mod 16))).

Definition unreserved (c : char) : bool :=
  is_upper c || is_lower c || is_digit c || mem_char c "-_.~".

Definition escape_byte (c : char) : string := String "%"%char (to_upper (hex_byte c)).

(** [func normalizePercent(s string) string] *)
Fixpoint normalizePercent (s : string) : string :=
  match s with
  | EmptyString => EmptyString
  | String c t =>
      let plain :=
        (if bool_decide (c = "+"%char) || bool_decide (c = " "%char) then "%20"
         else if unreserved c then str1 c
         else escape_byte c) +:+ normalizePercent t in
      match t with
      | String a (String b u) =>
          if bool_decide (c = "%"%char)
          then String "%"%char (String (upper_char a) (String (upper_char b) (normalizePercent u)))
          else plain
      | _ => plain
      end
  end.

(** [func awsEscape(s string) string] *)
Fixpoint awsEscape (s : string) : string :=
  match s with
  | EmptyString => EmptyString
  | String c s => (if unreserved c then str1 c else escape_byte c) +:+ awsEscape s
  end.

Definition param_le (p q : string * string) : bool :=
  if bool_decide (fst p = fst q) then String.leb (snd p) (snd q) else String.leb (fst p) (fst q).

Fixpoint insert_param (p : string * string) (l : list (string * string)) : list (string * string) :=
  match l with
  | [] => [p]
  | q :: l => if param_le p q then p :: q :: l else q :: insert_param p l
  end.

Definition query_params (raw : string) : list (string * string) :=
  omap (λ pair, if bool_decide (pair = "") then None
                else match cut "="%char pair with
                     | Some kv => Some kv
                     | None => Some (pair, "")
                     end) (split "&"%char raw).

(** [func canonicalQueryString(u url.URL) string]; [raw] is [u.RawQuery]. *)
Definition canonicalQueryString (raw : string) : string :=
  if bool_decide (raw = "") then ""
  else join "&" ((λ p, normalizePercent (fst p) +:+ "=" +:+ normalizePercent (snd p))
                   <$> foldr insert_param [] (query_params raw)).

(** The fields of an [http.Request] the code reads and writes. *)
Record HttpReq := mkReq {
  q_method : string;
  q_host : string;
  q_url_host : string;
  q_escaped_path : string;
  q_raw_query : string;
  q_header : Header;
  q_content_length : Z;
  q_body : string;
}.

Definition with_header (q : HttpReq) (h : Header) : HttpReq :=
  mkReq (q_method q) (q_host q) (q_url_host q) (q_escaped_path q) (q_raw_query q) h
        (q_content_length q) (q_body q).

Definition nl : string := str1 newline.

Definition emptySHA256 : string :=
  "e3b0c44298fc1c149afbf4c8996fb92427ae41e4649b934ca495991b7852b855".

Section Resign.
  (** SHA-256 and HMAC-SHA-256 of byte strings. *)
  Context (sha256 : string → string) (hmac : string → string → string).

Fixpoint hex_string (s : string) : string :=
  match s with
  | EmptyString => EmptyString
  | String c s => hex_byte c +:+ hex_string s
  end.

Definition hexSHA256 (b : string) : string := hex_string (sha256 b).

Definition canonical_header (q : HttpReq) (name : string) : string :=
  let lower := to_lower name in
  lower +:+ ":" +:+
  (if bool_decide (lower = "host") then q_host q else trim_space (h_get (q_header q) name)) +:+ nl.

Definition scope_string (s : awsScope) : string :=
  join "/" [as_date s; as_region s; as_service s; "aws4_request"].

(** The signature the proxy computes over the request it sends. *)
Definition sign (q : HttpReq) (s : awsScope) (secret amzDate payloadHash : string) : string :=
  let uri := if bool_decide (q_escaped_path q = "") then "/" else q_escaped_path q in
  let headers := foldr (λ name acc, canonical_header q name +:+ acc) "" (split ";"%char (as_signed s)) in
  let canonicalRequest := join nl
    [q_method q; uri; canonicalQueryString (q_raw_query q); headers; as_signed s; payloadHash] in
  let stringToSign := join nl [awsSigV4Prefix; amzDate; scope_string s; hexSHA256 canonicalRequest] in
  let key := hmac ("AWS4" +:+ secret) (as_date s) in
  let key := hmac key (as_region s) in
  let key := hmac key (as_service s) in
  let key := hmac key "aws4_request" in
  hex_string (hmac key stringToSign).

Definition aws_header (key : string) (s : awsScope) (signature : string) : string :=
  awsSigV4Prefix +:+ " Credential=" +:+ key +:+ "/" +:+ scope_string s +:+ ", SignedHeaders="
  +:+ as_signed s +:+ ", Signature=" +:+ signature.

Definition payload_hash (q : HttpReq) : string :=
  let given := h_get (q_header q) "X-Amz-Content-Sha256" in
  if bool_decide (given ≠ "") then given
  else if bool_decide (q_content_length q = 0%Z) then emptySHA256
  else "UNSIGNED-PAYLOAD".

Definition linked_pair (m : Masker) (key : string) : option awsPair :=
  match mk_aws m !! key with
  | Some p => Some p
  | None => mk_awsByReal m !! key
  end.

(** [func (m Masker) ResignAWS(req http.Request) (bool, error)] *)
Definition ResignAWS (m : option Masker) (q : HttpReq) : result (bool * HttpReq) :=
  match m with
  | None => Ok (false, q)
  | Some m =>
      match parseAWSAuth (h_get (q_header q) "Authorization") with
      | None => Ok (false, q)
      | Some s =>
          match linked_pair m (as_key s) with
          | None => Ok (false, q)
          | Some pr =>
              let amzDate := h_get (q_header q) "X-Amz-Date" in
              if bool_decide (amzDate = "") then Err "sigv4: signed request without X-Amz-Date"
              else
                let h := h_set (q_header q) "Authorization"
                  (aws_header (aw_access_key pr) s (sign q s (aw_secret pr) amzDate (payload_hash q))) in
                let h := if bool_decide (aw_session_token pr ≠ "")
                         then h_set h "X-Amz-Security-Token" (aw_session_token pr) else h in
                Ok (true, with_header q h)
          end
      end
  end.

End Resign.

(** ** Lemmas *)

#[local] Arguments String.append : simpl nomatch.

Lemma has_prefix_app p r : has_prefix (p +:+ r) p = true.
Proof. apply has_prefix_spec. eauto. Qed.

Lemma contains_cons s sub :
  contains s sub = has_prefix s sub || match s with String _ t => contains t sub | EmptyString => false end.
Proof. by destruct s. Qed.

(** A prefix of a concatenation lies in its first part, or covers it. *)
Lemma has_prefix_app_cases s w p :
  has_prefix (s +:+ w) p = true →
  has_prefix s p = true ∨ ∃ v, v ≠ "" ∧ p = s +:+ v ∧ has_prefix w v = true.
Proof.
  revert p; induction s as [|c s IH]; intros p H; simpl in *.
  - destruct p as [|a p]; [by left|]. right. by exists (String a p).
  - destruct p as [|a p]; [by left|]. simpl in *. case_bool_decide as Ha; [|done]. simpl in *.
    destruct (IH _ H) as [->|(v & Hv & -> & Hw)]; [by left|]. right. exists v. by subst.
Qed.

(** What [replace_fuel] leaves of a text: it is the text up to its first
    replaced occurrence, then the replacement. *)
Lemma replace_fuel_shape n s old new :
  ∃ u t w, s = u +:+ t ∧ replace_fuel n s old new = u +:+ w ∧
           (t = w ∨ has_prefix w new = true).
Proof.
  revert s; induction n as [|n IH]; intros s; simpl.
  { exists s, "", "". rewrite app_nil_r_str. auto. }
  destruct (has_prefix s old) eqn:Hp.
  { exists "", s. eexists. split; [done|]. split; [done|]. right. apply has_prefix_app. }
  destruct s as [|c s]; [by exists "", "", ""; auto|].
  destruct (IH s) as (u & t & w & -> & -> & H). exists (String c u), t, w. auto.
Qed.

Section Roundtrip.
  Variables (real P : string).
  Hypothesis real_ne : real ≠ "".
  Hypothesis P_shape : has_prefix P SentinelPrefix = true.

  (** The sentinel is not read across the border of untouched text. *)
Lemma no_sentinel_at c s n :
  contains (String c s) SentinelPrefix = false →
  has_prefix (String c (replace_fuel n s real P)) P = false.
Proof using P_shape.
  intros Hc. destruct (has_prefix _ P) eqn:H; [exfalso|done].
  assert (H' : has_prefix (String c (replace_fuel n s real P)) SentinelPrefix = true).
  { apply has_prefix_spec in H as [r Hr]. apply has_prefix_spec in P_shape as [tl ->].
    rewrite Hr, app_assoc_str. apply has_prefix_app. }
  destruct (replace_fuel_shape n s real P) as (u & t & w & -> & Hw & Htw). rewrite Hw in H'.
  change (String c (u +:+ w)) with (String c u +:+ w) in H'.
  destruct Htw as [<-|Hwp].
  { rewrite contains_cons in Hc. apply orb_false_iff in Hc as [Hc _].
    change (String c (u +:+ t)) with (String c u +:+ t) in Hc. congruence. }
  destruct (has_prefix_app_cases _ _ _ H') as [Hu|(v & Hv & Hsp & Hwv)].
  - apply has_prefix_spec in Hu as [r Hr]. rewrite contains_cons in Hc.
    apply orb_false_iff in Hc as [Hc _].
    change (String c (u +:+ t)) with (String c u +:+ t) in Hc. rewrite Hr, app_assoc_str in Hc.
    by rewrite has_prefix_app in Hc.
  - apply has_prefix_spec in Hwp as [r ->]. apply has_prefix_spec in P_shape as [tl ->].
    destruct v as [|a v]; [done|]. simpl in Hwv. apply andb_true_iff in Hwv as [Ha _].
    apply bool_decide_eq_true in Ha as ->. unfold SentinelPrefix in Hsp. simpl in Hsp.
    injection Hsp as _ Hsp.
    assert (Hm : mem_char "f"%char (u +:+ String "f"%char v) = true).
    { rewrite mem_char_app. apply orb_true_iff. right. reflexivity. }
    rewrite <- Hsp in Hm. discriminate Hm.
Qed.

Lemma replace_back n : ∀ b m,
  (String.length b < n)%nat → (String.length (replace_fuel n b real P) < m)%nat →
  contains b SentinelPrefix = false →
  replace_fuel m (replace_fuel n b real P) P real = b.
Proof using real_ne P_shape.
  induction n as [|n IH]; intros b m Hn Hm Hc; [lia|]. simpl in *.
  destruct (has_prefix b real) eqn:Hp.
  - apply has_prefix_spec in Hp as [r ->]. rewrite drop_prefix_app in *.
    destruct m as [|m]; [lia|]. simpl. rewrite has_prefix_app, drop_prefix_app.
    rewrite length_app_str in *. f_equal.
    assert (String.length real ≠ 0) by (by destruct real). apply IH; [lia| |].
    + assert (String.length P ≠ 0) by (by destruct P). lia.
    + clear -Hc. induction real as [|c real' IH]; [done|]. apply IH.
      change (String c real' +:+ r) with (String c (real' +:+ r)) in Hc.
      rewrite contains_cons in Hc. by apply orb_false_iff in Hc as [_ ?].
  - destruct b as [|c b].
    { destruct m; [done|]. simpl. by destruct P. }
    simpl in Hm. destruct m as [|m]; [lia|]. simpl replace_fuel.
    rewrite no_sentinel_at by done. f_equal. simpl in Hn. apply IH; [lia|lia|].
    rewrite contains_cons in Hc. by apply orb_false_iff in Hc as [_ ?].
Qed.

Lemma replace_all_back b :
  contains b SentinelPrefix = false → replace_all (replace_all b real P) P real = b.
Proof using real_ne P_shape.
  intros Hc. unfold replace_all. rewrite (bool_decide_eq_false_2 (real = "")) by done.
  rewrite bool_decide_eq_false_2 by (intros ->; discriminate P_shape).
  apply replace_back; [lia|lia|done].
Qed.

(** A text the secret occurs in shows its sentinel once masked. *)
Lemma replace_all_contains b :
  contains b real = true → contains (replace_all b real P) P = true.
Proof using real_ne.
  unfold replace_all. rewrite bool_decide_eq_false_2 by done.
  remember (S (String.length b)) as n eqn:E. assert (Hn : (String.length b < n)%nat) by lia. clear E.
  revert b Hn; induction n as [|n IH]; intros b Hn H; [lia|]. simpl.
  rewrite contains_cons in H. destruct (has_prefix b real) eqn:Hp.
  - rewrite contains_cons, has_prefix_app. done.
  - destruct b as [|c b]; [done|]. simpl in H, Hn. rewrite contains_cons.
    apply orb_true_iff. right. apply IH; [lia|done].
Qed.

End Roundtrip.

Lemma insert_str_perm s l : insert_str s l ≡ₚ s :: l.
Proof.
  induction l as [|x l IH]; simpl; [done|]. destruct (String.leb s x); [done|].
  rewrite IH. apply Permutation_swap.
Qed.

Lemma sort_strings_perm l : sort_strings l ≡ₚ l.
Proof. induction l as [|s l IH]; simpl; [done|]. by rewrite insert_str_perm, IH. Qed.

Lemma pad_from_length rnd i n : String.length (pad_from rnd i n) = n.
Proof. revert i; induction n as [|n IH]; intros i; simpl; [done|]. by rewrite IH. Qed.

Lemma mintSentinel_shape uuid rnd real : ∃ pad, mintSentinel uuid rnd real = SentinelPrefix +:+ uuid +:+ pad.
Proof.
  unfold mintSentinel. case_match; [exists ""|eexists (pad_from rnd 0 _)].
  - by rewrite app_nil_r_str.
  - by rewrite app_assoc_str.
Qed.

Lemma mintSentinel_prefix uuid rnd real : has_prefix (mintSentinel uuid rnd real) SentinelPrefix = true.
Proof. destruct (mintSentinel_shape uuid rnd real) as [pad ->]. apply has_prefix_app. Qed.

(** The sentinel is as long as the secret, and never shorter than its base. *)
Lemma mintSentinel_length uuid rnd real :
  String.length uuid = 36 →
  String.length (mintSentinel uuid rnd real) = 47 `max` String.length real.
Proof.
  intros Hu. unfold mintSentinel. rewrite length_app_str, Hu.
  change (String.length SentinelPrefix + 36) with 47.
  destruct (_ <=? 47) eqn:E.
  - apply Nat.leb_le in E. rewrite length_app_str, Hu.
    change (String.length SentinelPrefix + 36) with 47. lia.
  - apply Nat.leb_gt in E. rewrite !length_app_str, Hu, pad_from_length.
    change (String.length SentinelPrefix + 36) with 47. lia.
Qed.

Lemma mintSentinel_inj u u' rnd rnd' real real' :
  String.length u = 36 → String.length u' = 36 →
  mintSentinel u rnd real = mintSentinel u' rnd' real' → u = u'.
Proof.
  intros Hu Hu' H.
  destruct (mintSentinel_shape u rnd real) as [p Hp], (mintSentinel_shape u' rnd' real') as [p' Hp'].
  rewrite Hp, Hp' in H. unfold SentinelPrefix in H. simpl in H. injection H as H.
  rewrite <- (take_str_app u p), <- (take_str_app u' p'), H. by rewrite Hu, Hu'.
Qed.

Section NewMasker.
  Variables (uuid : string → string) (rnd : string → nat → Z) (values : gmap string string).
  Hypothesis uuid_length : ∀ n, String.length (uuid n) = 36.
  Hypothesis uuid_inj : ∀ n n', n ∈ dom values → n' ∈ dom values → uuid n = uuid n' → n = n'.

Definition value_of (n : string) : string := default "" (values !! n).
Definition sentinel_of (n : string) : string := mintSentinel (uuid n) (rnd n) (value_of n).

Record masked_wf (seen : list string) (m : Masker) : Prop := {
  mw_name : ∀ n, mk_byName m !! n =
              if decide (n ∈ seen ∧ value_of n ≠ "") then Some (sentinel_of n) else None;
  mw_sentinel : ∀ n s, mk_byName m !! n = Some s → mk_bySentinel m !! s = Some (mkCred n (value_of n) "");
  mw_only : ∀ s c, mk_bySentinel m !! s = Some c → mk_byName m !! cr_name c = Some s;
}.

Lemma mask_loop_spec names : ∀ seen m m',
  masked_wf seen m → (∀ n, n ∈ names → n ∉ seen) → NoDup names →
  (∀ n, n ∈ names ++ seen → n ∈ dom values) →
  mask_loop uuid rnd values names m = Ok m' → masked_wf (names ++ seen) m'.
Proof using uuid_length uuid_inj.
  induction names as [|n names IH]; intros seen m m' Hwf Hnew Hnd Hdom H; simpl in H; [by injection H as <-|].
  apply NoDup_cons in Hnd as [Hn Hnd]. fold (value_of n) in H.
  assert (Hperm : ∀ m, masked_wf (names ++ n :: seen) m → masked_wf ((n :: names) ++ seen) m).
  { intros m0 [H1 H2 H3]. split; [|done|done]. intros k. rewrite H1.
    apply decide_ext. set_solver. }
  assert (Hnew' : ∀ k, k ∈ names → k ∉ n :: seen) by set_solver.
  assert (Hdom' : ∀ k, k ∈ names ++ n :: seen → k ∈ dom values) by set_solver.
  case_bool_decide as Hv.
  { apply Hperm. eapply IH; [|done|done|done|exact H]. destruct Hwf as [H1 H2 H3]. split; [|done|done].
    intros k. rewrite H1. apply decide_ext. set_solver. }
  destruct (contains _ _); [done|]. apply Hperm. eapply IH; [|done|done|done|exact H].
  destruct Hwf as [H1 H2 H3]. fold (sentinel_of n).
  assert (Hfresh : mk_byName m !! n = None).
  { rewrite H1. rewrite decide_False; [done|]. intros [? _]. by apply (Hnew n); set_solver. }
  split; simpl.
  - intros k. destruct (decide (k = n)) as [->|Hk].
    + rewrite lookup_insert_eq, decide_True; [done|]. set_solver.
    + rewrite lookup_insert_ne, H1 by done. apply decide_ext. set_solver.
  - intros k s. destruct (decide (k = n)) as [->|Hk].
    + rewrite lookup_insert_eq. intros [= <-]. by rewrite lookup_insert_eq.
    + rewrite lookup_insert_ne by done. intros Hs.
      rewrite lookup_insert_ne; [by apply H2|]. intros <-. rewrite H1 in Hs.
      destruct (decide _) as [[Hk' _]|]; [|done]. injection Hs as Hs.
      apply mintSentinel_inj in Hs; [|done|done].
      apply uuid_inj in Hs; [done| |]; apply Hdom; set_solver.
  - intros s c. destruct (decide (s = sentinel_of n)) as [->|Hs].
    + rewrite lookup_insert_eq. intros [= <-]. simpl. by rewrite lookup_insert_eq.
    + rewrite lookup_insert_ne by done. intros Hc. pose proof (H3 _ _ Hc) as Hc'.
      rewrite lookup_insert_ne; [done|]. intros ->. congruence.
Qed.

Lemma mask_loop_ok names m :
  is_ok (mask_loop uuid rnd values names m) = true ↔
  ∀ n, n ∈ names → contains (value_of n) SentinelPrefix = false.
Proof.
  clear uuid_length uuid_inj.
  revert m; induction names as [|n names IH]; intros m; simpl; [set_solver|].
  fold (value_of n). case_bool_decide as Hv.
  - rewrite IH. split; [|set_solver]. intros H k [->|?]%elem_of_cons; [by rewrite Hv|auto].
  - destruct (contains (value_of n) _) eqn:Hc.
    + split; [done|]. intros H. by rewrite H in Hc by set_solver.
    + rewrite IH. split; [|set_solver]. intros H k [->|?]%elem_of_cons; auto.
Qed.

Lemma NewMasker_wf m :
  NewMasker uuid rnd values = Ok m → masked_wf (elements (dom values)) m.
Proof using uuid_length uuid_inj.
  intros H. assert (Hk : sort_strings (fst <$> map_to_list values) ≡ₚ fst <$> map_to_list values)
    by apply sort_strings_perm.
  eapply mask_loop_spec in H.
  - destruct H as [H1 H2 H3]. split; [|done|done]. intros n. rewrite H1. apply decide_ext.
    rewrite app_nil_r, Hk, elem_of_elements, elem_of_dom, list_elem_of_fmap. split.
    + intros [([k v] & -> & Hin) ?]. apply elem_of_map_to_list in Hin. simpl. by rewrite Hin.
    + intros [[v Hv] ?]. split; [|done]. exists (n, v). by rewrite elem_of_map_to_list.
  - split; simpl; set_solver.
  - set_solver.
  - rewrite Hk. apply NoDup_fst_map_to_list.
  - intros n. rewrite app_nil_r, Hk, list_elem_of_fmap, elem_of_dom.
    intros ([k v] & -> & Hin). apply elem_of_map_to_list in Hin. simpl. by rewrite Hin.
Qed.

End NewMasker.

(** *** The Authorization header *)

Lemma trim_right_app a b : trim_right b ≠ "" → trim_right (a +:+ b) = a +:+ trim_right b.
Proof.
  intros Hb. induction a as [|c a IH]; [done|]. simpl. rewrite IH.
  destruct (a +:+ trim_right b) eqn:E; [|done].
  destruct a; [by destruct (trim_right b)|done].
Qed.

Lemma trim_right_idem s : trim_right (trim_right s) = trim_right s.
Proof.
  induction s as [|c s IH]; [done|]. simpl. destruct (trim_right s) as [|d t] eqn:E.
  - destruct (is_space c) eqn:Ec; simpl; [done|]. unfold str1. simpl. by rewrite Ec.
  - cbn [trim_right] in IH |- *. by rewrite IH.
Qed.

(** The tail of a trimmed text is trimmed on the right. *)
Lemma trim_right_tail a b : trim_right (a +:+ b) = a +:+ b → trim_right b = b.
Proof.
  induction a as [|c a IH]; [done|]. simpl. destruct (trim_right (a +:+ b)) as [|d t] eqn:E.
  - destruct (is_space c); intros H; [done|]. injection H as H. apply IH. congruence.
  - intros H. injection H as H. apply IH. congruence.
Qed.

Lemma cut_spec sep s a b : cut sep s = Some (a, b) → s = a +:+ String sep b.
Proof.
  revert a b; induction s as [|c s IH]; intros a b; simpl; [done|]. case_bool_decide as Hc.
  - intros [= <- <-]. by subst.
  - destruct (cut sep s) as [[a' b']|]; [|done]. intros [= <- <-]. simpl. by rewrite (IH a' b').
Qed.

Lemma cut_app sep a b : mem_char sep a = false → cut sep (a +:+ String sep b) = Some (a, b).
Proof.
  induction a as [|c a IH]; simpl; intros H.
  - by rewrite bool_decide_eq_true_2.
  - apply orb_false_iff in H as [Hc H]. rewrite IH by done. simpl_bool.
    by rewrite bool_decide_eq_false_2 by (intros ->; done).
Qed.

Lemma mem_char_trim_left c s : mem_char c s = false → mem_char c (trim_left s) = false.
Proof.
  induction s as [|d s IH]; simpl; [done|]. intros H. destruct (is_space d); [|done].
  apply orb_false_iff in H as [_ H]. auto.
Qed.

Lemma mem_char_trim_right c s : mem_char c s = false → mem_char c (trim_right s) = false.
Proof.
  induction s as [|d s IH]; simpl; [done|]. intros [Hd H]%orb_false_iff. specialize (IH H).
  destruct (trim_right s); [destruct (is_space d); [done|]|]; simpl in *; by rewrite ?Hd.
Qed.

(** What a parsed scope promises: no separator inside a field. *)
Definition scope_ok (s : awsScope) : Prop :=
  (∀ x, x ∈ [as_date s; as_region s; as_service s] → mem_char slash x = false ∧ mem_char ","%char x = false) ∧
  mem_char ","%char (as_signed s) = false ∧ trim_right (as_signed s) = as_signed s.

Lemma aws_part_ok s part s' :
  mem_char ","%char part = false → scope_ok s → aws_part s part = Some s' → scope_ok s'.
Proof.
  intros Hp (H1 & H2 & H3). unfold aws_part.
  destruct (cut _ _) as [[key val]|] eqn:Ec; [|intros [= <-]; done].
  apply cut_spec in Ec.
  assert (Hc : mem_char ","%char val = false).
  { assert (Ht : mem_char ","%char (trim_space part) = false)
      by (apply mem_char_trim_right, mem_char_trim_left, Hp).
    rewrite Ec, mem_char_app in Ht. simpl in Ht. by apply orb_false_iff in Ht as [_ ?]. }
  assert (Ht : trim_right val = val).
  { apply (trim_right_tail (key +:+ str1 "="%char)). rewrite app_assoc_str. change (str1 "="%char +:+ val) with (String "="%char val). rewrite <- Ec. apply trim_right_idem. }
  repeat case_bool_decide; [|by intros [= <-]..].
  assert (Hs : ∀ x, x ∈ split slash val → mem_char slash x = false ∧ mem_char ","%char x = false).
  { intros x Hx. split; [by eapply split_nosep|].
    rewrite <- (join_split slash val) in Hc. revert Hc Hx. generalize (split slash val) as l.
    induction l as [|y l IH]; [set_solver|]. intros Hc [->|Hx]%elem_of_cons.
    - destruct l; [done|]. simpl in Hc. rewrite mem_char_app in Hc. by apply orb_false_iff in Hc as [? _].
    - destruct l as [|z l]; [set_solver|]. apply IH; [|done].
      change (join (str1 slash) (y :: z :: l)) with (y +:+ str1 slash +:+ join (str1 slash) (z :: l)) in Hc.
      rewrite !mem_char_app in Hc. by apply orb_false_iff in Hc as [_ [_ ?]%orb_false_iff]. }
  destruct (split slash val) as [|k [|d [|r [|v [|l [|]]]]]]; try done.
  case_bool_decide; [|done]. intros [= <-]. split; [|done]. simpl. intros x Hx. apply Hs. set_solver.
Qed.

Lemma aws_parts_ok parts : ∀ s s',
  (∀ p, p ∈ parts → mem_char ","%char p = false) → scope_ok s → aws_parts s parts = Some s' → scope_ok s'.
Proof.
  induction parts as [|p parts IH]; intros s s' Hp Hs; simpl; [by intros [= <-]|].
  destruct (aws_part s p) eqn:E; [|done]. apply IH; [set_solver|].
  eapply aws_part_ok; [|done|done]. set_solver.
Qed.

Lemma parseAWSAuth_ok header s : parseAWSAuth header = Some s → scope_ok s.
Proof.
  unfold parseAWSAuth. destruct (negb _); [done|]. destruct (aws_parts _ _) eqn:E; [|done].
  case_match; [done|]. intros [= <-]. eapply aws_parts_ok; [| |exact E].
  - intros p Hp. by eapply split_nosep.
  - split; [|done]. simpl. set_solver.
Qed.

Lemma parseAWSAuth_signed header s : parseAWSAuth header = Some s → as_signed s ≠ "".
Proof.
  unfold parseAWSAuth. destruct (negb _); [done|]. destruct (aws_parts _ _) as [out|]; [|done].
  destruct (_ || _) eqn:E; [done|]. intros [= ->]. apply orb_false_iff in E as [E _].
  apply orb_false_iff in E as [_ E]. by apply bool_decide_eq_false in E.
Qed.

Lemma split_slash5 key s :
  scope_ok s → mem_char slash key = false →
  split slash (key +:+ "/" +:+ scope_string s) = [key; as_date s; as_region s; as_service s; "aws4_request"].
Proof.
  intros (H1 & _) Hk. change "/" with (str1 slash).
  change (key +:+ str1 slash +:+ scope_string s)
    with (join (str1 slash) [key; as_date s; as_region s; as_service s; "aws4_request"]).
  apply split_join; [done|]. intros w Hw.
  apply elem_of_cons in Hw as [->|Hw]; [done|].
  change [as_date s; as_region s; as_service s; "aws4_request"]
    with ([as_date s; as_region s; as_service s] ++ ["aws4_request"]) in Hw.
  apply elem_of_app in Hw as [Hw| ->%list_elem_of_singleton]; [by apply H1|done].
Qed.

Lemma parse_aws_header key s sig :
  scope_ok s → mem_char slash key = false → mem_char ","%char key = false → key ≠ "" →
  as_signed s ≠ "" → sig ≠ "" → mem_char ","%char sig = false → trim_right sig = sig →
  parseAWSAuth (aws_header key s sig)
    = Some (mkScope key (as_date s) (as_region s) (as_service s) (as_signed s) sig).
Proof.
  intros Hok Hk1 Hk2 Hk Hs Hsig Hsig2 Hsig3. pose proof Hok as (H1 & H2 & H3). unfold parseAWSAuth.
  set (p1 := "Credential=" +:+ key +:+ "/" +:+ scope_string s).
  set (p2 := " SignedHeaders=" +:+ as_signed s). set (p3 := " Signature=" +:+ sig).
  assert (E : aws_header key s sig
              = (awsSigV4Prefix +:+ " ") +:+ p1 +:+ String ","%char (p2 +:+ String ","%char p3)).
  { unfold aws_header, p1, p2, p3. rewrite !app_assoc_str. reflexivity. }
  rewrite E, has_prefix_app, trim_prefix_app. simpl negb. cbv iota.
  assert (Hp1 : mem_char ","%char p1 = false).
  { unfold p1, scope_string.
    assert (mem_char ","%char (as_date s) = false) by (apply H1; by left).
    assert (mem_char ","%char (as_region s) = false) by (apply H1; right; by left).
    assert (mem_char ","%char (as_service s) = false) by (apply H1; right; right; by left).
    cbn [join]. rewrite !mem_char_app. repeat (apply orb_false_iff; split); try done. }
  assert (Hp2 : mem_char ","%char p2 = false) by (unfold p2; by rewrite mem_char_app).
  assert (Hp3 : mem_char ","%char p3 = false) by (unfold p3; by rewrite mem_char_app).
  rewrite split_app, split_app, split_word by done.
  assert (T1 : trim_space p1 = p1).
  { unfold trim_space. change (trim_left p1) with p1. unfold p1, scope_string. cbn [join].
    rewrite <- !app_assoc_str. by rewrite trim_right_app. }
  assert (T2 : trim_space p2 = "SignedHeaders=" +:+ as_signed s).
  { change (trim_space p2) with (trim_right ("SignedHeaders=" +:+ as_signed s)).
    rewrite trim_right_app; rewrite H3; done. }
  assert (T3 : trim_space p3 = "Signature=" +:+ sig).
  { change (trim_space p3) with (trim_right ("Signature=" +:+ sig)).
    rewrite trim_right_app; rewrite Hsig3; done. }
  cbn [aws_parts]. unfold aws_part at 1. rewrite T1.
  change p1 with ("Credential" +:+ String "="%char (key +:+ "/" +:+ scope_string s)).
  rewrite cut_app by done. rewrite bool_decide_eq_true_2 by done.
  rewrite split_slash5, bool_decide_eq_true_2 by done.
  unfold aws_part at 1. rewrite T2.
  change ("SignedHeaders=" +:+ as_signed s) with ("SignedHeaders" +:+ String "="%char (as_signed s)).
  rewrite cut_app by done. rewrite bool_decide_eq_false_2 by done.
  rewrite bool_decide_eq_true_2 by done.
  unfold aws_part. rewrite T3.
  change ("Signature=" +:+ sig) with ("Signature" +:+ String "="%char sig).
  rewrite cut_app by done. rewrite !bool_decide_eq_false_2 by done.
  rewrite bool_decide_eq_true_2 by done. simpl. by rewrite !bool_decide_eq_false_2.
Qed.

Lemma hex_string_plain s : mem_char ","%char (hex_string s) = false ∧ trim_right (hex_string s) = hex_string s.
Proof.
  assert (H : ∀ n, n < 16 → mem_char ","%char (str1 (hex_digit n)) = false ∧ is_space (hex_digit n) = false).
  { intros n Hn. do 16 (destruct n as [|n]; [vm_compute; done|]). lia. }
  induction s as [|c s [IH1 IH2]]; [done|].
  assert (Hq : code c / 16 < 16).
  { apply Nat.Div0.div_lt_upper_bound. unfold code. pose proof (nat_ascii_bounded c). lia. }
  assert (Hr : code c mod 16 < 16) by (apply Nat.mod_upper_bound; lia).
  destruct (H _ Hq) as [Hq1 Hq2], (H _ Hr) as [Hr1 Hr2].
  cbn [hex_string hex_byte]. unfold hex_byte. simpl in *. rewrite !orb_false_r in *.
  rewrite Hq1, Hr1, IH1, IH2. split; [done|].
  destruct (hex_string s); simpl; rewrite ?Hr2; done.
Qed.

(** ** Properties *)

(** C26: masking round-trips. For a registry holding one credential, a file that
    carries no sentinel is rewritten to one whose substitution is the original
    file, byte for byte; when the secret occurs in the file the masked copy shows
    a sentinel and the audit names the credential both ways, otherwise the file
    is left alone. *)
Theorem mask_roundtrip (uuid : string → string) (rnd : string → nat → Z) (name real b : string)
    (m : Masker) :
  NewMasker uuid rnd {[ name := real ]} = Ok m → real ≠ "" → contains b SentinelPrefix = false →
  let '(masked, names) := mask_entries m (map_to_list (mk_byName m)) b in
  let '(restored, changed, used) := Substitute (Some m) (map_to_list (mk_bySentinel m)) masked in
  restored = b ∧
  (contains b real = true → names = [name] ∧ HasSentinel masked = true ∧ changed = true ∧ used = [name]) ∧
  (contains b real = false → masked = b ∧ names = [] ∧ changed = false ∧ used = []).
Proof.
  intros Hm Hr Hb. unfold NewMasker in Hm. rewrite map_to_list_singleton in Hm. simpl in Hm.
  rewrite lookup_singleton_eq in Hm. simpl in Hm.
  rewrite bool_decide_eq_false_2 in Hm by done. destruct (contains real _) eqn:Hc; [done|].
  injection Hm as <-. set (s := mintSentinel _ _ _). simpl mk_byName. simpl mk_bySentinel.
  pose proof (mintSentinel_prefix (uuid name) (rnd name) real) as Hs. fold s in Hs.
  change (<[name:=s]> ∅) with ({[name := s]} : gmap string string).
  change (<[s:=mkCred name real ""]> ∅) with ({[s := mkCred name real ""]} : gmap string Credential).
  rewrite !map_to_list_singleton. simpl mask_entries. unfold real_value. simpl mk_bySentinel.
  rewrite lookup_singleton_eq. simpl cr_value. rewrite bool_decide_eq_false_2 by done. simpl orb.
  destruct (contains b real) eqn:Hbr; simpl negb; cbv iota.
  - unfold Substitute.
    pose proof (replace_all_contains real s Hr b Hbr) as Hin.
    assert (Hsp : HasSentinel (replace_all b real s) = true).
    { unfold HasSentinel. revert Hin. generalize (replace_all b real s) as t.
      apply has_prefix_spec in Hs as [tl ->]. intros t.
      induction t as [|c t IH]; intros Ht; rewrite contains_cons in Ht |- *;
        apply orb_true_iff in Ht as [Ht|Ht].
      - apply has_prefix_spec in Ht as [? ?]; done.
      - done.
      - apply has_prefix_spec in Ht as [r ->]. rewrite app_assoc_str, has_prefix_app. done.
      - apply orb_true_iff. right. by apply IH. }
    rewrite Hsp. simpl negb. cbv iota. simpl substitute_loop. rewrite Hin. simpl cr_value.
    simpl cr_name. rewrite replace_all_back by done. split; [done|]. split; [|done].
    intros _. split_and!; done.
  - unfold Substitute, HasSentinel. rewrite Hb. simpl. done.
Qed.

Definition demo_uuid (n : string) : string := "123e4567-e89b-42d3-a456-426614174000".
Definition demo_registry : Masker :=
  match NewMasker demo_uuid (λ _ _, 0%Z) {[ "API_KEY" := "sk-live-42" ]} with
  | Ok m => m
  | Err _ => mkMasker ∅ ∅ ∅ ∅ false
  end.

Lemma mask_roundtrip_witness :
  let '(masked, names) := mask_entries demo_registry (map_to_list (mk_byName demo_registry))
                            "key = sk-live-42" in
  let '(restored, changed, used) :=
    Substitute (Some demo_registry) (map_to_list (mk_bySentinel demo_registry)) masked in
  restored = "key = sk-live-42" ∧
  (contains "key = sk-live-42" "sk-live-42" = true →
     names = ["API_KEY"] ∧ HasSentinel masked = true ∧ changed = true ∧ used = ["API_KEY"]) ∧
  (contains "key = sk-live-42" "sk-live-42" = false →
     masked = "key = sk-live-42" ∧ names = [] ∧ changed = false ∧ used = []).
Proof.
  assert (H : NewMasker demo_uuid (λ _ _, 0%Z) {[ "API_KEY" := "sk-live-42" ]} = Ok demo_registry)
    by (vm_compute; reflexivity).
  assert (Hr : "sk-live-42" ≠ "") by discriminate.
  assert (Hc : contains "key = sk-live-42" SentinelPrefix = false) by (vm_compute; reflexivity).
  exact (mask_roundtrip demo_uuid (λ _ _, 0%Z) "API_KEY" "sk-live-42" "key = sk-live-42"
           demo_registry H Hr Hc).
Defined.

(** With two credentials the iteration order matters: masking a short secret
    first destroys the occurrence of a longer one that contains it, and the rest
    of the longer secret stays in the masked file. *)
Example mask_order_leaks :
  let m := mkMasker {[ "LONG" := "fake_value_L"; "SHORT" := "fake_value_S" ]}
             {[ "fake_value_L" := mkCred "LONG" "hunter2-prod-7731" "";
                "fake_value_S" := mkCred "SHORT" "hunter2" "" ]} ∅ ∅ false in
  fst (mask_entries m [("LONG", "fake_value_L"); ("SHORT", "fake_value_S")] "hunter2-prod-7731")
    = "fake_value_L" ∧
  fst (mask_entries m [("SHORT", "fake_value_S"); ("LONG", "fake_value_L")] "hunter2-prod-7731")
    = "fake_value_S-prod-7731".
Proof. vm_compute. done. Qed.

(** what the registry promises. With fresh identifiers [NewMasker] refuses
    exactly when some secret contains the sentinel prefix; otherwise it masks
    exactly the non-empty values, gives different credentials different
    sentinels, every sentinel begins with the prefix and leads back to its
    credential alone, and is as long as the secret (never shorter than 47 bytes),
    so substitution keeps the length of every secret of at least 47 bytes. *)
Theorem NewMasker_registry (uuid : string → string) (rnd : string → nat → Z)
    (values : gmap string string) :
  (∀ n, String.length (uuid n) = 36) →
  (∀ n n', n ∈ dom values → n' ∈ dom values → uuid n = uuid n' → n = n') →
  (is_ok (NewMasker uuid rnd values) = true ↔
     ∀ n v, values !! n = Some v → contains v SentinelPrefix = false) ∧
  ∀ m, NewMasker uuid rnd values = Ok m →
    (∀ n, is_Some (mk_byName m !! n) ↔ ∃ v, values !! n = Some v ∧ v ≠ "") ∧
    (∀ n s, mk_byName m !! n = Some s ↔
       ∃ v, mk_bySentinel m !! s = Some (mkCred n v "") ∧ values !! n = Some v) ∧
    (∀ n n' s, mk_byName m !! n = Some s → mk_byName m !! n' = Some s → n = n') ∧
    (∀ n s, mk_byName m !! n = Some s → has_prefix s SentinelPrefix = true ∧
       String.length s = 47 `max` String.length (default "" (values !! n))).
Proof.
  intros Hlen Hinj. split.
  { unfold NewMasker. rewrite mask_loop_ok. split.
    - intros H n v Hv. specialize (H n). unfold value_of in H. rewrite Hv in H. apply H.
      rewrite sort_strings_perm, list_elem_of_fmap. exists (n, v). by rewrite elem_of_map_to_list.
    - intros H n _. unfold value_of. destruct (values !! n) eqn:E; [by eapply H|done]. }
  intros m Hm. destruct (NewMasker_wf _ _ _ Hlen Hinj _ Hm) as [H1 H2 H3].
  assert (Hin : ∀ n, n ∈ elements (dom values) ∧ value_of values n ≠ "" ↔
                     ∃ v, values !! n = Some v ∧ v ≠ "").
  { intros n. unfold value_of. rewrite elem_of_elements, elem_of_dom.
    destruct (values !! n) as [v|]; simpl; [|unfold is_Some]; naive_solver. }
  assert (Hname : ∀ n s, mk_byName m !! n = Some s → s = sentinel_of uuid rnd values n ∧
                    ∃ v, values !! n = Some v ∧ value_of values n = v).
  { intros n s Hs. rewrite H1 in Hs. destruct (decide _) as [Hd|]; [|done]. injection Hs as <-.
    split; [done|]. apply Hin in Hd as (v & Hv & _). exists v. split; [done|]. unfold value_of. by rewrite Hv. }
  split_and!.
  - intros n. rewrite H1, <- Hin. destruct (decide _) as [Hd|Hd].
    + split; [done|eauto].
    + split; [intros [? ?]; done|done].
  - intros n s. split.
    + intros Hs. pose proof (H2 _ _ Hs) as Hb. destruct (Hname _ _ Hs) as (_ & v & Hv & E).
      exists v. split; [by rewrite <- E|done].
    + intros (v & Hb & _). by apply H3 in Hb.
  - intros n n' s Hn Hn'. apply H2 in Hn. apply H2 in Hn'. congruence.
  - intros n s Hs. destruct (Hname _ _ Hs) as (-> & v & Hv & E). unfold sentinel_of.
    rewrite mintSentinel_length by done. split; [apply mintSentinel_prefix|]. done.
Qed.

Definition demo_values : gmap string string := {[ "API_KEY" := "sk-live-42"; "DB_URL" := "" ]}.
Definition demo_uuids (n : string) : string :=
  if bool_decide (n = "API_KEY") then "123e4567-e89b-42d3-a456-426614174000"
  else "9c5b94b1-35ad-49bb-b118-8e8fc24abf80".
Definition demo_masker : Masker :=
  match NewMasker demo_uuids (λ _ _, 0%Z) demo_values with
  | Ok m => m
  | Err _ => mkMasker ∅ ∅ ∅ ∅ false
  end.

(** The signature only depends on the headers it covers. *)
Lemma sign_headers sha256 hmac q h s secret date payload :
  (∀ name, name ∈ split ";"%char (as_signed s) → to_lower name ≠ "host" →
     h_get h name = h_get (q_header q) name) →
  sign sha256 hmac (with_header q h) s secret date payload = sign sha256 hmac q s secret date payload.
Proof.
  intros H. unfold sign. simpl q_escaped_path. simpl q_method. simpl q_raw_query.
  assert (E : foldr (λ name acc, canonical_header (with_header q h) name +:+ acc) "" (split ";"%char (as_signed s))
            = foldr (λ name acc, canonical_header q name +:+ acc) "" (split ";"%char (as_signed s))).
  { revert H. generalize (split ";"%char (as_signed s)) as l. induction l as [|name l IH]; [done|].
    intros H. cbn [foldr]. f_equal; [|apply IH; set_solver].
    unfold canonical_header. do 2 f_equal. case_bool_decide as Hh; [done|]. simpl.
    by rewrite H by set_solver. }
  by rewrite E.
Qed.

(** a re-signed request verifies. When [ResignAWS] re-signs, the header it
    sends parses to the same scope under the real key id, and its signature is
    exactly the one the verifier recomputes with the real secret over the
    request as it is sent, provided the client signed neither [Authorization]
    nor a session token other than the real one; every other header is kept. *)
Theorem resigned_verifies (sha256 : string → string) (hmac : string → string → string)
    (m : Masker) (q q' : HttpReq) (s : awsScope) (p : awsPair) :
  (∀ k d, hmac k d ≠ "") →
  parseAWSAuth (h_get (q_header q) "Authorization") = Some s →
  linked_pair m (as_key s) = Some p →
  aw_access_key p ≠ "" → mem_char slash (aw_access_key p) = false →
  mem_char ","%char (aw_access_key p) = false →
  (∀ name, name ∈ split ";"%char (as_signed s) → canonical_key name ≠ "Authorization" ∧
     (canonical_key name = "X-Amz-Security-Token" → aw_session_token p ≠ "" →
        h_get (q_header q) name = aw_session_token p)) →
  ResignAWS sha256 hmac (Some m) q = Ok (true, q') →
  parseAWSAuth (h_get (q_header q') "Authorization")
    = Some (mkScope (aw_access_key p) (as_date s) (as_region s) (as_service s) (as_signed s)
              (sign sha256 hmac q' s (aw_secret p) (h_get (q_header q') "X-Amz-Date") (payload_hash q'))) ∧
  (aw_session_token p ≠ "" → h_get (q_header q') "X-Amz-Security-Token" = aw_session_token p) ∧
  (∀ name, canonical_key name ≠ "Authorization" → canonical_key name ≠ "X-Amz-Security-Token" →
     h_get (q_header q') name = h_get (q_header q) name).
Proof.
  intros Hmac Hs Hp Hk1 Hk2 Hk3 Hsigned H. unfold ResignAWS in H. rewrite Hs, Hp in H.
  case_bool_decide as Hdate; [done|]. cbv zeta in H. injection H as <-.
  assert (Ea : canonical_key "Authorization" = "Authorization") by (vm_compute; reflexivity).
  assert (Et : canonical_key "X-Amz-Security-Token" = "X-Amz-Security-Token") by (vm_compute; reflexivity).
  set (sig := sign _ _ q s _ _ _). set (ha := h_set (q_header q) "Authorization" _).
  set (h := if bool_decide _ then _ else _).
  assert (Hauth : h_get h "Authorization" = aws_header (aw_access_key p) s sig).
  { unfold h. case_bool_decide; [rewrite h_get_set_ne by (rewrite Ea, Et; done)|]; apply h_set_get. }
  assert (Hother : ∀ name, canonical_key name ≠ "Authorization" →
            canonical_key name ≠ "X-Amz-Security-Token" → h_get h name = h_get (q_header q) name).
  { intros name Hn1 Hn2. unfold h. case_bool_decide; [rewrite h_get_set_ne by congruence|];
      unfold ha; by rewrite h_get_set_ne by congruence. }
  assert (Htok : aw_session_token p ≠ "" → h_get h "X-Amz-Security-Token" = aw_session_token p).
  { intros Ht. unfold h. rewrite bool_decide_eq_true_2 by done. apply h_set_get. }
  assert (Hsig : sign sha256 hmac (with_header q h) s (aw_secret p)
                   (h_get h "X-Amz-Date") (payload_hash (with_header q h)) = sig).
  { assert (Ed : h_get h "X-Amz-Date" = h_get (q_header q) "X-Amz-Date") by (apply Hother; vm_compute; done).
    assert (Ec : payload_hash (with_header q h) = payload_hash q).
    { unfold payload_hash. simpl. rewrite Hother by (vm_compute; done). done. }
    rewrite Ed, Ec. apply sign_headers. intros name Hn _. destruct (Hsigned _ Hn) as [Hn1 Hn2].
    destruct (decide (canonical_key name = "X-Amz-Security-Token")) as [Hn3|]; [|auto].
    destruct (decide (aw_session_token p = "")) as [E|E].
    - unfold h. rewrite bool_decide_eq_false_2 by (intros Hx; by apply Hx). unfold ha.
      by rewrite h_get_set_ne by congruence.
    - rewrite Hn2 by done. rewrite <- (Htok E). unfold h_get, h_values. by rewrite Hn3, Et. }
  simpl q_header. split_and!; [|done|done]. rewrite Hauth, Hsig.
  unfold sig, sign. cbv zeta.
  apply parse_aws_header; [by eapply parseAWSAuth_ok|done|done|done|by eapply parseAWSAuth_signed| | |];
    [|apply hex_string_plain..].
  match goal with |- hex_string (hmac ?a ?b) ≠ "" => specialize (Hmac a b); by destruct (hmac a b) end.
Qed.
