(* ===== verification/EgressServer.v ===== *)
(** pkg/egress/server.go, proxy.go, terminate.go and the destination test of
    mitm.go: the HTTP proxy. A handler runs on a world made of the server's
    state and of what it did so far (connections, requests sent upstream,
    replies). What the handler learns from outside is an [Env]: the decider's
    answers, the clock, the resolver and the network, the transport's choice of
    an idle connection, the client connection's hijack. *)

From S2P Require Import Prelude GoStrings GoPaths GoHTTP NetAddr EgressPolicy EgressGuard EgressMask.

(** ** Data *)

Definition CodeHTTP : string := "http".
Definition CodeConnect : string := "connect".
Definition CodeSOCKS : string := "socks".

(** [type Event struct] *)
Record Event := mkEvent {
  ev_at : gotime;
  ev_kind : string;
  ev_host : string;
  ev_port : Z;
  ev_code : Code;
  ev_rule : string;
  ev_reason : string;
  ev_address : string;
  ev_method : string;
  ev_terminated : bool;
  ev_credentials : list string;
}.

(** [type TerminateOptions struct], the fields that choose destinations. *)
Record TerminateOptions := mkTerm { to_exclude : list string; to_ports : list Z }.

(** [type Options struct]: the fields the running server consults. *)
Record Options := mkOptions {
  o_sink : bool;
  o_log_allowed : bool;
  o_mask : option Masker;
  o_terminate : option TerminateOptions;
  o_ca : bool;
  o_decide : bool;
  o_cache_ttl : Z;
}.

(** [type cachedVerdict struct] *)
Record cachedVerdict := mkCached { cv_verdict : Verdict; cv_until : gotime }.

(** [type Server struct]; [sv_pool] is the transport's idle connections, by the
    address they were dialled for, and [sv_log] what the sink received. *)
Record Server := mkServer {
  sv_opts : Options;
  sv_token : string;
  sv_dialer : dialer;
  sv_verdicts : gmap string cachedVerdict;
  sv_policy : Compiled;
  sv_allowed : Z;
  sv_denied : Z;
  sv_log : list Event;
  sv_pool : list (string * string);
}.

Definition set_dialer (s : Server) (d : dialer) : Server :=
  mkServer (sv_opts s) (sv_token s) d (sv_verdicts s) (sv_policy s) (sv_allowed s) (sv_denied s)
           (sv_log s) (sv_pool s).
Definition set_verdicts (s : Server) (v : gmap string cachedVerdict) : Server :=
  mkServer (sv_opts s) (sv_token s) (sv_dialer s) v (sv_policy s) (sv_allowed s) (sv_denied s)
           (sv_log s) (sv_pool s).
Definition set_pool (s : Server) (p : list (string * string)) : Server :=
  mkServer (sv_opts s) (sv_token s) (sv_dialer s) (sv_verdicts s) (sv_policy s) (sv_allowed s)
           (sv_denied s) (sv_log s) p.

(** [Start], once its options are accepted: the server it builds. *)
Definition StartServer (o : Options) (policy : option Compiled) (token : string) (timeout : Z)
    : result Server :=
  match policy with
  | None => Err "egress: Start needs a policy"
  | Some p =>
      if isSome (o_mask o) && negb (isSome (o_terminate o))
      then Err "egress: credential masking requires TLS termination (substitution only runs over a verified connection)"
      else if isSome (o_terminate o) && negb (o_ca o)
      then Err "egress: TLS termination requires a CA"
      else
        let timeout := if bool_decide (timeout ≤ 0)%Z then (30 * ns_second)%Z else timeout in
        Ok (mkServer o token (newDialer p timeout) ∅ p 0 0 [] [])
  end.

(** [func (s Server) UpdatePolicy(p Compiled) error] *)
Definition UpdatePolicy (s : Server) (p : option Compiled) : result Server :=
  match p with
  | None => Err "egress: UpdatePolicy needs a policy"
  | Some p =>
      Ok (mkServer (sv_opts s) (sv_token s) (setPolicy (sv_dialer s) p) (sv_verdicts s) p
            (sv_allowed s) (sv_denied s) (sv_log s) (sv_pool s))
  end.

(** [func (s Server) Stats()] *)
Definition Stats (s : Server) : Z * Z := (sv_allowed s, sv_denied s).

(** ** Decisions *)

(** What one call of [decide] sees: the clock when the cache is read, when it is
    swept and when the answer is stored, and the decider. *)
Record DecideObs := mkObs {
  do_seen : gotime;
  do_swept : gotime;
  do_stored : gotime;
  do_ask : string → Z → result Verdict;
}.

Definition verdict_key (host : string) (port : Z) : string := host +:+ ":" +:+ itoa port.

(** The destination is filled in when the decider left it out. *)
Definition fill_verdict (v : Verdict) (host : string) (port : Z) : Verdict :=
  mkVerdict (v_allow v) (v_code v) (v_rule v) (v_reason v)
    (if bool_decide (v_host v = "") then host else v_host v)
    (if bool_decide (v_port v = 0%Z) then port else v_port v) (v_address v).

Definition sweep (now : gotime) (m : gmap string cachedVerdict) : gmap string cachedVerdict :=
  if (1024 <=? size m)%nat
  then map_filter (λ kc : string * cachedVerdict, after now (cv_until (snd kc)) = false) _ m else m.

(** [func (s Server) decide(ctx, host string, port int) Verdict] *)
Definition server_decide (ob : DecideObs) (s : Server) (host : string) (port : Z) : Verdict * Server :=
  if negb (o_decide (sv_opts s)) then (Decide (sv_policy s) host port, s)
  else
    let key := verdict_key host port in
    if (512 <? String.length key)%nat then
      (mkVerdict false CodeNotAllowed "" "the destination name is too long to evaluate" host port "", s)
    else
      let ttl := o_cache_ttl (sv_opts s) in
      let ask :=
        match do_ask ob host port with
        | Err _ => (mkVerdict false CodeDeciderUnavailable ""
            "the policy decider did not answer; the connection is refused rather than allowed"
            host port "", s)
        | Ok v =>
            let v := fill_verdict v host port in
            if bool_decide (0 < ttl)%Z then
              (v, set_verdicts s (<[key := mkCached v (do_stored ob + ttl)%Z]>
                                    (sweep (do_swept ob) (sv_verdicts s))))
            else (v, s)
        end in
      if bool_decide (0 < ttl)%Z then
        match sv_verdicts s !! key with
        | Some c => if before (do_seen ob) (cv_until c) then (cv_verdict c, s) else ask
        | None => ask
        end
      else ask.

(** ** Authorization *)

(** [func (s Server) tokenMatches(pass string) bool] *)
Definition tokenMatches (s : Server) (pass : string) : bool := bool_decide (pass = sv_token s).

(** [func (s Server) authorized(header string) bool] *)
Definition authorized (s : Server) (header : string) : bool :=
  if (String.length header <? 6)%nat || negb (equal_fold (take_str 6 header) "Basic ") then false
  else match b64_decode (trim_space (drop_str 6 header)) with
       | None => false
       | Some raw => match cut ":"%char raw with
                     | None => false
                     | Some (_, pass) => tokenMatches s pass
                     end
       end.

(** ** Events *)

(** [func (s Server) record(e Event)]; [e] comes with its time. *)
Definition record_event (s : Server) (e : Event) : Server :=
  let allowed := bool_decide (ev_code e = CodeAllowed) in
  let a := if allowed then ((sv_allowed s + 1) mod 2 ^ 64)%Z else sv_allowed s in
  let d := if allowed then sv_denied s else ((sv_denied s + 1) mod 2 ^ 64)%Z in
  let forward := o_sink (sv_opts s) &&
    negb (allowed && negb (o_log_allowed (sv_opts s)) && (length (ev_credentials e) =? 0)%nat) in
  mkServer (sv_opts s) (sv_token s) (sv_dialer s) (sv_verdicts s) (sv_policy s) a d
    (if forward then sv_log s ++ [e] else sv_log s) (sv_pool s).

(** ** Destinations *)

(** [func hostPort(addr string, defPort int) (string, int)] *)
Definition hostPort (addr : string) (defPort : Z) : string * Z :=
  match SplitHostPort addr with
  | None => (trim_set addr "[]", defPort)
  | Some (host, portStr) =>
      match atoi portStr with
      | Some port => (host, if bool_decide (port ≤ 0)%Z || bool_decide (65535 < port)%Z then defPort else port)
      | None => (host, defPort)
      end
  end.

(** [func (t TerminateOptions) terminated(host string) bool] *)
Definition terminated (t : option TerminateOptions) (host : string) : bool :=
  match t with
  | None => false
  | Some t => negb (any (λ pat, matchDomain pat host) (to_exclude t))
  end.

(** [func (s Server) terminating(host string, port int) bool] *)
Definition terminating (s : Server) (host : string) (port : Z) : bool :=
  match o_terminate (sv_opts s) with
  | None => false
  | Some t =>
      if negb (terminated (Some t) host) then false
      else match to_ports t with
           | [] => bool_decide (port = 443%Z)
           | ps => any (λ p, bool_decide (p = port)) ps
           end
  end.

(** ** Headers *)

(** [var hopByHop] *)
Definition hopByHop : list string :=
  ["connection"; "proxy-connection"; "keep-alive"; "proxy-authenticate"; "proxy-authorization";
   "te"; "trailer"; "transfer-encoding"; "upgrade"].

Definition hop_names : list string :=
  ["Connection"; "Proxy-Connection"; "Keep-Alive"; "Proxy-Authenticate"; "Proxy-Authorization";
   "Te"; "Trailer"; "Transfer-Encoding"; "Upgrade"].

(** [func stripHopByHop(h http.Header)] *)
Definition stripHopByHop (h : Header) : Header :=
  let named := flat_map (λ v, keep (λ n, negb (bool_decide (n = "")))
                                (trim_space <$> split ","%char v)) (h_values h "Connection") in
  fold_left h_del hop_names (fold_left h_del named h).

(** The headers of a response that are passed on. *)
Definition passed_headers (h : Header) : Header :=
  map_filter (λ kv : string * list string, to_lower (fst kv) ∉ hopByHop) _ h.

(** [func carriesSentinel(r http.Request) bool] *)
Definition carriesSentinel (h : Header) : bool :=
  any (λ kv, negb (equal_fold (fst kv) "Content-Length") && any HasSentinel (snd kv)) (map_to_list h).

(** [func kindOf(r http.Request) string] *)
Definition kindOf (q : HttpReq) : string :=
  if bool_decide (q_method q = "CONNECT") then CodeConnect else CodeHTTP.

(** ** Handlers *)

(** What a handler does to the outside, in order. A tunnel starts with the bytes
    the client had already sent. *)
Inductive Effect :=
| EDial (host : string) (port : Z) (target : string)
| EUpstream (target : string) (q : HttpReq)
| ETunnel (target : string) (early : string)
| ESend (bytes : string)
| EServeTLS (host : string) (port : Z)
| EReply (status : Z) (code : string) (reason : string)
| EResponse (status : Z) (h : Header).

(** How taking over the client's connection goes: the bytes already buffered,
    whether they reach the upstream, whether the client takes the answer. *)
Inductive Hijack := HjUnsupported | HjFailed | HjOk (early : string) (flushed answered : bool).

(** What a handler learns from outside while it serves one request. [e_obs i]
    is seen by the [i]-th decision, [e_addr] is the address the transport
    derives from a request, [e_idle] whether it takes an idle connection. *)
Record Env := mkEnv {
  e_clock : gotime;
  e_obs : nat → DecideObs;
  e_order : list (string * Credential);
  e_lookup : string → result (list Addr);
  e_rds : nat → Reading;
  e_connect : string → option goerror;
  e_addr : HttpReq → string;
  e_idle : bool;
  e_response : result (Z * Header);
  e_leaf : option string;
  e_hijack : Hijack;
  e_body : result string;
}.

(** A handler's world: the server and what was done so far. *)
Record World := mkWorld { w_sv : Server; w_fx : list Effect }.

Definition emit (w : World) (f : Effect) : World := mkWorld (w_sv w) (w_fx w ++ [f]).
Definition with_sv (w : World) (s : Server) : World := mkWorld s (w_fx w).
Definition record (w : World) (e : Event) : World := with_sv w (record_event (w_sv w) e).

(** [func (s Server) writeDeny(w, status, code, reason)] *)
Definition writeDeny (w : World) (status : Z) (code reason : string) : World :=
  emit w (EReply status code (reason +:+ nl)).

(** [func (s Server) deny(w, kind, r, v, addr)] *)
Definition deny (env : Env) (w : World) (kind : string) (q : HttpReq) (v : Verdict) (addr : string) : World :=
  let w := record w (mkEvent (e_clock env) kind (v_host v) (v_port v) (v_code v) (v_rule v)
                       (v_reason v) addr (q_method q) false []) in
  writeDeny w 403 (code_string (v_code v)) (v_reason v).

(** [func (s Server) fail(w, r, host, port, err)] *)
Definition fail_dial (env : Env) (w : World) (q : HttpReq) (host : string) (port : Z) (err : goerror) : World :=
  match asDenyError err with
  | Some d =>
      let v := de_verdict d in
      let w := record w (mkEvent (e_clock env) (kindOf q) host port (v_code v) "" (v_reason v)
                           (v_address v) (q_method q) false []) in
      writeDeny w 403 (code_string (v_code v)) (v_reason v)
  | None =>
      writeDeny w 502 "upstream_unreachable" ("could not connect to " +:+ host +:+ ":" +:+ itoa port)
  end.

Definition decide_w (ob : DecideObs) (w : World) (host : string) (port : Z) : Verdict * World :=
  let '(v, s) := server_decide ob (w_sv w) host port in (v, with_sv w s).

(** A dial through the guard; a success is an effect. *)
Definition dial_w (env : Env) (w : World) (host : string) (port : Z) : (string + goerror) * World :=
  let '(r, d) := dialAllowingVetted (e_lookup env) (e_rds env) (e_connect env)
                   (sv_dialer (w_sv w)) host port in
  let w := with_sv w (set_dialer (w_sv w) d) in
  match r with
  | inl target => (inl target, emit w (EDial host port target))
  | inr e => (inr e, w)
  end.

(** The [DialContext] of [newTransport]. *)
Definition dial_context (env : Env) (w : World) (addr : string) : (string + goerror) * World :=
  let '(host, port) := hostPort addr 80 in
  let '(v, w) := decide_w (e_obs env 1) w host port in
  if negb (v_allow v) then (inr (EDeny (mkDeny v None)), w)
  else dial_w env w host port.

Fixpoint pool_find (addr : string) (pool : list (string * string)) : option string :=
  match pool with
  | [] => None
  | (a, t) :: pool => if bool_decide (a = addr) then Some t else pool_find addr pool
  end.

Definition pool_drop (addr : string) (pool : list (string * string)) : list (string * string) :=
  keep (λ p, negb (bool_decide (fst p = addr))) pool.

(** [http.Transport.RoundTrip]: an idle connection for the address, or a new one
    through [DialContext]; then the request goes out and an answer comes back. A
    connection that answered is kept, one that failed is not. Returns the
    transport's connections with the answer. *)
Definition RoundTrip (env : Env) (pool : list (string * string)) (w : World) (q : HttpReq)
    : (Z * Header + goerror) * list (string * string) * World :=
  let addr := e_addr env q in
  let send target w :=
    let w := emit w (EUpstream target q) in
    match e_response env with
    | Ok r => (inl r, (addr, target) :: pool_drop addr pool, w)
    | Err m => (inr (ELeaf m), pool_drop addr pool, w)
    end in
  match (if e_idle env then pool_find addr pool else None) with
  | Some target => send target w
  | None =>
      match dial_context env w addr with
      | (inr e, w) => (inr e, pool, w)
      | (inl target, w) => send target w
      end
  end.

(** [func (s Server) terminate(w, r, host, port)] up to the point where the
    requests of the decrypted connection are served. *)
Definition terminate (env : Env) (w : World) (host : string) (port : Z) : World :=
  if negb (o_ca (sv_opts (w_sv w))) then
    writeDeny w 500 "no_ca" "the proxy is configured to terminate TLS but has no certificate authority"
  else match e_leaf env with
       | Some _ => writeDeny w 502 "leaf_failed" "the proxy could not mint a certificate for this host"
       | None =>
           match e_hijack env with
           | HjUnsupported => writeDeny w 500 "no_hijack" "the proxy cannot take over this connection"
           | HjOk _ _ true => emit w (EServeTLS host port)
           | _ => w
           end
       end.

(** [func (s Server) handleConnect(w, r)] *)
Definition handleConnect (env : Env) (w : World) (q : HttpReq) : World :=
  let '(host, port) := hostPort (q_host q) 443 in
  let '(v, w) := decide_w (e_obs env 0) w host port in
  let event code reason term :=
    mkEvent (e_clock env) CodeConnect host port code
      (if bool_decide (code = CodeAllowed) then v_rule v else "") reason "" (q_method q) term [] in
  if negb (v_allow v) then deny env w CodeConnect q v ""
  else if terminating (w_sv w) host port then
    terminate env (record w (event CodeAllowed "" true)) host port
  else match dial_w env w host port with
       | (inr e, w) => fail_dial env w q host port e
       | (inl target, w) =>
           let w := record w (event CodeAllowed "" false) in
           match e_hijack env with
           | HjUnsupported =>
               writeDeny (record w (event CodeNotAllowed "connection cannot be hijacked" false))
                 500 "no_hijack" "the proxy cannot take over this connection"
           | HjOk early true true => emit w (ETunnel target early)
           | _ => w
           end
       end.

(** The request the forward path sends, before its hop-by-hop headers go. *)
Definition absolute_request (q : HttpReq) (h : Header) : HttpReq :=
  mkReq (q_method q) (q_host q) (q_url_host q) (q_escaped_path q) (q_raw_query q)
        (stripHopByHop h) (q_content_length q) (q_body q).

(** [func (s Server) handleForward(w, r)] *)
Definition handleForward (env : Env) (w : World) (q : HttpReq) : World :=
  let event host port code rule reason :=
    mkEvent (e_clock env) CodeHTTP host port code rule reason "" (q_method q) false [] in
  if bool_decide (q_url_host q = "") then
    writeDeny (record w (event (q_host q) 0%Z CodeNotAllowed "" "not an absolute request URI"))
      400 "bad_request" "the proxy expects an absolute request URI (http://host/path)"
  else
    let '(host, port) := hostPort (q_url_host q) 80 in
    let '(v, w) := decide_w (e_obs env 0) w host port in
    if negb (v_allow v) then deny env w CodeHTTP q v ""
    else
      let mask := o_mask (sv_opts (w_sv w)) in
      let plaintext := match mask with Some m => AllowsPlaintext m | None => false end in
      if isSome mask && negb plaintext && carriesSentinel (q_header q) then
        writeDeny (record w (event host port CodeMaskedPlaintext "" "masked credential over plain HTTP"))
          403 (code_string CodeMaskedPlaintext)
          "the request carries a masked credential over plain HTTP; a masked credential is only sent over HTTPS, because cleartext would expose the real value to the network"
      else
        let h := if plaintext then fst (substituteHeaders mask (e_order env) (q_header q)) else q_header q in
        match RoundTrip env (sv_pool (w_sv w)) w (absolute_request q h) with
        | (r, pool, w) =>
            let w := with_sv w (set_pool (w_sv w) pool) in
            match r with
            | inr e => fail_dial env w q host port e
            | inl (status, rh) =>
                emit (record w (event host port CodeAllowed (v_rule v) ""))
                  (EResponse status (passed_headers rh))
            end
        end.

(** [func (s Server) serveHTTP(w, r)] *)
Definition serveHTTP (env : Env) (w : World) (q : HttpReq) : World :=
  if negb (authorized (w_sv w) (h_get (q_header q) "Proxy-Authorization")) then
    writeDeny (record w (mkEvent (e_clock env) (kindOf q) (q_host q) 0 CodeAuthRequired ""
                           "missing or wrong proxy token" "" (q_method q) false []))
      407 "proxy_auth_required"
      "this proxy needs its sandbox token: use the HTTP_PROXY/HTTPS_PROXY values the sandbox was started with"
  else if bool_decide (q_method q = "CONNECT") then handleConnect env w q
  else handleForward env w q.

(** ** The terminated path *)

(** [err.Error()] *)
Definition error_text (e : goerror) : string :=
  match e with
  | EDeny d => DenyError_Error d
  | EWrap m _ | ELeaf m => m
  end.

(** [const maxBodyForMasking] *)
Definition maxBodyForMasking : Z := Z.shiftl 16 20.

(** [func hasSigV4(r http.Request) bool] *)
Definition hasSigV4 (h : Header) : bool := has_prefix (h_get h "Authorization") (awsSigV4Prefix +:+ " ").

(** What [serveTerminated] makes of the request it received, before the
    substitution: the re-originated target, without hop-by-hop headers. *)
Definition reoriginate (q : HttpReq) (host : string) (port : Z) (body : string) : HttpReq :=
  let target := if bool_decide (port = 443%Z) then host else JoinHostPort host (itoa port) in
  mkReq (q_method q) target target (q_escaped_path q) (q_raw_query q)
        (stripHopByHop (q_header q)) (q_content_length q) body.

(** The body as it is examined: [Err] when it cannot be read, [Ok None] when it
    is absent, or too large while nothing is masked. *)
Definition examined_body (env : Env) (q : HttpReq) : result (option string) :=
  if bool_decide (q_content_length q = 0%Z) then Ok None
  else match e_body env with
       | Err e => Err e
       | Ok b => Ok (if bool_decide (len b ≤ maxBodyForMasking)%Z then Some b else None)
       end.

(** The outgoing request after substitution and re-signing: a refusal to write,
    or the request and the credentials used on it. *)
Definition prepare (sha256 : string → string) (hmac : string → string → string) (env : Env)
    (mask : option Masker) (out : HttpReq) (body : option string)
    : (Z * string * string) + (HttpReq * list string) :=
  let '(h, usedHeaders) := substituteHeaders mask (e_order env) (q_header out) in
  let '(nb, changed, names) := Substitute mask (e_order env) (default "" body) in
  let out :=
    if changed then
      mkReq (q_method out) (q_host out) (q_url_host out) (q_escaped_path out) (q_raw_query out)
            (h_set h "Content-Length" (itoa (len nb))) (len nb) nb
    else with_header out h in
  let used := usedHeaders ++ (if changed then names else []) in
  match mask with
  | None => inr (out, used)
  | Some _ =>
      if changed then
        if hasSigV4 (q_header out) then
          inl (409%Z, "sigv4_body_rewritten",
               "the request carries a SigV4 signature and a body that changed under credential masking; send the credential in a header instead of the body")
        else inr (out, used)
      else match ResignAWS sha256 hmac mask out with
           | Err e => inl (502%Z, "sigv4_resign",
                           "the proxy could not re-sign the request with the real credential: " +:+ e)
           | Ok (resigned, out) => inr (out, if resigned then used ++ ["AWS SigV4"] else used)
           end
  end.

(** [func (s Server) serveTerminated(w, r, tr, host, port)]; [pool] holds the
    tunnel's own transport's connections. *)
Definition serveTerminated (sha256 : string → string) (hmac : string → string → string) (env : Env)
    (pool : list (string * string)) (w : World) (q : HttpReq) (host : string) (port : Z)
    : list (string * string) * World :=
  let mask := o_mask (sv_opts (w_sv w)) in
  match examined_body env q with
  | Err _ => (pool, writeDeny w 400 "body_read" "the proxy could not read the request body")
  | Ok body =>
      if isSome mask && negb (bool_decide (q_content_length q = 0%Z)) && negb (isSome body) then
        (pool, writeDeny w 413 "body_too_large"
           ("the request body exceeds the " +:+ itoa maxBodyForMasking +:+ " byte limit for credential masking; split the upload or send it without a masked credential"))
      else
        let sent := if bool_decide (q_content_length q = 0%Z) then q_body q
                    else match e_body env with Ok b => b | Err _ => "" end in
        match prepare sha256 hmac env mask (reoriginate q host port sent) body with
        | inl (status, code, reason) => (pool, writeDeny w status code reason)
        | inr (out, used) =>
            let event code rule creds term :=
              mkEvent (e_clock env) CodeConnect host port code rule "" "" (q_method q) term creds in
            let w := if (0 <? length used)%nat then record w (event CodeAllowed "" used true) else w in
            match RoundTrip env pool w out with
            | (inr e, pool, w) =>
                (pool, match asDenyError e with
                       | Some d =>
                           let v := de_verdict d in
                           record (writeDeny w 403 (code_string (v_code v)) (v_reason v))
                                  (event (v_code v) (v_rule v) [] false)
                       | None => writeDeny w 502 "upstream_failed"
                                   ("the proxy reached " +:+ host +:+ " but the request failed: " +:+ error_text e)
                       end)
            | (inl (status, rh), pool, w) =>
                (pool, record (emit w (EResponse status (passed_headers rh))) (event CodeAllowed "" [] true))
            end
        end
  end.

(** ** Lemmas *)

Lemma set_verdicts_id s : set_verdicts s (sv_verdicts s) = s.
Proof. by destruct s. Qed.

Lemma decide_frame ob s host port : ∃ m, snd (server_decide ob s host port) = set_verdicts s m.
Proof.
  assert (Hid : ∃ m, s = set_verdicts s m) by (exists (sv_verdicts s); by rewrite set_verdicts_id).
  unfold server_decide. repeat case_match; simpl; eauto.
Qed.

Lemma decide_w_frame ob w host port v w' :
  decide_w ob w host port = (v, w') →
  v = fst (server_decide ob (w_sv w) host port) ∧ w_fx w' = w_fx w ∧ ∃ m, w_sv w' = set_verdicts (w_sv w) m.
Proof.
  unfold decide_w. destruct (decide_frame ob (w_sv w) host port) as [m Hm].
  destruct (server_decide _ _ _ _) as [v0 s]. intros [= <- <-]. simpl in *. eauto.
Qed.

Lemma dial_w_frame env w host port r w' :
  dial_w env w host port = (r, w') →
  (∃ d, w_sv w' = set_dialer (w_sv w) d) ∧
  r = fst (dialAllowingVetted (e_lookup env) (e_rds env) (e_connect env) (sv_dialer (w_sv w)) host port) ∧
  w_fx w' = w_fx w ++ match r with inl target => [EDial host port target] | inr _ => [] end.
Proof.
  unfold dial_w. destruct (dialAllowingVetted _ _ _ _ _ _) as [[t|e] d]; intros [= <- <-]; simpl.
  - eauto.
  - rewrite app_nil_r. eauto.
Qed.

(** The key of the cache determines the destination. *)
Lemma itoa_no_colon n : mem_char ":"%char (itoa n) = false.
Proof.
  assert (H : ∀ m s, mem_char ":"%char s = false → mem_char ":"%char (pretty_N_go m s) = false).
  { intros m. induction (N.lt_wf_0 m) as [m _ IH]. intros s Hs. destruct (decide (0 < m)%N) as [Hm|Hm].
    - rewrite pretty_N_go_step by done. apply IH; [by apply N.div_lt|]. simpl.
      rewrite Hs, orb_false_r. unfold pretty_N_char. repeat case_match; done.
    - assert (m = 0%N) as -> by lia. by rewrite pretty_N_go_0. }
  assert (HN : ∀ m : N, mem_char ":"%char (pretty m) = false).
  { intros m. unfold pretty, pretty_N. case_decide; [done|by apply H]. }
  destruct n as [|p|p].
  - reflexivity.
  - exact (HN (Npos p)).
  - change (itoa (Zneg p)) with (String "-"%char (pretty (Npos p))). simpl. by rewrite HN.
Qed.

Lemma verdict_key_inj h p h' p' : verdict_key h p = verdict_key h' p' → h = h' ∧ p = p'.
Proof.
  unfold verdict_key. change (":" +:+ itoa p) with (String ":"%char (itoa p)).
  change (":" +:+ itoa p') with (String ":"%char (itoa p')). intros H.
  assert (E : cut_last ":"%char (h +:+ String ":"%char (itoa p)) = Some (h, itoa p))
    by (apply cut_last_app, itoa_no_colon).
  rewrite H in E. rewrite cut_last_app in E by apply itoa_no_colon. injection E as E1 E2.
  split; [done|]. unfold itoa in E2. by apply (inj pretty) in E2.
Qed.

(** ** The gate *)

(** Effects that reach beyond the client. *)
Definition outbound (f : Effect) : bool :=
  match f with
  | EDial _ _ _ | EUpstream _ _ | ETunnel _ _ | EServeTLS _ _ => true
  | ESend _ | EReply _ _ _ | EResponse _ _ => false
  end.

(** Where a request wants to go. *)
Definition destination (q : HttpReq) : string * Z :=
  if bool_decide (q_method q = "CONNECT") then hostPort (q_host q) 443
  else hostPort (q_url_host q) 80.

(** Servers that decide and dial alike. *)
Definition same_gate (s s' : Server) : Prop :=
  sv_opts s = sv_opts s' ∧ sv_policy s = sv_policy s' ∧ sv_dialer s = sv_dialer s' ∧ sv_pool s = sv_pool s'.

(** A request without hop-by-hop headers, the proxy's own credential among them. *)
Definition stripped (q : HttpReq) : Prop := ∀ k, k ∈ hop_names → h_values (q_header q) k = [].

Lemma fold_del_values ks h k :
  (k ∈ ks ∨ h_values h k = []) → h_values (fold_left h_del ks h) k = [].
Proof.
  revert h; induction ks as [|k' ks IH]; intros h H; simpl.
  - destruct H as [H|H]; [by apply not_elem_of_nil in H|done].
  - apply IH. rewrite h_del_get. case_bool_decide as E; [by right|].
    destruct H as [[->|H]%elem_of_cons|H]; [done|by left|by right].
Qed.

Lemma stripHopByHop_values h k : k ∈ hop_names → h_values (stripHopByHop h) k = [].
Proof. intros Hk. unfold stripHopByHop. apply fold_del_values. by left. Qed.

(** What justifies an effect among the effects [fx] of one request. *)
Definition effect_ok (env : Env) (s : Server) (pool : list (string * string)) (fx : list Effect)
    (f : Effect) : Prop :=
  match f with
  | EDial h p target =>
      (∃ i s', same_gate s' s ∧ v_allow (fst (server_decide (e_obs env i) s' h p)) = true) ∧
      fst (dialAllowingVetted (e_lookup env) (e_rds env) (e_connect env) (sv_dialer s) h p) = inl target
  | EUpstream target q =>
      stripped q ∧
      ((∃ h p, EDial h p target ∈ fx) ∨
       (e_idle env = true ∧ pool_find (e_addr env q) pool = Some target))
  | ETunnel target _ => ∃ h p, EDial h p target ∈ fx
  | EServeTLS h p => terminating s h p = true
  | ESend _ | EReply _ _ _ | EResponse _ _ => True
  end.

Lemma effect_ok_same env s s' pool fx f :
  same_gate s s' → effect_ok env s pool fx f → effect_ok env s' pool fx f.
Proof.
  intros (H1 & H2 & H3 & H4). destruct f; simpl; try done.
  - rewrite H3. intros [(i & s0 & (? & ? & ? & ?) & ?) ?]. split; [|done]. exists i, s0.
    unfold same_gate. split; [|done]. split_and!; congruence.
  - unfold terminating. by rewrite H1.
Qed.

Lemma effect_ok_mono env s pool fx fx' f :
  fx ⊆ fx' → effect_ok env s pool fx f → effect_ok env s pool fx' f.
Proof. intros Hs. destruct f; simpl; try done; set_solver. Qed.

Lemma same_gate_verdicts s m : same_gate (set_verdicts s m) s.
Proof. done. Qed.
Lemma same_gate_record s e : same_gate (record_event s e) s.
Proof. done. Qed.
#[local] Hint Resolve same_gate_verdicts same_gate_record : core.

Lemma RoundTrip_spec env pool w q r pool' w' :
  stripped q → RoundTrip env pool w q = (r, pool', w') →
  ∃ fx, w_fx w' = w_fx w ++ fx ∧ (∀ f, f ∈ fx → effect_ok env (w_sv w) pool fx f) ∧
        (∀ t q', EUpstream t q' ∈ fx → q' = q).
Proof.
  unfold RoundTrip. intros Hq H.
  destruct (if e_idle env then _ else None) as [t|] eqn:Ei.
  - destruct (e_idle env) eqn:Eid; [|done]. exists [EUpstream t q].
    destruct (e_response env); injection H as <- <- <-; simpl; (split; [done|]);
      (split; [intros f ->%list_elem_of_singleton; simpl; auto|set_solver]).
  - destruct (dial_context env w _) as [[t|e] w1] eqn:Ed.
    + unfold dial_context in Ed. destruct (hostPort _ _) as [host port].
      destruct (decide_w _ _ _ _) as [v w0] eqn:Ew.
      destruct (decide_w_frame _ _ _ _ _ _ Ew) as (-> & Hf & m & Hs).
      destruct (negb _) eqn:Ev; [done|]. apply negb_false_iff in Ev.
      destruct (dial_w_frame _ _ _ _ _ _ Ed) as ((d & Hd) & Hr & Hfx). rewrite Hs in Hr.
      exists [EDial host port t; EUpstream t q].
      assert (Hw : w_fx (emit w1 (EUpstream t q)) = w_fx w ++ [EDial host port t; EUpstream t q]).
      { simpl. by rewrite Hfx, Hf, <- app_assoc. }
      assert (Hok : ∀ f, f ∈ [EDial host port t; EUpstream t q] →
                effect_ok env (w_sv w) pool [EDial host port t; EUpstream t q] f).
      { intros f [->|[->|[]%elem_of_nil]%elem_of_cons]%elem_of_cons; simpl.
        - split; [by exists 1, (w_sv w)|done].
        - split; [done|]. left. exists host, port. by left. }
      destruct (e_response env); injection H as <- <- <-; (split_and!; [done|done|set_solver]).
    + injection H as <- <- <-. exists []. rewrite app_nil_r.
      split; [|set_solver]. unfold dial_context in Ed. destruct (hostPort _ _) as [host port].
      destruct (decide_w _ _ _ _) as [v w0] eqn:Ew.
      destruct (decide_w_frame _ _ _ _ _ _ Ew) as (_ & Hf & _).
      destruct (negb _); [by injection Ed as _ <-|].
      destruct (dial_w_frame _ _ _ _ _ _ Ed) as (_ & _ & Hfx). by rewrite Hfx, Hf, app_nil_r.
Qed.

Lemma fail_dial_fx env w q host port e :
  ∃ f, w_fx (fail_dial env w q host port e) = w_fx w ++ [f] ∧ outbound f = false.
Proof. unfold fail_dial. destruct (asDenyError e); by eexists. Qed.

(** An effect that is not outbound needs no justification. *)
Lemma effect_ok_inner env s pool fx f : outbound f = false → effect_ok env s pool fx f.
Proof. by destruct f. Qed.

Definition gated (env : Env) (s : Server) (w' : World) (w : World) (host : string) (port : Z) : Prop :=
  ∃ fx, w_fx w' = w_fx w ++ fx ∧
    (∀ f, f ∈ fx → effect_ok env s (sv_pool s) fx f) ∧
    ((∃ f, f ∈ fx ∧ outbound f = true) → v_allow (fst (server_decide (e_obs env 0) s host port)) = true).

Lemma gated_inner env s w' w host port f :
  w_fx w' = w_fx w ++ [f] → outbound f = false → gated env s w' w host port.
Proof.
  intros Hw Hf. exists [f]. split; [done|]. split.
  - intros f' ->%list_elem_of_singleton. by apply effect_ok_inner.
  - intros (f' & ->%list_elem_of_singleton & ?). congruence.
Qed.

Ltac fx_simpl := unfold writeDeny, record, with_sv, emit; cbn [w_fx w_sv].

Lemma handleConnect_gated env w q host port :
  hostPort (q_host q) 443 = (host, port) → gated env (w_sv w) (handleConnect env w q) w host port.
Proof.
  intros Hd. unfold handleConnect. rewrite Hd.
  destruct (decide_w _ _ _ _) as [v w0] eqn:Ew.
  destruct (decide_w_frame _ _ _ _ _ _ Ew) as (-> & Hf & m & Hs).
  destruct (negb _) eqn:Ev.
  { eapply gated_inner; [simpl; by rewrite Hf|done]. }
  apply negb_false_iff in Ev. destruct (terminating (w_sv w0) host port) eqn:Et.
  - assert (Hnil : ∀ s', gated env (w_sv w) (mkWorld s' (w_fx w0)) w host port).
    { intros s'. exists []. simpl. rewrite Hf, app_nil_r. split; [done|]. split; set_solver. }
    unfold terminate. destruct (negb _); [eapply gated_inner; [simpl; by rewrite Hf|done]|].
    destruct (e_leaf env); [eapply gated_inner; [simpl; by rewrite Hf|done]|].
    destruct (e_hijack env) as [| |early fl []];
      [eapply gated_inner; [simpl; by rewrite Hf|done]|apply Hnil| |apply Hnil].
    exists [EServeTLS host port]. simpl. rewrite Hf. split; [done|]. split; [|done].
    intros f ->%list_elem_of_singleton. simpl. by rewrite Hs in Et.
  - destruct (dial_w env w0 host port) as [[t|e] w1] eqn:Edw;
      destruct (dial_w_frame _ _ _ _ _ _ Edw) as ((d & Hd1) & Hr & Hfx); rewrite Hs in Hr;
      rewrite Hf in Hfx.
    + assert (Hok : ∀ fx, effect_ok env (w_sv w) (sv_pool (w_sv w)) fx (EDial host port t)).
      { intros fx. split; [|done]. by exists 0, (w_sv w). }
      destruct (e_hijack env) as [| |early [] []]; fx_simpl.
      * exists [EDial host port t; EReply 500 "no_hijack" ("the proxy cannot take over this connection" +:+ nl)].
        rewrite Hfx, <- app_assoc. split; [done|]. split; [|done].
        intros f [->|[->|[]%elem_of_nil]%elem_of_cons]%elem_of_cons; [apply Hok|done].
      * exists [EDial host port t]. split; [done|]. split; [|done].
        intros f ->%list_elem_of_singleton. apply Hok.
      * exists [EDial host port t; ETunnel t early]. rewrite Hfx, <- app_assoc. split; [done|].
        split; [|done].
        intros f [->|[->|[]%elem_of_nil]%elem_of_cons]%elem_of_cons; [apply Hok|]. exists host, port. by left.
      * exists [EDial host port t]. split; [done|]. split; [|done].
        intros f ->%list_elem_of_singleton. apply Hok.
      * exists [EDial host port t]. split; [done|]. split; [|done].
        intros f ->%list_elem_of_singleton. apply Hok.
      * exists [EDial host port t]. split; [done|]. split; [|done].
        intros f ->%list_elem_of_singleton. apply Hok.
    + rewrite app_nil_r in Hfx. destruct (fail_dial_fx env w1 q host port e) as (f & Hff & Hfo).
      eapply gated_inner; [|exact Hfo]. by rewrite Hff, Hfx.
Qed.

Lemma handleForward_gated env w q host port :
  hostPort (q_url_host q) 80 = (host, port) → gated env (w_sv w) (handleForward env w q) w host port.
Proof.
  intros Hd. unfold handleForward. case_bool_decide; [by eapply gated_inner|].
  rewrite Hd. destruct (decide_w _ _ _ _) as [v w0] eqn:Ew.
  destruct (decide_w_frame _ _ _ _ _ _ Ew) as (-> & Hf & m & Hs).
  destruct (negb (v_allow _)) eqn:Ev; [eapply gated_inner; [simpl; by rewrite Hf|done]|].
  apply negb_false_iff in Ev.
  destruct (_ && carriesSentinel _); [eapply gated_inner; [simpl; by rewrite Hf|done]|].
  destruct (RoundTrip _ _ _ _) as [[r pool] w1] eqn:Er.
  apply RoundTrip_spec in Er as (fx & Hfx & Hok & _); [|intros k Hk; by apply stripHopByHop_values].
  rewrite Hf in Hfx.
  assert (Hok' : ∀ f, f ∈ fx → effect_ok env (w_sv w) (sv_pool (w_sv w)) fx f).
  { intros f Hin. apply (effect_ok_same _ (w_sv w0)); [by rewrite Hs|]. rewrite Hs in Hok |- *.
    by apply Hok. }
  assert (Hend : ∀ w' f, w_fx w' = w_fx w1 ++ [f] → outbound f = false →
                   gated env (w_sv w) w' w host port).
  { intros w' f Hw' Hfo. exists (fx ++ [f]). rewrite Hw', Hfx, app_assoc. split; [done|]. split; [|done].
    intros f' [Hin|Hin]%elem_of_app.
    - eapply effect_ok_mono; [|by apply Hok']. set_solver.
    - apply list_elem_of_singleton in Hin as ->. by apply effect_ok_inner. }
  destruct r as [[status rh]|e].
  - by eapply Hend.
  - destruct (fail_dial_fx env (with_sv w1 (set_pool (w_sv w1) pool)) q host port e) as (f & Hff & Hfo).
    by eapply Hend.
Qed.

(** ** Properties *)

(** C2: the HTTP proxy is a gate. Serving a request only appends effects, and
    if any of them reaches beyond the client, the request carried the server's
    token and its destination was allowed at that moment; every connection
    opened goes to a destination that was itself decided and is the one the
    address guard vetted, and what is tunnelled or sent upstream travels on such
    a connection, or on one the transport had kept for that address. No request
    sent upstream carries a hop-by-hop header or the proxy's token. *)
Theorem serveHTTP_gated (env : Env) (w : World) (q : HttpReq) :
  let '(host, port) := destination q in
  ∃ fx, w_fx (serveHTTP env w q) = w_fx w ++ fx ∧
    (∀ f, f ∈ fx → effect_ok env (w_sv w) (sv_pool (w_sv w)) fx f) ∧
    ((∃ f, f ∈ fx ∧ outbound f = true) →
       authorized (w_sv w) (h_get (q_header q) "Proxy-Authorization") = true ∧
       v_allow (fst (server_decide (e_obs env 0) (w_sv w) host port)) = true).
Proof.
  destruct (destination q) as [host port] eqn:Hd. unfold destination in Hd. unfold serveHTTP.
  destruct (authorized _ _) eqn:Ea; simpl negb; cbv iota.
  - assert (Hg : gated env (w_sv w)
             (if bool_decide (q_method q = "CONNECT") then handleConnect env w q else handleForward env w q)
             w host port).
    { case_bool_decide; [by apply handleConnect_gated|by apply handleForward_gated]. }
    destruct Hg as (fx & H1 & H2 & H3). exists fx. auto.
  - eexists [_]. split; [reflexivity|]. split.
    + intros f ->%list_elem_of_singleton. done.
    + by intros (f & ->%list_elem_of_singleton & ?).
Qed.

(** *** The verdict cache *)

Definition call := (DecideObs * string * Z)%type.

(** A server between decisions: decisions are taken and policies are pushed. *)
Inductive decide_op := OpDecide (c : call) | OpUpdate (p : Compiled).

Definition decide_op_step (s : Server) (o : decide_op) : Server :=
  match o with
  | OpDecide (ob, host, port) => snd (server_decide ob s host port)
  | OpUpdate p => match UpdatePolicy s (Some p) with Ok s => s | Err _ => s end
  end.

(** The decider said [v] of the destination at [ob]. *)
Definition answered (ob : DecideObs) (host : string) (port : Z) (v : Verdict) : Prop :=
  ∃ v0, do_ask ob host port = Ok v0 ∧ v = fill_verdict v0 host port.

(** Every cached verdict is a decider's answer for its own destination. *)
Definition cache_wf (os : list decide_op) (s : Server) : Prop :=
  ∀ key c, sv_verdicts s !! key = Some c →
    ∃ ob host port, OpDecide (ob, host, port) ∈ os ∧ key = verdict_key host port ∧
      answered ob host port (cv_verdict c) ∧ cv_until c = (do_stored ob + o_cache_ttl (sv_opts s))%Z.

Lemma sweep_lookup now m key c : sweep now m !! key = Some c → m !! key = Some c.
Proof.
  unfold sweep. destruct (_ <=? _); [|done]. intros H. by apply map_lookup_filter_Some in H as [? _].
Qed.

Lemma cache_wf_mono os os' s : os ⊆ os' → cache_wf os s → cache_wf os' s.
Proof. intros Hs H key c Hc. destruct (H key c Hc) as (ob & h & p & ? & ?). exists ob, h, p. set_solver. Qed.

(** Where a verdict may come from. *)
Definition verdict_source (os : list decide_op) (ob : DecideObs) (ttl : Z) (host : string) (port : Z)
    (v : Verdict) : Prop :=
  v_allow v = false ∨ answered ob host port v ∨
  ∃ ob', OpDecide (ob', host, port) ∈ os ∧ answered ob' host port v ∧
         (do_seen ob < do_stored ob' + ttl)%Z.

(** One decision, from a server with a sound cache: where its answer comes from,
    and that the cache stays sound. *)
Lemma server_decide_spec os s ob host port v s' :
  o_decide (sv_opts s) = true → cache_wf os s → server_decide ob s host port = (v, s') →
  sv_opts s' = sv_opts s ∧ cache_wf (os ++ [OpDecide (ob, host, port)]) s' ∧
  verdict_source os ob (o_cache_ttl (sv_opts s)) host port v.
Proof.
  intros Hd Hwf H.
  assert (Hwf' : cache_wf (os ++ [OpDecide (ob, host, port)]) s) by (eapply cache_wf_mono; [|done]; set_solver).
  unfold server_decide in H. rewrite Hd in H. simpl negb in H. cbv iota in H.
  destruct (512 <? _); [injection H as <- <-; split_and!; [done|done|by left]|].
  set (ask := match do_ask ob host port with Ok _ => _ | Err _ => _ end) in H.
  assert (Hask : ask = (v, s') → sv_opts s' = sv_opts s ∧
            cache_wf (os ++ [OpDecide (ob, host, port)]) s' ∧
            verdict_source os ob (o_cache_ttl (sv_opts s)) host port v).
  { unfold ask. destruct (do_ask ob host port) as [v0|e] eqn:Ea;
      [|intros [= <- <-]; split_and!; [done|done|by left]].
    assert (Han : answered ob host port (fill_verdict v0 host port)) by (by exists v0).
    assert (Hsrc : verdict_source os ob (o_cache_ttl (sv_opts s)) host port (fill_verdict v0 host port))
      by (right; by left).
    case_bool_decide as Ht; intros [= <- <-]; [|by split_and!]. split_and!; [done| |done].
    intros key c Hc. simpl in Hc. destruct (decide (key = verdict_key host port)) as [->|Hk].
    - rewrite lookup_insert_eq in Hc. injection Hc as <-. exists ob, host, port. set_solver.
    - rewrite lookup_insert_ne in Hc by done. apply sweep_lookup in Hc.
      destruct (Hwf key c Hc) as (ob' & h & p & ? & ?). exists ob', h, p. set_solver. }
  case_bool_decide; [|by apply Hask].
  destruct (sv_verdicts s !! verdict_key host port) as [c|] eqn:Ec; [|by apply Hask].
  destruct (before _ _) eqn:Eb; [|by apply Hask]. injection H as <- <-.
  split_and!; [done|done|]. destruct (Hwf _ _ Ec) as (ob' & h & p & Hin & Hk & Han & Hu).
  apply verdict_key_inj in Hk as [-> ->]. right. right. exists ob'. split_and!; [done|done|].
  unfold before in Eb. simpl_bool. by rewrite <- Hu.
Qed.

Lemma run_decides_wf os s :
  o_decide (sv_opts s) = true → sv_verdicts s = ∅ →
  let s' := fold_left decide_op_step os s in sv_opts s' = sv_opts s ∧ cache_wf os s'.
Proof.
  intros Hd He. induction os as [|o os [IH1 IH2]] using rev_ind.
  { split; [done|]. intros key c Hc. simpl in Hc. rewrite He in Hc. by rewrite lookup_empty in Hc. }
  cbv zeta in *. rewrite fold_left_app. simpl fold_left.
  set (s1 := fold_left decide_op_step os s) in *.
  destruct o as [[[ob host] port]|p]; simpl decide_op_step.
  - destruct (server_decide ob s1 host port) as [v s2] eqn:E.
    destruct (server_decide_spec os s1 ob host port v s2) as (H1 & H2 & _); [congruence|done|done|].
    split; [simpl; congruence|exact H2].
  - split; [done|]. intros key c Hc. destruct (IH2 key c Hc) as (ob & h & pt & ? & ?).
    exists ob, h, pt. set_solver.
Qed.

(** C15: a decider's word, and only its word, lets a connection through. On a
    server whose verdicts come from a decider, after any decisions and policy
    updates, an allow for a destination is the decider's own answer for that
    destination: given now, or given before and still inside the cache lifetime;
    a decider that fails with nothing cached is a refusal, and so is a
    destination too long to evaluate. *)
Theorem decide_fail_closed (s0 : Server) (os : list decide_op) (ob : DecideObs) (host : string) (port : Z) :
  o_decide (sv_opts s0) = true → sv_verdicts s0 = ∅ →
  let s := fold_left decide_op_step os s0 in
  let v := fst (server_decide ob s host port) in
  (v_allow v = true → (answered ob host port v ∨
     ∃ ob', OpDecide (ob', host, port) ∈ os ∧ answered ob' host port v ∧
            (do_seen ob < do_stored ob' + o_cache_ttl (sv_opts s0))%Z)) ∧
  (∀ e, do_ask ob host port = Err e → o_cache_ttl (sv_opts s0) = 0%Z → v_allow v = false) ∧
  (512 < String.length (verdict_key host port) → v_allow v = false ∧ v_code v = CodeNotAllowed).
Proof.
  intros Hd He s v. destruct (run_decides_wf os s0 Hd He) as [Ho Hwf]. fold s in Ho, Hwf.
  rewrite <- Ho in Hd. destruct (server_decide ob s host port) as [v1 s'] eqn:E.
  destruct (server_decide_spec os s ob host port v1 s' Hd Hwf E) as (_ & _ & Hsrc).
  rewrite Ho in Hsrc. unfold v. simpl. split_and!.
  - intros Hv. destruct Hsrc as [Hsrc|[Hsrc|Hsrc]]; [congruence|by left|by right].
  - intros e Hask Httl. unfold server_decide in E. rewrite Hd, Ho, Httl, Hask in E. simpl in E.
    destruct (512 <? _); by injection E as <- _.
  - intros Hl. unfold server_decide in E. rewrite Hd in E. simpl in E.
    apply Nat.ltb_lt in Hl. rewrite Hl in E. by injection E as <- _.
Qed.

Definition demo_opts : Options := mkOptions true false None None false true ns_minute.
Definition demo_server : Server :=
  mkServer demo_opts "tok" (newDialer demo_compiled 0) ∅ demo_compiled 0 0 [] [].
Definition demo_obs (now : gotime) (up : bool) : DecideObs :=
  mkObs now now now (λ h p, if up then Ok (mkVerdict true CodeAllowed "*" "" "" 0 "") else Err "timeout").

Lemma decide_fail_closed_witness :
  let s := fold_left decide_op_step [OpDecide (demo_obs 0 true, "a.example.com", 443%Z)] demo_server in
  let v := fst (server_decide (demo_obs ns_second false) s "a.example.com" 443) in
  v_allow v = true ∧
  (answered (demo_obs ns_second false) "a.example.com" 443 v ∨
   ∃ ob', OpDecide (ob', "a.example.com", 443%Z) ∈ [OpDecide (demo_obs 0 true, "a.example.com", 443%Z)] ∧
     answered ob' "a.example.com" 443 v ∧
     (do_seen (demo_obs ns_second false) < do_stored ob' + o_cache_ttl (sv_opts demo_server))%Z).
Proof.
  split; [vm_compute; reflexivity|].
  apply (decide_fail_closed demo_server [OpDecide (demo_obs 0 true, "a.example.com", 443%Z)]
           (demo_obs ns_second false) "a.example.com" 443); vm_compute; reflexivity.
Defined.

(** *** The terminated path *)

Lemma substituteHeaders_values m order h k :
  h_values h k = [] → h_values (fst (substituteHeaders m order h)) k = [].
Proof.
  destruct m as [m|]; [|done]. unfold h_values. simpl. rewrite lookup_fmap.
  destruct (h !! canonical_key k); [|done]. simpl. by intros ->.
Qed.

Lemma h_set_values_ne h k k' v :
  canonical_key k ≠ canonical_key k' → h_values (h_set h k v) k' = h_values h k'.
Proof. intros H. unfold h_values, h_set. by rewrite lookup_insert_ne. Qed.

Lemma hop_names_other k : k ∈ hop_names →
  canonical_key "Content-Length" ≠ canonical_key k ∧ canonical_key "Authorization" ≠ canonical_key k ∧
  canonical_key "X-Amz-Security-Token" ≠ canonical_key k.
Proof.
  revert k. apply Forall_forall. unfold hop_names.
  repeat (constructor; [vm_compute; split_and!; discriminate|]). constructor.
Qed.

Lemma ResignAWS_stripped sha256 hmac m q b q' :
  stripped q → ResignAWS sha256 hmac m q = Ok (b, q') → stripped q' ∧ q_host q' = q_host q.
Proof.
  intros Hq. unfold ResignAWS. destruct m as [m|]; [|by intros [= _ <-]].
  destruct (parseAWSAuth _) as [s|]; [|by intros [= _ <-]].
  destruct (linked_pair _ _) as [p|]; [|by intros [= _ <-]].
  case_bool_decide; [done|]. cbv zeta. intros [= _ <-]. split; [|done]. intros k Hk. simpl.
  destruct (hop_names_other k Hk) as (? & ? & ?). specialize (Hq k Hk).
  case_bool_decide; rewrite ?h_set_values_ne; done.
Qed.

Lemma prepare_stripped sha256 hmac env mask out body q used :
  stripped out → prepare sha256 hmac env mask out body = inr (q, used) →
  stripped q ∧ q_host q = q_host out.
Proof.
  intros Hs. unfold prepare.
  destruct (substituteHeaders mask (e_order env) (q_header out)) as [h uh] eqn:Eh.
  assert (Hh : ∀ k, k ∈ hop_names → h_values h k = []).
  { intros k Hk. replace h with (fst (substituteHeaders mask (e_order env) (q_header out))) by (by rewrite Eh).
    apply substituteHeaders_values, Hs, Hk. }
  destruct (Substitute _ _ _) as [[nb changed] names].
  assert (H1 : ∀ n b, stripped (mkReq (q_method out) (q_host out) (q_url_host out) (q_escaped_path out)
                (q_raw_query out) (h_set h "Content-Length" b) n nb)).
  { intros n b k Hk. simpl. destruct (hop_names_other k Hk) as (? & _).
    rewrite h_set_values_ne by done. by apply Hh. }
  assert (H2 : stripped (with_header out h)) by done.
  destruct mask as [m|], changed; try (by intros [= <- _]).
  - destruct (hasSigV4 _); [done|]. by intros [= <- _].
  - destruct (ResignAWS _ _ _ _) as [[r q0]|] eqn:Er; [|done]. intros [= <- _].
    by destruct (ResignAWS_stripped _ _ _ _ _ _ H2 Er).
Qed.

Lemma RoundTrip_log env pool w q r pool' w' :
  RoundTrip env pool w q = (r, pool', w') → sv_log (w_sv w') = sv_log (w_sv w).
Proof.
  unfold RoundTrip, dial_context. intros H.
  destruct (if e_idle env then _ else None) as [t|]; [by destruct (e_response env); injection H as <- <- <-|].
  destruct (hostPort _ _) as [host port]. destruct (decide_w _ _ _ _) as [v w0] eqn:Ew.
  destruct (decide_w_frame _ _ _ _ _ _ Ew) as (_ & _ & m & Hm).
  destruct (negb _); [by injection H as _ _ <-; rewrite Hm|].
  destruct (dial_w env w0 host port) as [[t|e] w1] eqn:Ed;
    destruct (dial_w_frame _ _ _ _ _ _ Ed) as ((d & Hd) & _).
  - destruct (e_response env); injection H as <- <- <-; simpl; by rewrite Hd, Hm.
  - injection H as <- <- <-. by rewrite Hd, Hm.
Qed.

Lemma record_log w e :
  sv_log (w_sv (record w e)) = sv_log (w_sv w) ++
    (if o_sink (sv_opts (w_sv w)) &&
        negb (bool_decide (ev_code e = CodeAllowed) && negb (o_log_allowed (sv_opts (w_sv w)))
              && (length (ev_credentials e) =? 0)%nat) then [e] else []).
Proof. unfold record, record_event. simpl. case_match; [done|by rewrite app_nil_r]. Qed.

(** Where a request sent on the terminated path comes from, and that the
    credentials on it are in the sink's log. *)
Definition audited (sha256 : string → string) (hmac : string → string → string) (env : Env)
    (w w' : World) (q : HttpReq) (host : string) (port : Z) (q' : HttpReq) : Prop :=
  q_host q' = (if bool_decide (port = 443%Z) then host else JoinHostPort host (itoa port)) ∧
  ∃ body sent used, examined_body env q = Ok body ∧
    prepare sha256 hmac env (o_mask (sv_opts (w_sv w))) (reoriginate q host port sent) body
      = inr (q', used) ∧
    (used ≠ [] → o_sink (sv_opts (w_sv w)) = true →
       ∃ e, e ∈ sv_log (w_sv w') ∧ ev_credentials e = used ∧ ev_host e = host ∧ ev_port e = port).

(** the terminated path keeps the gate and the audit. Serving a decrypted
    request only appends effects, each justified as on the plain path; what is
    sent upstream is the request the masking prepared from an examined body,
    addressed to the tunnel's own destination and without hop-by-hop headers; and
    with an audit sink every request that carries credentials has an event that
    names exactly those credentials, even when allowed connections are not
    logged. *)
Theorem serveTerminated_audited (sha256 : string → string) (hmac : string → string → string)
    (env : Env) (pool : list (string * string)) (w : World) (q : HttpReq) (host : string) (port : Z) :
  let w' := snd (serveTerminated sha256 hmac env pool w q host port) in
  ∃ fx, w_fx w' = w_fx w ++ fx ∧
    (∀ f, f ∈ fx → effect_ok env (w_sv w) pool fx f) ∧
    (∀ t q', EUpstream t q' ∈ fx → audited sha256 hmac env w w' q host port q').
Proof.
  intros w'. unfold w', serveTerminated.
  assert (Hreply : ∀ st c r, ∃ fx, w_fx (writeDeny w st c r) = w_fx w ++ fx ∧
     (∀ f, f ∈ fx → effect_ok env (w_sv w) pool fx f) ∧
     (∀ t q', EUpstream t q' ∈ fx → audited sha256 hmac env w (writeDeny w st c r) q host port q')).
  { intros st c r. exists [EReply st c (r +:+ nl)]. split; [done|].
    split; [by intros f ->%list_elem_of_singleton|by intros t q' Hin%list_elem_of_singleton]. }
  destruct (examined_body env q) as [body|] eqn:Eb; [|apply Hreply].
  destruct (isSome _ && _ && _); [apply Hreply|].
  set (sent := if bool_decide (q_content_length q = 0%Z) then _ else _).
  destruct (prepare _ _ _ _ _ _) as [[[st c] r]|[out used]] eqn:Ep; [apply Hreply|].
  assert (Hst0 : stripped (reoriginate q host port sent)) by (intros k Hk; by apply stripHopByHop_values).
  destruct (prepare_stripped _ _ _ _ _ _ _ _ Hst0 Ep) as [Hst Hhost].
  set (ev := mkEvent _ _ host port CodeAllowed "" "" "" _ true used).
  set (w1 := if (0 <? length used)%nat then record w ev else w).
  assert (Hw1 : w_fx w1 = w_fx w ∧ same_gate (w_sv w1) (w_sv w)) by (unfold w1; by destruct (0 <? _)%nat).
  destruct Hw1 as [Hw1 Hg].
  assert (Hlog : used ≠ [] → o_sink (sv_opts (w_sv w)) = true → ev ∈ sv_log (w_sv w1)).
  { intros Hu Hsink. unfold w1. destruct used as [|u us]; [done|]. simpl.
    rewrite Hsink, andb_false_r. simpl. set_solver. }
  destruct (RoundTrip env pool w1 out) as [[r pool'] w2] eqn:Er.
  pose proof (RoundTrip_log _ _ _ _ _ _ _ Er) as Hlog2.
  apply RoundTrip_spec in Er as (fx & Hfx & Hok & Hreq); [|done]. rewrite Hw1 in Hfx.
  assert (Hend : ∀ w3 f, w_fx w3 = w_fx w2 ++ [f] → outbound f = false →
     (∃ l, sv_log (w_sv w3) = sv_log (w_sv w2) ++ l) →
     ∃ fx, w_fx w3 = w_fx w ++ fx ∧ (∀ f, f ∈ fx → effect_ok env (w_sv w) pool fx f) ∧
       (∀ t q', EUpstream t q' ∈ fx → audited sha256 hmac env w w3 q host port q')).
  { intros w3 f Hw3 Hf (l & Hl). exists (fx ++ [f]). rewrite Hw3, Hfx, app_assoc. split; [done|]. split.
    - intros f' [Hin|Hin]%elem_of_app; [|apply list_elem_of_singleton in Hin as ->; by apply effect_ok_inner].
      eapply effect_ok_mono; [|eapply effect_ok_same; [exact Hg|by apply Hok]]. set_solver.
    - intros t q' [Hin|Hin]%elem_of_app; [|apply list_elem_of_singleton in Hin as <-; done].
      apply Hreq in Hin as ->. split; [by rewrite Hhost|]. exists body, sent, used.
      split_and!; [done|exact Ep|]. intros Hu Hsink. exists ev. split; [|done].
      rewrite Hl, Hlog2. apply elem_of_app. left. by apply Hlog. }
  destruct r as [[st rh]|e]; [|destruct (asDenyError e) as [d|]]; simpl snd.
  - eapply Hend; [reflexivity|done|]. rewrite record_log. by eexists.
  - eapply Hend; [reflexivity|done|]. rewrite record_log. by eexists.
  - eapply Hend; [reflexivity|done|]. exists []. by rewrite app_nil_r.
Qed.
