(* ===== verification/EgressSocks.v ===== *)
(** pkg/egress/socks.go: the SOCKS5 half of the proxy. The client's bytes are a
    string read from its front; a connection is served on the world of
    EgressServer. *)

From S2P Require Import Prelude GoStrings GoHTTP NetAddr EgressPolicy EgressGuard EgressMask EgressServer.

(** ** Bytes *)

Definition byte (n : nat) : char := ascii_of_nat n.
Definition bytes (l : list nat) : string := foldr (λ n s, String (byte n) s) "" l.
Definition str_bytes (s : string) : list Z := (λ c, Z.of_nat (code c)) <$> String.list_ascii_of_string s.

(** [io.ReadFull] of [n] bytes. *)
Definition read_full (n : nat) (s : string) : option (string * string) :=
  if (n <=? String.length s)%nat then Some (take_str n s, drop_str n s) else None.

Inductive SocksErr :=
| SEShort
| SEVersion (v : nat)
| SENoMethod
| SEAuthVersion (v : nat)
| SENoAuth
| SECmd
| SEAtyp
| SEWrite.
#[global] Instance SocksErr_eq_dec : EqDecision SocksErr.
Proof. solve_decision. Defined.

(** A step that may fail: what is returned and what is left of the input. *)
Definition sbind {A B} (r : A + SocksErr) (k : A → B + SocksErr) : B + SocksErr :=
  match r with
  | inl a => k a
  | inr e => inr e
  end.
Notation "'read!' x ':=' r 'in' k" := (sbind r (λ x, k))
  (at level 200, x pattern, r at level 100, k at level 200) : go_scope.

Definition need (n : nat) (s : string) : (string * string) + SocksErr :=
  match read_full n s with
  | Some r => inl r
  | None => inr SEShort
  end.

Definition nth_byte (s : string) (n : nat) : nat := code (default (byte 0) (String.get n s)).

(** ** The handshake *)

(** Which of the proxy's writes to the client succeed. *)
Record Writes := mkWrites { wr_method : bool; wr_auth : bool; wr_reply : bool }.

(** [func (s Server) socksNegotiate(conn, br) error]: what is written to the
    client, then the rest of the input or the error. *)
Definition socksNegotiate (s : Server) (wr : Writes) (input : string)
    : list string * (string + SocksErr) :=
  match (read! (head, input) := need 2 input in
         if negb (nth_byte head 0 =? 5)%nat then inr (SEVersion (nth_byte head 0))
         else need (nth_byte head 1) input) with
  | inr e => ([], inr e)
  | inl (methods, input) =>
      if negb (mem_char (byte 2) methods) then ([bytes [5; 255]], inr SENoMethod)
      else if negb (wr_method wr) then ([bytes [5; 2]], inr SEWrite)
      else
        match (read! (b, input) := need 2 input in
               if negb (nth_byte b 0 =? 1)%nat then inr (SEAuthVersion (nth_byte b 0))
               else
                 read! (user, input) := need (nth_byte b 1) input in
                 read! (n, input) := need 1 input in
                 need (nth_byte n 0) input) with
        | inr e => ([bytes [5; 2]], inr e)
        | inl (pass, input) =>
            if negb (tokenMatches s pass) then ([bytes [5; 2]; bytes [1; 1]], inr SENoAuth)
            else ([bytes [5; 2]; bytes [1; 0]], if wr_auth wr then inl input else inr SEWrite)
        end
  end.

(** [net.IP.String] of 4 or 16 bytes. *)
Definition ip_string (b : string) : string :=
  match AddrFromSlice (str_bytes b) with
  | Some a => addr_string (Unmap a)
  | None => ""
  end.

Definition be16 (b : string) : Z := be_val (str_bytes b) 0.

(** [func socksReadRequest(br) (string, int, error)] *)
Definition socksReadRequest (input : string) : (string * Z * string) + SocksErr :=
  read! (head, input) := need 4 input in
  if negb (nth_byte head 0 =? 5)%nat then inr (SEVersion (nth_byte head 0))
  else if negb (nth_byte head 1 =? 1)%nat then inr SECmd
  else
    let with_port host input :=
      read! (p, input) := need 2 input in inl (host, be16 p, input) in
    match nth_byte head 3 with
    | 1 => read! (v, input) := need 4 input in with_port (ip_string v) input
    | 4 => read! (v, input) := need 16 input in with_port (ip_string v) input
    | 3 => read! (n, input) := need 1 input in
           read! (name, input) := need (nth_byte n 0) input in
           with_port name input
    | _ => inr SEAtyp
    end.

(** [socksReply], [socksReplyOK] *)
Definition socksReply (w : World) (rep : nat) : World :=
  emit w (ESend (bytes [5; rep; 0; 1; 0; 0; 0; 0; 0; 0])).

Definition send_all (w : World) (out : list string) : World :=
  mkWorld (w_sv w) (w_fx w ++ (ESend <$> out)).

(** [func (s Server) handleSOCKS(conn)] *)
Definition handleSOCKS (env : Env) (wr : Writes) (w : World) (input : string) : World :=
  let '(out, r) := socksNegotiate (w_sv w) wr input in
  let w := send_all w out in
  let event host port code rule reason addr meth :=
    mkEvent (e_clock env) CodeSOCKS host port code rule reason addr meth false [] in
  match r with
  | inr SENoAuth =>
      record w (event "" 0%Z CodeAuthRequired "" "the SOCKS proxy needs its sandbox token" "" "")
  | inr _ => w
  | inl input =>
      match socksReadRequest input with
      | inr SECmd => socksReply w 7
      | inr SEAtyp => socksReply w 8
      | inr _ => w
      | inl (host, port, rest) =>
          let '(v, w) := decide_w (e_obs env 0) w host port in
          if negb (v_allow v) then
            socksReply (record w (event (v_host v) (v_port v) (v_code v) (v_rule v) (v_reason v) "" "CONNECT")) 2
          else
            match dial_w env w host port with
            | (inr e, w) =>
                match asDenyError e with
                | Some d =>
                    let v := de_verdict d in
                    socksReply (record w (event host port (v_code v) "" (v_reason v) (v_address v) "CONNECT")) 2
                | None =>
                    socksReply w (if contains (to_lower (error_text e)) "refused" then 5 else 4)
                end
            | (inl target, w) =>
                let w := record w (event host port CodeAllowed (v_rule v) "" "" "CONNECT") in
                let w := socksReply w 0 in
                if wr_reply wr then emit w (ETunnel target rest) else w
            end
      end
  end.

(** ** Lemmas *)

#[local] Arguments String.append : simpl nomatch.

Lemma take_drop_str n s : take_str n s +:+ drop_str n s = s.
Proof. revert n; induction s as [|c s IH]; intros [|n]; simpl; try done. by rewrite IH. Qed.

Lemma take_str_length n s : n <= String.length s → String.length (take_str n s) = n.
Proof. revert n; induction s as [|c s IH]; intros [|n]; simpl; try lia. intros. rewrite IH; lia. Qed.

Lemma need_inl n s a b : need n s = inl (a, b) ↔ s = a +:+ b ∧ String.length a = n.
Proof.
  unfold need, read_full. destruct (n <=? String.length s) eqn:E; split.
  - intros [= <- <-]. apply Nat.leb_le in E. by rewrite take_drop_str, take_str_length.
  - intros [-> <-]. by rewrite take_str_app, drop_str_app.
  - done.
  - intros [-> <-]. rewrite length_app_str in E. apply Nat.leb_gt in E. lia.
Qed.

Lemma need_app a b : need (String.length a) (a +:+ b) = inl (a, b).
Proof. by apply need_inl. Qed.

Lemma sbind_inl {A B} (r : A + SocksErr) (k : A → B + SocksErr) b :
  sbind r k = inl b → ∃ a, r = inl a ∧ k a = inl b.
Proof. destruct r; [eauto|done]. Qed.

Lemma code_byte n : n < 256 → code (byte n) = n.
Proof. intros H. unfold code, byte. by apply nat_ascii_embedding. Qed.

Lemma byte_code c : byte (code c) = c.
Proof. apply ascii_nat_embedding. Qed.

Lemma nth_byte_0 n l : n < 256 → nth_byte (bytes (n :: l)) 0 = n.
Proof. intros H. exact (code_byte n H). Qed.
Lemma nth_byte_S n l k : nth_byte (bytes (n :: l)) (S k) = nth_byte (bytes l) k.
Proof. done. Qed.

(** Strings of a known length, by their bytes. *)
Lemma str_length_2 s : String.length s = 2 → s = bytes [nth_byte s 0; nth_byte s 1].
Proof.
  destruct s as [|a [|b [|]]]; try done. intros _. unfold nth_byte, bytes. simpl. by rewrite !byte_code.
Qed.
Lemma str_length_1 s : String.length s = 1 → s = bytes [nth_byte s 0].
Proof. destruct s as [|a [|]]; try done. intros _. unfold nth_byte, bytes. simpl. by rewrite byte_code. Qed.

(** What a client sends to authenticate: the methods it offers, then its user
    name and password. *)
Definition client_auth (methods user pass : string) : string :=
  bytes [5; String.length methods] +:+ methods +:+ bytes [1; String.length user] +:+ user
  +:+ bytes [String.length pass] +:+ pass.

(** A CONNECT request for a name. *)
Definition client_connect (name : string) (port : Z) : string :=
  bytes [5; 1; 0; 3; String.length name] +:+ name
  +:+ bytes [Z.to_nat (port / 256); Z.to_nat (port mod 256)].

(** The token is the only way through the negotiation. *)
Lemma socksNegotiate_inv s wr input out rest :
  socksNegotiate s wr input = (out, inl rest) →
  ∃ methods user, input = client_auth methods user (sv_token s) +:+ rest ∧
    mem_char (byte 2) methods = true ∧ out = [bytes [5; 2]; bytes [1; 0]].
Proof.
  unfold socksNegotiate. intros H.
  destruct (sbind (need 2 input) _) as [[methods i1]|e] eqn:E1; [|done].
  apply sbind_inl in E1 as ([head i0] & Hh & E1). apply need_inl in Hh as [-> Hh].
  destruct (negb (_ =? 5)) eqn:E5; [done|]. apply negb_false_iff, Nat.eqb_eq in E5.
  apply need_inl in E1 as [-> Hm]. destruct (negb (mem_char _ _)) eqn:Emt; [done|].
  destruct (negb (wr_method wr)); [done|].
  destruct (sbind (need 2 i1) _) as [[pass i4]|e] eqn:E2; [|done].
  apply sbind_inl in E2 as ([b i2] & Hb & E2). apply need_inl in Hb as [-> Hb].
  destruct (negb (_ =? 1)) eqn:Ev; [done|]. apply negb_false_iff, Nat.eqb_eq in Ev.
  apply sbind_inl in E2 as ([user i3] & Hu & E2). apply need_inl in Hu as [-> Hu].
  apply sbind_inl in E2 as ([n i5] & Hn & E2). apply need_inl in Hn as [-> Hn].
  apply need_inl in E2 as [-> Hp].
  destruct (tokenMatches s pass) eqn:Et; simpl in H; [|done].
  destruct (wr_auth wr); [|done]. injection H as <- <-.
  unfold tokenMatches in Et. simpl_bool. subst pass. exists methods, user.
  split; [|split; [|done]]; [|destruct (mem_char (byte 2) methods); done].
  rewrite (str_length_2 head Hh), (str_length_2 b Hb), (str_length_1 n Hn), E5, Ev.
  unfold client_auth. rewrite <- Hm, <- Hu, <- Hp. by rewrite !app_assoc_str.
Qed.

(** What the proxy does with a well-formed authentication. *)
Lemma socksNegotiate_client s wr methods user pass rest :
  mem_char (byte 2) methods = true → String.length methods < 256 → String.length user < 256 →
  String.length pass < 256 → wr_method wr = true → wr_auth wr = true →
  socksNegotiate s wr (client_auth methods user pass +:+ rest) =
    if tokenMatches s pass then ([bytes [5; 2]; bytes [1; 0]], inl rest)
    else ([bytes [5; 2]; bytes [1; 1]], inr SENoAuth).
Proof.
  intros Hm Hml Hul Hpl Hw1 Hw2. unfold socksNegotiate, client_auth. rewrite !app_assoc_str.
  change 2 with (String.length (bytes [5; String.length methods])) at 1. rewrite need_app; cbv beta iota delta [sbind].
  rewrite nth_byte_S, !nth_byte_0 by lia. cbv beta iota delta [negb Nat.eqb].
  rewrite need_app, Hm, Hw1, Hw2. cbv beta iota delta [negb Nat.eqb].
  change 2 with (String.length (bytes [1; String.length user])) at 1. rewrite need_app; cbv beta iota delta [sbind].
  rewrite nth_byte_S, !nth_byte_0 by lia. cbv beta iota delta [negb Nat.eqb].
  rewrite need_app; cbv beta iota delta [sbind].
  change 1 with (String.length (bytes [String.length pass])) at 1. rewrite need_app; cbv beta iota delta [sbind].
  rewrite nth_byte_0 by lia. rewrite need_app. by destruct (tokenMatches s pass).
Qed.

Lemma socksReadRequest_client name port rest :
  String.length name < 256 → (0 ≤ port < 65536)%Z →
  socksReadRequest (client_connect name port +:+ rest) = inl (name, port, rest).
Proof.
  intros Hn Hp. unfold socksReadRequest, client_connect. rewrite !app_assoc_str.
  change (bytes [5; 1; 0; 3; String.length name])
    with (bytes [5; 1; 0; 3] +:+ bytes [String.length name]). rewrite app_assoc_str.
  change 4 with (String.length (bytes [5; 1; 0; 3])) at 1. rewrite need_app; cbv beta iota delta [sbind].
  change (nth_byte (bytes [5; 1; 0; 3]) 0) with 5. change (nth_byte (bytes [5; 1; 0; 3]) 1) with 1.
  change (nth_byte (bytes [5; 1; 0; 3]) 3) with 3. cbv beta iota delta [negb Nat.eqb].
  change 1 with (String.length (bytes [String.length name])) at 1. rewrite need_app; cbv beta iota delta [sbind].
  rewrite nth_byte_0 by done. rewrite need_app; cbv beta iota delta [sbind].
  set (pb := bytes [Z.to_nat (port / 256); Z.to_nat (port mod 256)]).
  change 2 with (String.length pb). rewrite need_app; cbv beta iota delta [sbind]. do 3 f_equal.
  assert (0 ≤ port / 256 < 256)%Z by (split; [apply Z.div_pos; lia|apply Z.div_lt_upper_bound; lia]).
  pose proof (Z.mod_pos_bound port 256 ltac:(lia)).
  unfold pb, be16, str_bytes, bytes. simpl. rewrite !code_byte by lia.
  rewrite !Z2Nat.id by lia. pose proof (Z.div_mod port 256). lia.
Qed.

(** Runs that only talk to the client. *)
Definition inner_run (w w' : World) : Prop :=
  ∃ fx, w_fx w' = w_fx w ++ fx ∧ ∀ f, f ∈ fx → outbound f = false.

Lemma inner_run_step w w1 w2 f :
  inner_run w w1 → w_fx w2 = w_fx w1 ++ [f] → outbound f = false → inner_run w w2.
Proof.
  intros (fx & H1 & H2) H Hf. exists (fx ++ [f]). rewrite H, H1, app_assoc. split; [done|].
  intros g [?|Hg]%elem_of_app; [by apply H2|]. by apply list_elem_of_singleton in Hg as ->.
Qed.

Lemma inner_run_send w out : inner_run w (send_all w out).
Proof.
  exists (map ESend out). split; [done|]. intros f Hf.
  apply list_elem_of_In, in_map_iff in Hf as (b & <- & _). done.
Qed.

(** What serving a SOCKS client may do. *)
Definition socks_ok (env : Env) (w w' : World) (input : string) : Prop :=
  ∃ fx, w_fx w' = w_fx w ++ fx ∧
    (∀ f, f ∈ fx → effect_ok env (w_sv w) (sv_pool (w_sv w)) fx f) ∧
    ((∃ f, f ∈ fx ∧ outbound f = true) →
       ∃ methods user request host port rest,
         input = client_auth methods user (sv_token (w_sv w)) +:+ request ∧
         mem_char (byte 2) methods = true ∧
         socksReadRequest request = inl (host, port, rest) ∧
         v_allow (fst (server_decide (e_obs env 0) (w_sv w) host port)) = true ∧
         (∀ h p t, EDial h p t ∈ fx → h = host ∧ p = port) ∧
         (∀ t early, ETunnel t early ∈ fx → early = rest)).

Lemma inner_run_ok env w w' input : inner_run w w' → socks_ok env w w' input.
Proof.
  intros (fx & H1 & H2). exists fx. split; [done|]. split.
  - intros f Hf. apply effect_ok_inner. by apply H2.
  - intros (f & Hf & Ho). rewrite H2 in Ho; done.
Qed.

(** ** Properties *)

(** C4: the SOCKS listener is a gate. Whatever bytes a client sends, if serving
    it reaches beyond the client then those bytes are an offer of password
    authentication, the server's token as password, and a CONNECT request whose
    destination was allowed at that moment; the only connection opened goes to
    that destination at the address the guard vetted, only it is tunnelled, and
    the tunnel starts with the client's bytes after the request. *)
Theorem handleSOCKS_gated (env : Env) (wr : Writes) (w : World) (input : string) :
  socks_ok env w (handleSOCKS env wr w input) input.
Proof.
  unfold handleSOCKS. destruct (socksNegotiate (w_sv w) wr input) as [out r] eqn:En.
  pose proof (inner_run_send w out) as Hs. set (w0 := send_all w out) in *.
  destruct r as [request|e]; [|by apply inner_run_ok; destruct e].
  destruct (socksNegotiate_inv _ _ _ _ _ En) as (methods & user & Hin & Hm & ->).
  destruct (socksReadRequest request) as [[[host port] rest]|e] eqn:Er.
  2:{ apply inner_run_ok. destruct e; try exact Hs; by eapply inner_run_step; [exact Hs|reflexivity|]. }
  destruct (decide_w _ _ _ _) as [v w1] eqn:Ew.
  destruct (decide_w_frame _ _ _ _ _ _ Ew) as (-> & Hf & m & Hsv).
  assert (Hs1 : inner_run w w1).
  { destruct Hs as (fx & Hfx & ?). exists fx. by rewrite Hf. }
  destruct (negb _) eqn:Ev.
  { apply inner_run_ok. by eapply inner_run_step; [exact Hs1|reflexivity|]. }
  apply negb_false_iff in Ev. destruct (dial_w env w1 host port) as [[t|e] w2] eqn:Ed;
    destruct (dial_w_frame _ _ _ _ _ _ Ed) as (_ & Hr & Hfx); rewrite Hsv in Hr.
  2:{ rewrite app_nil_r in Hfx. apply inner_run_ok.
      assert (Hs2 : inner_run w w2) by (destruct Hs1 as (fx & H1 & ?); exists fx; by rewrite Hfx).
      destruct (asDenyError e); by eapply inner_run_step; [exact Hs2|reflexivity|]. }
  assert (Hfx2 : ∀ w' tl, w_fx w' = w_fx w2 ++ ESend (bytes [5; 0; 0; 1; 0; 0; 0; 0; 0; 0]) :: tl →
            (∀ f, f ∈ tl → f = ETunnel t rest) → socks_ok env w w' input).
  { intros w' tl Hw' Htl. exists ([ESend (bytes [5; 2]); ESend (bytes [1; 0]); EDial host port t;
      ESend (bytes [5; 0; 0; 1; 0; 0; 0; 0; 0; 0])] ++ tl).
    split; [rewrite Hw', Hfx, Hf; unfold w0; simpl; by rewrite <- !app_assoc|]. split.
    - intros f [Hf'|Hf']%elem_of_app.
      + repeat (apply elem_of_cons in Hf' as [->|Hf']); [done|done| |done|by apply not_elem_of_nil in Hf'].
        split; [by exists 0, (w_sv w)|done].
      + apply Htl in Hf' as ->. exists host, port. set_solver.
    - intros _. exists methods, user, request, host, port, rest. split_and!; try done.
      + intros h p t' [H|H]%elem_of_app; [set_solver|]. by apply Htl in H.
      + intros t' early [H|H]%elem_of_app; [set_solver|]. apply Htl in H. congruence. }
  destruct (wr_reply wr).
  - apply (Hfx2 _ [ETunnel t rest]); [unfold socksReply; fx_simpl; by rewrite <- app_assoc|]. intros f. by intros ?%list_elem_of_singleton.
  - apply (Hfx2 _ []); [done|]. set_solver.
Qed.

(** a well-formed client gets its tunnel, and a wrong token gets nothing.
    The bytes a client sends for a name (its methods with password
    authentication among them, a password, a CONNECT request and whatever follows)
    are read back exactly: with the token and an allowed, reachable destination
    the proxy answers, dials and tunnels, forwarding the bytes that follow; with
    any other password it writes the refusal, dials nothing and counts a denial. *)
Theorem handleSOCKS_client (env : Env) (wr : Writes) (w : World) (methods user pass name early target : string)
    (port : Z) :
  mem_char (byte 2) methods = true → String.length methods < 256 → String.length user < 256 →
  String.length pass < 256 → String.length name < 256 → (0 ≤ port < 65536)%Z →
  wr = mkWrites true true true →
  v_allow (fst (server_decide (e_obs env 0) (w_sv w) name port)) = true →
  fst (dialAllowingVetted (e_lookup env) (e_rds env) (e_connect env) (sv_dialer (w_sv w)) name port)
    = inl target →
  let w' := handleSOCKS env wr w (client_auth methods user pass +:+ client_connect name port +:+ early) in
  (pass = sv_token (w_sv w) →
     w_fx w' = w_fx w ++ [ESend (bytes [5; 2]); ESend (bytes [1; 0]); EDial name port target;
                          ESend (bytes [5; 0; 0; 1; 0; 0; 0; 0; 0; 0]); ETunnel target early]) ∧
  (pass ≠ sv_token (w_sv w) →
     w_fx w' = w_fx w ++ [ESend (bytes [5; 2]); ESend (bytes [1; 1])] ∧
     sv_denied (w_sv w') = ((sv_denied (w_sv w) + 1) mod 2 ^ 64)%Z).
Proof.
  intros Hm Hml Hul Hpl Hnl Hp -> Hv Ht w'. unfold w', handleSOCKS.
  rewrite socksNegotiate_client by done. unfold tokenMatches. split; intros Hpass.
  - rewrite bool_decide_eq_true_2 by done. rewrite socksReadRequest_client by done.
    destruct (decide_w _ _ _ _) as [v w1] eqn:Ew.
    destruct (decide_w_frame _ _ _ _ _ _ Ew) as (-> & Hf & m & Hsv).
    change (w_sv (send_all w _)) with (w_sv w) at 1. rewrite Hv. simpl negb. cbv iota.
    destruct (dial_w env w1 name port) as [r w2] eqn:Ed.
    destruct (dial_w_frame _ _ _ _ _ _ Ed) as (_ & Hr & Hfx). rewrite Hsv in Hr. simpl in Hr.
    rewrite Ht in Hr. subst r. unfold socksReply. fx_simpl. cbv iota. rewrite Hfx, Hf. simpl.
    by rewrite <- !app_assoc.
  - rewrite bool_decide_eq_false_2 by done. done.
Qed.

Definition demo_env : Env :=
  mkEnv 0 (λ _, demo_obs 0 true) [] demo_lookup demo_rds (λ _, None) (λ _, "") false (Err "") None HjFailed (Err "").
