(* ===== verification/GoFloat.v ===== *)
(** Go's [float64] as IEEE 754 binary64: the operations the scheduler uses, each
    correctly rounded, and the order of [<]. No fused multiply-add is assumed. *)

From Stdlib Require Import SpecFloat.
From S2P Require Import Prelude.

Abbreviation f64 := spec_float.

#[global] Instance f64_eq_dec : EqDecision f64.
Proof. solve_decision. Defined.

Definition prec64 : Z := 53.
Definition emax64 : Z := 1024.

(** [float64(n)]: the nearest double. *)
Definition f_of_int (n : Z) : f64 := binary_normalize prec64 emax64 n 0 false.
Definition f_add (x y : f64) : f64 := SFadd prec64 emax64 x y.
Definition f_sub (x y : f64) : f64 := SFsub prec64 emax64 x y.
Definition f_mul (x y : f64) : f64 := SFmul prec64 emax64 x y.
Definition f_div (x y : f64) : f64 := SFdiv prec64 emax64 x y.
(** [x < y]: false as soon as one side is not a number. *)
Definition f_lt (x y : f64) : bool := SFltb x y.

(** The doubles nearest to 0.6 and 0.2. *)
Definition f_0_6 : f64 := S754_finite false 5404319552844595 (-53).
Definition f_0_2 : f64 := S754_finite false 7205759403792794 (-55).
Definition f_zero : f64 := S754_zero false.

(** [func (d Duration) Seconds() float64] *)
Definition duration_seconds (d : Z) : f64 :=
  f_add (f_of_int (Z.quot d ns_second)) (f_div (f_of_int (Z.rem d ns_second)) (f_of_int ns_second)).

Example f64_examples :
  (f_of_int 999999, f_div (f_of_int 1) (f_of_int 4), f_lt (f_div (f_of_int 1) (f_of_int 3)) f_0_6,
   f_div (f_of_int 6) (f_of_int 10), f_div (f_of_int 1) (f_of_int 5))
  = (S754_finite false 8589926002065408 (-33), S754_finite false 4503599627370496 (-54), true, f_0_6, f_0_2).
Proof. vm_compute. reflexivity. Qed.

Lemma f_lt_irrefl x : f_lt x x = false.
Proof.
  unfold f_lt, SFltb, SFcompare. destruct x as [|[]| |[] m e]; try done;
    rewrite Z.compare_refl, Pos.compare_cont_refl; done.
Qed.

(** The order of finite doubles with one sign, exponent first. *)
Lemma f_lt_finite b1 b2 m1 m2 e1 e2 :
  f_lt (S754_finite b1 m1 e1) (S754_finite b2 m2 e2) = true ↔
  match b1, b2 with
  | true, false => True
  | false, true => False
  | false, false => (e1 < e2)%Z ∨ e1 = e2 ∧ (m1 < m2)%positive
  | true, true => (e2 < e1)%Z ∨ e1 = e2 ∧ (m2 < m1)%positive
  end.
Proof.
  unfold f_lt, SFltb, SFcompare. destruct b1, b2; try done.
  - destruct (Z.compare_spec e1 e2) as [->|H|H]; simpl.
    + change (Pos.compare_cont Eq m1 m2) with (m1 ?= m2)%positive.
      destruct (Pos.compare_spec m1 m2) as [->|H|H]; simpl; split; intros; try done; try lia.
    + split; [done|lia].
    + split; [lia|done].
  - destruct (Z.compare_spec e1 e2) as [->|H|H]; simpl.
    + change (Pos.compare_cont Eq m1 m2) with (m1 ?= m2)%positive.
      destruct (Pos.compare_spec m1 m2) as [->|H|H]; simpl; split; intros; try done; try lia.
    + split; [lia|done].
    + split; [done|lia].
Qed.

Lemma f_lt_trans x y z : f_lt x y = true → f_lt y z = true → f_lt x z = true.
Proof.
  destruct x as [|[]| |b1 m1 e1], y as [|[]| |b2 m2 e2], z as [|[]| |b3 m3 e3]; try done;
    try (by destruct b1); try (by destruct b2); try (by destruct b3);
    try (by destruct b1, b3); try (by destruct b1, b2); try (by destruct b2, b3).
  rewrite !f_lt_finite. destruct b1, b2, b3; intros; try done; lia.
Qed.
