(* ===== verification/GoTime.v ===== *)
(** Go's [time] as far as the database columns use it: the Gregorian calendar,
    [Format] and [Parse] with the layout [time.RFC3339Nano] in UTC, and the byte
    order of such texts. Day 0 is 1 January of year 1, the date of Go's zero
    time. Parsing is that of the texts [Format] writes: it wants the zone letter
    [Z] and at most nine digits of fraction. *)

From S2P Require Import Prelude GoStrings.

#[local] Open Scope Z_scope.

(** ** The calendar *)

Record date := mkDate { d_y : Z; d_m : Z; d_d : Z }.

Definition leap (y : Z) : bool := (y mod 4 =? 0) && negb (y mod 100 =? 0) || (y mod 400 =? 0).

Definition month_days (y m : Z) : Z :=
  if m =? 2 then (if leap y then 29 else 28)
  else if (m =? 4) || (m =? 6) || (m =? 9) || (m =? 11) then 30 else 31.

Definition next_day (d : date) : date :=
  if d_d d <? month_days (d_y d) (d_m d) then mkDate (d_y d) (d_m d) (d_d d + 1)
  else if d_m d <? 12 then mkDate (d_y d) (d_m d + 1) 1
  else mkDate (d_y d + 1) 1 1.

(** The date [n] days after 1 January of year 1. *)
Definition date_of (n : Z) : date := N.iter (Z.to_N n) next_day (mkDate 1 1 1).

Definition year_start (y : Z) : Z := 365 * (y - 1) + (y - 1) / 4 - (y - 1) / 100 + (y - 1) / 400.
Definition month_start (y m : Z) : Z :=
  let l := if leap y then 1 else 0 in
  if m =? 1 then 0 else if m =? 2 then 31 else if m =? 3 then 59 + l
  else if m =? 4 then 90 + l else if m =? 5 then 120 + l else if m =? 6 then 151 + l
  else if m =? 7 then 181 + l else if m =? 8 then 212 + l else if m =? 9 then 243 + l
  else if m =? 10 then 273 + l else if m =? 11 then 304 + l else 334 + l.
Definition day_number (d : date) : Z := year_start (d_y d) + month_start (d_y d) (d_m d) + d_d d - 1.

Definition valid_date (d : date) : Prop :=
  1 ≤ d_y d ∧ 1 ≤ d_m d ≤ 12 ∧ 1 ≤ d_d d ≤ month_days (d_y d) (d_m d).
#[global] Instance valid_date_dec d : Decision (valid_date d).
Proof. unfold valid_date. apply _. Defined.

(** ** Text *)

Definition digit_char (k : Z) : char := ascii_of_nat (48 + Z.to_nat k).
#[global] Arguments digit_char : simpl never.

(** [n] in [w] decimal digits. *)
Fixpoint pad (w : nat) (n : Z) : string :=
  match w with
  | O => ""
  | S w => pad w (n / 10) +:+ str1 (digit_char (n mod 10))
  end.

(** The same without trailing zeros. *)
Fixpoint pad_short (w : nat) (n : Z) : string :=
  match w with
  | O => ""
  | S w' => if n mod 10 =? 0 then pad_short w' (n / 10) else pad w n
  end.

Definition fraction (ns : Z) : string := if ns =? 0 then "" else "." +:+ pad_short 9 ns.

Definition seconds (t : gotime) : Z := t / ns_second.

(** [t.UTC().Format(time.RFC3339Nano)] *)
Definition rfc3339nano (t : gotime) : string :=
  let s := seconds t in
  let d := date_of (s / 86400) in
  let sod := s mod 86400 in
  pad 4 (d_y d) +:+ "-" +:+ pad 2 (d_m d) +:+ "-" +:+ pad 2 (d_d d) +:+ "T" +:+
  pad 2 (sod / 3600) +:+ ":" +:+ pad 2 (sod / 60 mod 60) +:+ ":" +:+ pad 2 (sod mod 60) +:+
  fraction (t mod ns_second) +:+ "Z".

Fixpoint read_digits (w : nat) (s : string) (acc : Z) : option (Z * string) :=
  match w, s with
  | O, _ => Some (acc, s)
  | S w, String c s =>
      if is_digit c then read_digits w s (acc * 10 + (Z.of_nat (code c) - 48)) else None
  | S _, EmptyString => None
  end.

Definition read_lit (c : char) (s : string) : option string :=
  match s with
  | String d s => if bool_decide (c = d) then Some s else None
  | EmptyString => None
  end.

(** The digits at the front, with room for [w] of them: their value scaled to
    [w] digits. *)
Fixpoint read_fraction (w : nat) (s : string) (acc : Z) : option (Z * string) :=
  match s with
  | String c s' =>
      if is_digit c then
        match w with
        | O => None
        | S w => read_fraction w s' (acc * 10 + (Z.of_nat (code c) - 48))
        end
      else Some (acc * 10 ^ Z.of_nat w, s)
  | EmptyString => Some (acc * 10 ^ Z.of_nat w, s)
  end.

Definition starts_digit (s : string) : bool :=
  match s with
  | String c _ => is_digit c
  | EmptyString => false
  end.

(** [time.Parse(time.RFC3339Nano, s)] *)
Definition parse_rfc3339nano (s : string) : option gotime :=
  '(y, s) ← read_digits 4 s 0; s ← read_lit "-"%char s;
  '(m, s) ← read_digits 2 s 0; s ← read_lit "-"%char s;
  '(d, s) ← read_digits 2 s 0; s ← read_lit "T"%char s;
  '(h, s) ← read_digits 2 s 0; s ← read_lit ":"%char s;
  '(mi, s) ← read_digits 2 s 0; s ← read_lit ":"%char s;
  '(sec, s) ← read_digits 2 s 0;
  '(ns, s) ← match s with
             | String c s' =>
                 if bool_decide (c = "."%char) && starts_digit s' then read_fraction 9 s' 0 else Some (0, s)
             | EmptyString => Some (0, s)
             end;
  if bool_decide (s = "Z") && bool_decide (valid_date (mkDate y m d)) &&
     bool_decide (h < 24 ∧ mi < 60 ∧ sec < 60)
  then Some ((day_number (mkDate y m d) * 86400 + h * 3600 + mi * 60 + sec) * ns_second + ns)
  else None.

(** The byte order of texts, [memcmp]'s. *)
Fixpoint bytes_cmp (s t : string) : comparison :=
  match s, t with
  | EmptyString, EmptyString => Eq
  | EmptyString, String _ _ => Lt
  | String _ _, EmptyString => Gt
  | String c s, String d t =>
      match Nat.compare (code c) (code d) with
      | Eq => bytes_cmp s t
      | r => r
      end
  end.
Definition bytes_lt (s t : string) : bool := match bytes_cmp s t with Lt => true | _ => false end.

(** The instants a four-digit year can write. *)
Definition year_10000 : gotime := 3652059 * 86400 * ns_second.
Definition writable (t : gotime) : Prop := 0 ≤ t < year_10000.
#[global] Instance writable_dec t : Decision (writable t).
Proof. unfold writable. apply _. Defined.

Example rfc3339nano_examples :
  rfc3339nano 0 = "0001-01-01T00:00:00Z" ∧
  rfc3339nano (((719162 + 20000) * 86400 + 45296) * ns_second + 120000000) = "2024-10-04T12:34:56.12Z" ∧
  parse_rfc3339nano "2024-10-04T12:34:56.12Z" = Some (((719162 + 20000) * 86400 + 45296) * ns_second + 120000000).
Proof. vm_compute. done. Qed.

(** ** Lemmas: the calendar *)

Lemma div_pred k y : 0 < k → y / k = (y - 1) / k + (if y mod k =? 0 then 1 else 0).
Proof.
  intros Hk. pose proof (Z.div_mod y k ltac:(lia)). pose proof (Z.mod_pos_bound y k Hk).
  destruct (y mod k =? 0) eqn:E.
  - apply Z.eqb_eq in E. assert (y - 1 = k * (y / k - 1) + (k - 1)) by lia.
    rewrite <- (Z.div_unique (y - 1) k (y / k - 1) (k - 1)); lia.
  - apply Z.eqb_neq in E. rewrite <- (Z.div_unique (y - 1) k (y / k) (y mod k - 1)); lia.
Qed.

Lemma year_step y : year_start (y + 1) = year_start y + 365 + (if leap y then 1 else 0).
Proof.
  unfold year_start, leap. replace (y + 1 - 1) with y by lia.
  rewrite (div_pred 4), (div_pred 100 y), (div_pred 400 y) by lia.
  destruct (Z.eqb_spec (y mod 4) 0), (Z.eqb_spec (y mod 100) 0), (Z.eqb_spec (y mod 400) 0); simpl;
    Z.div_mod_to_equations; lia.
Qed.

Lemma month_cases m : 1 ≤ m ≤ 12 →
  m = 1 ∨ m = 2 ∨ m = 3 ∨ m = 4 ∨ m = 5 ∨ m = 6 ∨ m = 7 ∨ m = 8 ∨ m = 9 ∨ m = 10 ∨ m = 11 ∨ m = 12.
Proof. lia. Qed.

Ltac each_month :=
  match goal with
  | H : 1 ≤ ?m ≤ 12 |- _ =>
      destruct (month_cases m H) as [E|[E|[E|[E|[E|[E|[E|[E|[E|[E|[E|E]]]]]]]]]]]; subst m; clear H
  end.

Lemma month_step y m : 1 ≤ m ≤ 12 →
  month_start y m + month_days y m =
  if m <? 12 then month_start y (m + 1) else 365 + (if leap y then 1 else 0).
Proof. intros H. each_month; unfold month_start, month_days; simpl; destruct (leap y); lia. Qed.

Lemma month_days_pos y m : 28 ≤ month_days y m ≤ 31.
Proof. unfold month_days. repeat case_match; lia. Qed.

Lemma next_day_valid d : valid_date d → valid_date (next_day d).
Proof.
  destruct d as [y m d]. unfold valid_date, next_day. simpl. intros (Hy & Hm & Hd).
  pose proof (month_days_pos y (m + 1)). pose proof (month_days_pos (y + 1) 1).
  destruct (Z.ltb_spec d (month_days y m)); [simpl; lia|].
  destruct (Z.ltb_spec m 12); simpl; lia.
Qed.

Lemma next_day_number d : valid_date d → day_number (next_day d) = day_number d + 1.
Proof.
  destruct d as [y m d]. unfold valid_date, next_day. simpl. intros (Hy & Hm & Hd).
  destruct (Z.ltb_spec d (month_days y m)); [unfold day_number; simpl; lia|].
  pose proof (month_step y m Hm) as Hs.
  destruct (Z.ltb_spec m 12); unfold day_number; simpl.
  - lia.
  - rewrite year_step. unfold month_start at 1. simpl. lia.
Qed.

(** Dates in the order of their fields. *)
Definition date_lt (a b : date) : Prop :=
  d_y a < d_y b ∨ d_y a = d_y b ∧ (d_m a < d_m b ∨ d_m a = d_m b ∧ d_d a < d_d b).

Lemma next_day_lt d : date_lt d (next_day d).
Proof. unfold date_lt, next_day. repeat case_match; simpl; lia. Qed.

Lemma date_lt_trans a b c : date_lt a b → date_lt b c → date_lt a c.
Proof. unfold date_lt. lia. Qed.

Lemma date_of_succ n : 0 ≤ n → date_of (n + 1) = next_day (date_of n).
Proof. intros Hn. unfold date_of. by rewrite Z2N.inj_add, N.add_1_r, N.iter_succ by lia. Qed.

(** Day [n] is a date of the calendar, its number is [n], and later days have
    later dates. *)
Lemma date_of_spec n : 0 ≤ n → valid_date (date_of n) ∧ day_number (date_of n) = n.
Proof.
  intros Hn. pattern n. apply natlike_ind; [|intros x Hx [IH1 IH2]|done].
  - split; [vm_compute; intuition discriminate|reflexivity].
  - rewrite <- Z.add_1_r, date_of_succ by done. split; [by apply next_day_valid|].
    rewrite next_day_number by done. lia.
Qed.

Lemma date_of_lt a b : 0 ≤ a → a < b → date_lt (date_of a) (date_of b).
Proof.
  intros Ha Hab. replace b with (a + 1 + (b - a - 1)) by lia.
  assert (Hk : 0 ≤ b - a - 1) by lia. revert Hk. generalize (b - a - 1). intros k Hk.
  pattern k. apply natlike_ind; [|intros x Hx IH|done].
  - rewrite Z.add_0_r, date_of_succ by done. apply next_day_lt.
  - rewrite <- Z.add_1_r, Z.add_assoc, date_of_succ by lia.
    eapply date_lt_trans; [exact IH|apply next_day_lt].
Qed.

Lemma year_bound n : 0 ≤ n < 3652059 → 1 ≤ d_y (date_of n) ≤ 9999.
Proof.
  intros Hn. destruct (date_of_spec n) as [(Hy & Hm & Hd) Hnum]; [lia|]. split; [done|].
  destruct (Z.le_gt_cases (d_y (date_of n)) 9999) as [?|Hc]; [done|]. exfalso.
  unfold day_number in Hnum. set (y := d_y (date_of n)) in *.
  assert (0 ≤ month_start y (d_m (date_of n))) by (unfold month_start; repeat case_match; lia).
  assert (3652059 ≤ year_start y); [|lia]. unfold year_start.
  Z.div_mod_to_equations. lia.
Qed.

(** ** Lemmas: digits *)

Lemma code_digit k : 0 ≤ k < 10 → code (digit_char k) = (48 + Z.to_nat k)%nat.
Proof. intros Hk. apply nat_ascii_embedding. lia. Qed.

Lemma is_digit_digit k : 0 ≤ k < 10 → is_digit (digit_char k) = true.
Proof.
  intros Hk. unfold is_digit. rewrite code_digit by done. apply andb_true_iff. rewrite !Nat.leb_le. lia.
Qed.

Lemma length_pad w : ∀ n, String.length (pad w n) = w.
Proof. induction w as [|w IH]; intros n; [done|]. simpl. rewrite length_app_str, IH. simpl. lia. Qed.

Lemma read_digits_app w : ∀ v n s acc,
  read_digits (w + v) (pad w n +:+ s) acc = read_digits v s (acc * 10 ^ Z.of_nat w + n mod 10 ^ Z.of_nat w).
Proof.
  induction w as [|w IH]; intros v n s acc.
  { simpl. f_equal. rewrite Z.mod_1_r. lia. }
  cbn [pad]. rewrite app_assoc_str. replace (S w + v)%nat with (w + S v)%nat by lia.
  rewrite IH. unfold str1. rewrite app_cons_str. cbn [read_digits read_fraction].
  pose proof (Z.mod_pos_bound n 10 ltac:(lia)) as Hk.
  rewrite is_digit_digit, code_digit by done. change (EmptyString +:+ s) with s. f_equal. rewrite Nat2Z.inj_succ, Z.pow_succ_r by lia.
  rewrite (Z.rem_mul_r n 10) by lia. lia.
Qed.

Lemma read_digits_pad w n s : 0 ≤ n < 10 ^ Z.of_nat w → read_digits w (pad w n +:+ s) 0 = Some (n, s).
Proof.
  intros Hn. pose proof (read_digits_app w 0 n s 0) as H. rewrite Nat.add_0_r in H. rewrite H. simpl.
  by rewrite Z.mod_small.
Qed.

Lemma read_fraction_app w : ∀ v n s acc,
  read_fraction (w + v) (pad w n +:+ s) acc = read_fraction v s (acc * 10 ^ Z.of_nat w + n mod 10 ^ Z.of_nat w).
Proof.
  induction w as [|w IH]; intros v n s acc.
  { simpl. f_equal. rewrite Z.mod_1_r. lia. }
  cbn [pad]. rewrite app_assoc_str. replace (S w + v)%nat with (w + S v)%nat by lia.
  rewrite IH. unfold str1. rewrite app_cons_str. cbn [read_digits read_fraction].
  pose proof (Z.mod_pos_bound n 10 ltac:(lia)) as Hk.
  rewrite is_digit_digit, code_digit by done. change (EmptyString +:+ s) with s. f_equal. rewrite Nat2Z.inj_succ, Z.pow_succ_r by lia.
  rewrite (Z.rem_mul_r n 10) by lia. lia.
Qed.

Lemma read_lit_app c s : read_lit c (String c EmptyString +:+ s) = Some s.
Proof. simpl. by rewrite bool_decide_eq_true_2. Qed.

(** Stripping zeros leaves some digits that scale back to the number. *)
Lemma pad_short_spec w : ∀ n, 0 < n < 10 ^ Z.of_nat w →
  ∃ k n', (0 < k ≤ w)%nat ∧ pad_short w n = pad k n' ∧ 0 < n' < 10 ^ Z.of_nat k ∧
          n = n' * 10 ^ Z.of_nat (w - k).
Proof.
  induction w as [|w IH]; intros n Hn; [simpl in Hn; lia|].
  cbn [pad_short]. destruct (Z.eqb_spec (n mod 10) 0) as [E|E].
  - rewrite Nat2Z.inj_succ, Z.pow_succ_r in Hn by lia.
    assert (En : n = 10 * (n / 10)) by (pose proof (Z.div_mod n 10); lia).
    destruct (IH (n / 10)) as (k & n' & Hk & Hp & Hn' & Hw); [nia|].
    exists k, n'. split_and!; [lia|lia|done|lia|lia|].
    rewrite En, Hw. replace (S w - k)%nat with (S (w - k)) by lia.
    rewrite Nat2Z.inj_succ, Z.pow_succ_r by lia. lia.
  - exists (S w), n. rewrite Nat.sub_diag. split_and!; [lia|lia|done|lia|lia|]. simpl. lia.
Qed.

Lemma bytes_cmp_app a b : String.length a = String.length b → ∀ s t,
  bytes_cmp (a +:+ s) (b +:+ t) = match bytes_cmp a b with Eq => bytes_cmp s t | r => r end.
Proof.
  revert b. induction a as [|c a IH]; intros [|d b] Hl s t; try done. simpl in Hl. injection Hl as Hl.
  rewrite !app_cons_str. simpl. destruct (Nat.compare (code c) (code d)); [by apply IH|done|done].
Qed.

Lemma bytes_cmp_swap s : ∀ t, bytes_cmp t s = CompOpp (bytes_cmp s t).
Proof.
  induction s as [|c s IH]; intros [|d t]; simpl; try done.
  rewrite (Nat.compare_antisym (code c) (code d)). destruct (Nat.compare (code c) (code d)); simpl; auto.
Qed.

Lemma bytes_lt_asym s t : bytes_lt s t = true → bytes_lt t s = false.
Proof. unfold bytes_lt. rewrite (bytes_cmp_swap s t). by destruct (bytes_cmp s t). Qed.

Lemma bytes_le_trans x y : ∀ z, bytes_lt y x = false → bytes_lt z y = false → bytes_lt z x = false.
Proof.
  unfold bytes_lt. revert y. induction x as [|c x IH]; intros [|d y] [|e z]; simpl; try done.
  specialize (IH y z).
  destruct (Nat.compare_spec (code d) (code c)), (Nat.compare_spec (code e) (code d)),
    (Nat.compare_spec (code e) (code c)); auto; try lia; done.
Qed.

Lemma pad_cmp w : ∀ a b, 0 ≤ a < 10 ^ Z.of_nat w → 0 ≤ b < 10 ^ Z.of_nat w →
  bytes_cmp (pad w a) (pad w b) = Z.compare a b.
Proof.
  induction w as [|w IH]; intros a b Ha Hb.
  { simpl in *. replace a with 0 by lia. by replace b with 0 by lia. }
  rewrite Nat2Z.inj_succ, Z.pow_succ_r in Ha, Hb by lia.
  cbn [pad]. rewrite bytes_cmp_app by by rewrite !length_pad.
  pose proof (Z.div_mod a 10). pose proof (Z.div_mod b 10).
  pose proof (Z.mod_pos_bound a 10 ltac:(lia)). pose proof (Z.mod_pos_bound b 10 ltac:(lia)).
  rewrite IH by (split; [apply Z.div_pos; lia|apply Z.div_lt_upper_bound; lia]).
  unfold str1. cbn [bytes_cmp]. rewrite !code_digit by done.
  destruct (Z.compare_spec (a / 10) (b / 10)).
  - destruct (Nat.compare_spec (48 + Z.to_nat (a mod 10)) (48 + Z.to_nat (b mod 10))); symmetry;
      [apply Z.compare_eq_iff|apply Z.compare_lt_iff|apply Z.compare_gt_iff]; lia.
  - symmetry. apply Z.compare_lt_iff. lia.
  - symmetry. apply Z.compare_gt_iff. lia.
Qed.

Lemma pad_cmp_app w a b s t : 0 ≤ a < 10 ^ Z.of_nat w → 0 ≤ b < 10 ^ Z.of_nat w →
  bytes_cmp (pad w a +:+ s) (pad w b +:+ t) =
  match Z.compare a b with Eq => bytes_cmp s t | r => r end.
Proof. intros Ha Hb. rewrite bytes_cmp_app by by rewrite !length_pad. by rewrite pad_cmp. Qed.

(** ** Texts of instants *)

Lemma seconds_bound t : writable t → 0 ≤ seconds t < 3652059 * 86400.
Proof.
  unfold writable, seconds, year_10000. intros Ht.
  split; [apply Z.div_pos; unfold ns_second in *; lia|].
  apply Z.div_lt_upper_bound; unfold ns_second in *; lia.
Qed.

Lemma fraction_parse ns : 0 ≤ ns < ns_second →
  match fraction ns +:+ "Z" with
  | String c s' =>
      if bool_decide (c = "."%char) && starts_digit s' then read_fraction 9 s' 0 else Some (0, fraction ns +:+ "Z")
  | EmptyString => Some (0, fraction ns +:+ "Z")
  end = Some (ns, "Z").
Proof.
  intros Hns. unfold fraction. destruct (Z.eqb_spec ns 0) as [->|Hne]; [done|].
  destruct (pad_short_spec 9 ns) as (k & n & Hk & -> & Hn & Hval); [unfold ns_second in Hns; simpl; lia|].
  change (("." +:+ pad k n) +:+ "Z") with (String "."%char (pad k n +:+ "Z")). cbv iota.
  rewrite bool_decide_eq_true_2 by done. cbn [andb].
  assert (Hs : starts_digit (pad k n +:+ "Z") = true).
  { destruct k as [|k]; [lia|]. clear. revert n. induction k as [|k IH]; intros n.
    - cbn [pad]. unfold str1. rewrite app_assoc_str, !app_cons_str. cbn [starts_digit].
      apply is_digit_digit, Z.mod_pos_bound. lia.
    - specialize (IH (n / 10)). cbn [pad] in *.
      destruct (pad k (n / 10 / 10) +:+ str1 (digit_char (n / 10 mod 10))) as [|c s] eqn:E.
      + exfalso. apply (f_equal String.length) in E. rewrite length_app_str in E. simpl in E. lia.
      + rewrite !app_cons_str in *. exact IH. }
  rewrite Hs. replace 9%nat with (k + (9 - k))%nat by lia. rewrite read_fraction_app.
  replace (k + (9 - k) - k)%nat with (9 - k)%nat in * by lia.
  rewrite Z.mul_0_l, Z.add_0_l, Z.mod_small by lia.
  assert (Hz : ∀ w v, read_fraction w "Z" v = Some (v * 10 ^ Z.of_nat w, "Z")) by (intros [|w] v; reflexivity).
  by rewrite Hz, Hval.
Qed.

(** Reading back what was written gives the instant. *)
Lemma rfc3339nano_roundtrip t : writable t → parse_rfc3339nano (rfc3339nano t) = Some t.
Proof.
  intros Ht. pose proof (seconds_bound t Ht) as Hs. unfold rfc3339nano, parse_rfc3339nano.
  set (s := seconds t) in *.
  assert (Hday : 0 ≤ s / 86400 < 3652059) by (split; [apply Z.div_pos; lia|apply Z.div_lt_upper_bound; lia]).
  pose proof (Z.mod_pos_bound s 86400 ltac:(lia)) as Hsod.
  destruct (date_of_spec (s / 86400)) as [Hv Hnum]; [lia|]. pose proof (year_bound _ Hday) as Hy.
  destruct (date_of (s / 86400)) as [y m d]. simpl in Hy. pose proof Hv as (_ & Hm & Hd). simpl in Hm, Hd.
  pose proof (month_days_pos y m). cbn [d_y d_m d_d].
  set (sod := s mod 86400) in *.
  assert (0 ≤ sod / 3600 < 24) by (split; [apply Z.div_pos; lia|apply Z.div_lt_upper_bound; lia]).
  pose proof (Z.mod_pos_bound (sod / 60) 60 ltac:(lia)). pose proof (Z.mod_pos_bound sod 60 ltac:(lia)).
  repeat (rewrite read_digits_pad by (simpl; lia); cbn [mbind option_bind];
          try (rewrite read_lit_app; cbn [mbind option_bind])).
  pose proof (fraction_parse (t mod ns_second) (Z.mod_pos_bound t ns_second ltac:(done))) as Hf.
  rewrite Hf. cbn [mbind option_bind].
  rewrite !bool_decide_eq_true_2 by (done || lia). cbn [andb]. f_equal. rewrite Hnum.
  pose proof (Z.div_mod t ns_second ltac:(done)) as Ht'. fold (seconds t) in Ht'. fold s in Ht'.
  pose proof (Z.div_mod s 86400 ltac:(lia)) as Hs'. fold sod in Hs'.
  assert (sod = sod / 3600 * 3600 + sod / 60 mod 60 * 60 + sod mod 60) by (Z.div_mod_to_equations; lia).
  nia.
Qed.

Lemma rfc3339nano_inj t u : writable t → writable u → rfc3339nano t = rfc3339nano u → t = u.
Proof.
  intros Ht Hu E. apply (f_equal parse_rfc3339nano) in E. rewrite !rfc3339nano_roundtrip in E by done. congruence.
Qed.

(** Texts are in order of the second they name; within one second they may not be. *)
Lemma rfc3339nano_order t u : writable t → writable u → seconds t < seconds u →
  bytes_lt (rfc3339nano t) (rfc3339nano u) = true.
Proof.
  intros Ht Hu Hlt. pose proof (seconds_bound t Ht) as Hs. pose proof (seconds_bound u Hu) as Hs'.
  unfold rfc3339nano, bytes_lt. set (s := seconds t) in *. set (s' := seconds u) in *.
  assert (Hb : ∀ x, 0 ≤ x < 3652059 * 86400 → 0 ≤ x / 86400 < 3652059)
    by (intros x ?; split; [apply Z.div_pos; lia|apply Z.div_lt_upper_bound; lia]).
  pose proof (Hb s Hs) as Hday. pose proof (Hb s' Hs') as Hday'.
  pose proof (year_bound _ Hday). pose proof (year_bound _ Hday').
  destruct (date_of_spec (s / 86400)) as [(_ & Hm & Hd) _]; [lia|].
  destruct (date_of_spec (s' / 86400)) as [(_ & Hm' & Hd') _]; [lia|].
  pose proof (month_days_pos (d_y (date_of (s / 86400))) (d_m (date_of (s / 86400)))).
  pose proof (month_days_pos (d_y (date_of (s' / 86400))) (d_m (date_of (s' / 86400)))).
  assert (Hdate : s / 86400 = s' / 86400 ∧ s mod 86400 < s' mod 86400 ∨
                  date_lt (date_of (s / 86400)) (date_of (s' / 86400))).
  { destruct (Z.lt_ge_cases (s / 86400) (s' / 86400)) as [?|?].
    - right. apply date_of_lt; lia.
    - left. Z.div_mod_to_equations. lia. }
  pose proof (Z.mod_pos_bound s 86400 ltac:(lia)). pose proof (Z.mod_pos_bound s' 86400 ltac:(lia)).
  set (n := s / 86400) in *. set (n' := s' / 86400) in *. set (q := s mod 86400) in *. set (q' := s' mod 86400) in *.
  assert (Hq : ∀ x, 0 ≤ x < 86400 → 0 ≤ x / 3600 < 24 ∧ 0 ≤ x / 60 mod 60 < 60 ∧ 0 ≤ x mod 60 < 60)
    by (intros x ?; Z.div_mod_to_equations; lia).
  destruct (Hq q) as (? & ? & ?); [done|]. destruct (Hq q') as (? & ? & ?); [done|].
  repeat (rewrite pad_cmp_app by (simpl; lia); try (rewrite bytes_cmp_app by done; simpl bytes_cmp at 1)).
  assert (Hlex : date_lt (date_of n) (date_of n') ∨ date_of n = date_of n' ∧
    (q / 3600 < q' / 3600 ∨ q / 3600 = q' / 3600 ∧
     (q / 60 mod 60 < q' / 60 mod 60 ∨ q / 60 mod 60 = q' / 60 mod 60 ∧ q mod 60 < q' mod 60))).
  { destruct Hdate as [[E Hqq]|?]; [right|by left]. split; [by rewrite E|]. Z.div_mod_to_equations. lia. }
  clear - Hlex. unfold date_lt in Hlex. destruct Hlex as [Hlex|[E Hlex]].
  - destruct (Z.compare_spec (d_y (date_of n)) (d_y (date_of n'))); [|done|lia].
    destruct (Z.compare_spec (d_m (date_of n)) (d_m (date_of n'))); [|done|lia].
    destruct (Z.compare_spec (d_d (date_of n)) (d_d (date_of n'))); [lia|done|lia].
  - rewrite E, !Z.compare_refl.
    destruct (Z.compare_spec (q / 3600) (q' / 3600)); [|done|lia].
    destruct (Z.compare_spec (q / 60 mod 60) (q' / 60 mod 60)); [|done|lia].
    destruct (Z.compare_spec (q mod 60) (q' mod 60)); [lia|done|lia].
Qed.

(** What a comparison of texts says of the instants. *)
Lemma rfc3339nano_lt t u : writable t → writable u →
  bytes_lt (rfc3339nano t) (rfc3339nano u) = true → (t < u + ns_second)%Z.
Proof.
  intros Ht Hu Hlt. destruct (Z.lt_ge_cases (seconds u) (seconds t)) as [Hs|Hs].
  - pose proof (bytes_lt_asym _ _ (rfc3339nano_order u t Hu Ht Hs)). congruence.
  - unfold seconds in Hs. unfold ns_second in *. Z.div_mod_to_equations. lia.
Qed.

Lemma rfc3339nano_gt t u : writable t → writable u → (t + ns_second ≤ u)%Z →
  bytes_lt (rfc3339nano t) (rfc3339nano u) = true.
Proof.
  intros Ht Hu Hle. apply rfc3339nano_order; [done|done|]. unfold seconds, ns_second in *.
  Z.div_mod_to_equations. lia.
Qed.

(** Within a second, fractions and the letter [Z] are compared as characters: half
    past comes before the full second, and .12 before .1. *)
Example rfc3339nano_misorder :
  bytes_lt (rfc3339nano 500000000) (rfc3339nano 0) = true ∧
  bytes_lt (rfc3339nano 120000000) (rfc3339nano 100000000) = true.
Proof. vm_compute. done. Qed.

#[global] Opaque rfc3339nano parse_rfc3339nano writable.
