(* ===== verification/PoderStore.v ===== *)
(** pkg/sandpod/poder_store.go and the PoderRepository contract of repo.go: the
    worker nodes and the choice of one for a new sandbox. Go ranges over the map
    of workers in any order, so a selection takes the order as a list. *)

From S2P Require Import Prelude GoStrings GoFloat.

(** ** Data *)

Inductive PoderState := PoderStateOnline | PoderStateOffline.
#[global] Instance PoderState_eq_dec : EqDecision PoderState.
Proof. solve_decision. Defined.

(** [type PoderResources struct] *)
Record PoderResources := mkRes {
  rs_cpu_cores : Z;
  rs_memory_bytes : Z;
  rs_max_containers : Z;
  rs_arch : string;
  rs_os : string;
  rs_os_version : string;
  rs_kernel_version : string;
}.

(** [type PoderUsage struct] *)
Record PoderUsage := mkUsage { us_containers : Z; us_cpu : f64; us_memory : f64 }.

(** [type PoderInfo struct] *)
Record PoderInfo := mkPoder {
  pd_id : string;
  pd_name : string;
  pd_url : string;
  pd_region : string;
  pd_provider : string;
  pd_vm_id : string;
  pd_state : PoderState;
  pd_resources : PoderResources;
  pd_capabilities : list string;
  pd_workspace : string;
  pd_usage : PoderUsage;
  pd_heartbeat : gotime;
  pd_created : gotime;
}.

(** [type RegisterPoderRequest struct] *)
Record RegisterPoderRequest := mkRegister {
  rq_id : string;
  rq_name : string;
  rq_url : string;
  rq_region : string;
  rq_provider : string;
  rq_vm_id : string;
  rq_resources : PoderResources;
  rq_capabilities : list string;
  rq_workspace : string;
}.

(** [type HeartbeatRequest struct] *)
Record HeartbeatRequest := mkHeartbeat {
  hb_containers : Z;
  hb_cpu : f64;
  hb_memory : f64;
  hb_names : list string;
}.

Definition CapabilityEgress : string := "egress".

(** [func (p PoderInfo) HasCapability(name string) bool] *)
Definition HasCapability (p : PoderInfo) (name : string) : bool :=
  if bool_decide (name = "") then true
  else any (λ c, bool_decide (c = name)) (pd_capabilities p).

(** ** The store *)

(** [type PoderStore struct] *)
Notation PoderStore := (gmap string PoderInfo).

Definition with_state (p : PoderInfo) (st : PoderState) (hb : gotime) : PoderInfo :=
  mkPoder (pd_id p) (pd_name p) (pd_url p) (pd_region p) (pd_provider p) (pd_vm_id p) st
    (pd_resources p) (pd_capabilities p) (pd_workspace p) (pd_usage p) hb (pd_created p).

Definition with_usage (p : PoderInfo) (u : PoderUsage) : PoderInfo :=
  mkPoder (pd_id p) (pd_name p) (pd_url p) (pd_region p) (pd_provider p) (pd_vm_id p) (pd_state p)
    (pd_resources p) (pd_capabilities p) (pd_workspace p) u (pd_heartbeat p) (pd_created p).

(** [func (s PoderStore) Register(req) (PoderInfo, error)] at time [now]. *)
Definition Register (now : gotime) (s : PoderStore) (req : RegisterPoderRequest) : PoderInfo * PoderStore :=
  let p :=
    match s !! rq_id req with
    | Some e =>
        mkPoder (pd_id e) (pd_name e) (rq_url req) (rq_region req) (pd_provider e) (rq_vm_id req)
          PoderStateOnline (rq_resources req) (rq_capabilities req) (pd_workspace e) (pd_usage e)
          now (pd_created e)
    | None =>
        mkPoder (rq_id req) (rq_name req) (rq_url req) (rq_region req) (rq_provider req) (rq_vm_id req)
          PoderStateOnline (rq_resources req) [] "" (mkUsage 0 f_zero f_zero) now now
    end in
  (p, <[rq_id req := p]> s).

Definition not_found (id : string) : string := "poder " +:+ id +:+ " not found".

(** [func (s PoderStore) Heartbeat(id, usage) error] *)
Definition Heartbeat (now : gotime) (s : PoderStore) (id : string) (u : HeartbeatRequest) : result PoderStore :=
  match s !! id with
  | None => Err (not_found id)
  | Some p =>
      let p := with_usage p (mkUsage (hb_containers u) (hb_cpu u) (hb_memory u)) in
      Ok (<[id := with_state p PoderStateOnline now]> s)
  end.

(** [func (s PoderStore) Get(id)] *)
Definition PoderGet (s : PoderStore) (id : string) : option PoderInfo := s !! id.

(** The workers of the store; [List] and the selection see them in some order. *)
Definition poders (s : PoderStore) : list PoderInfo := snd <$> map_to_list s.

(** [func (s PoderStore) UpdateUsage(id, fn) error] *)
Definition UpdateUsage (s : PoderStore) (id : string) (fn : PoderUsage → PoderUsage) : result PoderStore :=
  match s !! id with
  | None => Err (not_found id)
  | Some p => Ok (<[id := with_usage p (fn (pd_usage p))]> s)
  end.

(** [func (s PoderStore) SetOffline(id)] *)
Definition SetOffline (s : PoderStore) (id : string) : PoderStore :=
  match s !! id with
  | None => s
  | Some p => <[id := with_state p PoderStateOffline (pd_heartbeat p)]> s
  end.

(** [func (s PoderStore) SetOnline(id) error] *)
Definition SetOnline (now : gotime) (s : PoderStore) (id : string) : result PoderStore :=
  match s !! id with
  | None => Err (not_found id)
  | Some p => Ok (<[id := with_state p PoderStateOnline now]> s)
  end.

(** [func (s PoderStore) Delete(id) error] *)
Definition PoderDelete (s : PoderStore) (id : string) : result PoderStore :=
  match s !! id with
  | None => Err (not_found id)
  | Some _ => Ok (delete id s)
  end.

(** ** Selection *)

(** The filters of the selection, in the code's order. *)
Definition eligible (region providerType : string) (require : list string) (tenant : string)
    (p : PoderInfo) : bool :=
  negb (bool_decide (pd_state p ≠ PoderStateOnline)) &&
  negb (bool_decide (region ≠ "") && bool_decide (pd_region p ≠ region)) &&
  negb (bool_decide (providerType ≠ "") && bool_decide (pd_provider p ≠ providerType)) &&
  negb (bool_decide (rs_max_containers (pd_resources p) ≤ us_containers (pd_usage p))%Z) &&
  negb (bool_decide (tenant ≠ "") && bool_decide (pd_workspace p ≠ "") && bool_decide (pd_workspace p ≠ tenant)) &&
  negb (any (λ cap, negb (HasCapability p cap)) require).

(** The weighted load of a worker. *)
Definition score (p : PoderInfo) : f64 :=
  let containerScore := f_div (f_of_int (us_containers (pd_usage p)))
                              (f_of_int (rs_max_containers (pd_resources p))) in
  f_add (f_add (f_mul containerScore f_0_6) (f_mul (us_cpu (pd_usage p)) f_0_2))
        (f_mul (us_memory (pd_usage p)) f_0_2).

Definition worst_score : f64 := f_of_int 999999.

(** The loop of [SelectBestFor] over the workers still to visit. *)
Fixpoint select_loop (ok : PoderInfo → bool) (order : list PoderInfo)
    (best : option PoderInfo) (bestScore : f64) : option PoderInfo :=
  match order with
  | [] => best
  | p :: order =>
      if ok p && f_lt (score p) bestScore then select_loop ok order (Some p) (score p)
      else select_loop ok order best bestScore
  end.

(** [func (s PoderStore) SelectBestFor(region, providerType, require, tenant)];
    [order] lists the workers of the store as the loop meets them. *)
Definition SelectBestFor (order : list PoderInfo) (region providerType : string)
    (require : list string) (tenant : string) : result PoderInfo :=
  match select_loop (eligible region providerType require tenant) order None worst_score with
  | Some p => Ok p
  | None => Err "no available poder found"
  end.

(** [func (s PoderStore) SelectBest(region, providerType)] *)
Definition SelectBest (order : list PoderInfo) (region providerType : string) : result PoderInfo :=
  SelectBestFor order region providerType [] "".

(** ** What the scheduler relies on *)

(** The part of the PoderRepository contract the scheduler reads: the records and
    a selection among them. *)
Class PoderRepository (S : Type) := {
  pr_List : S → list PoderInfo;
  pr_SelectBestFor : S → string → string → list string → string → result PoderInfo;
}.

(** A selected worker is on record and passes every filter. *)
Class PoderRepositoryLaws (S : Type) `{PoderRepository S} := {
  pr_select_sound (s : S) region providerType require tenant p :
    pr_SelectBestFor s region providerType require tenant = Ok p →
    p ∈ pr_List s ∧ eligible region providerType require tenant p = true;
}.

(** The in-memory store together with the order a range over it takes. *)
Record ordered_store := mkOrdered {
  os_store : PoderStore;
  os_order : list PoderInfo;
  os_perm : os_order ≡ₚ poders os_store;
}.

#[export] Instance memory_repository : PoderRepository ordered_store := {
  pr_List s := os_order s;
  pr_SelectBestFor s := SelectBestFor (os_order s);
}.

(** ** Lemmas *)

Lemma HasCapability_spec p cap : HasCapability p cap = true ↔ cap = "" ∨ cap ∈ pd_capabilities p.
Proof.
  unfold HasCapability. case_bool_decide as E; [naive_solver|]. rewrite any_true. setoid_rewrite bool_decide_eq_true. naive_solver.
Qed.

(** What a placement asks of a worker. *)
Definition fits (region providerType : string) (require : list string) (tenant : string) (p : PoderInfo) : Prop :=
  pd_state p = PoderStateOnline ∧ (region = "" ∨ pd_region p = region) ∧
  (providerType = "" ∨ pd_provider p = providerType) ∧
  (us_containers (pd_usage p) < rs_max_containers (pd_resources p))%Z ∧
  (tenant = "" ∨ pd_workspace p = "" ∨ pd_workspace p = tenant) ∧
  (∀ cap, cap ∈ require → cap = "" ∨ cap ∈ pd_capabilities p).

Lemma eligible_spec region providerType require tenant p :
  eligible region providerType require tenant p = true ↔ fits region providerType require tenant p.
Proof.
  assert (H1 : negb (bool_decide (pd_state p ≠ PoderStateOnline)) = true ↔ pd_state p = PoderStateOnline)
    by (case_bool_decide; naive_solver).
  assert (Hf : ∀ a b : string, negb (bool_decide (a ≠ "") && bool_decide (b ≠ a)) = true ↔ a = "" ∨ b = a)
    by (intros a b; repeat case_bool_decide; naive_solver).
  assert (H2 : negb (bool_decide (rs_max_containers (pd_resources p) ≤ us_containers (pd_usage p))%Z) = true
             ↔ (us_containers (pd_usage p) < rs_max_containers (pd_resources p))%Z)
    by (rewrite negb_true_iff, bool_decide_eq_false; lia).
  assert (H3 : negb (bool_decide (tenant ≠ "") && bool_decide (pd_workspace p ≠ "")
                     && bool_decide (pd_workspace p ≠ tenant)) = true
             ↔ tenant = "" ∨ pd_workspace p = "" ∨ pd_workspace p = tenant)
    by (repeat case_bool_decide; naive_solver).
  assert (H4 : negb (any (λ cap, negb (HasCapability p cap)) require) = true
             ↔ ∀ cap, cap ∈ require → cap = "" ∨ cap ∈ pd_capabilities p).
  { rewrite negb_true_iff, any_false. setoid_rewrite negb_false_iff. by setoid_rewrite HasCapability_spec. }
  unfold eligible, fits. rewrite !andb_true_iff, H1, !Hf, H2, H3, H4. tauto.
Qed.

(** The loop keeps the first of the smallest scores met so far. *)
Lemma select_loop_spec ok order : ∀ best bs,
  (∀ q, best = Some q → bs = score q) →
  match select_loop ok order best bs with
  | Some p =>
      (best = Some p ∨ p ∈ order ∧ ok p = true ∧ f_lt (score p) bs = true) ∧
      ∀ q, q ∈ order → ok q = true → f_lt (score q) (score p) = false
  | None => best = None ∧ ∀ q, q ∈ order → ok q = true → f_lt (score q) bs = false
  end.
Proof.
  induction order as [|x order IH]; intros best bs Hbs; simpl.
  { destruct best; split; auto; set_solver. }
  destruct (ok x && f_lt (score x) bs) eqn:Ex.
  - apply andb_true_iff in Ex as [Hok Hlt]. specialize (IH (Some x) (score x)).
    destruct (select_loop ok order (Some x) (score x)) as [p|] eqn:E.
    + destruct IH as [H1 H2]; [by intros q [= <-]|]. split.
      * destruct H1 as [[= <-]|(? & ? & Hp)]; right; [by split_and!; [left|..]|].
        split_and!; [by right|done|by eapply f_lt_trans].
      * intros q [->|Hq]%elem_of_cons Hokq; [|by apply H2].
        destruct H1 as [[= <-]|(? & ? & Hp)]; [apply f_lt_irrefl|].
        destruct (f_lt (score x) (score p)) eqn:Exp; [|done].
        pose proof (f_lt_trans _ _ _ Exp Hp) as Hc. by rewrite f_lt_irrefl in Hc.
    + destruct IH as [? _]; [by intros q [= <-]|done].
  - specialize (IH best bs Hbs). destruct (select_loop ok order best bs) as [p|] eqn:E.
    + destruct IH as [H1 H2]. split.
      * destruct H1 as [?|(? & ? & ?)]; [by left|]. right. split_and!; [by right|done|done].
      * intros q [->|Hq]%elem_of_cons Hokq; [|by apply H2]. rewrite Hokq in Ex. simpl in Ex.
        destruct (f_lt (score x) (score p)) eqn:Exp; [|done]. exfalso.
        destruct H1 as [Hb|(_ & _ & Hp)]; [rewrite (Hbs p Hb) in Ex; congruence|].
        pose proof (f_lt_trans _ _ _ Exp Hp). congruence.
    + destruct IH as [H1 H2]. split; [done|]. intros q [->|Hq]%elem_of_cons Hokq; [|by apply H2].
      by rewrite Hokq in Ex.
Qed.

Lemma SelectBestFor_sound order region providerType require tenant p :
  SelectBestFor order region providerType require tenant = Ok p →
  p ∈ order ∧ eligible region providerType require tenant p = true ∧ f_lt (score p) worst_score = true ∧
  ∀ q, q ∈ order → eligible region providerType require tenant q = true → f_lt (score q) (score p) = false.
Proof.
  unfold SelectBestFor. intros H.
  pose proof (select_loop_spec (eligible region providerType require tenant) order None worst_score) as Hs.
  destruct (select_loop _ _ _ _) as [p'|]; [|done]. injection H as ->.
  destruct Hs as [H1 H2]; [done|]. destruct H1 as [?|(? & ? & ?)]; [done|]. auto.
Qed.

#[export] Instance memory_repository_laws : PoderRepositoryLaws ordered_store.
Proof.
  split. intros s region providerType require tenant p H.
  by apply SelectBestFor_sound in H as (? & ? & _).
Qed.

(** ** Properties *)

(** C32: the best worker, whatever the order. [SelectBestFor] returns a worker
    of the store that is online, in the region, of the provider, below its
    container limit, of the tenant or unscoped, with every required capability,
    and no other such worker has a strictly lower load score; it fails exactly
    when every such worker scores 999999 or more (or is not a number). Two
    iteration orders never disagree on the score. *)
Theorem SelectBestFor_optimal (order order' : list PoderInfo) (region providerType : string)
    (require : list string) (tenant : string) :
  (∀ p, SelectBestFor order region providerType require tenant = Ok p →
     p ∈ order ∧ fits region providerType require tenant p ∧
     ∀ q, q ∈ order → fits region providerType require tenant q → f_lt (score q) (score p) = false) ∧
  (is_ok (SelectBestFor order region providerType require tenant) = false ↔
     ∀ q, q ∈ order → fits region providerType require tenant q → f_lt (score q) worst_score = false) ∧
  (order ≡ₚ order' → ∀ p p',
     SelectBestFor order region providerType require tenant = Ok p →
     SelectBestFor order' region providerType require tenant = Ok p' →
     f_lt (score p) (score p') = false ∧ f_lt (score p') (score p) = false).
Proof.
  split_and!.
  - intros p H. apply SelectBestFor_sound in H as (H1 & H2 & _ & H3). apply eligible_spec in H2.
    split_and!; [done|done|]. intros q Hq Hf%eligible_spec. by apply H3.
  - setoid_rewrite <- eligible_spec. unfold SelectBestFor.
    pose proof (select_loop_spec (eligible region providerType require tenant) order None worst_score) as Hs.
    destruct (select_loop _ _ _ _) as [p|]; (destruct Hs as [H1 H2]; [done|]); split; try done.
    intros H. destruct H1 as [?|(Hp & Hok & Hlt)]; [done|]. rewrite H in Hlt; done.
  - intros Hperm p p' H H'.
    apply SelectBestFor_sound in H as (H1 & H2 & _ & H3).
    apply SelectBestFor_sound in H' as (H1' & H2' & _ & H3'). split.
    + apply H3'; [by rewrite <- Hperm|done].
    + apply H3; [by rewrite Hperm|done].
Qed.

Definition demo_res (max : Z) : PoderResources := mkRes 8 0 max "amd64" "linux" "" "".
Definition demo_poder (id : string) (n : Z) : PoderInfo :=
  mkPoder id id "" "eu" "aws" "" PoderStateOnline (demo_res 10) ["egress"] "" (mkUsage n f_zero f_zero) 0 0.

Lemma SelectBestFor_optimal_witness :
  SelectBestFor [demo_poder "a" 5; demo_poder "b" 2; demo_poder "c" 10] "eu" "aws" ["egress"] "t"
    = Ok (demo_poder "b" 2) ∧
  HasCapability (demo_poder "b" 2) "egress" = true.
Proof.
  assert (H : SelectBestFor [demo_poder "a" 5; demo_poder "b" 2; demo_poder "c" 10] "eu" "aws" ["egress"] "t"
    = Ok (demo_poder "b" 2)) by (vm_compute; reflexivity).
  split; [exact H|].
  destruct (SelectBestFor_optimal [demo_poder "a" 5; demo_poder "b" 2; demo_poder "c" 10] [] "eu" "aws" ["egress"] "t")
    as [Hp _].
  destruct (Hp _ H) as (_ & (_ & _ & _ & _ & _ & Hc) & _). apply HasCapability_spec, Hc. by left.
Defined.

(** what the first registration forgets. The in-memory store files a worker
    it has not seen with no capability and no workspace, whatever the request
    says: a sandbox that needs a capability is never placed on it, and it stays
    eligible for every tenant. Registering again brings the capabilities, never
    the workspace. *)
Theorem Register_first_unscoped (now now' : gotime) (s : PoderStore) (req : RegisterPoderRequest) :
  s !! rq_id req = None →
  let p := fst (Register now s req) in
  let s1 := snd (Register now s req) in
  let p2 := fst (Register now' s1 req) in
  s1 !! rq_id req = Some p ∧ pd_state p = PoderStateOnline ∧
  (∀ cap, cap ≠ "" → HasCapability p cap = false) ∧
  (∀ region providerType require tenant, (∃ cap, cap ∈ require ∧ cap ≠ "") →
     eligible region providerType require tenant p = false) ∧
  (∀ tenant, eligible "" "" [] tenant p = eligible "" "" [] "" p) ∧
  pd_capabilities p2 = rq_capabilities req ∧ pd_workspace p2 = "".
Proof.
  intros Hn. unfold Register. rewrite Hn. simpl. rewrite lookup_insert_eq. simpl.
  split_and!; try done.
  - intros cap Hcap. unfold HasCapability. by rewrite bool_decide_eq_false_2.
  - intros region providerType require tenant (cap & Hin & Hcap).
    destruct (eligible _ _ _ _ _) eqn:E; [|done]. apply eligible_spec in E as (_ & _ & _ & _ & _ & H).
    destruct (H cap Hin) as [?|?%elem_of_nil]; done.
  - intros tenant. unfold eligible. simpl. by rewrite andb_false_r.
Qed.
