(* ===== verification/JobStore.v ===== *)
(** pkg/sandpod/job.go, job_store.go and the job half of pkg/store/memory.go: the
    in-memory job queue. The map and the queue share the job objects: an object
    is named by the ID it was added under, the map holds the objects and the
    queue holds their names. *)

From S2P Require Import Prelude GoStrings.

(** ** Data *)

Inductive JobType :=
| JobTypeCreateSandbox | JobTypeStartSandbox | JobTypeStopSandbox | JobTypeDeleteSandbox
| JobTypeExecuteCommand | JobTypeOther (s : string).

Inductive JobStatus :=
| JobStatusPending | JobStatusInProgress | JobStatusCompleted | JobStatusFailed | JobStatusOther (s : string).
#[global] Instance JobStatus_eq_dec : EqDecision JobStatus.
Proof. solve_decision. Defined.

(** [type JobResult struct] *)
Record JobResult := mkJobResult {
  jr_sandbox_id : string;
  jr_ip : string;
  jr_proxy_url : string;
  jr_output : string;
  jr_exit_code : Z;
}.

(** [type Job struct] *)
Record Job := mkJob {
  jb_id : string;
  jb_type : JobType;
  jb_status : JobStatus;
  jb_sandbox : string;
  jb_sandbox_id : string;
  jb_region : string;
  jb_provider : string;
  jb_poder_id : string;
  jb_poder_url : string;
  jb_vm_id : string;
  jb_instance_type : string;
  jb_image_id : string;
  jb_command : string;
  jb_language : string;
  jb_result : option JobResult;
  jb_error : string;
  jb_request : string;
  jb_owner : string;
  jb_trace : gmap string string;
  jb_created : gotime;
  jb_updated : gotime;
}.

Definition set_status (j : Job) (st : JobStatus) (now : gotime) : Job :=
  mkJob (jb_id j) (jb_type j) st (jb_sandbox j) (jb_sandbox_id j) (jb_region j) (jb_provider j)
    (jb_poder_id j) (jb_poder_url j) (jb_vm_id j) (jb_instance_type j) (jb_image_id j) (jb_command j)
    (jb_language j) (jb_result j) (jb_error j) (jb_request j) (jb_owner j) (jb_trace j) (jb_created j) now.

Definition set_updated (j : Job) (now : gotime) : Job := set_status j (jb_status j) now.

(** A job that ended, with its message. *)
Definition set_error (j : Job) (st : JobStatus) (msg : string) : Job :=
  mkJob (jb_id j) (jb_type j) st (jb_sandbox j) (jb_sandbox_id j) (jb_region j) (jb_provider j)
    (jb_poder_id j) (jb_poder_url j) (jb_vm_id j) (jb_instance_type j) (jb_image_id j) (jb_command j)
    (jb_language j) (jb_result j) msg (jb_request j) (jb_owner j) (jb_trace j) (jb_created j) (jb_updated j).

Definition fail_job (msg : string) (j : Job) : Job := set_error j JobStatusFailed msg.
Definition complete_job (j : Job) : Job := set_error j JobStatusCompleted "".

(** ** The store *)

(** [type JobStore struct] *)
Record JobStore := mkJobs {
  js_jobs : gmap string Job;
  js_queue : list string;
  js_timeout : Z;
}.

(** [func NewJobStore() JobStore] *)
Definition NewJobStore : JobStore := mkJobs ∅ [] (5 * ns_minute).

(** [func (s JobStore) SetJobTimeout(timeout)] *)
Definition SetJobTimeout (s : JobStore) (timeout : Z) : JobStore := mkJobs (js_jobs s) (js_queue s) timeout.

Definition created_at (jobs : gmap string Job) (id : string) : gotime :=
  match jobs !! id with
  | Some j => jb_created j
  | None => 0%Z
  end.

(** One round of [sortQueue]'s inner loop: the new element moves left over the
    later jobs; [rev] is the sorted prefix, last element first. *)
Fixpoint sink (created : string → gotime) (x : string) (rev : list string) : list string :=
  match rev with
  | y :: rest => if before (created x) (created y) then y :: sink created x rest else x :: rev
  | [] => [x]
  end.

(** [func (s JobStore) sortQueue()] *)
Definition sortQueue (created : string → gotime) (q : list string) : list string :=
  reverse (fold_left (λ rev x, sink created x rev) q []).

(** [func (s JobStore) AddJob(job) error] *)
Definition AddJob (s : JobStore) (j : Job) : result JobStore :=
  match js_jobs s !! jb_id j with
  | Some _ => Err ("job " +:+ jb_id j +:+ " already exists")
  | None =>
      let jobs := <[jb_id j := j]> (js_jobs s) in
      Ok (mkJobs jobs (sortQueue (created_at jobs) (js_queue s ++ [jb_id j])) (js_timeout s))
  end.

(** [func (s JobStore) GetJob(id)] *)
Definition GetJob (s : JobStore) (id : string) : option Job := js_jobs s !! id.

(** [func (s JobStore) UpdateJob(id, updateFn) error]: the update, then the
    store's own time stamp. *)
Definition UpdateJob (now : gotime) (s : JobStore) (id : string) (fn : Job → Job) : result JobStore :=
  match js_jobs s !! id with
  | None => Err ("job " +:+ id +:+ " not found")
  | Some j => Ok (mkJobs (<[id := set_updated (fn j) now]> (js_jobs s)) (js_queue s) (js_timeout s))
  end.

(** The reset of one job whose worker timed out. *)
Definition reset_job (now timeout : Z) (j : Job) : Job :=
  if bool_decide (jb_status j = JobStatusInProgress) && bool_decide (timeout < now - jb_updated j)%Z
  then set_status j JobStatusPending now else j.

Definition is_pending (jobs : gmap string Job) (id : string) : bool :=
  match jobs !! id with
  | Some j => bool_decide (jb_status j = JobStatusPending)
  | None => false
  end.

(** The collecting loop: the limit is tested after each addition. *)
Fixpoint collect (jobs : gmap string Job) (limit : Z) (q : list string) (n : Z) : list string :=
  match q with
  | [] => []
  | id :: q =>
      if is_pending jobs id
      then id :: (if bool_decide (limit ≤ n + 1)%Z then [] else collect jobs limit q (n + 1))
      else collect jobs limit q n
  end.

Definition mark (now : gotime) (jobs : gmap string Job) (id : string) : gmap string Job :=
  match jobs !! id with
  | Some j => <[id := set_status j JobStatusInProgress now]> jobs
  | None => jobs
  end.

(** [func (s JobStore) PollJobs(timeout, limit)] at time [now]: the names of the
    jobs handed out. *)
Definition PollJobs (now : gotime) (s : JobStore) (limit : Z) : list string * JobStore :=
  let jobs := reset_job now (js_timeout s) <$> js_jobs s in
  let pending := collect jobs limit (js_queue s) 0 in
  (pending, mkJobs (fold_left (mark now) pending jobs) (js_queue s) (js_timeout s)).

(** [func (r MemJobRepo) PollJobs(jobTimeout, limit)] *)
Definition MemPollJobs (now : gotime) (s : JobStore) (jobTimeout limit : Z) : list string * JobStore :=
  PollJobs now (SetJobTimeout s jobTimeout) limit.

(** [func (r MemJobRepo) ClaimJob(id, expected, now)], its two steps: the test on
    the job as read, and the update, at time [clock]. *)
Definition claim_check (s : JobStore) (id : string) (expected : gotime) : bool :=
  match GetJob s id with
  | None => false
  | Some j => bool_decide (jb_updated j = expected)
  end.
Definition claim_update (clock now : gotime) (s : JobStore) (id : string) : result JobStore :=
  UpdateJob clock s id (λ j, set_updated j now).
Definition ClaimJob (clock : gotime) (s : JobStore) (id : string) (expected now : gotime)
    : result (bool * JobStore) :=
  if negb (claim_check s id expected) then Ok (false, s)
  else let! s := claim_update clock now s id in Ok (true, s).

(** ** Lemmas *)

Lemma sink_perm created x rev : sink created x rev ≡ₚ x :: rev.
Proof.
  induction rev as [|y rev IH]; simpl; [done|]. destruct (before _ _); [|done].
  rewrite IH. apply Permutation_swap.
Qed.

Lemma sink_fold_perm created q : ∀ acc, fold_left (λ rev x, sink created x rev) q acc ≡ₚ q ++ acc.
Proof.
  induction q as [|x q IH]; intros acc; simpl; [done|].
  rewrite IH, sink_perm. by rewrite Permutation_middle.
Qed.

Lemma sortQueue_perm created q : sortQueue created q ≡ₚ q.
Proof. unfold sortQueue. rewrite reverse_Permutation, sink_fold_perm. by rewrite app_nil_r. Qed.

(** Later first: the order of the reversed prefix. *)
Definition later (created : string → gotime) (x y : string) : Prop := (created y ≤ created x)%Z.

Lemma sink_sorted created x rev :
  StronglySorted (later created) rev → StronglySorted (later created) (sink created x rev).
Proof.
  induction rev as [|y rev IH]; simpl; intros H; [repeat constructor|].
  apply StronglySorted_inv in H as [Hs Hall].
  destruct (before (created x) (created y)) eqn:Eb; unfold before in Eb; simpl_bool.
  - constructor; [by apply IH|]. apply Forall_forall. intros z Hz.
    rewrite sink_perm in Hz. apply elem_of_cons in Hz as [->|Hz]; [unfold later; lia|].
    rewrite Forall_forall in Hall. by apply Hall.
  - constructor; [by constructor|]. rewrite Forall_forall in Hall |- *. unfold later in *.
    intros z [->|Hz]%elem_of_cons; [lia|]. specialize (Hall z Hz). lia.
Qed.

Lemma sink_fold_sorted created q : ∀ acc,
  StronglySorted (later created) acc →
  StronglySorted (later created) (fold_left (λ rev x, sink created x rev) q acc).
Proof. induction q as [|x q IH]; intros acc H; simpl; [done|]. by apply IH, sink_sorted. Qed.

Lemma sorted_reverse created q :
  StronglySorted (later created) q →
  StronglySorted (λ x y, (created x ≤ created y)%Z) (reverse q).
Proof.
  induction 1 as [|x q Hs IH Hall]; [constructor|]. rewrite reverse_cons.
  apply StronglySorted_app_2; [|done|repeat constructor].
  intros x1 x2 H1 ->%list_elem_of_singleton. rewrite elem_of_reverse in H1.
  rewrite Forall_forall in Hall. by apply Hall.
Qed.

(** Representation invariant: the queue names each job once. *)
Definition js_wf (s : JobStore) : Prop :=
  NoDup (js_queue s) ∧ ∀ id, id ∈ js_queue s ↔ is_Some (js_jobs s !! id).

(** A job a poll may hand out at [now]. *)
Definition ready (now timeout : Z) (j : Job) : bool :=
  bool_decide (jb_status j = JobStatusPending) ||
  bool_decide (jb_status j = JobStatusInProgress) && bool_decide (timeout < now - jb_updated j)%Z.

Definition ready_id (now : gotime) (s : JobStore) (id : string) : bool :=
  match js_jobs s !! id with
  | Some j => ready now (js_timeout s) j
  | None => false
  end.

Lemma is_pending_reset now s id :
  is_pending (reset_job now (js_timeout s) <$> js_jobs s) id = ready_id now s id.
Proof.
  unfold is_pending, ready_id. rewrite lookup_fmap. destruct (js_jobs s !! id) as [j|]; [|done].
  simpl. unfold reset_job, ready.
  destruct (bool_decide (jb_status j = JobStatusInProgress)) eqn:E1; simpl.
  - simpl_bool. rewrite E1. destruct (bool_decide (_ < _)%Z); simpl; [done|]. by rewrite E1.
  - by rewrite orb_false_r.
Qed.

Lemma collect_keep jobs limit q : ∀ n, (0 ≤ n)%Z →
  collect jobs limit q n = take (Z.to_nat (Z.max 1 (limit - n))) (keep (is_pending jobs) q).
Proof.
  induction q as [|id q IH]; intros n Hn; simpl; [by rewrite take_nil|].
  destruct (is_pending jobs id); [|by apply IH].
  replace (Z.to_nat (Z.max 1 (limit - n))) with (S (Z.to_nat (Z.max 1 (limit - n)) - 1)) by lia.
  simpl. f_equal. case_bool_decide as Hl.
  - replace (Z.to_nat (Z.max 1 (limit - n)) - 1) with 0 by lia. by rewrite take_0.
  - rewrite IH by lia. f_equal. lia.
Qed.

Lemma fold_mark now ids : ∀ jobs id,
  NoDup ids →
  fold_left (mark now) ids jobs !! id =
    if decide (id ∈ ids) then (λ j, set_status j JobStatusInProgress now) <$> jobs !! id else jobs !! id.
Proof.
  induction ids as [|x ids IH]; intros jobs id Hnd; simpl.
  { done. }
  apply NoDup_cons in Hnd as [Hx Hnd]. rewrite IH by done. unfold mark at 1 2.
  destruct (decide (id = x)) as [->|Hne].
  - rewrite decide_False by done. rewrite decide_True by set_solver.
    destruct (jobs !! x) as [j|] eqn:E; [by rewrite lookup_insert_eq|by rewrite E].
  - assert (E : match jobs !! x with Some j => <[x:=set_status j JobStatusInProgress now]> jobs | None => jobs end
                !! id = jobs !! id) by (destruct (jobs !! x); [by rewrite lookup_insert_ne|done]).
    rewrite E. destruct (decide (id ∈ ids)) as [Hi|Hi]; [rewrite decide_True by set_solver; done|].
    rewrite decide_False; [done|]. set_solver.
Qed.

Lemma keep_ext {A} (p q : A → bool) l : (∀ x, p x = q x) → keep p l = keep q l.
Proof. intros H. induction l as [|x l IH]; simpl; [done|]. rewrite H. by destruct (q x); rewrite IH. Qed.

(** What a poll hands out, and what it leaves. *)
Lemma PollJobs_spec now s limit :
  js_wf s →
  let '(ids, s') := PollJobs now s limit in
  ids = take (Z.to_nat (Z.max 1 limit)) (keep (ready_id now s) (js_queue s)) ∧
  js_queue s' = js_queue s ∧ js_timeout s' = js_timeout s ∧
  ∀ id, js_jobs s' !! id =
    if decide (id ∈ ids) then (λ j, set_status j JobStatusInProgress now) <$> js_jobs s !! id
    else reset_job now (js_timeout s) <$> js_jobs s !! id.
Proof.
  intros [Hnd Hdom]. unfold PollJobs.
  assert (Hids : collect (reset_job now (js_timeout s) <$> js_jobs s) limit (js_queue s) 0
            = take (Z.to_nat (Z.max 1 limit)) (keep (ready_id now s) (js_queue s))).
  { rewrite collect_keep by lia. rewrite Z.sub_0_r. f_equal. apply keep_ext. intros x. apply is_pending_reset. }
  rewrite Hids. split_and!; [done|done|done|]. intros id. simpl.
  rewrite fold_mark, lookup_fmap.
  - destruct (decide _) as [Hi|]; [|done]. destruct (js_jobs s !! id) as [j|]; [|done]. simpl. f_equal.
    unfold reset_job. destruct (_ && _); done.
  - eapply sublist_NoDup; [exact Hnd|]. etrans; [apply sublist_take|apply keep_sublist].
Qed.

Lemma PollJobs_wf now s limit : js_wf s → js_wf (snd (PollJobs now s limit)).
Proof.
  intros Hwf. pose proof (PollJobs_spec now s limit Hwf) as H.
  destruct (PollJobs now s limit) as [ids s'] eqn:E. destruct H as (_ & Hq & _ & Hj). simpl.
  destruct Hwf as [Hnd Hdom]. split; [by rewrite Hq|]. intros id. rewrite Hq, Hdom, Hj.
  destruct (decide _); by rewrite fmap_is_Some.
Qed.

Lemma AddJob_wf s j s' : js_wf s → AddJob s j = Ok s' → js_wf s'.
Proof.
  intros [Hnd Hdom]. unfold AddJob. destruct (js_jobs s !! jb_id j) eqn:E; [done|]. intros [= <-].
  assert (Hx : jb_id j ∉ js_queue s) by (rewrite Hdom, E; by intros [? ?]). split; simpl.
  - rewrite sortQueue_perm. apply NoDup_app. split_and!; [done|set_solver|apply NoDup_singleton].
  - intros id. rewrite sortQueue_perm, elem_of_app, list_elem_of_singleton, Hdom.
    destruct (decide (id = jb_id j)) as [->|Hne].
    + rewrite lookup_insert_eq. naive_solver.
    + rewrite lookup_insert_ne by done. naive_solver.
Qed.

Lemma UpdateJob_wf now s id fn s' : js_wf s → UpdateJob now s id fn = Ok s' → js_wf s'.
Proof.
  intros [Hnd Hdom]. unfold UpdateJob. destruct (js_jobs s !! id) as [j|] eqn:E; [|done]. intros [= <-].
  split; [done|]. intros x. simpl. rewrite Hdom. destruct (decide (x = id)) as [->|Hne].
  - rewrite lookup_insert_eq, E. naive_solver.
  - by rewrite lookup_insert_ne.
Qed.

(** ** Runs of the store *)

Inductive job_op :=
| JAdd (j : Job)
| JUpdate (now : gotime) (id : string) (fn : Job → Job)
| JPoll (now : gotime) (jobTimeout limit : Z).

(** An operation that fails leaves the store alone. *)
Definition job_step (s : JobStore) (o : job_op) : JobStore :=
  match o with
  | JAdd j => match AddJob s j with Ok s' => s' | Err _ => s end
  | JUpdate now id fn => match UpdateJob now s id fn with Ok s' => s' | Err _ => s end
  | JPoll now t limit => snd (MemPollJobs now s t limit)
  end.

Definition run_jobs (os : list job_op) : JobStore := fold_left job_step os NewJobStore.

Lemma job_step_wf s o : js_wf s → js_wf (job_step s o).
Proof.
  intros Hwf. destruct o as [j|now id fn|now t limit]; simpl.
  - destruct (AddJob s j) eqn:E; [by eapply AddJob_wf|done].
  - destruct (UpdateJob now s id fn) eqn:E; [by eapply UpdateJob_wf|done].
  - by apply (PollJobs_wf now (SetJobTimeout s t) limit).
Qed.

Lemma run_jobs_wf os : js_wf (run_jobs os).
Proof.
  unfold run_jobs. induction os as [|o os IH] using rev_ind.
  { split; [constructor|]. intros id. simpl. rewrite lookup_empty. split; [set_solver|by intros [? ?]]. }
  rewrite fold_left_app. by apply job_step_wf.
Qed.

(** ** Properties *)

(** first come, first served, and at least one. In every state the store
    can reach, a poll hands out, in queue order, the first jobs that are pending
    or whose worker timed out, as many as the limit says but never fewer than one
    when there is one (so a limit of zero still takes a job); exactly these
    become in progress at the time of the poll, jobs that timed out and were not
    handed out become pending, every other job and the queue are unchanged. *)
Theorem PollJobs_fifo (os : list job_op) (now : gotime) (jobTimeout limit : Z) :
  let s := SetJobTimeout (run_jobs os) jobTimeout in
  let '(ids, s') := MemPollJobs now (run_jobs os) jobTimeout limit in
  ids = take (Z.to_nat (Z.max 1 limit)) (keep (ready_id now s) (js_queue s)) ∧
  ids `sublist_of` js_queue s ∧ NoDup ids ∧ js_queue s' = js_queue s ∧
  (∀ id, id ∈ ids → ∃ j, js_jobs s !! id = Some j ∧ ready now jobTimeout j = true ∧
     js_jobs s' !! id = Some (set_status j JobStatusInProgress now)) ∧
  (∀ id j, id ∉ ids → js_jobs s !! id = Some j →
     js_jobs s' !! id = Some (reset_job now jobTimeout j)).
Proof.
  set (s := SetJobTimeout (run_jobs os) jobTimeout).
  assert (Hwf : js_wf s) by exact (run_jobs_wf os). unfold MemPollJobs. fold s.
  pose proof (PollJobs_spec now s limit Hwf) as H.
  destruct (PollJobs now s limit) as [ids s']. destruct H as (Hids & Hq & _ & Hj).
  assert (Hsub : ids `sublist_of` js_queue s)
    by (rewrite Hids; etrans; [apply sublist_take|apply keep_sublist]).
  split_and!; [done|done|by eapply sublist_NoDup; [apply Hwf|]|done|..].
  - intros id Hid. specialize (Hj id). rewrite decide_True in Hj by done.
    assert (Hr : ready_id now s id = true).
    { rewrite Hids in Hid. apply elem_of_take in Hid as (i & Hi & _).
      apply list_elem_of_lookup_2 in Hi. by apply elem_of_keep in Hi as [_ ?]. }
    unfold ready_id in Hr. destruct (js_jobs s !! id) as [j|]; [|done]. by exists j.
  - intros id j Hid Hjs. specialize (Hj id). rewrite decide_False, Hjs in Hj by done. exact Hj.
Qed.

(** [id] is in progress since the poll at [now]. *)
Definition held (now : gotime) (id : string) (s : JobStore) : Prop :=
  ∃ j, js_jobs s !! id = Some j ∧ jb_status j = JobStatusInProgress ∧ jb_updated j = now.

(** A call that does not update [id], and does not poll after its own timeout has passed
    since [now]. *)
Definition undisturbing (now : gotime) (id : string) (o : job_op) : Prop :=
  match o with
  | JAdd _ => True
  | JUpdate _ id' _ => id' ≠ id
  | JPoll now1 jobTimeout _ => (now1 ≤ now + jobTimeout)%Z
  end.

(** What a poll hands out is ready; a job it does not find ready it neither hands out nor
    touches, when it is in progress. *)
Lemma poll_held now now1 t limit s id : js_wf s → held now id s → let '(ids, s') := MemPollJobs now1 s t limit in
  (id ∈ ids → (now + t < now1)%Z) ∧ ((now + t < now1)%Z → (Z.of_nat (length (js_queue s)) ≤ limit)%Z → id ∈ ids) ∧
  ((now1 ≤ now + t)%Z → held now id s').
Proof.
  intros Hwf (j & Hj & Hst & Hup). unfold MemPollJobs.
  pose proof (PollJobs_spec now1 (SetJobTimeout s t) limit Hwf) as H.
  destruct (PollJobs _ _ _) as [ids s']. destruct H as (Hids & _ & _ & Hjobs). simpl in *.
  assert (Hr : ready_id now1 (SetJobTimeout s t) id = bool_decide (t < now1 - now)%Z).
  { unfold ready_id. simpl. rewrite Hj. unfold ready. by rewrite Hst, Hup. }
  assert (Hin : id ∈ ids → (now + t < now1)%Z).
  { rewrite Hids. intros (i & Hi & _)%elem_of_take. apply list_elem_of_lookup_2, elem_of_keep in Hi as [_ Hi].
    rewrite Hr in Hi. simpl_bool. lia. }
  split_and!; [done| |].
  - intros Hlt Hlim. rewrite Hids, take_ge.
    + apply elem_of_keep. split; [apply Hwf; by eexists|]. rewrite Hr. apply bool_decide_eq_true. lia.
    + pose proof (sublist_length _ _ (keep_sublist (ready_id now1 (SetJobTimeout s t)) (js_queue s))). lia.
  - intros Hle. exists j. split; [|done]. rewrite Hjobs, decide_False, Hj by (intros ?%Hin; lia). simpl. f_equal.
    unfold reset_job. rewrite Hst, Hup, (bool_decide_eq_false_2 (_ < _)%Z) by lia. by rewrite andb_false_r.
Qed.

Lemma held_run now id between : ∀ s, js_wf s → held now id s → Forall (undisturbing now id) between →
  js_wf (fold_left job_step between s) ∧ held now id (fold_left job_step between s).
Proof.
  induction between as [|o os IH]; intros s Hwf Hh Hu; [done|]. apply Forall_cons in Hu as [Ho Hos].
  apply IH; [by apply job_step_wf| |done]. destruct o as [j|now1 id1 fn|now1 t limit]; cbn [job_step undisturbing] in *.
  - unfold AddJob. destruct (js_jobs s !! jb_id j) eqn:E; [done|]. destruct Hh as (j0 & Hj0 & H0). exists j0. split; [|done].
    simpl. rewrite lookup_insert_ne; [done|]. congruence.
  - unfold UpdateJob. destruct (js_jobs s !! id1); [|done]. destruct Hh as (j0 & Hj0 & H0). exists j0. split; [|done].
    simpl. by rewrite lookup_insert_ne.
  - pose proof (poll_held now now1 t limit s id Hwf Hh) as H. by destruct (MemPollJobs _ _ _ _) as [ids s'], H as (_ & _ & H); apply H.
Qed.

(** C24: no job is handed out twice within its timeout, and none is lost. Between a poll at
    [now] and a later one let there be any calls that do not update a job the first handed
    out, among them polls, each within its own timeout since [now]. A poll after them, with
    a timeout of its own, does not hand the job out before that timeout has passed since
    [now]; once it has, the job is ready again, and a poll with room for it hands it out. *)
Theorem PollJobs_exclusive (os between : list job_op) (now now' : gotime) (jobTimeout jobTimeout' limit limit' : Z) :
  let '(ids, s1) := MemPollJobs now (run_jobs os) jobTimeout limit in
  let s2 := fold_left job_step between s1 in
  let '(ids', _) := MemPollJobs now' s2 jobTimeout' limit' in
  ∀ id, id ∈ ids → Forall (undisturbing now id) between →
    ((now' ≤ now + jobTimeout')%Z → id ∉ ids') ∧
    ((now + jobTimeout' < now')%Z → (Z.of_nat (length (js_queue s2)) ≤ limit')%Z → id ∈ ids').
Proof.
  pose proof (PollJobs_fifo os now jobTimeout limit) as H. cbv zeta in H.
  pose proof (job_step_wf _ (JPoll now jobTimeout limit) (run_jobs_wf os)) as Hwf. cbn [job_step] in Hwf.
  destruct (MemPollJobs now _ _ _) as [ids s1]. destruct H as (_ & _ & _ & _ & Hids & _). cbv zeta.
  destruct (MemPollJobs now' _ _ _) as [ids' s3] eqn:E. intros id Hid Hu. destruct (Hids id Hid) as (j & _ & _ & Hj).
  destruct (held_run now id between s1 Hwf) as (Hwf2 & Hh); [|done|].
  { exists (set_status j JobStatusInProgress now). split; [exact Hj|done]. }
  pose proof (poll_held now now' jobTimeout' limit' _ id Hwf2 Hh) as H. rewrite E in H. destruct H as (H1 & H2 & _).
  split; [|done]. intros Hle Hin. specialize (H1 Hin). lia.
Qed.

Definition demo_job (id : string) (created : Z) : Job :=
  mkJob id JobTypeCreateSandbox JobStatusPending "sb" "" "eu" "aws" "" "" "" "" "" "" "" None "" "" "" ∅ created created.

Example poll_order :
  fst (MemPollJobs 10 (run_jobs [JAdd (demo_job "b" 2); JAdd (demo_job "a" 1); JAdd (demo_job "c" 3)]) 100 2)
    = ["a"; "b"] ∧
  fst (MemPollJobs 10 (run_jobs [JAdd (demo_job "b" 2); JAdd (demo_job "a" 1)]) 100 0) = ["a"].
Proof. vm_compute. done. Qed.

(** the claim is not a compare-and-swap. Taken one after the other, of two
    claims on the same reading only the first succeeds, if the clock has moved;
    but the test and the update are separate steps, and two claimers that both
    test before either updates both succeed. The time stored is the update's own
    clock, never the one the claimer asked for. *)
Theorem ClaimJob_race (s : JobStore) (id : string) (j : Job) (c1 c2 now1 now2 : gotime) :
  js_jobs s !! id = Some j → c1 ≠ jb_updated j →
  (∃ s1, ClaimJob c1 s id (jb_updated j) now1 = Ok (true, s1) ∧
     jb_updated <$> js_jobs s1 !! id = Some c1 ∧
     ClaimJob c2 s1 id (jb_updated j) now2 = Ok (false, s1)) ∧
  (claim_check s id (jb_updated j) = true ∧
   ∃ s1 s2, claim_update c1 now1 s id = Ok s1 ∧ claim_update c2 now2 s1 id = Ok s2 ∧
     jb_updated <$> js_jobs s2 !! id = Some c2).
Proof.
  intros Hj Hc. unfold ClaimJob, claim_check, claim_update, UpdateJob, GetJob.
  rewrite Hj, bool_decide_eq_true_2 by done. simpl. split.
  - eexists. split; [reflexivity|]. simpl. rewrite lookup_insert_eq. split; [done|].
    simpl. by rewrite bool_decide_eq_false_2.
  - split; [done|]. eexists _, _. split; [reflexivity|]. simpl. rewrite lookup_insert_eq.
    split; [reflexivity|]. simpl. by rewrite lookup_insert_eq.
Qed.

(** The queue is in creation order. Adding a job that is not on record
    keeps the queue a permutation of what it was with the new job, sorted by
    creation time, and files the job unchanged; adding a known ID fails and
    changes nothing. *)
Theorem AddJob_sorted (os : list job_op) (j : Job) :
  match AddJob (run_jobs os) j with
  | Ok s' =>
      js_queue s' ≡ₚ js_queue (run_jobs os) ++ [jb_id j] ∧ js_jobs s' !! jb_id j = Some j ∧
      StronglySorted (λ x y, (created_at (js_jobs s') x ≤ created_at (js_jobs s') y)%Z) (js_queue s') ∧
      (∀ id, id ≠ jb_id j → js_jobs s' !! id = js_jobs (run_jobs os) !! id)
  | Err _ => is_Some (js_jobs (run_jobs os) !! jb_id j)
  end.
Proof.
  unfold AddJob. destruct (js_jobs (run_jobs os) !! jb_id j) eqn:E; [by eauto|]. simpl.
  split_and!; [apply sortQueue_perm|apply lookup_insert_eq| |intros id Hid; by rewrite lookup_insert_ne].
  apply sorted_reverse, sink_fold_sorted. constructor.
Qed.
