(* ===== verification/SqlJobs.v ===== *)
(** pkg/store/sqldb/job_repo.go and the start-up recovery of db.go: the job table
    in a database. The two DATETIME columns hold text and are compared as text;
    the JSON columns hold the values they encode. A statement that the engine
    refuses changes nothing, and neither does a transaction one of whose
    statements is refused. *)

From S2P Require Import Prelude GoStrings GoTime JobStore.

Inductive Dialect := SQLite | Postgres.
#[global] Instance Dialect_eq_dec : EqDecision Dialect.
Proof. solve_decision. Defined.

(** ** Rows *)

(** A row of [jobs]: the columns the struct holds as they are, and the two texts. *)
Record JobRow := mkJobRow {
  jw_cols : Job;
  jw_created : string;
  jw_updated : string;
}.
Notation JobTable := (gmap string JobRow).

Definition set_times (j : Job) (created updated : gotime) : Job :=
  mkJob (jb_id j) (jb_type j) (jb_status j) (jb_sandbox j) (jb_sandbox_id j) (jb_region j) (jb_provider j)
    (jb_poder_id j) (jb_poder_url j) (jb_vm_id j) (jb_instance_type j) (jb_image_id j) (jb_command j)
    (jb_language j) (jb_result j) (jb_error j) (jb_request j) (jb_owner j) (jb_trace j) created updated.

(** The values an INSERT binds. *)
Definition job_row (j : Job) : JobRow :=
  mkJobRow (set_times j 0 0) (rfc3339nano (jb_created j)) (rfc3339nano (jb_updated j)).

(** [func scanJob(row)]: a text that is no time gives the zero time. *)
Definition scanJob (r : JobRow) : Job :=
  set_times (jw_cols r) (default 0%Z (parse_rfc3339nano (jw_created r)))
    (default 0%Z (parse_rfc3339nano (jw_updated r))).

Definition row_status (r : JobRow) : JobStatus := jb_status (jw_cols r).

(** [SET status=?, updated_at=?] *)
Definition row_mark (st : JobStatus) (now : string) (r : JobRow) : JobRow :=
  mkJobRow (set_status (jw_cols r) st 0) (jw_created r) now.

(** ** Operations *)

Section Operations.
  (** What the engine says of this call, and its words for a duplicate key. *)
  Variables (engine : option string) (duplicate : string).

(** [func (r jobRepo) AddJob(job) error] *)
Definition sql_AddJob (t : JobTable) (j : Job) : result JobTable :=
  let failed e := Err ("store/sqlite: job AddJob " +:+ quote (jb_id j) +:+ ": " +:+ e) in
  match engine with
  | Some e => failed e
  | None => match t !! jb_id j with
            | Some _ => failed duplicate
            | None => Ok (<[jb_id j := job_row j]> t)
            end
  end.

(** [func (r jobRepo) GetJob(id)]: a failing engine reads as no job. *)
Definition sql_GetJob (t : JobTable) (id : string) : option Job :=
  match engine with Some _ => None | None => scanJob <$> t !! id end.

(** [func (r jobRepo) upsertTx(tx, j)]: a row on record keeps its [created_at]. *)
Definition upsert_job (t : JobTable) (j : Job) : JobTable :=
  let new := job_row j in
  <[jb_id j := match t !! jb_id j with
               | Some old => mkJobRow (jw_cols new) (jw_created old) (jw_updated new)
               | None => new
               end]> t.

(** [func (r jobRepo) UpdateJob(id, fn) error] *)
Definition sql_UpdateJob (now : gotime) (t : JobTable) (id : string) (fn : Job → Job) : result JobTable :=
  match engine with
  | Some e => Err e
  | None => match t !! id with
            | None => Err ("job " +:+ quote id +:+ " not found")
            | Some r => Ok (upsert_job t (set_updated (fn (scanJob r)) now))
            end
  end.

(** [func (r jobRepo) ClaimJob(id, expected, now)]: one UPDATE. *)
Definition sql_ClaimJob (t : JobTable) (id : string) (expected now : gotime) : result (bool * JobTable) :=
  match engine with
  | Some e => Err e
  | None => match t !! id with
            | Some r =>
                if bool_decide (jw_updated r = rfc3339nano expected)
                then Ok (true, <[id := mkJobRow (jw_cols r) (jw_created r) (rfc3339nano now)]> t)
                else Ok (false, t)
            | None => Ok (false, t)
            end
  end.
End Operations.

(** The order [ORDER BY created_at] may return the rows in: rows of equal text in
    any order. *)
Definition created_order (x y : string * JobRow) : Prop :=
  bytes_lt (jw_created y.2) (jw_created x.2) = false.
Definition ordered_rows (t : JobTable) (order : list (string * JobRow)) : Prop :=
  order ≡ₚ map_to_list t ∧ StronglySorted created_order order.

(** [func (r jobRepo) ListJobs()] *)
Definition sql_ListJobs (order : list (string * JobRow)) : list Job := scanJob ∘ snd <$> order.

(** [UPDATE jobs SET status='PENDING', updated_at=? WHERE status='IN_PROGRESS'
    AND updated_at < ?] *)
Definition row_stale (cutoff : string) (r : JobRow) : bool :=
  bool_decide (row_status r = JobStatusInProgress) && bytes_lt (jw_updated r) cutoff.
Definition reset_row (now cutoff : string) (r : JobRow) : JobRow :=
  if row_stale cutoff r then row_mark JobStatusPending now r else r.

(** [LIMIT ?]: a negative limit is none for SQLite and an error for PostgreSQL. *)
Definition limited {A} (d : Dialect) (limit : Z) (l : list A) : option (list A) :=
  if bool_decide (0 ≤ limit)%Z then Some (take (Z.to_nat limit) l)
  else match d with SQLite => Some l | Postgres => None end.

Definition row_pending (x : string * JobRow) : bool := bool_decide (row_status x.2 = JobStatusPending).

Definition mark_row (now : string) (t : JobTable) (id : string) : JobTable :=
  alter (row_mark JobStatusInProgress now) id t.

(** Where the engine may refuse a statement of the transaction. *)
Inductive PollFail := PollBegin (e : string) | PollReset (e : string) | PollSelect (e : string)
| PollMark (id e : string) | PollCommit (e : string).

(** The transaction of [func (r jobRepo) PollJobs(jobTimeout, limit)]; [order]
    gives the rows as the SELECT finds them. The error of a commit that claimed
    nothing is not looked at. *)
Definition sql_poll_tx (d : Dialect) (fail : option PollFail) (order : JobTable → list (string * JobRow))
    (now : gotime) (jobTimeout limit : Z) (t : JobTable) : result (list string) * JobTable :=
  let cutoff := rfc3339nano (now - jobTimeout) in
  let nowStr := rfc3339nano now in
  match fail with
  | Some (PollBegin e) => (Err ("store/sqlite: PollJobs begin: " +:+ e), t)
  | Some (PollReset e) => (Err ("store/sqlite: PollJobs reset: " +:+ e), t)
  | Some (PollSelect e) => (Err ("store/sqlite: PollJobs select: " +:+ e), t)
  | _ =>
      let t1 := reset_row nowStr cutoff <$> t in
      match limited d limit (keep row_pending (order t1)) with
      | None => (Err "store/sqlite: PollJobs select: LIMIT must not be negative", t)
      | Some [] => (Ok [], match fail with Some (PollCommit _) => t | _ => t1 end)
      | Some rows =>
          let ids := fst <$> rows in
          match fail with
          | Some (PollMark id e) => (Err ("store/sqlite: PollJobs mark " +:+ quote id +:+ ": " +:+ e), t)
          | Some (PollCommit e) => (Err ("store/sqlite: PollJobs commit: " +:+ e), t)
          | _ => (Ok ids, fold_left (mark_row nowStr) ids t1)
          end
      end
  end.

(** Its last step, outside the transaction: the claimed rows as the table has them
    by then; a row that cannot be read is passed over. *)
Definition sql_poll_read (readable : string → bool) (t : JobTable) (ids : list string) : list Job :=
  omap (λ id, if readable id then scanJob <$> t !! id else None) ids.

(** The recovery statement of [finish]. *)
Definition sql_recover (now : gotime) (t : JobTable) : JobTable :=
  (λ r, if bool_decide (row_status r = JobStatusInProgress)
        then row_mark JobStatusPending (rfc3339nano now) r else r) <$> t.

(** ** Lemmas: rows and times *)

(** A row as the code writes them: keyed by its ID, with times it formatted. *)
Definition row_wf (id : string) (r : JobRow) : Prop :=
  ∃ j, jb_id j = id ∧ writable (jb_created j) ∧ writable (jb_updated j) ∧ r = job_row j.
Definition table_wf (t : JobTable) : Prop := map_Forall row_wf t.

(** The jobs a table holds. *)
Definition jobs_of (t : JobTable) : gmap string Job := scanJob <$> t.

Lemma scan_job_row j : writable (jb_created j) → writable (jb_updated j) → scanJob (job_row j) = j.
Proof.
  intros Hc Hu. unfold scanJob, job_row. simpl. rewrite !rfc3339nano_roundtrip by assumption. by destruct j.
Qed.

Lemma row_wf_scan id r : row_wf id r →
  jb_id (scanJob r) = id ∧ writable (jb_created (scanJob r)) ∧ writable (jb_updated (scanJob r)) ∧
  r = job_row (scanJob r).
Proof. intros (j & <- & Hc & Hu & ->). by rewrite !scan_job_row. Qed.

Lemma row_mark_job st now j : row_mark st (rfc3339nano now) (job_row j) = job_row (set_status j st now).
Proof. done. Qed.

Lemma row_mark_wf id st now r : writable now → row_wf id r →
  row_wf id (row_mark st (rfc3339nano now) r) ∧ scanJob (row_mark st (rfc3339nano now) r) = set_status (scanJob r) st now.
Proof.
  intros Hn (j & Hid & Hc & Hu & ->). rewrite row_mark_job. split.
  - by exists (set_status j st now).
  - by rewrite !scan_job_row.
Qed.

Lemma row_status_scan r : jb_status (scanJob r) = row_status r.
Proof. done. Qed.

(** A time column compared with another instant, when they differ by a second. *)
Lemma text_lt t u : writable t → writable u → seconds t ≠ seconds u →
  bytes_lt (rfc3339nano t) (rfc3339nano u) = bool_decide (t < u)%Z.
Proof.
  intros Ht Hu Hs. assert (Hlt : ∀ a b, (seconds a < seconds b → a < b)%Z).
  { unfold seconds, ns_second. intros a b. Z.div_mod_to_equations. lia. }
  destruct (Z.lt_trichotomy (seconds t) (seconds u)) as [H|[?|H]]; [|done|].
  - rewrite rfc3339nano_order by done. by rewrite bool_decide_eq_true_2 by auto.
  - rewrite (bytes_lt_asym _ _ (rfc3339nano_order u t Hu Ht H)).
    rewrite bool_decide_eq_false_2; [done|]. specialize (Hlt _ _ H). lia.
Qed.

(** ** Lemmas: the poll *)

Lemma fold_mark_row now ids : ∀ t id, NoDup ids →
  fold_left (mark_row now) ids t !! id =
    if decide (id ∈ ids) then row_mark JobStatusInProgress now <$> t !! id else t !! id.
Proof.
  induction ids as [|x ids IH]; intros t id Hnd; simpl; [done|].
  apply NoDup_cons in Hnd as [Hx Hnd]. rewrite IH by done. unfold mark_row.
  destruct (decide (id = x)) as [->|Hne].
  - rewrite decide_False by done. rewrite decide_True by set_solver. by rewrite lookup_alter_eq.
  - rewrite lookup_alter_ne by done.
    destruct (decide (id ∈ ids)) as [Hi|Hi]; [by rewrite decide_True by set_solver|].
    rewrite decide_False; [done|]. set_solver.
Qed.

Lemma sorted_strict {A} (P R : relation A) l : NoDup l → StronglySorted P l →
  (∀ x y, x ∈ l → y ∈ l → x ≠ y → P x y → R x y) → StronglySorted R l.
Proof.
  induction l as [|x l IH]; intros Hnd Hs Hr; [constructor|].
  apply NoDup_cons in Hnd as [Hx Hnd]. apply StronglySorted_inv in Hs as [Hs Hf]. constructor.
  - apply IH; [done|done|]. intros a b Ha Hb. apply Hr; by right.
  - apply Forall_forall. intros y Hy. rewrite Forall_forall in Hf.
    apply Hr; [by left|by right|set_solver|by apply Hf].
Qed.

Lemma sorted_fst {A B} (R : relation A) (l : list (A * B)) :
  StronglySorted (λ x y, R x.1 y.1) l → StronglySorted R l.*1.
Proof.
  induction 1 as [|x l Hs IH Hf]; simpl; constructor; [done|].
  apply Forall_fmap. exact Hf.
Qed.

Lemma sorted_sublist {A} (R : relation A) l l' : l' `sublist_of` l → StronglySorted R l → StronglySorted R l'.
Proof.
  induction 1 as [|x l1 l2 H IH|x l1 l2 H IH]; intros Hs; [done| |].
  - apply StronglySorted_inv in Hs as [Hs Hf]. constructor; [by apply IH|].
    rewrite Forall_forall in Hf |- *. intros y Hy. apply Hf. by eapply elem_of_sublist.
  - apply StronglySorted_inv in Hs as [Hs _]. by apply IH.
Qed.

Lemma keep_fst_sublist {A B} (p : A * B → bool) l : (keep p l).*1 `sublist_of` l.*1.
Proof. induction l as [|x l IH]; simpl; [done|]. destruct (p x); simpl; by constructor. Qed.

(** What the transaction hands out and leaves, when no statement is refused. *)
Lemma sql_poll_spec d order now jobTimeout limit t :
  (∀ u, ordered_rows u (order u)) → (0 ≤ limit)%Z →
  let nowStr := rfc3339nano now in
  let cutoff := rfc3339nano (now - jobTimeout) in
  let ids := take (Z.to_nat limit) (keep row_pending (order (reset_row nowStr cutoff <$> t))).*1 in
  ∃ t', sql_poll_tx d None order now jobTimeout limit t = (Ok ids, t') ∧ NoDup ids ∧
    ∀ id, t' !! id = if decide (id ∈ ids) then row_mark JobStatusInProgress nowStr <$> t !! id
                     else reset_row nowStr cutoff <$> t !! id.
Proof.
  intros Hord Hlim nowStr cutoff. cbv zeta. unfold sql_poll_tx, limited. fold nowStr cutoff.
  rewrite bool_decide_eq_true_2 by done. set (t1 := reset_row nowStr cutoff <$> t).
  assert (Hmap : take (Z.to_nat limit) (keep row_pending (order t1)).*1 =
                 (take (Z.to_nat limit) (keep row_pending (order t1))).*1) by apply firstn_map.
  rewrite Hmap. set (rows := take (Z.to_nat limit) (keep row_pending (order t1))) in *.
  assert (Hnd : NoDup rows.*1).
  { destruct (Hord t1) as [Hp _]. rewrite <- Hmap.
    eapply sublist_NoDup; [|apply sublist_take]. eapply sublist_NoDup; [|apply keep_fst_sublist].
    rewrite Hp. apply NoDup_fst_map_to_list. }
  assert (Hend : ∀ id, fold_left (mark_row nowStr) rows.*1 t1 !! id =
    if decide (id ∈ rows.*1) then row_mark JobStatusInProgress nowStr <$> t !! id
    else reset_row nowStr cutoff <$> t !! id).
  { intros id. rewrite fold_mark_row by done. unfold t1. rewrite lookup_fmap. destruct (decide _); [|done].
    destruct (t !! id) as [r|]; [|done]. simpl. unfold reset_row. by destruct (row_stale _ _). }
  destruct rows as [|x rows]; [exists t1|eexists]; split_and!; try done; try exact Hend.
Qed.

(** ** The two stores side by side *)

(** One call on a job repository. *)
Inductive job_call :=
| CAdd (j : Job)
| CGet (id : string)
| CUpdate (now : gotime) (id : string) (fn : Job → Job)
| CPoll (now : gotime) (jobTimeout limit : Z)
| CClaim (id : string) (expected now : gotime).

(** What the caller sees of it, error texts aside. *)
Inductive job_answer :=
| AError
| ADone
| AFound (o : option Job)
| AHanded (ids : list string)
| AClaimed (b : bool).

Definition answer_of {A S} (f : A → job_answer) (s : S) (r : result (A * S)) : job_answer * S :=
  match r with
  | Ok (a, s) => (f a, s)
  | Err _ => (AError, s)
  end.
Definition done_of {S} (s : S) (r : result S) : job_answer * S :=
  match r with
  | Ok s => (ADone, s)
  | Err _ => (AError, s)
  end.

(** The in-memory repository; its claim stamps the clock, which here reads [now]. *)
Definition mem_call (s : JobStore) (c : job_call) : job_answer * JobStore :=
  match c with
  | CAdd j => done_of s (AddJob s j)
  | CGet id => (AFound (GetJob s id), s)
  | CUpdate now id fn => done_of s (UpdateJob now s id fn)
  | CPoll now timeout limit => let '(ids, s) := MemPollJobs now s timeout limit in (AHanded ids, s)
  | CClaim id expected now => answer_of AClaimed s (ClaimJob now s id expected now)
  end.

(** The SQL repository on an engine that refuses nothing. *)
Definition sql_call (d : Dialect) (order : JobTable → list (string * JobRow)) (t : JobTable) (c : job_call)
    : job_answer * JobTable :=
  match c with
  | CAdd j => done_of t (sql_AddJob None "" t j)
  | CGet id => (AFound (sql_GetJob None t id), t)
  | CUpdate now id fn => done_of t (sql_UpdateJob None now t id fn)
  | CPoll now timeout limit =>
      match sql_poll_tx d None order now timeout limit t with
      | (Ok ids, t) => (AHanded ids, t)
      | (Err _, t) => (AError, t)
      end
  | CClaim id expected now => answer_of AClaimed t (sql_ClaimJob None t id expected now)
  end.

(** No two jobs were created in the same second. *)
Definition spread (jobs : gmap string Job) : Prop :=
  map_Forall (λ x j, map_Forall (λ y k, x ≠ y → seconds (jb_created j) ≠ seconds (jb_created k)) jobs) jobs.

(** The calls on which text and time agree: instants a text can hold, updates that
    keep identity and creation time, polls for at least one job at a moment when no
    job in progress was last touched in the very second that is timing out. *)
Definition call_ok (jobs : gmap string Job) (c : job_call) : Prop :=
  match c with
  | CAdd j => writable (jb_created j) ∧ writable (jb_updated j)
  | CGet _ => True
  | CUpdate now id fn => writable now ∧ ∀ j, jb_id (fn j) = jb_id j ∧ jb_created (fn j) = jb_created j
  | CPoll now timeout limit =>
      writable now ∧ writable (now - timeout)%Z ∧ (1 ≤ limit)%Z ∧ spread jobs ∧
      map_Forall (λ _ j, jb_status j = JobStatusInProgress →
                         seconds (jb_updated j) ≠ seconds (now - timeout)%Z) jobs
  | CClaim id expected now => writable now ∧ writable expected
  end.

(** Table and store hold the same jobs, the queue in order of creation. *)
Record sim (t : JobTable) (s : JobStore) : Prop := {
  sim_rows : table_wf t;
  sim_jobs : js_jobs s = jobs_of t;
  sim_store : js_wf s;
  sim_queue : StronglySorted (λ x y, (created_at (js_jobs s) x ≤ created_at (js_jobs s) y)%Z) (js_queue s);
}.

Lemma jobs_of_eq t id : jobs_of t !! id = scanJob <$> t !! id.
Proof. apply lookup_fmap. Qed.

Lemma jobs_of_insert t id r : jobs_of (<[id := r]> t) = <[id := scanJob r]> (jobs_of t).
Proof. apply fmap_insert. Qed.

(** The queue's order only depends on when jobs were created. *)
Lemma sorted_created (jobs jobs' : gmap string Job) q :
  (∀ id, id ∈ q → created_at jobs' id = created_at jobs id) →
  StronglySorted (λ x y, (created_at jobs x ≤ created_at jobs y)%Z) q →
  StronglySorted (λ x y, (created_at jobs' x ≤ created_at jobs' y)%Z) q.
Proof.
  intros He. induction 1 as [|x q Hs IH Hf]; constructor.
  - apply IH. intros id Hid. apply He. by right.
  - rewrite Forall_forall in Hf |- *. intros y Hy. rewrite !He by (by left || by right). by apply Hf.
Qed.

Lemma sim_add t s j : sim t s → writable (jb_created j) → writable (jb_updated j) →
  match sql_AddJob None "" t j, AddJob s j with
  | Ok t', Ok s' => sim t' s'
  | Err _, Err _ => True
  | _, _ => False
  end.
Proof.
  intros [Hwf Hj Hs Hq] Hc Hu. unfold sql_AddJob, AddJob. rewrite Hj, jobs_of_eq.
  destruct (t !! jb_id j) as [r|] eqn:E; [exact I|]. cbn [fmap option_fmap option_map].
  assert (E' : js_jobs s !! jb_id j = None) by (by rewrite Hj, jobs_of_eq, E).
  assert (Hadd : AddJob s j = Ok (mkJobs (<[jb_id j := j]> (js_jobs s))
      (sortQueue (created_at (<[jb_id j := j]> (js_jobs s))) (js_queue s ++ [jb_id j])) (js_timeout s)))
    by (unfold AddJob; by rewrite E').
  rewrite Hj in Hadd. split.
  - apply map_Forall_insert_2; [by exists j|done].
  - simpl. by rewrite jobs_of_insert, scan_job_row.
  - by eapply AddJob_wf.
  - simpl. apply sorted_reverse, sink_fold_sorted. constructor.
Qed.

Lemma sim_update t s now id fn : sim t s → writable now →
  (∀ j, jb_id (fn j) = jb_id j ∧ jb_created (fn j) = jb_created j) →
  match sql_UpdateJob None now t id fn, UpdateJob now s id fn with
  | Ok t', Ok s' => sim t' s'
  | Err _, Err _ => True
  | _, _ => False
  end.
Proof.
  intros [Hwf Hj Hs Hq] Hn Hfn. unfold sql_UpdateJob, UpdateJob. rewrite Hj, jobs_of_eq.
  destruct (t !! id) as [r|] eqn:E; [|exact I]. cbn [fmap option_fmap option_map].
  apply Hwf in E as Hr. destruct Hr as (j & Hid & Hc & Hu & ->). rewrite scan_job_row by done.
  destruct (Hfn j) as [Hid' Hc']. set (j' := set_updated (fn j) now).
  assert (Hj' : upsert_job t j' = <[id := job_row j']> t).
  { unfold upsert_job. replace (jb_id j') with id by (unfold j'; simpl; congruence). rewrite E. f_equal.
    unfold job_row, j'. simpl. by rewrite Hc'. }
  assert (Hcr : writable (jb_created j')) by (unfold j'; simpl; congruence).
  assert (Hupd : UpdateJob now s id fn = Ok (mkJobs (<[id := j']> (js_jobs s)) (js_queue s) (js_timeout s))).
  { unfold UpdateJob. rewrite Hj, jobs_of_eq, E. cbn [fmap option_fmap option_map].
    by rewrite scan_job_row. }
  rewrite Hj'. split.
  - apply map_Forall_insert_2; [|done]. exists j'. split_and!; try done. unfold j'. simpl. congruence.
  - simpl. by rewrite jobs_of_insert, scan_job_row.
  - rewrite Hj in Hupd. by eapply UpdateJob_wf.
  - simpl. rewrite <- Hj. eapply sorted_created; [|exact Hq]. intros x _. unfold created_at.
    destruct (decide (x = id)) as [->|Hne]; [|by rewrite lookup_insert_ne].
    rewrite lookup_insert_eq, Hj, jobs_of_eq, E. cbn [fmap option_fmap option_map].
    by rewrite scan_job_row.
Qed.

Lemma sim_put t s id r j now : sim t s → t !! id = Some r → js_jobs s !! id = Some j → writable now →
  sim (<[id := job_row (set_updated j now)]> t) (mkJobs (<[id := set_updated j now]> (js_jobs s)) (js_queue s) (js_timeout s)).
Proof.
  intros [Hwf Hj Hs Hq] E Ej Hn. apply Hwf in E as Hr. apply row_wf_scan in Hr as (Hid & Hc & Hu & Hr).
  assert (j = scanJob r) as -> by (rewrite Hj, jobs_of_eq, E in Ej; by injection Ej).
  split.
  - apply map_Forall_insert_2; [|done]. exists (set_updated (scanJob r) now). by split_and!.
  - simpl. rewrite jobs_of_insert, scan_job_row, Hj; done.
  - destruct Hs as [Hnd Hdom]. split; [done|]. intros x. simpl. rewrite Hdom.
    destruct (decide (x = id)) as [->|Hne]; [rewrite lookup_insert_eq, Ej; naive_solver|by rewrite lookup_insert_ne].
  - simpl. eapply sorted_created; [|exact Hq]. intros x _. unfold created_at.
    destruct (decide (x = id)) as [->|Hne]; [by rewrite lookup_insert_eq, Ej|by rewrite lookup_insert_ne].
Qed.

Lemma sim_claim t s id expected now : sim t s → writable now → writable expected →
  match answer_of AClaimed t (sql_ClaimJob None t id expected now), answer_of AClaimed s (ClaimJob now s id expected now) with
  | (a, t'), (a', s') => a = a' ∧ sim t' s'
  end.
Proof.
  intros Hsim Hn He. unfold sql_ClaimJob, ClaimJob, claim_check, claim_update, GetJob.
  pose proof (sim_jobs _ _ Hsim) as Hj. rewrite Hj, jobs_of_eq.
  destruct (t !! id) as [r|] eqn:E; cbn [fmap option_fmap option_map]; [|done].
  apply (sim_rows _ _ Hsim) in E as Hr. apply row_wf_scan in Hr as (Hid & Hc & Hu & Hr).
  assert (Heq : bool_decide (jw_updated r = rfc3339nano expected) = bool_decide (jb_updated (scanJob r) = expected)).
  { assert (Hup : jw_updated r = rfc3339nano (jb_updated (scanJob r))) by exact (f_equal jw_updated Hr).
    rewrite Hup. apply bool_decide_ext. split; [by apply rfc3339nano_inj|by intros ->]. }
  rewrite Heq. destruct (bool_decide (jb_updated (scanJob r) = expected)); cbn [negb answer_of]; [|by split].
  unfold UpdateJob. rewrite Hj, jobs_of_eq, E. cbn [fmap option_fmap option_map rbind answer_of].
  split; [done|].
  assert (Hrow : mkJobRow (jw_cols r) (jw_created r) (rfc3339nano now) = job_row (set_updated (scanJob r) now)).
  { rewrite Hr. by rewrite scan_job_row. }
  rewrite Hrow, <- Hj. change (set_updated (set_updated (scanJob r) now) now) with (set_updated (scanJob r) now).
  eapply sim_put; [done|exact E|by rewrite Hj, jobs_of_eq, E|done].
Qed.

(** Reset and mark, in the table and in the store. *)
Lemma reset_row_scan id r now timeout : row_wf id r → writable now → writable (now - timeout)%Z →
  (jb_status (scanJob r) = JobStatusInProgress → seconds (jb_updated (scanJob r)) ≠ seconds (now - timeout)%Z) →
  let r' := reset_row (rfc3339nano now) (rfc3339nano (now - timeout)) r in
  row_wf id r' ∧ scanJob r' = reset_job now timeout (scanJob r) ∧
  bool_decide (row_status r' = JobStatusPending) = ready now timeout (scanJob r).
Proof.
  intros Hr Hn Hcut Hsec. pose proof (row_mark_wf id JobStatusPending now r Hn Hr) as [Hw Hm].
  apply row_wf_scan in Hr as Hr'. destruct Hr' as (Hid & Hc & Hu & Heq).
  unfold reset_row, row_stale, reset_job, ready. rewrite <- row_status_scan.
  destruct (decide (jb_status (scanJob r) = JobStatusInProgress)) as [Hst|Hst].
  - rewrite (bool_decide_eq_true_2 _ Hst). cbn [andb].
    assert (Hlt : bytes_lt (jw_updated r) (rfc3339nano (now - timeout)) = bool_decide (timeout < now - jb_updated (scanJob r))%Z).
    { assert (Hup : jw_updated r = rfc3339nano (jb_updated (scanJob r))) by exact (f_equal jw_updated Heq).
      rewrite Hup, text_lt by auto. apply bool_decide_ext. lia. }
    rewrite Hlt. case_bool_decide; [|by rewrite <- row_status_scan, Hst].
    split_and!; [exact Hw|exact Hm|]. by rewrite orb_true_r.
  - rewrite (bool_decide_eq_false_2 _ Hst). cbn [andb orb]. rewrite orb_false_r. done.
Qed.

Section Poll.
  Context (order : JobTable → list (string * JobRow)) (t : JobTable) (s : JobStore).
  Context (now jobTimeout : Z).
  Hypothesis Hord : ∀ u, ordered_rows u (order u).
  Hypothesis Hsim : sim t s.
  Hypothesis Hnow : writable now.
  Hypothesis Hcut : writable (now - jobTimeout)%Z.
  Hypothesis Hspread : spread (jobs_of t).
  Hypothesis Hsec : ∀ id j, jobs_of t !! id = Some j → jb_status j = JobStatusInProgress →
    seconds (jb_updated j) ≠ seconds (now - jobTimeout)%Z.

  Notation t1 := (reset_row (rfc3339nano now) (rfc3339nano (now - jobTimeout)) <$> t).
  Notation s1 := (SetJobTimeout s jobTimeout).
  Notation is_earlier := (λ x y, (created_at (js_jobs s) x < created_at (js_jobs s) y)%Z).

Lemma poll_row id r : t !! id = Some r →
  js_jobs s !! id = Some (scanJob r) ∧
  let r' := reset_row (rfc3339nano now) (rfc3339nano (now - jobTimeout)) r in
  row_wf id r' ∧ scanJob r' = reset_job now jobTimeout (scanJob r) ∧
  bool_decide (row_status r' = JobStatusPending) = ready now jobTimeout (scanJob r).
Proof using All.
  intros E. assert (Ej : jobs_of t !! id = Some (scanJob r)) by (by rewrite jobs_of_eq, E).
  split; [by rewrite (sim_jobs _ _ Hsim)|].
  apply reset_row_scan; [by apply (sim_rows _ _ Hsim)|done|done|exact (Hsec id _ Ej)].
Qed.

Lemma poll_sql_elem id : id ∈ (keep row_pending (order t1)).*1 ↔
  ∃ r, t !! id = Some r ∧ ready now jobTimeout (scanJob r) = true.
Proof using All.
  destruct (Hord t1) as [Hp _]. rewrite list_elem_of_fmap. split.
  - intros ([id' r'] & -> & Hin). apply elem_of_keep in Hin as [Hin Hpend].
    rewrite Hp, elem_of_map_to_list, lookup_fmap in Hin. simpl.
    destruct (t !! id') as [r|] eqn:E; [|done]. injection Hin as <-.
    exists r. split; [done|]. apply poll_row in E as (_ & _ & _ & <-). exact Hpend.
  - intros (r & E & Hr). pose proof (poll_row id r E) as (_ & _ & _ & Hst). rewrite Hr in Hst.
    exists (id, reset_row (rfc3339nano now) (rfc3339nano (now - jobTimeout)) r). split; [done|].
    apply elem_of_keep. split; [|exact Hst]. by rewrite Hp, elem_of_map_to_list, lookup_fmap, E.
Qed.

Lemma poll_mem_elem id : id ∈ keep (ready_id now s1) (js_queue s) ↔
  ∃ r, t !! id = Some r ∧ ready now jobTimeout (scanJob r) = true.
Proof using All.
  destruct (sim_store _ _ Hsim) as [_ Hdom]. rewrite elem_of_keep, Hdom. unfold ready_id. simpl.
  rewrite (sim_jobs _ _ Hsim), jobs_of_eq. destruct (t !! id) as [r|]; simpl; [|naive_solver].
  split; [intros [_ ?]; eauto|]. intros (r' & [= <-] & ?). eauto.
Qed.

Lemma poll_earlier x r r' y q q' : t !! x = Some r → t !! y = Some q → x ≠ y →
  jw_created r' = jw_created r → jw_created q' = jw_created q →
  created_order (x, r') (y, q') → is_earlier x y.
Proof using All.
  intros Ex Ey Hne Hr' Hq' Ho. unfold created_order in Ho. simpl in Ho. rewrite Hr', Hq' in Ho.
  destruct (poll_row x r Ex) as [Hjx _]. destruct (poll_row y q Ey) as [Hjy _].
  unfold created_at. rewrite Hjx, Hjy. rewrite (sim_jobs _ _ Hsim) in Hjx, Hjy.
  pose proof (Hspread x _ Hjx y _ Hjy Hne) as Hs.
  apply (sim_rows _ _ Hsim), row_wf_scan in Ex as (_ & Hcx & _ & Hx).
  apply (sim_rows _ _ Hsim), row_wf_scan in Ey as (_ & Hcy & _ & Hy).
  rewrite (f_equal jw_created Hx), (f_equal jw_created Hy) in Ho. unfold job_row in Ho. cbn [jw_created] in Ho.
  rewrite text_lt in Ho by auto. apply bool_decide_eq_false in Ho.
  assert (jb_created (scanJob r) ≠ jb_created (scanJob q)) by congruence. lia.
Qed.

(** Both selections list the same jobs in the same order. *)
Lemma poll_same : (keep row_pending (order t1)).*1 = keep (ready_id now s1) (js_queue s).
Proof using All.
  assert (AntiSymm (=) is_earlier) by (intros x y ? ?; lia).
  destruct (Hord t1) as [Hp Hs].
  assert (Hnd1 : NoDup (keep row_pending (order t1)).*1).
  { eapply sublist_NoDup; [|apply keep_fst_sublist]. rewrite Hp. apply NoDup_fst_map_to_list. }
  destruct (sim_store _ _ Hsim) as [Hnd2 _].
  assert (Hnd2' : NoDup (keep (ready_id now s1) (js_queue s))) by (eapply sublist_NoDup; [exact Hnd2|apply keep_sublist]).
  apply (StronglySorted_unique is_earlier).
  - apply sorted_fst. eapply sorted_strict; [by eapply NoDup_fmap_1|by eapply sorted_sublist; [apply keep_sublist|]|].
    assert (Hin : ∀ z, z ∈ keep row_pending (order t1) → ∃ r, t !! z.1 = Some r ∧ z.2 = reset_row (rfc3339nano now) (rfc3339nano (now - jobTimeout)) r).
    { intros [x r'] Hx. apply elem_of_keep in Hx as [Hx _]. rewrite Hp, elem_of_map_to_list, lookup_fmap in Hx.
      simpl. destruct (t !! x) as [r|]; [|done]. injection Hx as <-. eauto. }
    intros [x r'] [y q'] Hx Hy Hne Ho. destruct (Hin _ Hx) as (r & Ex & Er). destruct (Hin _ Hy) as (q & Ey & Eq).
    simpl in *. subst r' q'. eapply (poll_earlier x r _ y q); [done|done| | | |exact Ho].
    + intros ->. apply Hne. congruence.
    + unfold reset_row. by destruct (row_stale _ r).
    + unfold reset_row. by destruct (row_stale _ q).
  - eapply sorted_strict; [done|eapply sorted_sublist; [apply keep_sublist|apply (sim_queue _ _ Hsim)]|].
    intros x y Hx Hy Hne Hle. apply poll_mem_elem in Hx as (r & Ex & _). apply poll_mem_elem in Hy as (q & Ey & _).
    destruct (poll_row x r Ex) as [Hjx _]. destruct (poll_row y q Ey) as [Hjy _].
    unfold created_at in *. rewrite Hjx, Hjy in *. rewrite (sim_jobs _ _ Hsim) in Hjx, Hjy.
    pose proof (Hspread x _ Hjx y _ Hjy Hne). assert (jb_created (scanJob r) ≠ jb_created (scanJob q)) by congruence. lia.
  - apply NoDup_Permutation; [done|done|]. intros id. by rewrite poll_sql_elem, poll_mem_elem.
Qed.
End Poll.

Lemma sim_poll d order t s now jobTimeout limit :
  (∀ u, ordered_rows u (order u)) → sim t s → call_ok (js_jobs s) (CPoll now jobTimeout limit) →
  ∃ ids t', sql_poll_tx d None order now jobTimeout limit t = (Ok ids, t') ∧
    fst (MemPollJobs now s jobTimeout limit) = ids ∧ sim t' (snd (MemPollJobs now s jobTimeout limit)).
Proof.
  intros Hord Hsim. rewrite (sim_jobs _ _ Hsim) at 1. intros (Hn & Hcut & Hlim & Hspread & Hsec).
  destruct (sql_poll_spec d order now jobTimeout limit t Hord) as (t' & Hsql & Hnd & Ht'); [lia|].
  rewrite (poll_same order t s now jobTimeout Hord Hsim Hn Hcut Hspread Hsec) in Hsql, Hnd, Ht'.
  unfold MemPollJobs. set (s1 := SetJobTimeout s jobTimeout) in *.
  assert (Hwf1 : js_wf s1) by exact (sim_store _ _ Hsim).
  pose proof (PollJobs_spec now s1 limit Hwf1) as Hm. pose proof (PollJobs_wf now s1 limit Hwf1) as Hwf2.
  destruct (PollJobs now s1 limit) as [ids s2]. destruct Hm as (Hids & Hq & _ & Hj). simpl in Hwf2, Hq.
  change (js_queue s1) with (js_queue s) in Hids.   replace (Z.max 1 limit) with limit in Hids by lia. rewrite <- Hids in Hsql, Hnd, Ht'.
  exists ids, t'. split; [done|]. split; [done|]. simpl.
  assert (Hrow : ∀ id, match t !! id, t' !! id, js_jobs s2 !! id with
                 | Some r, Some r', Some j => row_wf id r' ∧ scanJob r' = j ∧ jb_created j = jb_created (scanJob r)
                 | None, None, None => True
                 | _, _, _ => False
                 end).
  { intros id. rewrite Ht', Hj. change (js_jobs s1) with (js_jobs s). change (js_timeout s1) with jobTimeout.
    rewrite (sim_jobs _ _ Hsim), jobs_of_eq.
    destruct (t !! id) as [r|] eqn:E; [|by destruct (decide _)].
    pose proof (poll_row order t s now jobTimeout Hord Hsim Hn Hcut Hspread Hsec id r E) as (_ & Hw & Hs & _).
    destruct (decide (id ∈ ids)); cbn [fmap option_fmap option_map].
    - apply (sim_rows _ _ Hsim) in E. by destruct (row_mark_wf id JobStatusInProgress now r Hn E).
    - split_and!; [done|done|]. unfold reset_job. by destruct (_ && _). }
  split.
  - intros id r' E. specialize (Hrow id). rewrite E in Hrow.
    destruct (t !! id); [|done]. destruct (js_jobs s2 !! id); [|done]. apply Hrow.
  - apply map_eq. intros id. specialize (Hrow id). rewrite jobs_of_eq.
    destruct (t !! id), (t' !! id), (js_jobs s2 !! id); try done. simpl. destruct Hrow as (_ & -> & _). done.
  - exact Hwf2.
  - rewrite Hq. eapply sorted_created; [|exact (sim_queue _ _ Hsim)]. intros id _. unfold created_at.
    specialize (Hrow id). rewrite (sim_jobs _ _ Hsim), jobs_of_eq.
    destruct (t !! id), (t' !! id), (js_jobs s2 !! id); try done. simpl. apply Hrow.
Qed.

(** One call, then a run of calls. *)
Lemma call_simulated d order t s c :
  (∀ u, ordered_rows u (order u)) → sim t s → call_ok (js_jobs s) c →
  let '(a, t') := sql_call d order t c in
  let '(a', s') := mem_call s c in
  a = a' ∧ sim t' s'.
Proof.
  intros Hord Hsim Hc. destruct c as [j|id|now id fn|now timeout limit|id expected now]; cbn [sql_call mem_call].
  - destruct Hc as [H1 H2]. pose proof (sim_add t s j Hsim H1 H2) as H.
    by destruct (sql_AddJob None "" t j), (AddJob s j).
  - unfold GetJob. by rewrite (sim_jobs _ _ Hsim), jobs_of_eq.
  - destruct Hc as [H1 H2]. pose proof (sim_update t s now id fn Hsim H1 H2) as H.
    by destruct (sql_UpdateJob None now t id fn), (UpdateJob now s id fn).
  - destruct (sim_poll d order t s now timeout limit Hord Hsim Hc) as (ids & t' & -> & Hi & Hs).
    destruct (MemPollJobs now s timeout limit) as [ids' s']. simpl in *. by subst.
  - destruct Hc as [H1 H2]. pose proof (sim_claim t s id expected now Hsim H1 H2) as H.
    destruct (answer_of AClaimed t _), (answer_of AClaimed s _). exact H.
Qed.

Fixpoint sql_run d (order : JobTable → list (string * JobRow)) (t : JobTable) (cs : list job_call)
    : list job_answer * JobTable :=
  match cs with
  | [] => ([], t)
  | c :: cs => let '(a, t) := sql_call d order t c in
               let '(l, t) := sql_run d order t cs in (a :: l, t)
  end.
Fixpoint mem_run (s : JobStore) (cs : list job_call) : list job_answer * JobStore :=
  match cs with
  | [] => ([], s)
  | c :: cs => let '(a, s) := mem_call s c in
               let '(l, s) := mem_run s cs in (a :: l, s)
  end.

(** Every call of a run is one on which text and time agree. *)
Fixpoint calls_ok (s : JobStore) (cs : list job_call) : Prop :=
  match cs with
  | [] => True
  | c :: cs => call_ok (js_jobs s) c ∧ calls_ok (snd (mem_call s c)) cs
  end.

Lemma sim_empty : sim ∅ NewJobStore.
Proof. split; [done|done|split; [constructor|]|constructor]. simpl. intros id. rewrite elem_of_nil, lookup_empty.
  split; [done|by intros [? ?]]. Qed.

Lemma runs_simulated d order : (∀ u, ordered_rows u (order u)) → ∀ cs t s, sim t s → calls_ok s cs →
  fst (sql_run d order t cs) = fst (mem_run s cs) ∧ sim (snd (sql_run d order t cs)) (snd (mem_run s cs)).
Proof.
  intros Hord. induction cs as [|c cs IH]; intros t s Hsim Hok; [done|]. simpl. destruct Hok as [Hc Hcs].
  pose proof (call_simulated d order t s c Hord Hsim Hc) as H.
  destruct (sql_call d order t c) as [a t'], (mem_call s c) as [a' s']. destruct H as [<- Hs]. simpl in Hcs.
  specialize (IH t' s' Hs Hcs). destruct (sql_run d order t' cs), (mem_run s' cs). simpl in *.
  destruct IH as [-> ?]. done.
Qed.

(** ** An order the engine may use *)

#[local] Instance created_order_dec : RelDecision created_order.
Proof. intros x y. unfold created_order. apply _. Defined.
#[local] Instance created_order_total : Total created_order.
Proof.
  intros x y. unfold created_order. destruct (bytes_lt (jw_created y.2) (jw_created x.2)) eqn:E; [|by left].
  right. by apply bytes_lt_asym.
Qed.
#[local] Instance created_order_trans : Transitive created_order.
Proof. intros x y z. unfold created_order. apply bytes_le_trans. Qed.

Definition sorted_rows (t : JobTable) : list (string * JobRow) := merge_sort created_order (map_to_list t).

Lemma sorted_rows_ordered t : ordered_rows t (sorted_rows t).
Proof. split; [apply merge_sort_Permutation|apply StronglySorted_merge_sort; apply _]. Qed.

(** ** Properties *)

(** C22: a database is as good as memory. On an engine that refuses nothing, and
    whatever order it returns rows of equal creation text in, a run of calls from
    an empty table gives the answers the in-memory repository gives, call by
    call, and leaves the same jobs, as long as the times a text comparison has to
    tell apart lie in different seconds. *)
Theorem sql_refines_memory (d : Dialect) (order : JobTable → list (string * JobRow)) (cs : list job_call) :
  (∀ u, ordered_rows u (order u)) →
  calls_ok NewJobStore cs →
  fst (sql_run d order ∅ cs) = fst (mem_run NewJobStore cs) ∧
  jobs_of (snd (sql_run d order ∅ cs)) = js_jobs (snd (mem_run NewJobStore cs)).
Proof.
  intros Hord Hok. destruct (runs_simulated d order Hord cs ∅ NewJobStore sim_empty Hok) as [H1 H2].
  split; [done|]. by rewrite (sim_jobs _ _ H2).
Qed.

Ltac decided := apply (bool_decide_unpack _); vm_compute; exact I.

Definition demo_calls : list job_call :=
  [CAdd (demo_job "b" (2 * ns_second)); CAdd (demo_job "a" ns_second);
   CPoll (10 * ns_second) (5 * ns_second) 1;
   CUpdate (11 * ns_second) "b" (λ j, set_status j JobStatusFailed 0);
   CClaim "a" (10 * ns_second) (12 * ns_second); CClaim "a" (10 * ns_second) (13 * ns_second);
   CPoll (20 * ns_second) (5 * ns_second) 4].

Lemma sql_refines_memory_witness :
  fst (sql_run SQLite sorted_rows ∅ demo_calls) =
  [ADone; ADone; AHanded ["a"]; ADone; AClaimed true; AClaimed false; AHanded ["a"]].
Proof.
  assert (Hok : calls_ok NewJobStore demo_calls).
  { unfold demo_calls. cbn [calls_ok call_ok]. split_and!; try decided. by intros. }
  destruct (sql_refines_memory SQLite sorted_rows demo_calls sorted_rows_ordered Hok) as [H _].
  rewrite H. vm_compute. reflexivity.
Defined.

(** [id] is in progress since the poll at [now], by the text of its row. *)
Definition row_held (now : gotime) (id : string) (t : JobTable) : Prop :=
  ∃ r, t !! id = Some r ∧ row_status r = JobStatusInProgress ∧ jw_updated r = rfc3339nano now.

(** A call that writes nothing into the row of [id]: no update or claim of it, and no poll
    less than a second before its own timeout has passed since [now]. *)
Definition sql_undisturbing (now : gotime) (id : string) (c : job_call) : Prop :=
  match c with
  | CAdd _ | CGet _ => True
  | CUpdate _ id' fn => id' ≠ id ∧ ∀ j, jb_id (fn j) = jb_id j
  | CClaim id' _ _ => id' ≠ id
  | CPoll now1 jobTimeout limit => writable (now1 - jobTimeout)%Z ∧ (0 ≤ limit)%Z ∧ (now1 + ns_second ≤ now + jobTimeout)%Z
  end.

(** Rows are filed under their own IDs, and stay so. *)
Definition rows_keyed (t : JobTable) : Prop := map_Forall (λ id r, jb_id (scanJob r) = id) t.

Lemma poll_keyed d order now jobTimeout limit t : (∀ u, ordered_rows u (order u)) → (0 ≤ limit)%Z → rows_keyed t →
  rows_keyed (sql_poll_tx d None order now jobTimeout limit t).2.
Proof.
  intros Hord Hl Hk. destruct (sql_poll_spec d order now jobTimeout limit t Hord Hl) as (t' & -> & _ & Ht').
  intros id r Hr. simpl in Hr. rewrite Ht' in Hr. destruct (t !! id) as [r0|] eqn:E; [|by case_decide].
  rewrite <- (Hk id r0 E). case_decide; injection Hr as <-; [done|]. unfold reset_row. by case_match.
Qed.

Lemma call_keyed d order now id c t : (∀ u, ordered_rows u (order u)) → sql_undisturbing now id c → rows_keyed t →
  rows_keyed (sql_call d order t c).2.
Proof.
  intros Hord Hc Hk. destruct c as [j|id1|now1 id1 fn|now1 T limit|id1 e now1]; cbn [sql_call sql_undisturbing] in *.
  - unfold sql_AddJob, done_of. destruct (t !! jb_id j); [done|]. by apply map_Forall_insert_2.
  - done.
  - unfold sql_UpdateJob, done_of. destruct (t !! id1) as [r|]; [|done]. apply map_Forall_insert_2; [|done]. by case_match.
  - destruct Hc as (_ & Hl & _). pose proof (poll_keyed d order now1 T limit t Hord Hl Hk) as H.
    by destruct (sql_poll_tx _ _ _ _ _ _ _) as [[ids|e] t'].
  - unfold sql_ClaimJob, answer_of. destruct (t !! id1) as [r|] eqn:E; [|done]. case_bool_decide; [|done].
    apply map_Forall_insert_2; [exact (Hk _ _ E)|done].
Qed.

Lemma sql_poll_held d order now now1 jobTimeout limit t id :
  (∀ u, ordered_rows u (order u)) → (0 ≤ limit)%Z → writable now → writable (now1 - jobTimeout)%Z → row_held now id t →
  ∃ ids t', sql_poll_tx d None order now1 jobTimeout limit t = (Ok ids, t') ∧
    ((now1 + ns_second ≤ now + jobTimeout)%Z → id ∉ ids ∧ row_held now id t') ∧
    ((now + jobTimeout + ns_second ≤ now1)%Z → (Z.of_nat (size t) ≤ limit)%Z → id ∈ ids).
Proof.
  intros Hord Hlim Hn Hcut (r & Hr & Hst & Hup).
  destruct (sql_poll_spec d order now1 jobTimeout limit t Hord Hlim) as (t' & E & _ & Ht').
  set (t1 := reset_row _ _ <$> t) in *. set (ids := take _ _) in *. exists ids, t'. split; [done|].
  set (stale := bytes_lt (rfc3339nano now) (rfc3339nano (now1 - jobTimeout))).
  assert (Hreset : reset_row (rfc3339nano now1) (rfc3339nano (now1 - jobTimeout)) r
                   = if stale then row_mark JobStatusPending (rfc3339nano now1) r else r).
  { unfold reset_row, row_stale. by rewrite Hst, Hup. }
  assert (Hpend : (id, reset_row (rfc3339nano now1) (rfc3339nano (now1 - jobTimeout)) r) ∈ keep row_pending (order t1) ↔ stale = true).
  { rewrite elem_of_keep. destruct (Hord t1) as [Hp _]. rewrite Hp, elem_of_map_to_list. unfold t1. rewrite lookup_fmap, Hr. simpl.
    unfold row_pending. simpl. rewrite Hreset. destruct stale; [done|]. rewrite Hst. split; [by intros [_ ?]|done]. }
  split.
  - intros Hle. assert (Hstale : stale = false).
    { destruct stale eqn:Es; [|done]. apply rfc3339nano_lt in Es; [lia|done|done]. }
    assert (Hnot : id ∉ ids).
    { intros (i & Hi & _)%elem_of_take. apply list_elem_of_lookup_2, list_elem_of_fmap in Hi as ([id' r'] & -> & Hin). simpl in *.
      pose proof Hin as Hin'. apply elem_of_keep in Hin' as [Hin' _]. destruct (Hord t1) as [Hp _].
      rewrite Hp, elem_of_map_to_list in Hin'. unfold t1 in Hin'. rewrite lookup_fmap, Hr in Hin'. injection Hin' as <-.
      apply Hpend in Hin. congruence. }
    split; [done|]. exists r. split; [|done]. rewrite Ht', decide_False, Hr by done. simpl. by rewrite Hreset, Hstale.
  - intros Hle Hsz. unfold ids. rewrite take_ge.
    + apply list_elem_of_fmap. eexists (id, _). split; [done|]. apply Hpend. by apply rfc3339nano_gt; [..|lia].
    + destruct (Hord t1) as [Hp _]. rewrite length_fmap. pose proof (sublist_length _ _ (keep_sublist row_pending (order t1))).
      pose proof (Permutation_length Hp) as Hlen. unfold t1 in Hlen at 2. rewrite length_map_to_list, map_size_fmap in Hlen. lia.
Qed.

Lemma row_held_run d order now id between : (∀ u, ordered_rows u (order u)) → writable now → ∀ t,
  rows_keyed t → row_held now id t → Forall (sql_undisturbing now id) between → row_held now id (sql_run d order t between).2.
Proof.
  intros Hord Hn. induction between as [|c cs IH]; intros t Hk Hh Hu; [done|]. apply Forall_cons in Hu as [Hc Hcs]. simpl.
  pose proof (call_keyed d order now id c t Hord Hc Hk) as Hk1.
  assert (Hstep : row_held now id (sql_call d order t c).2).
  { pose proof Hh as (r & Hr & Hrest). destruct c as [j|id1|now1 id1 fn|now1 T limit|id1 e now1]; cbn [sql_call sql_undisturbing] in *.
    - unfold sql_AddJob, done_of. destruct (t !! jb_id j) eqn:Ej; [done|]. exists r. split; [|done].
      simpl. rewrite lookup_insert_ne; [done|congruence].
    - done.
    - unfold sql_UpdateJob, done_of. destruct (t !! id1) as [r1|] eqn:E1; [|done]. exists r. split; [|done].
      destruct Hc as (Hne & Hfn). simpl. unfold upsert_job. change (jb_id (set_updated ?j ?n)) with (jb_id j).
      rewrite lookup_insert_ne; [done|]. rewrite Hfn, (Hk _ _ E1). done.
    - destruct Hc as (Hcut & Hl & Hle). destruct (sql_poll_held d order now now1 T limit t id) as (ids & t' & -> & H & _); try done.
      simpl. by apply H.
    - unfold sql_ClaimJob, answer_of. destruct (t !! id1); [|done]. case_bool_decide; [|done]. exists r. split; [|done].
      simpl. by rewrite lookup_insert_ne. }
  destruct (sql_call d order t c) as [a t1]. specialize (IH t1 Hk1 Hstep Hcs). by destruct (sql_run d order t1 cs).
Qed.

(** C34: the timeout of a job handed out, up to a second. After a poll at [now] let there
    be any calls that do not update or claim a job it handed out, among them polls a second
    or more short of their own timeout. A poll after them that is a second or more short of
    its timeout since [now] does not hand the job out again; one a second or more past it,
    with a limit of at least the whole table, does. In between the texts decide. *)
Theorem sql_poll_exclusive (d : Dialect) (order order1 order' : JobTable → list (string * JobRow)) (t : JobTable)
    (between : list job_call) (now now' jobTimeout jobTimeout' limit limit' : gotime) :
  (∀ u, ordered_rows u (order u)) → (∀ u, ordered_rows u (order1 u)) → (∀ u, ordered_rows u (order' u)) →
  table_wf t → writable now → writable (now' - jobTimeout')%Z → (0 ≤ limit)%Z → (0 ≤ limit')%Z →
  ∃ ids t', sql_poll_tx d None order now jobTimeout limit t = (Ok ids, t') ∧
    ∀ id, id ∈ ids → Forall (sql_undisturbing now id) between →
      let t2 := (sql_run d order1 t' between).2 in
      ∃ ids' t3, sql_poll_tx d None order' now' jobTimeout' limit' t2 = (Ok ids', t3) ∧
        ((now' + ns_second ≤ now + jobTimeout')%Z → id ∉ ids') ∧
        ((now + jobTimeout' + ns_second ≤ now')%Z → (Z.of_nat (size t2) ≤ limit')%Z → id ∈ ids').
Proof.
  intros Hord Hord1 Hord' Hwf Hn Hcut Hl Hl'.
  assert (Hk : rows_keyed t) by (intros id r Hr; by destruct (row_wf_scan _ _ (Hwf id r Hr))).
  apply (poll_keyed d order now jobTimeout limit t Hord Hl) in Hk.
  destruct (sql_poll_spec d order now jobTimeout limit t Hord Hl) as (t' & E & _ & Ht').
  set (ids := take (Z.to_nat limit) _) in *. exists ids, t'. split; [done|]. intros id Hid Hu. cbv zeta.
  rewrite E in Hk. simpl in Hk.
  assert (Hh : row_held now id t').
  { pose proof Hid as Hin. apply elem_of_take in Hin as (i & Hi & _).
    apply list_elem_of_lookup_2, list_elem_of_fmap in Hi as ([id' r] & -> & Hin). simpl in *. apply elem_of_keep in Hin as [Hin _].
    destruct (Hord (reset_row (rfc3339nano now) (rfc3339nano (now - jobTimeout)) <$> t)) as [Hp _].
    rewrite Hp, elem_of_map_to_list, lookup_fmap in Hin. destruct (t !! id') as [r0|] eqn:Et; [|done].
    exists (row_mark JobStatusInProgress (rfc3339nano now) r0). split; [|done]. by rewrite Ht', decide_True, Et by done. }
  pose proof (row_held_run d order1 now id between Hord1 Hn t' Hk Hh Hu) as Hh2.
  destruct (sql_poll_held d order' now now' jobTimeout' limit' _ id Hord' Hl' Hn Hcut Hh2) as (ids' & t3 & -> & H1 & H2).
  exists ids', t3. split; [done|]. split; [|done]. intros Hle. by apply H1.
Qed.

Definition demo_table : JobTable := {[ "a" := job_row (demo_job "a" ns_second) ]}.

Lemma sql_poll_exclusive_witness :
  ∃ ids t', sql_poll_tx Postgres None sorted_rows (10 * ns_second) (30 * ns_second) 5 demo_table = (Ok ids, t') ∧
    ∀ id, id ∈ ids → ∃ ids' t3,
      sql_poll_tx Postgres None sorted_rows (39 * ns_second) (30 * ns_second) 5
        (sql_run Postgres sorted_rows t' [CAdd (demo_job "b" ns_second); CPoll (20 * ns_second) (15 * ns_second) 1]).2 = (Ok ids', t3) ∧
      id ∉ ids'.
Proof.
  assert (Hwf : table_wf demo_table).
  { apply map_Forall_singleton. exists (demo_job "a" ns_second). split_and!; try done; decided. }
  destruct (sql_poll_exclusive Postgres sorted_rows sorted_rows sorted_rows demo_table
              [CAdd (demo_job "b" ns_second); CPoll (20 * ns_second) (15 * ns_second) 1] (10 * ns_second) (39 * ns_second)
              (30 * ns_second) (30 * ns_second) 5 5 sorted_rows_ordered sorted_rows_ordered sorted_rows_ordered Hwf)
    as (ids & t' & H1 & H2); try decided.
  exists ids, t'. split; [exact H1|]. intros id Hid. destruct (H2 id Hid) as (ids' & t3 & H3 & H4 & _).
  - apply Forall_cons. split; [done|]. apply Forall_cons. split; [|by apply Forall_nil]. split_and!; decided.
  - exists ids', t3. split; [exact H3|]. apply H4. decided.
Defined.

(** Half a second early: the job is touched at 10.5 s, and with a timeout of 30 s it
    is handed out again at 40 s, because [10.5Z] comes before [10Z]. *)
Example sql_poll_early :
  let '(r, t) := sql_poll_tx SQLite None sorted_rows 10500000000 (30 * ns_second) 5 demo_table in
  r = Ok ["a"] ∧ fst (sql_poll_tx SQLite None sorted_rows (40 * ns_second) (30 * ns_second) 5 t) = Ok ["a"].
Proof. vm_compute. done. Qed.
