(* ===== verification/SandboxStore.v ===== *)
(** pkg/sandpod/sandbox_store.go and pkg/store/sqldb/sandbox_repo.go: the sandbox
    records, in memory and in a table. As in SqlJobs, the DATETIME columns hold
    text and the JSON columns the values they encode. *)

From S2P Require Import Prelude GoStrings GoFloat GoTime EgressPolicy.

(** [type State string] *)
Inductive State :=
| StatePending | StateStarting | StateRunning | StateStopping | StateStopped | StateError
| StateTerminated | StateOther (s : string).
#[global] Instance State_eq_dec : EqDecision State.
Proof. solve_decision. Defined.

(** [type SandboxInfo struct] *)
Record SandboxInfo := mkSandbox {
  sb_id : string;
  sb_name : string;
  sb_region : string;
  sb_provider : string;
  sb_instance_type : string;
  sb_image_id : string;
  sb_state : State;
  sb_ip : string;
  sb_owner : string;
  sb_ttl : Z;
  sb_cpu : f64;
  sb_memory : Z;
  sb_poder_id : string;
  sb_poder_url : string;
  sb_container_id : string;
  sb_proxy_url : string;
  sb_api_url : string;
  sb_arch : string;
  sb_os : string;
  sb_os_version : string;
  sb_created : gotime;
  sb_activity : gotime;
  sb_labels : gmap string string;
  sb_network : option Policy;
}.

Definition set_state (st : State) (sb : SandboxInfo) : SandboxInfo :=
  mkSandbox (sb_id sb) (sb_name sb) (sb_region sb) (sb_provider sb) (sb_instance_type sb) (sb_image_id sb)
    st (sb_ip sb) (sb_owner sb) (sb_ttl sb) (sb_cpu sb) (sb_memory sb) (sb_poder_id sb)
    (sb_poder_url sb) (sb_container_id sb) (sb_proxy_url sb) (sb_api_url sb) (sb_arch sb) (sb_os sb)
    (sb_os_version sb) (sb_created sb) (sb_activity sb) (sb_labels sb) (sb_network sb).

(** ** In memory *)

Notation SandboxStore := (gmap string SandboxInfo).

(** [func (s SandboxStore) Add(sb) error] *)
Definition sb_Add (s : SandboxStore) (sb : SandboxInfo) : result SandboxStore :=
  match s !! sb_name sb with
  | Some _ => Err ("sandbox " +:+ sb_name sb +:+ " already exists")
  | None => Ok (<[sb_name sb := sb]> s)
  end.

(** [func (s SandboxStore) Get(name)] *)
Definition sb_Get (s : SandboxStore) (name : string) : option SandboxInfo := s !! name.

(** [func (s SandboxStore) Update(name, updateFn) error] *)
Definition sb_Update (s : SandboxStore) (name : string) (fn : SandboxInfo → SandboxInfo) : result SandboxStore :=
  match s !! name with
  | None => Err ("sandbox " +:+ name +:+ " not found")
  | Some sb => Ok (<[name := fn sb]> s)
  end.

(** [func (s SandboxStore) List()], in one of the orders a range over the map takes. *)
Definition sb_List (s : SandboxStore) : list SandboxInfo := snd <$> map_to_list s.

(** [func (s SandboxStore) ListByPoderID(poderID)] *)
Definition sb_ListByPoderID (s : SandboxStore) (poderID : string) : list SandboxInfo :=
  keep (λ sb, bool_decide (sb_poder_id sb = poderID)) (sb_List s).

(** [func (s SandboxStore) Delete(name) error] *)
Definition sb_Delete (s : SandboxStore) (name : string) : result SandboxStore :=
  match s !! name with
  | None => Err ("sandbox " +:+ name +:+ " not found")
  | Some _ => Ok (delete name s)
  end.

(** ** In a table *)

Record SandboxRow := mkSandboxRow {
  sw_cols : SandboxInfo;
  sw_created : string;
  sw_activity : string;
}.
Notation SandboxTable := (gmap string SandboxRow).

Definition sb_times (sb : SandboxInfo) (created activity : gotime) : SandboxInfo :=
  mkSandbox (sb_id sb) (sb_name sb) (sb_region sb) (sb_provider sb) (sb_instance_type sb) (sb_image_id sb)
    (sb_state sb) (sb_ip sb) (sb_owner sb) (sb_ttl sb) (sb_cpu sb) (sb_memory sb) (sb_poder_id sb)
    (sb_poder_url sb) (sb_container_id sb) (sb_proxy_url sb) (sb_api_url sb) (sb_arch sb) (sb_os sb)
    (sb_os_version sb) created activity (sb_labels sb) (sb_network sb).

Definition sb_reserved (sb : SandboxInfo) (cpu : f64) (memory : Z) : SandboxInfo :=
  mkSandbox (sb_id sb) (sb_name sb) (sb_region sb) (sb_provider sb) (sb_instance_type sb) (sb_image_id sb)
    (sb_state sb) (sb_ip sb) (sb_owner sb) (sb_ttl sb) cpu memory (sb_poder_id sb)
    (sb_poder_url sb) (sb_container_id sb) (sb_proxy_url sb) (sb_api_url sb) (sb_arch sb) (sb_os sb)
    (sb_os_version sb) (sb_created sb) (sb_activity sb) (sb_labels sb) (sb_network sb).

(** The values an INSERT binds. *)
Definition sandbox_row (sb : SandboxInfo) : SandboxRow :=
  mkSandboxRow (sb_times sb 0 0) (rfc3339nano (sb_created sb)) (rfc3339nano (sb_activity sb)).

(** [func scanSandbox(row)] *)
Definition scanSandbox (r : SandboxRow) : SandboxInfo :=
  sb_times (sw_cols r) (default 0%Z (parse_rfc3339nano (sw_created r)))
    (default 0%Z (parse_rfc3339nano (sw_activity r))).

Section Operations.
  (** What the engine says of this call, and its words for a duplicate key. *)
  Variables (engine : option string) (duplicate : string).

(** [func (r sandboxRepo) Add(sb) error] *)
Definition sql_sb_Add (t : SandboxTable) (sb : SandboxInfo) : result SandboxTable :=
  let failed e := Err ("store/sqlite: sandbox Add " +:+ quote (sb_name sb) +:+ ": " +:+ e) in
  match engine with
  | Some e => failed e
  | None => match t !! sb_name sb with
            | Some _ => failed duplicate
            | None => Ok (<[sb_name sb := sandbox_row sb]> t)
            end
  end.

(** [func (r sandboxRepo) Get(name)] *)
Definition sql_sb_Get (t : SandboxTable) (name : string) : option SandboxInfo :=
  match engine with Some _ => None | None => scanSandbox <$> t !! name end.

(** [func (r sandboxRepo) upsertTx(tx, sb)]: a row on record keeps [created_at],
    [cpu_cores] and [memory_mb], which the ON CONFLICT clause does not name. *)
Definition upsert_sandbox (t : SandboxTable) (sb : SandboxInfo) : SandboxTable :=
  let new := sandbox_row sb in
  <[sb_name sb := match t !! sb_name sb with
                  | Some old => mkSandboxRow (sb_reserved (sw_cols new) (sb_cpu (sw_cols old)) (sb_memory (sw_cols old)))
                                  (sw_created old) (sw_activity new)
                  | None => new
                  end]> t.

(** [func (r sandboxRepo) Update(name, fn) error] *)
Definition sql_sb_Update (t : SandboxTable) (name : string) (fn : SandboxInfo → SandboxInfo) : result SandboxTable :=
  match engine with
  | Some e => Err e
  | None => match t !! name with
            | None => Err ("sandbox " +:+ quote name +:+ " not found")
            | Some r => Ok (upsert_sandbox t (fn (scanSandbox r)))
            end
  end.

(** [func (r sandboxRepo) Delete(name) error] *)
Definition sql_sb_Delete (t : SandboxTable) (name : string) : result SandboxTable :=
  match engine with
  | Some e => Err ("store/sqlite: sandbox Delete " +:+ quote name +:+ ": " +:+ e)
  | None => match t !! name with
            | None => Err ("sandbox " +:+ quote name +:+ " not found")
            | Some _ => Ok (delete name t)
            end
  end.
End Operations.

(** [ORDER BY created_at], rows of equal text in any order. *)
Definition sandbox_order (t : SandboxTable) (order : list (string * SandboxRow)) : Prop :=
  order ≡ₚ map_to_list t ∧
  StronglySorted (λ x y, bytes_lt (sw_created y.2) (sw_created x.2) = false) order.

(** [func (r sandboxRepo) List()] and [ListByPoderID(poderID)] *)
Definition sql_sb_List (order : list (string * SandboxRow)) : list SandboxInfo := scanSandbox ∘ snd <$> order.
Definition sql_sb_ListByPoderID (order : list (string * SandboxRow)) (poderID : string) : list SandboxInfo :=
  scanSandbox ∘ snd <$> keep (λ x, bool_decide (sb_poder_id (sw_cols x.2) = poderID)) order.

(** ** Lemmas *)

Definition sandbox_writable (sb : SandboxInfo) : Prop := writable (sb_created sb) ∧ writable (sb_activity sb).

Definition srow_wf (name : string) (r : SandboxRow) : Prop :=
  ∃ sb, sb_name sb = name ∧ sandbox_writable sb ∧ r = sandbox_row sb.

Definition sandboxes_of (t : SandboxTable) : SandboxStore := scanSandbox <$> t.

Lemma scan_sandbox_row sb : sandbox_writable sb → scanSandbox (sandbox_row sb) = sb.
Proof.
  intros [Hc Hu]. unfold scanSandbox, sandbox_row. cbn [sw_cols sw_created sw_activity].
  rewrite (rfc3339nano_roundtrip _ Hc), (rfc3339nano_roundtrip _ Hu). by destruct sb.
Qed.

Lemma sandboxes_of_eq t name : sandboxes_of t !! name = scanSandbox <$> t !! name.
Proof. apply lookup_fmap. Qed.

(** What an update leaves: the reserved figures and the creation time are those on
    record. *)
Lemma upsert_scan t name sb old : t !! name = Some (sandbox_row old) → sandbox_writable old →
  sb_name sb = name → writable (sb_activity sb) →
  scanSandbox <$> upsert_sandbox t sb !! name =
    Some (sb_times (sb_reserved sb (sb_cpu old) (sb_memory old)) (sb_created old) (sb_activity sb)) ∧
  (∀ other, other ≠ name → upsert_sandbox t sb !! other = t !! other).
Proof.
  intros E [Hc _] Hname Hu. unfold upsert_sandbox. rewrite Hname, E. split.
  - rewrite lookup_insert_eq. cbn [fmap option_fmap option_map]. unfold scanSandbox, sandbox_row.
    cbn [sw_cols sw_created sw_activity]. rewrite (rfc3339nano_roundtrip _ Hc), (rfc3339nano_roundtrip _ Hu). done.
  - intros other Hne. by rewrite lookup_insert_ne.
Qed.

Lemma sandboxes_of_insert t name r : sandboxes_of (<[name := r]> t) = <[name := scanSandbox r]> (sandboxes_of t).
Proof. apply fmap_insert. Qed.

(** Adding, reading, deleting and listing by worker agree. *)
Lemma sandbox_repos_agree t sb name poderID order : sandbox_writable sb → sandbox_order t order →
  sql_sb_Get None t name = sb_Get (sandboxes_of t) name ∧
  (match sql_sb_Add None "" t sb, sb_Add (sandboxes_of t) sb with
   | Ok t', Ok s' => sandboxes_of t' = s'
   | Err _, Err _ => True
   | _, _ => False
   end) ∧
  (match sql_sb_Delete None t name, sb_Delete (sandboxes_of t) name with
   | Ok t', Ok s' => sandboxes_of t' = s'
   | Err _, Err _ => True
   | _, _ => False
   end) ∧
  sql_sb_ListByPoderID order poderID ≡ₚ sb_ListByPoderID (sandboxes_of t) poderID.
Proof.
  intros Hw [Hp _]. split_and!.
  - unfold sql_sb_Get, sb_Get. by rewrite sandboxes_of_eq.
  - unfold sql_sb_Add, sb_Add. rewrite sandboxes_of_eq. destruct (t !! sb_name sb); [exact I|].
    cbn [fmap option_fmap option_map]. by rewrite sandboxes_of_insert, scan_sandbox_row.
  - unfold sql_sb_Delete, sb_Delete. rewrite sandboxes_of_eq. destruct (t !! name); [|exact I].
    apply fmap_delete.
  - unfold sql_sb_ListByPoderID, sb_ListByPoderID, sb_List, sandboxes_of. rewrite Hp.
    rewrite map_to_list_fmap, <- list_fmap_compose.
    generalize (map_to_list t). intros l. induction l as [|[n r] l IH]; [done|]. simpl.
    destruct (bool_decide _); simpl; by rewrite IH.
Qed.

(** ** Properties *)

(** C35: what an update of a sandbox record reaches. With the same update function
    both repositories change exactly the named record, or both refuse; in memory
    the record becomes what the function says, in the database it keeps its
    creation time and the CPU and memory it was first created with, so the two
    agree exactly when the function leaves those three alone. *)
Theorem sandbox_update_reach (t : SandboxTable) (name : string) (fn : SandboxInfo → SandboxInfo) :
  map_Forall srow_wf t →
  (∀ sb, sb_name (fn sb) = sb_name sb) →
  (∀ sb, writable (sb_activity sb) → writable (sb_activity (fn sb))) →
  match sql_sb_Update None t name fn, sb_Update (sandboxes_of t) name fn with
  | Ok t', Ok s' =>
      (∀ other, other ≠ name → sandboxes_of t' !! other = s' !! other) ∧
      ∃ old, sandboxes_of t !! name = Some old ∧ s' !! name = Some (fn old) ∧
        sandboxes_of t' !! name =
          Some (sb_times (sb_reserved (fn old) (sb_cpu old) (sb_memory old)) (sb_created old) (sb_activity (fn old))) ∧
        (sandboxes_of t' = s' ↔
         sb_cpu (fn old) = sb_cpu old ∧ sb_memory (fn old) = sb_memory old ∧ sb_created (fn old) = sb_created old)
  | Err _, Err _ => True
  | _, _ => False
  end.
Proof.
  intros Hwf Hname Hact. unfold sql_sb_Update, sb_Update. rewrite sandboxes_of_eq.
  destruct (t !! name) as [r|] eqn:E; [|exact I]. cbn [fmap option_fmap option_map].
  apply Hwf in E as Hr. destruct Hr as (old & Hn & Hw & ->). rewrite scan_sandbox_row by done.
  destruct (upsert_scan t name (fn old) old E Hw) as [Hup Hother]; [by rewrite Hname|apply Hact, Hw|].
  assert (Ho : ∀ other, other ≠ name →
    sandboxes_of (upsert_sandbox t (fn old)) !! other = (<[name := fn old]> (sandboxes_of t)) !! other).
  { intros other Hne. by rewrite lookup_insert_ne, !sandboxes_of_eq, Hother. }
  split; [done|]. exists old. rewrite sandboxes_of_eq, Hup, lookup_insert_eq.
  do 3 (split; [done|]). split.
  - intros Heq. apply (f_equal (lookup name)) in Heq. rewrite sandboxes_of_eq, Hup, lookup_insert_eq in Heq.
    injection Heq as Heq. by rewrite <- Heq.
  - intros (Hc & Hm & Ht). apply map_eq. intros other. destruct (decide (other = name)) as [->|Hne]; [|by apply Ho].
    rewrite sandboxes_of_eq, Hup, lookup_insert_eq. rewrite <- Hc, <- Hm, <- Ht. by destruct (fn old).
Qed.

Definition demo_sandbox (name : string) (cpu : Z) : SandboxInfo :=
  mkSandbox name name "eu" "docker" "" "" StatePending "" "alice" 0 (f_of_int cpu) 512 "p" "" "" "tunnel://p" ""
    "amd64" "linux" "" ns_second ns_second ∅ None.

(** Recreated with four CPUs, the record in the database still says two. *)
Lemma sandbox_update_reach_witness :
  let t : SandboxTable := {[ "sb" := sandbox_row (demo_sandbox "sb" 2) ]} in
  let fn sb := sb_reserved sb (f_of_int 4) 1024 in
  match sql_sb_Update None t "sb" fn with
  | Ok t' => sandboxes_of t' !! "sb" = Some (demo_sandbox "sb" 2)
  | Err _ => False
  end.
Proof.
  intros t fn.
  assert (Hwf : map_Forall srow_wf t).
  { apply map_Forall_singleton. exists (demo_sandbox "sb" 2).
    split; [reflexivity|]. split; [|reflexivity]. split; apply (bool_decide_unpack _); vm_compute; exact I. }
  pose proof (sandbox_update_reach t "sb" fn Hwf (λ _, eq_refl) (λ _ H, H)) as H.
  assert (E : sandboxes_of t !! "sb" = Some (demo_sandbox "sb" 2)) by (vm_compute; reflexivity).
  destruct (sql_sb_Update None t "sb" fn) as [t'|e] eqn:Et; [|exfalso; vm_compute in Et; discriminate Et].
  destruct (sb_Update (sandboxes_of t) "sb" fn) as [s'|e] eqn:Es; [|exfalso; exact H].
  destruct H as (_ & old & Hold & _ & Hnew & _). rewrite E in Hold. injection Hold as <-.
  rewrite Hnew. reflexivity.
Defined.
