(* ===== verification/Leases.v ===== *)
(** pkg/sandpod/provision_lock.go, tombstones.go and the VM tenants of
    scheduler.go: three maps whose entries stop counting after a while. *)

From S2P Require Import Prelude GoStrings.

(** ** Provisioning claims *)

Definition provisioningTTL : Z := 8 * ns_minute.

(** [type provisionBook struct] *)
Notation provisionBook := (gmap string gotime).

(** [func (b provisionBook) reserve(key string) bool] *)
Definition reserve (now : gotime) (b : provisionBook) (key : string) : bool * provisionBook :=
  match b !! key with
  | Some at_ => if bool_decide (now - at_ < provisioningTTL)%Z then (false, b) else (true, <[key := now]> b)
  | None => (true, <[key := now]> b)
  end.

(** [func (b provisionBook) release(key string)] *)
Definition release (b : provisionBook) (key : string) : provisionBook := delete key b.

(** [func (b provisionBook) inFlight(key string) bool] *)
Definition inFlight (now : gotime) (b : provisionBook) (key : string) : bool :=
  match b !! key with
  | Some at_ => bool_decide (now - at_ < provisioningTTL)%Z
  | None => false
  end.

(** [func provisioningKey(providerType, region string) string] *)
Definition provisioningKey (providerType region : string) : string := providerType +:+ "|" +:+ region.

(** ** Tombstones *)

(** [type Tombstones struct] *)
Record Tombstones := mkTombs { tb_m : gmap string gotime; tb_ttl : Z }.

(** [func (t Tombstones) Add(id string)]; [later] is the clock of the pruning. *)
Definition TombAdd (now later : gotime) (t : Tombstones) (id : string) : Tombstones :=
  mkTombs (map_filter (λ ke : string * gotime, after later (snd ke) = false) _
             (<[id := (now + tb_ttl t)%Z]> (tb_m t))) (tb_ttl t).

(** [func (t Tombstones) Contains(id string) bool] *)
Definition TombContains (now : gotime) (t : Tombstones) (id : string) : bool * Tombstones :=
  match tb_m t !! id with
  | None => (false, t)
  | Some exp =>
      if after now exp then (false, mkTombs (delete id (tb_m t)) (tb_ttl t)) else (true, t)
  end.

(** ** The tenant of a machine that is still starting *)

Definition vmTenantTTL : Z := 30 * ns_minute.

(** [type vmTenantEntry struct] *)
Record vmTenantEntry := mkTenant { vt_tenant : string; vt_at : gotime }.

(** [func RecordVMTenant(vmID, tenant string)] *)
Definition RecordVMTenant (now : gotime) (m : gmap string vmTenantEntry) (vmID tenant : string)
    : gmap string vmTenantEntry :=
  if bool_decide (vmID = "") || bool_decide (tenant = "") then m
  else <[vmID := mkTenant tenant now]> m.

(** [func VMTenant(vmID string) (string, bool)]: a use refreshes the record. *)
Definition VMTenant (now : gotime) (m : gmap string vmTenantEntry) (vmID : string)
    : option string * gmap string vmTenantEntry :=
  match m !! vmID with
  | None => (None, m)
  | Some e =>
      if bool_decide (vmTenantTTL < now - vt_at e)%Z then (None, m)
      else (Some (vt_tenant e), <[vmID := mkTenant (vt_tenant e) now]> m)
  end.

(** ** Runs *)

Inductive book_op := BReserve (now : gotime) (key : string) | BRelease (key : string).

Definition book_step (b : provisionBook) (o : book_op) : provisionBook :=
  match o with
  | BReserve now key => snd (reserve now b key)
  | BRelease key => release b key
  end.

Definition run_book (b : provisionBook) (os : list book_op) : provisionBook := fold_left book_step os b.

Inductive tenant_op := TRecord (now : gotime) (vmID tenant : string) | TLookup (now : gotime) (vmID : string).

Definition tenant_step (m : gmap string vmTenantEntry) (o : tenant_op) : gmap string vmTenantEntry :=
  match o with
  | TRecord now vmID tenant => RecordVMTenant now m vmID tenant
  | TLookup now vmID => snd (VMTenant now m vmID)
  end.

(** A claim stands while nobody releases it and every later attempt comes
    within its lifetime. *)
Lemma claim_stands t key os : ∀ b,
  b !! key = Some t →
  (∀ o, o ∈ os → o ≠ BRelease key) →
  (∀ now, BReserve now key ∈ os → (now - t < provisioningTTL)%Z) →
  run_book b os !! key = Some t.
Proof.
  induction os as [|o os IH]; intros b Hb Hrel Htime; [done|].
  change (run_book b (o :: os)) with (run_book (book_step b o) os).
  apply IH; [|intros o' Ho'; apply Hrel; by right|intros n Hn; apply Htime; by right].
  destruct o as [now k|k]; simpl.
  - unfold reserve. destruct (decide (k = key)) as [->|Hk].
    + rewrite Hb, bool_decide_eq_true_2; [done|]. apply Htime. by left.
    + destruct (b !! k); [case_bool_decide; [done|]|]; simpl; by rewrite lookup_insert_ne.
  - unfold release. rewrite lookup_delete_ne; [done|]. intros ->. by apply (Hrel (BRelease key)); [left|].
Qed.

(** ** Properties *)

(** one machine at a time. Once a claim on a provider and region is granted
    at [t], whatever else is claimed or released, every further claim on it made
    less than eight minutes after [t] and before a release is refused, and the
    claim shows as in flight; after a release, or eight minutes, the next claim
    is granted. Claims on different keys do not interfere. *)
Theorem reserve_exclusive (b b1 : provisionBook) (t now : gotime) (key : string) (os : list book_op) :
  reserve t b key = (true, b1) →
  (∀ o, o ∈ os → o ≠ BRelease key) →
  (∀ n, BReserve n key ∈ os → (n - t < provisioningTTL)%Z) →
  let b2 := run_book b1 os in
  ((now - t < provisioningTTL)%Z → fst (reserve now b2 key) = false ∧ inFlight now b2 key = true) ∧
  ((provisioningTTL ≤ now - t)%Z → fst (reserve now b2 key) = true ∧ inFlight now b2 key = false) ∧
  fst (reserve now (release b2 key) key) = true ∧
  (∀ key', key' ≠ key → fst (reserve now b1 key') = fst (reserve now b key')).
Proof.
  intros Hres Hrel Htime b2.
  assert (Hb1 : b1 = <[key := t]> b).
  { unfold reserve in Hres. destruct (b !! key); [case_bool_decide; [done|]|]; by injection Hres. }
  assert (H : b2 !! key = Some t).
  { apply claim_stands; [by rewrite Hb1, lookup_insert_eq|done|done]. }
  unfold inFlight, reserve. rewrite H. split_and!.
  - intros Ht. by rewrite bool_decide_eq_true_2.
  - intros Ht. by rewrite bool_decide_eq_false_2 by lia.
  - unfold release. by rewrite lookup_delete_eq.
  - intros key' Hne. rewrite Hb1, lookup_insert_ne by done.
    destruct (b !! key'); [by case_bool_decide|done].
Qed.

(** A deleted worker stays deleted for the grace window, then is forgotten. *)
Lemma tombstone_window now later now' t id :
  (later ≤ now + tb_ttl t)%Z →
  fst (TombContains now' (TombAdd now later t id) id) = negb (after now' (now + tb_ttl t)).
Proof.
  intros Hl. unfold TombContains, TombAdd. simpl.
  assert (E : map_filter (λ ke : string * gotime, after later ke.2 = false) _
                (<[id:=(now + tb_ttl t)%Z]> (tb_m t)) !! id = Some (now + tb_ttl t)%Z).
  { apply map_lookup_filter_Some. rewrite lookup_insert_eq. split; [done|]. simpl.
    unfold after. by rewrite bool_decide_eq_false_2 by lia. }
  rewrite E. by destruct (after now' _).
Qed.

(** A machine's tenant is the one that was recorded for it, and asking often
    enough keeps it. *)
Lemma tenant_kept now now' m vmID tenant :
  vmID ≠ "" → tenant ≠ "" → (now' - now ≤ vmTenantTTL)%Z →
  fst (VMTenant now' (RecordVMTenant now m vmID tenant) vmID) = Some tenant ∧
  snd (VMTenant now' (RecordVMTenant now m vmID tenant) vmID) !! vmID = Some (mkTenant tenant now').
Proof.
  intros Hv Ht Hn. unfold VMTenant, RecordVMTenant.
  rewrite !bool_decide_eq_false_2 by done. simpl. rewrite lookup_insert_eq. simpl.
  rewrite bool_decide_eq_false_2 by lia. simpl. by rewrite lookup_insert_eq.
Qed.
