(* ===== verification/TokenStore.v ===== *)
(** The API tokens and the owners of tunnels: pkg/sandpod/apitoken.go and
    tunnelowner.go, in memory (pkg/store/memory.go) and in tables
    (pkg/store/sqldb/token_repo.go and tunnelowner_repo.go). Times in tables are
    text, as in SqlJobs. *)

From S2P Require Import Prelude GoStrings GoTime.

(** ** Tokens in memory *)

(** [type APIToken struct] *)
Record APIToken := mkToken {
  tk_name : string;
  tk_prefix : string;
  tk_hash : string;
  tk_role : string;
  tk_created : gotime;
}.
#[global] Instance APIToken_eq_dec : EqDecision APIToken.
Proof. solve_decision. Defined.

(** [type MemTokenRepo struct]: tokens by hash. *)
Notation TokenRepo := (gmap string APIToken).

(** [func (r MemTokenRepo) Create(t) error] *)
Definition tok_Create (s : TokenRepo) (t : APIToken) : result TokenRepo :=
  match s !! tk_hash t with
  | Some _ => Err "store: api token already exists"
  | None => Ok (<[tk_hash t := t]> s)
  end.

(** [func (r MemTokenRepo) List()], over the order Go ranges in. *)
Definition tok_List (order : list (string * APIToken)) : list APIToken := snd <$> order.

(** [func (r MemTokenRepo) FindByHash(hash)] *)
Definition tok_FindByHash (s : TokenRepo) (hash : string) : option APIToken := s !! hash.

(** [func (r MemTokenRepo) DeleteByPrefix(prefix)]: deletion while ranging. *)
Fixpoint delete_prefix (prefix : string) (order : list (string * APIToken)) (s : TokenRepo) : list string * TokenRepo :=
  match order with
  | [] => ([], s)
  | (h, t) :: order =>
      if bool_decide (tk_prefix t = prefix)
      then let '(removed, s) := delete_prefix prefix order (delete h s) in (h :: removed, s)
      else delete_prefix prefix order s
  end.

Definition tok_DeleteByPrefix (order : list (string * APIToken)) (s : TokenRepo) (prefix : string) : list string * TokenRepo :=
  delete_prefix prefix order s.

(** ** Tokens in a table *)

Record TokenRow := mkTokenRow { tw_name : string; tw_prefix : string; tw_role : string; tw_created : string }.
Notation TokenTable := (gmap string TokenRow).

Definition token_row (t : APIToken) : TokenRow :=
  mkTokenRow (tk_name t) (tk_prefix t) (tk_role t) (rfc3339nano (tk_created t)).
Definition scan_token (hash : string) (r : TokenRow) : APIToken :=
  mkToken (tw_name r) (tw_prefix r) hash (tw_role r) (default 0%Z (parse_rfc3339nano (tw_created r))).

(** [ORDER BY created_at], by the text of the column. *)
Definition created_first (x y : string * TokenRow) : Prop := bytes_lt (tw_created y.2) (tw_created x.2) = false.
#[local] Instance created_first_dec : RelDecision created_first.
Proof. intros x y. unfold created_first. apply _. Defined.
#[local] Instance created_first_total : Total created_first.
Proof.
  intros x y. unfold created_first. destruct (bytes_lt (tw_created y.2) (tw_created x.2)) eqn:E; [|by left].
  right. by apply bytes_lt_asym.
Qed.
#[local] Instance created_first_trans : Transitive created_first.
Proof. intros x y z. unfold created_first. apply bytes_le_trans. Qed.

Section Tables.
  (** What the engine says of this call, and its words for a duplicate key. *)
  Variables (engine : option string) (duplicate : string).

(** [func (r tokenRepo) Create(t) error] *)
Definition sql_tok_Create (tb : TokenTable) (t : APIToken) : result TokenTable :=
  let failed e := Err ("store/sqlite: api token Create " +:+ quote (tk_prefix t) +:+ ": " +:+ e) in
  match engine with
  | Some e => failed e
  | None => match tb !! tk_hash t with
            | Some _ => failed duplicate
            | None => Ok (<[tk_hash t := token_row t]> tb)
            end
  end.

(** [func (r tokenRepo) List()]; [order] is the order the engine finds the rows in. *)
Definition sql_tok_List (order : list (string * TokenRow)) : result (list APIToken) :=
  match engine with
  | Some e => Err ("store/sqlite: api token List: " +:+ e)
  | None => Ok ((λ hr, scan_token hr.1 hr.2) <$> merge_sort created_first order)
  end.

(** [func (r tokenRepo) FindByHash(hash)] *)
Definition sql_tok_FindByHash (tb : TokenTable) (hash : string) : option APIToken :=
  match engine with Some _ => None | None => scan_token hash <$> tb !! hash end.

(** [func (r tokenRepo) DeleteByPrefix(prefix)]: the hashes first, then one DELETE. *)
Definition sql_tok_DeleteByPrefix (order : list (string * TokenRow)) (tb : TokenTable) (prefix : string)
    : result (list string * TokenTable) :=
  match engine with
  | Some e => Err e
  | None =>
      let removed := fst <$> keep (λ hr, bool_decide (tw_prefix hr.2 = prefix)) order in
      if bool_decide (removed = []) then Ok ([], tb)
      else Ok (removed, filter (λ hr, tw_prefix hr.2 ≠ prefix) tb)
  end.
End Tables.

(** ** Owners of tunnels *)

(** [type MemTunnelOwnerRepo struct]: node URLs by tunnel key. *)
Notation OwnerRepo := (gmap string string).

Definition mem_Claim (m : OwnerRepo) (key nodeURL : string) : OwnerRepo := <[key := nodeURL]> m.
Definition mem_Release (m : OwnerRepo) (key nodeURL : string) : OwnerRepo :=
  if bool_decide (default "" (m !! key) = nodeURL) then delete key m else m.
Definition mem_NodeFor (m : OwnerRepo) (key : string) : option string := m !! key.

Definition ownerTTL : Z := 90 * ns_second.

(** The table [tunnel_owners]: the node and the text of [updated_at]. *)
Notation OwnerTable := (gmap string (string * string)).

Definition owner_error (what key e : string) : string := "store/sqldb: tunnel " +:+ what +:+ " " +:+ quote key +:+ ": " +:+ e.

(** [func (r tunnelOwnerRepo) Claim(key, nodeURL) error] *)
Definition sql_Claim (engine : option string) (now : gotime) (tb : OwnerTable) (key nodeURL : string) : result OwnerTable :=
  match engine with
  | Some e => Err (owner_error "Claim" key e)
  | None => Ok (<[key := (nodeURL, rfc3339nano now)]> tb)
  end.

(** [func (r tunnelOwnerRepo) Release(key, nodeURL) error] *)
Definition sql_Release (engine : option string) (tb : OwnerTable) (key nodeURL : string) : result OwnerTable :=
  match engine with
  | Some e => Err (owner_error "Release" key e)
  | None => Ok (match tb !! key with
                | Some (n, _) => if bool_decide (n = nodeURL) then delete key tb else tb
                | None => tb
                end)
  end.

(** [func (r tunnelOwnerRepo) NodeFor(key)] *)
Definition sql_NodeFor (engine : option string) (now : gotime) (tb : OwnerTable) (key : string) : option string :=
  match engine with
  | Some _ => None
  | None => match tb !! key with
            | Some (n, at_) => if bytes_lt (rfc3339nano (now - ownerTTL)) at_ then Some n else None
            | None => None
            end
  end.

(** ** The two token repositories agree *)

Definition tokens_of (tb : TokenTable) : TokenRepo := map_imap (λ h r, Some (scan_token h r)) tb.

Lemma tokens_of_lookup tb h : tokens_of tb !! h = scan_token h <$> tb !! h.
Proof. unfold tokens_of. rewrite map_lookup_imap. by destruct (tb !! h). Qed.

Lemma scan_token_row t : writable (tk_created t) → scan_token (tk_hash t) (token_row t) = t.
Proof. intros H. unfold scan_token, token_row. simpl. rewrite rfc3339nano_roundtrip by done. by destruct t. Qed.

Lemma delete_prefix_spec prefix order : ∀ s,
  (delete_prefix prefix order s).1 = fst <$> keep (λ ht, bool_decide (tk_prefix ht.2 = prefix)) order ∧
  ∀ h, (delete_prefix prefix order s).2 !! h
    = if decide (h ∈ (fst <$> keep (λ ht, bool_decide (tk_prefix ht.2 = prefix)) order)) then None else s !! h.
Proof.
  induction order as [|[h t] order IH]; intros s; simpl.
  - split; [done|]. done.
  - case_bool_decide as E; [|apply IH]. simpl.
    destruct (delete_prefix prefix order (delete h s)) as [removed s'] eqn:Ed.
    destruct (IH (delete h s)) as (IH1 & IH2). rewrite Ed in IH1, IH2. simpl in *. subst removed.
    split; [done|]. intros h'. rewrite IH2. destruct (decide (h' = h)) as [->|Hne].
    + rewrite lookup_delete_eq. repeat case_decide; set_solver.
    + rewrite lookup_delete_ne by done. repeat case_decide; set_solver.
Qed.

Lemma delete_prefix_lookup prefix order s h : order ≡ₚ map_to_list s →
  (delete_prefix prefix order s).2 !! h
  = match s !! h with Some t => if bool_decide (tk_prefix t = prefix) then None else Some t | None => None end.
Proof.
  intros HP. rewrite (proj2 (delete_prefix_spec prefix order s)).
  assert (E : h ∈ (fst <$> keep (λ ht, bool_decide (tk_prefix ht.2 = prefix)) order)
              ↔ ∃ t, s !! h = Some t ∧ tk_prefix t = prefix).
  { rewrite HP, list_elem_of_fmap. split.
    - intros ([h' t] & -> & (Hin%elem_of_map_to_list & Hp)%elem_of_keep). simpl_bool. by exists t.
    - intros (t & Ht & Hp). exists (h, t). split; [done|]. apply elem_of_keep.
      split; [by apply elem_of_map_to_list|by apply bool_decide_eq_true]. }
  destruct (decide _) as [Hd|Hd].
  - apply E in Hd as (t & -> & Hp). by rewrite bool_decide_eq_true_2.
  - destruct (s !! h) as [t|] eqn:Ht; [|done]. rewrite bool_decide_eq_false_2; [done|].
    intros Hp. apply Hd, E. by exists t.
Qed.

(** A row as [Create] writes it. *)
Definition token_row_wf (h : string) (r : TokenRow) : Prop := ∃ t, tk_hash t = h ∧ writable (tk_created t) ∧ r = token_row t.

(** Rows in the order of their texts are in the order of their times, up to a second. *)
Lemma listed_sorted (tb : TokenTable) order : map_Forall token_row_wf tb → order ≡ₚ map_to_list tb →
  StronglySorted (λ x y, tk_created x < tk_created y + ns_second)%Z
    ((λ hr, scan_token hr.1 hr.2) <$> merge_sort created_first order).
Proof.
  intros Hwf HP.
  assert (Hin : ∀ x, x ∈ merge_sort created_first order → token_row_wf x.1 x.2).
  { intros [h r]. rewrite merge_sort_Permutation, HP. intros Hr%elem_of_map_to_list. by apply Hwf. }
  assert (Hs : StronglySorted created_first (merge_sort created_first order)) by (apply StronglySorted_merge_sort; apply _).
  induction Hs as [|x l Hs IH Hall]; simpl; constructor; [apply IH; intros; apply Hin; by right|].
  rewrite Forall_forall in Hall. apply Forall_fmap, Forall_forall. intros y Hy.
  destruct (Hin x (list_elem_of_here _ _)) as (t & E1 & Ht & Ex). destruct (Hin y (list_elem_of_further _ _ _ Hy)) as (u & E2 & Hu & Ey).
  assert (Et : scan_token x.1 x.2 = t) by (rewrite Ex, <- E1; by apply scan_token_row).
  assert (Eu : scan_token y.1 y.2 = u) by (rewrite Ey, <- E2; by apply scan_token_row).
  specialize (Hall y Hy). unfold created_first in Hall. cbn beta. unfold compose. rewrite Et, Eu.
  rewrite Ex, Ey in Hall. simpl in Hall. destruct (Z.le_gt_cases (tk_created u + ns_second) (tk_created t)) as [Hle|]; [|lia].
  by rewrite rfc3339nano_gt in Hall.
Qed.

Lemma tokens_listed (tb : TokenTable) :
  map_to_list (tokens_of tb) ≡ₚ (λ hr, (hr.1, scan_token hr.1 hr.2)) <$> map_to_list tb.
Proof.
  apply NoDup_Permutation.
  - apply NoDup_map_to_list.
  - apply (NoDup_fmap_1 fst). rewrite <- list_fmap_compose. apply NoDup_fst_map_to_list.
  - intros [h tk]. rewrite elem_of_map_to_list, tokens_of_lookup, list_elem_of_fmap. split.
    + destruct (tb !! h) as [r|] eqn:Hr; intros [= <-]. exists (h, r). by rewrite elem_of_map_to_list.
    + intros ([h' r] & [= -> ->] & Hr%elem_of_map_to_list). by rewrite Hr.
Qed.

(** C29: Whatever order rows and map entries come in, the table and the map give the
    same answers and hold the same tokens afterwards. The listing of the table is in order
    of creation, up to the second that comparing times as text costs; the listing of the
    map has the same tokens in any order. *)
Theorem token_repos_agree (duplicate : string) (tb : TokenTable) (order : list (string * TokenRow))
    (order' : list (string * APIToken)) (t : APIToken) (hash prefix : string) :
  writable (tk_created t) → map_Forall token_row_wf tb → order ≡ₚ map_to_list tb → order' ≡ₚ map_to_list (tokens_of tb) →
  (match sql_tok_Create None duplicate tb t, tok_Create (tokens_of tb) t with
   | Ok tb', Ok s' => tokens_of tb' = s' ∧ map_Forall token_row_wf tb'
   | Err _, Err _ => True
   | _, _ => False
   end) ∧
  sql_tok_FindByHash None tb hash = tok_FindByHash (tokens_of tb) hash ∧
  (∃ l, sql_tok_List None order = Ok l ∧ l ≡ₚ tok_List order' ∧ StronglySorted (λ x y, tk_created x < tk_created y + ns_second)%Z l) ∧
  ∃ removed tb', sql_tok_DeleteByPrefix None order tb prefix = Ok (removed, tb') ∧
    let '(removed', s') := tok_DeleteByPrefix order' (tokens_of tb) prefix in
    removed ≡ₚ removed' ∧ tokens_of tb' = s' ∧
    ∀ h, h ∈ removed ↔ ∃ tk, tokens_of tb !! h = Some tk ∧ tk_prefix tk = prefix.
Proof.
  intros Ht Hwf HP HP'.
  assert (HP2 : order' ≡ₚ (λ hr, (hr.1, scan_token hr.1 hr.2)) <$> order) by (rewrite HP', HP; apply tokens_listed).
  split; [|split; [|split]].
  - unfold sql_tok_Create, tok_Create. rewrite tokens_of_lookup.
    destruct (tb !! tk_hash t) eqn:E; simpl; [done|].
    split; [|by apply map_Forall_insert_2; [exists t|]]. apply map_eq. intros h. rewrite tokens_of_lookup. destruct (decide (h = tk_hash t)) as [->|Hne].
    + rewrite !lookup_insert_eq. simpl. by rewrite scan_token_row.
    + rewrite !lookup_insert_ne by done. by rewrite tokens_of_lookup.
  - unfold sql_tok_FindByHash, tok_FindByHash. by rewrite tokens_of_lookup.
  - eexists. split; [reflexivity|]. split; [|by apply (listed_sorted tb)].
    unfold tok_List. rewrite HP2, <- list_fmap_compose, merge_sort_Permutation. done.
  - set (R := fst <$> keep (λ hr : string * TokenRow, bool_decide (tw_prefix hr.2 = prefix)) order).
    assert (HR : ∀ h, h ∈ R ↔ ∃ tk, tokens_of tb !! h = Some tk ∧ tk_prefix tk = prefix).
    { intros h. unfold R. rewrite HP, list_elem_of_fmap. setoid_rewrite tokens_of_lookup. split.
      - intros ([h' r] & -> & (Hr%elem_of_map_to_list & Hp)%elem_of_keep). simpl_bool. simpl in *.
        rewrite Hr. by eexists.
      - intros (tk & Htk & Hp). destruct (tb !! h) as [r|] eqn:Hr; simplify_eq/=. exists (h, r).
        rewrite elem_of_keep, elem_of_map_to_list. split_and!; [done|done|]. by apply bool_decide_eq_true. }
    assert (HD : ∃ tb', sql_tok_DeleteByPrefix None order tb prefix = Ok (R, tb') ∧
                        tb' = filter (λ hr, tw_prefix hr.2 ≠ prefix) tb).
    { unfold sql_tok_DeleteByPrefix. fold R. case_bool_decide as E; [|by eexists]. rewrite E. eexists.
      split; [done|]. symmetry. apply map_filter_id. intros h r Hr Hp.
      assert (h ∈ R) as Hh by (apply HR; exists (scan_token h r); by rewrite tokens_of_lookup, Hr).
      rewrite E in Hh. set_solver. }
    destruct HD as (tb' & HD & ->). exists R, (filter (λ hr, tw_prefix hr.2 ≠ prefix) tb). split; [done|].
    unfold tok_DeleteByPrefix. destruct (delete_prefix prefix order' (tokens_of tb)) as [removed' s'] eqn:Ed.
    split_and!; [| |done].
    + pose proof (proj1 (delete_prefix_spec prefix order' (tokens_of tb))) as E. rewrite Ed in E. simpl in E.
      subst removed'. rewrite HP2. unfold R. apply Permutation_refl'. clear. induction order as [|[h r] l IH]; simpl; [done|].
      case_bool_decide; simpl; by rewrite IH.
    + apply map_eq. intros h. pose proof (delete_prefix_lookup prefix order' _ h HP') as E. rewrite Ed in E. simpl in E.
      rewrite E, !tokens_of_lookup, map_lookup_filter. destruct (tb !! h) as [r|]; simpl; [|done].
      case_bool_decide as Hp; [rewrite option_guard_False by naive_solver|rewrite option_guard_True by naive_solver]; done.
Qed.

(** ** Who is trusted to hold a tunnel *)

Inductive owner_op :=
| OClaim (engine : option string) (now : gotime) (key node : string)
| ORelease (engine : option string) (key node : string).

Definition settled {A} (r : result A) (old : A) : A := match r with Ok a => a | Err _ => old end.

Definition owner_step (tb : OwnerTable) (o : owner_op) : OwnerTable :=
  match o with
  | OClaim engine now key node => settled (sql_Claim engine now tb key node) tb
  | ORelease engine key node => settled (sql_Release engine tb key node) tb
  end.
Definition run_owners (ops : list owner_op) : OwnerTable := fold_left owner_step ops ∅.

(** Nobody claims [key] and [node] does not release it. *)
Definition leaves_claim (key node : string) (o : owner_op) : Prop :=
  match o with
  | OClaim None _ key' _ => key' ≠ key
  | ORelease None key' node' => ¬ (key' = key ∧ node' = node)
  | _ => True
  end.

Definition op_writable (o : owner_op) : Prop :=
  match o with OClaim _ now _ _ => writable now | ORelease _ _ _ => True end.

Lemma claim_kept key node txt o tb : leaves_claim key node o → tb !! key = Some (node, txt) →
  owner_step tb o !! key = Some (node, txt).
Proof.
  intros Ho Htb. destruct o as [[e|] now key' node'|[e|] key' node']; simpl in *; try done.
  - by rewrite lookup_insert_ne.
  - destruct (tb !! key') as [[n t]|] eqn:E; simpl; [|done]. case_bool_decide as En; [|done]. subst n.
    destruct (decide (key' = key)) as [->|Hk]; [|by rewrite lookup_delete_ne].
    exfalso. apply Ho. split; congruence.
Qed.

Lemma claims_kept key node txt ops : ∀ tb, Forall (leaves_claim key node) ops → tb !! key = Some (node, txt) →
  fold_left owner_step ops tb !! key = Some (node, txt).
Proof.
  induction ops as [|o ops IH]; intros tb Hf Htb; simpl; [done|].
  apply Forall_cons in Hf as (Ho & Hf). apply IH; [done|]. by apply claim_kept.
Qed.

Lemma claimed_by key ops : ∀ node txt, run_owners ops !! key = Some (node, txt) →
  ∃ pre t post, ops = pre ++ OClaim None t key node :: post ∧ Forall (leaves_claim key node) post ∧ txt = rfc3339nano t.
Proof.
  unfold run_owners. induction ops as [|o ops IH] using rev_ind; intros node txt; [done|].
  rewrite fold_left_app. simpl. set (tb := fold_left owner_step ops ∅) in *. intros H.
  assert (Hold : tb !! key = Some (node, txt) → leaves_claim key node o →
    ∃ pre t post, ops ++ [o] = pre ++ OClaim None t key node :: post ∧ Forall (leaves_claim key node) post ∧ txt = rfc3339nano t).
  { intros (pre & t & post & -> & Hp & Ht)%IH Ho. exists pre, t, (post ++ [o]).
    rewrite <- app_assoc. split; [done|]. split; [|done]. by rewrite Forall_app, Forall_singleton. }
  destruct o as [[e|] now key' node'|[e|] key' node']; simpl in H; try (by apply Hold).
  - destruct (decide (key' = key)) as [->|Hk].
    + rewrite lookup_insert_eq in H. injection H as -> <-. exists ops, now, []. by rewrite Forall_nil.
    + rewrite lookup_insert_ne in H by done. by apply Hold.
  - destruct (tb !! key') as [[n t]|] eqn:E; simpl in H.
    + case_bool_decide as En; [subst n|].
      * apply lookup_delete_Some in H as (Hk & H). apply Hold; [done|]. simpl. by intros (-> & _).
      * apply Hold; [done|]. simpl. intros (-> & ->). congruence.
    + apply Hold; [done|]. simpl. intros (-> & ->). congruence.
Qed.

(** C20: The node a tunnel is looked for at. After any calls of any instances, whoever
    is named claimed the tunnel less than 91 seconds ago, and since then nobody
    else claimed it and that node did not release it; and a claim stays good for
    89 seconds, whatever the other nodes release in the meantime. The second of
    play on either side is what comparing times as text costs. *)
Theorem owner_trusted (ops : list owner_op) (key node : string) (now : gotime) :
  Forall op_writable ops → writable (now - ownerTTL)%Z →
  (sql_NodeFor None now (run_owners ops) key = Some node →
     ∃ pre t post, ops = pre ++ OClaim None t key node :: post ∧ Forall (leaves_claim key node) post ∧
       (now < t + ownerTTL + ns_second)%Z) ∧
  (∀ pre t post, ops = pre ++ OClaim None t key node :: post → Forall (leaves_claim key node) post →
     (now + ns_second ≤ t + ownerTTL)%Z → sql_NodeFor None now (run_owners ops) key = Some node).
Proof.
  intros Hw Hnow. unfold sql_NodeFor. split.
  - destruct (run_owners ops !! key) as [[n txt]|] eqn:E; [|done].
    destruct (bytes_lt _ txt) eqn:Hlt; [|done]. intros [= ->].
    apply claimed_by in E as (pre & t & post & -> & Hp & ->). exists pre, t, post. split; [done|]. split; [done|].
    apply Forall_app in Hw as (_ & (Ht & _)%Forall_cons). apply rfc3339nano_lt in Hlt; [lia|done|done].
  - intros pre t post -> Hp Hle. unfold run_owners. rewrite fold_left_app. simpl.
    rewrite (claims_kept key node (rfc3339nano t)); [|done|by rewrite lookup_insert_eq].
    apply Forall_app in Hw as (_ & (Ht & _)%Forall_cons). rewrite rfc3339nano_gt; [done|done|done|lia].
Qed.

(** Node a claims, then b after a reconnect; a's late release changes nothing. *)
Lemma owner_trusted_witness :
  sql_NodeFor None (150 * ns_second)
    (run_owners [OClaim None (100 * ns_second) "w" "a"; OClaim None (120 * ns_second) "w" "b"; ORelease None "w" "a"]) "w"
  = Some "b".
Proof.
  apply (owner_trusted [OClaim None (100 * ns_second) "w" "a"; OClaim None (120 * ns_second) "w" "b"; ORelease None "w" "a"]
           "w" "b" (150 * ns_second))
    with (pre := [OClaim None (100 * ns_second) "w" "a"]) (t := (120 * ns_second)%Z) (post := [ORelease None "w" "a"]).
  - repeat constructor; apply (bool_decide_unpack _); vm_compute; exact I.
  - apply (bool_decide_unpack _); vm_compute; exact I.
  - reflexivity.
  - constructor; [|constructor]. simpl. intros (_ & H). discriminate H.
  - vm_compute. discriminate.
Defined.

Definition demo_token (h : string) : APIToken := mkToken "ci" "e2b_1" h "user" ns_second.

Lemma token_repos_agree_witness :
  (∃ l, sql_tok_List None [("h", token_row (demo_token "h"))] = Ok l ∧ l ≡ₚ [demo_token "h"]) ∧
  ∃ removed tb', sql_tok_DeleteByPrefix None [("h", token_row (demo_token "h"))] {[ "h" := token_row (demo_token "h") ]} "e2b_1"
                 = Ok (removed, tb') ∧
    let '(removed', s') := tok_DeleteByPrefix (map_to_list (tokens_of {[ "h" := token_row (demo_token "h") ]}))
                             (tokens_of {[ "h" := token_row (demo_token "h") ]}) "e2b_1" in
    removed ≡ₚ removed' ∧ tokens_of tb' = s' ∧
    ∀ h, h ∈ removed ↔ ∃ tk, tokens_of {[ "h" := token_row (demo_token "h") ]} !! h = Some tk ∧ tk_prefix tk = "e2b_1".
Proof.
  destruct (token_repos_agree "duplicate key" {[ "h" := token_row (demo_token "h") ]} [("h", token_row (demo_token "h"))]
           (map_to_list (tokens_of {[ "h" := token_row (demo_token "h") ]})) (demo_token "g") "h" "e2b_1")
    as (_ & _ & (l & Hl & HP & _) & Hd).
  - apply (bool_decide_unpack _); vm_compute; exact I.
  - apply map_Forall_singleton. exists (demo_token "h"). split_and!; [done|apply (bool_decide_unpack _); vm_compute; exact I|done].
  - by rewrite map_to_list_singleton.
  - reflexivity.
  - split; [|exact Hd]. exists l. split; [exact Hl|]. rewrite HP. by vm_compute.
Defined.
