(* ===== verification/Auth.v ===== *)
(** pkg/server/auth.go, ratelimit.go, tokens_api.go and the gates of main.go: who a
    request comes from, and which handlers it may reach. SHA-256 is an argument. *)

From S2P Require Import Prelude GoStrings GoFloat GoTime GoHTTP TokenStore SandboxStore JobStore.

(** ** Identities and tokens *)

Definition RoleAdmin : string := "admin".
Definition RoleUser : string := "user".
Definition RoleWorker : string := "worker".

(** [type Identity struct] *)
Record Identity := mkIdentity { id_name : string; id_role : string; id_tenant : string }.
#[global] Instance Identity_eq_dec : EqDecision Identity.
Proof. solve_decision. Defined.

Definition IsAdmin (id : Identity) : bool := bool_decide (id_role id = RoleAdmin).
Definition IsWorker (id : Identity) : bool := bool_decide (id_role id = RoleWorker).

(** [type NamedToken struct] *)
Record NamedToken := mkNamed { nt_name : string; nt_token : string; nt_role : string }.

(** The check of [loadTokensFile] on the entries it has read. *)
Fixpoint check_tokens (i : nat) (seenName seenTok : gset string) (l : list NamedToken) : result (list NamedToken) :=
  match l with
  | [] => Ok []
  | t :: l =>
      if bool_decide (nt_name t = "") || bool_decide (nt_token t = "")
      then Err ("tokens file entry " +:+ itoa (Z.of_nat i) +:+ ": name and token are required")
      else
        let t := if bool_decide (nt_role t = "") then mkNamed (nt_name t) (nt_token t) RoleUser else t in
        if bool_decide (nt_role t ≠ RoleAdmin) && bool_decide (nt_role t ≠ RoleUser)
        then Err ("tokens file entry " +:+ quote (nt_name t) +:+ ": role must be admin or user")
        else if bool_decide (nt_name t ∈ seenName) || bool_decide (nt_token t ∈ seenTok)
        then Err ("tokens file entry " +:+ quote (nt_name t) +:+ ": duplicate name or token")
        else rmap (cons t) (check_tokens (S i) ({[ nt_name t ]} ∪ seenName) ({[ nt_token t ]} ∪ seenTok) l)
  end.

(** [func loadTokensFile(path) ([]NamedToken, error)]: [parsed] is the outcome of
    reading and decoding the file. *)
Definition loadTokensFile (parsed : result (list NamedToken)) : result (list NamedToken) :=
  let! l := parsed in check_tokens 0 ∅ ∅ l.

(** One turn of [watchTokensFile]: [None] when the file is missing or unchanged. *)
Definition watch_tick (seen : option (result (list NamedToken))) (registry : list NamedToken) : list NamedToken :=
  match seen with
  | Some parsed => match loadTokensFile parsed with Ok toks => toks | Err _ => registry end
  | None => registry
  end.

(** ** The index of issued keys *)

Notation KeyIndex := (gmap string Identity).

Definition token_identity (t : APIToken) : Identity := mkIdentity (tk_name t) (tk_role t) "".

(** [func (x apiKeyIndex) load(toks)] and [replace(toks)] *)
Definition keys_load (x : KeyIndex) (toks : list APIToken) : KeyIndex :=
  fold_left (λ x t, <[tk_hash t := token_identity t]> x) toks x.
Definition keys_replace (toks : list APIToken) : KeyIndex := keys_load ∅ toks.

(** ** Configuration *)

(** The fields of [type Config struct] that authentication reads; [cf_peer_store]
    says whether [TokenStore] is set. *)
Record Config := mkConfig {
  cf_token : string;
  cf_tokens : list NamedToken;
  cf_registry : option (list NamedToken);
  cf_keys : option KeyIndex;
  cf_node_url : string;
  cf_peer_store : bool;
  cf_max_sandboxes : Z;
}.

Definition with_keys (cfg : Config) (keys : option KeyIndex) : Config :=
  mkConfig (cf_token cfg) (cf_tokens cfg) (cf_registry cfg) keys (cf_node_url cfg) (cf_peer_store cfg) (cf_max_sandboxes cfg).

(** [func (cfg Config) authDisabled() bool] *)
Definition authDisabled (cfg : Config) : bool :=
  bool_decide (cf_token cfg = "") && bool_decide (cf_tokens cfg = []) &&
  match cf_registry cfg with None => true | Some l => bool_decide (l = []) end &&
  match cf_keys cfg with None => true | Some m => bool_decide (m = ∅) end.

Definition candidates (cfg : Config) : list NamedToken := cf_tokens cfg ++ default [] (cf_registry cfg).

Section Hash.
  (** [hashKey]: the hex SHA-256 of a raw key. *)
  Variable hashKey : string → string.

(** [func resolveToken(cfg, presented) (Identity, bool)]; [store] is the shared
    token repository. A token of a peer instance enters the index. *)
Definition resolveToken (cfg : Config) (store : TokenRepo) (presented : string) : option Identity * Config :=
  if bool_decide (cf_token cfg ≠ "") && bool_decide (presented = cf_token cfg)
  then (Some (mkIdentity "admin" RoleAdmin ""), cfg)
  else match find_first (λ t, bool_decide (presented = nt_token t)) (candidates cfg) with
  | Some t => (Some (mkIdentity (nt_name t) (nt_role t) ""), cfg)
  | None =>
      match cf_keys cfg with
      | None => (None, cfg)
      | Some keys =>
          let h := hashKey presented in
          match keys !! h with
          | Some id => (Some id, cfg)
          | None =>
              if bool_decide (cf_node_url cfg ≠ "") && cf_peer_store cfg then
                match tok_FindByHash store h with
                | Some t => (Some (token_identity t), with_keys cfg (Some (<[h := token_identity t]> keys)))
                | None => (None, cfg)
                end
              else (None, cfg)
          end
      end
  end.

Definition bearer : string := "Bearer ".

(** [func resolveRequest(cfg, r) (Identity, bool)] *)
Definition resolveRequest (cfg : Config) (store : TokenRepo) (h : Header) : option Identity * Config :=
  let got := h_get h "X-Sandrpod-Token" in
  let '(first, cfg) := if bool_decide (got ≠ "") then resolveToken cfg store got else (None, cfg) in
  match first with
  | Some id => (Some id, cfg)
  | None =>
      let auth := h_get h "Authorization" in
      if has_prefix auth bearer then resolveToken cfg store (drop_prefix auth bearer) else (None, cfg)
  end.

(** ** The rate limiter *)

Record bucket := mkBucket { bk_tokens : f64; bk_last : gotime }.
Record rateLimiter := mkLimiter { rl_rate : f64; rl_buckets : gmap string bucket }.

(** [func newRateLimiter(perSecond) *rateLimiter] *)
Definition newRateLimiter (perSecond : f64) : rateLimiter := mkLimiter perSecond ∅.

Definition f_one : f64 := f_of_int 1.
Definition f_two : f64 := f_of_int 2.

(** The bucket after refilling. *)
Definition refill (rate : f64) (now : gotime) (b : bucket) : f64 :=
  let tokens := f_add (bk_tokens b) (f_mul (duration_seconds (sub_time now (bk_last b))) rate) in
  let max := f_mul rate f_two in
  if f_lt max tokens then max else tokens.

(** [func (rl rateLimiter) allow(key) bool] *)
Definition rl_allow (now : gotime) (rl : rateLimiter) (key : string) : bool * rateLimiter :=
  let b := default (mkBucket (f_mul (rl_rate rl) f_two) now) (rl_buckets rl !! key) in
  let tokens := refill (rl_rate rl) now b in
  let '(ok, rest) := if f_lt tokens f_one then (false, tokens) else (true, f_sub tokens f_one) in
  (ok, mkLimiter (rl_rate rl) (<[key := mkBucket rest now]> (rl_buckets rl))).

(** ** Authentication *)

Inductive AuthErr := ErrUnauthenticated | ErrForbidden | ErrRateLimited | ErrOther (msg : string).

(** What one instance holds: its configuration and its limiter, if it has one. *)
Record AuthState := mkAuth { au_cfg : Config; au_limit : option rateLimiter }.

(** [func (cfg Config) Authenticate(r) (Identity, error)] *)
Definition Authenticate (now : gotime) (s : AuthState) (store : TokenRepo) (h : Header) : (Identity + AuthErr) * AuthState :=
  if authDisabled (au_cfg s) then (inl (mkIdentity "" RoleAdmin ""), s)
  else match resolveRequest (au_cfg s) store h with
  | (None, cfg) => (inr ErrUnauthenticated, mkAuth cfg (au_limit s))
  | (Some id, cfg) =>
      match au_limit s with
      | Some rl =>
          if negb (IsAdmin id) then
            let '(ok, rl) := rl_allow now rl (id_name id) in
            (if ok then inl id else inr ErrRateLimited, mkAuth cfg (Some rl))
          else (inl id, mkAuth cfg (Some rl))
      | None => (inl id, mkAuth cfg None)
      end
  end.

(** What becomes of a request at a gate: an HTTP status, or the handler under an identity. *)
Inductive gate := Refuse (status : Z) | Serve (id : Identity).

Definition authMiddleware (r : Identity + AuthErr) : gate :=
  match r with
  | inl id => Serve id
  | inr ErrForbidden => Refuse 403
  | inr ErrRateLimited => Refuse 429
  | inr ErrUnauthenticated => Refuse 401
  | inr (ErrOther _) => Refuse 500
  end.

Definition adminOnly (r : Identity + AuthErr) : gate :=
  match authMiddleware r with
  | Serve id => if negb (IsAdmin id) then Refuse 403 else Serve id
  | g => g
  end.

Definition workerRoute (r : Identity + AuthErr) : gate :=
  match authMiddleware r with
  | Serve id => if negb (IsAdmin id) && negb (IsWorker id) then Refuse 403 else Serve id
  | g => g
  end.

(** [func IdentityFrom(r) Identity]: [None] when no middleware stored one. *)
Definition IdentityFrom (stored : option Identity) : Identity := default (mkIdentity "" "" "") stored.

(** [func canAccessSandbox(id, sb) bool] and [canAccessJob(id, j) bool] *)
Definition canAccessSandbox (id : Identity) (sb : SandboxInfo) : bool :=
  IsAdmin id || bool_decide (sb_owner sb = "") || bool_decide (sb_owner sb = id_name id).
Definition canAccessJob (id : Identity) (j : Job) : bool :=
  IsAdmin id || bool_decide (jb_owner j = "") || bool_decide (jb_owner j = id_name id).

(** [func sandboxOwner(ident) string] *)
Definition sandboxOwner (ident : Identity) : string :=
  if bool_decide (id_tenant ident ≠ "") then "workspace:" +:+ id_tenant ident else id_name ident.

(** ** Issuing and revoking *)

Definition issued_role (role : string) : option string :=
  if bool_decide (role = "") || bool_decide (role = RoleUser) then Some RoleUser
  else if bool_decide (role = RoleAdmin) then Some RoleAdmin else None.

(** [POST] in [handleTokens], with the raw key [GenerateAPIKey] made and the
    outcome of the repository's [Create]: the status, the configuration and the
    store after it. *)
Definition issue_token (insert : TokenRepo → APIToken → result TokenRepo) (now : gotime) (raw : result string)
    (cfg : Config) (store : TokenRepo) (name role : string) : Z * Config * TokenRepo :=
  let name := trim_space name in
  if bool_decide (name = "") then (400%Z, cfg, store)
  else match issued_role role, raw with
  | None, _ => (400%Z, cfg, store)
  | _, Err _ => (500%Z, cfg, store)
  | Some role, Ok raw =>
      let tok := mkToken name (take_str 16 raw) (hashKey raw) role now in
      match insert store tok with
      | Err _ => (500%Z, cfg, store)
      | Ok store => (201%Z, with_keys cfg (<[tk_hash tok := token_identity tok]> <$> cf_keys cfg), store)
      end
  end.

(** [handleTokenDelete], with the outcome of the repository's [DeleteByPrefix]. *)
Definition revoke_token (remove : TokenRepo → string → result (list string * TokenRepo))
    (cfg : Config) (store : TokenRepo) (path : string) : Z * Config * TokenRepo :=
  let prefix := trim_prefix path "/api/v1/tokens/" in
  if bool_decide (prefix = "") || contains prefix "/" then (400%Z, cfg, store)
  else match remove store prefix with
  | Err _ => (500%Z, cfg, store)
  | Ok ([], store) => (404%Z, cfg, store)
  | Ok (removed, store) =>
      (204%Z, with_keys cfg ((λ keys, fold_left (λ x h, delete h x) removed keys) <$> cf_keys cfg), store)
  end.

(** ** What is accepted *)

(** [p] is a configured credential of identity [id]. *)
Inductive credential (cfg : Config) (store : TokenRepo) (p : string) : Identity → Prop :=
| cred_token : cf_token cfg ≠ "" → p = cf_token cfg → credential cfg store p (mkIdentity "admin" RoleAdmin "")
| cred_named t : t ∈ candidates cfg → nt_token t = p → credential cfg store p (mkIdentity (nt_name t) (nt_role t) "")
| cred_key keys id : cf_keys cfg = Some keys → keys !! hashKey p = Some id → credential cfg store p id
| cred_peer t : isSome (cf_keys cfg) = true → cf_node_url cfg ≠ "" → cf_peer_store cfg = true →
    store !! hashKey p = Some t → credential cfg store p (token_identity t).

(** The request carries [p] in one of the two headers. *)
Definition presents (h : Header) (p : string) : Prop :=
  (p = h_get h "X-Sandrpod-Token" ∧ p ≠ "") ∨ h_get h "Authorization" = bearer +:+ p.

Lemma resolveToken_Some cfg store p id cfg' : resolveToken cfg store p = (Some id, cfg') → credential cfg store p id.
Proof.
  unfold resolveToken. destruct (bool_decide _ && bool_decide _) eqn:E1.
  { intros [= <- _]. simpl_bool. by apply cred_token. }
  destruct (find_first _ _) as [t|] eqn:E2.
  { intros [= <- _]. apply find_first_Some in E2 as (? & ?). simpl_bool. by eapply cred_named. }
  destruct (cf_keys cfg) as [keys|] eqn:E3; [|done].
  destruct (keys !! hashKey p) eqn:E4. { intros [= <- _]. by eapply cred_key. }
  destruct (bool_decide (cf_node_url cfg ≠ "") && _) eqn:E5; [|done]. unfold tok_FindByHash.
  destruct (store !! hashKey p) eqn:E6; [|done]. intros [= <- _]. simpl_bool.
  apply cred_peer; [by rewrite E3|done|done|done].
Qed.

Lemma resolveToken_None cfg store p cfg' : resolveToken cfg store p = (None, cfg') →
  cfg' = cfg ∧ ∀ id, ¬ credential cfg store p id.
Proof.
  unfold resolveToken. destruct (bool_decide _ && bool_decide _) eqn:E1; [done|].
  destruct (find_first _ _) as [t|] eqn:E2; [done|]. rewrite find_first_None in E2.
  assert (Hstatic : ∀ id, credential cfg store p id →
    (∃ keys, cf_keys cfg = Some keys ∧ keys !! hashKey p = Some id) ∨
    (isSome (cf_keys cfg) = true ∧ cf_node_url cfg ≠ "" ∧ cf_peer_store cfg = true ∧ isSome (store !! hashKey p) = true)).
  { intros id [Hn ->|t Ht Hp|keys i Hk Hi|t Hk Hn Hs Ht]; [| |eauto|right; by rewrite Ht].
    - rewrite !bool_decide_eq_true_2 in E1; done.
    - apply E2 in Ht. by rewrite bool_decide_eq_true_2 in Ht. }
  destruct (cf_keys cfg) as [keys|] eqn:E3.
  2: { intros [= <-]. split; [done|]. intros id [(keys & ? & _)|(? & _)]%Hstatic; done. }
  destruct (keys !! hashKey p) eqn:E4; [done|]. unfold tok_FindByHash.
  destruct (bool_decide (cf_node_url cfg ≠ "") && _) eqn:E5; [destruct (store !! hashKey p) eqn:E6; [done|]|];
    intros [= <-]; (split; [done|]); intros id [(keys' & [= <-] & ?)|(_ & Hn & Hs & H)]%Hstatic; try congruence.
  - done.
  - by rewrite bool_decide_eq_true_2, Hs in E5.
Qed.

Lemma resolveRequest_spec cfg store h :
  (∀ id cfg', resolveRequest cfg store h = (Some id, cfg') → ∃ p, presents h p ∧ credential cfg store p id) ∧
  (∀ cfg', resolveRequest cfg store h = (None, cfg') → cfg' = cfg ∧ ∀ p id, presents h p → ¬ credential cfg store p id).
Proof.
  unfold resolveRequest. set (got := h_get h "X-Sandrpod-Token").
  assert (Hfirst : ∀ first cfg1, (if bool_decide (got ≠ "") then resolveToken cfg store got else (None, cfg)) = (first, cfg1) →
    match first with
    | Some id => got ≠ "" ∧ credential cfg store got id
    | None => cfg1 = cfg ∧ ∀ id, got ≠ "" → ¬ credential cfg store got id
    end).
  { intros [id|] cfg1; case_bool_decide as Hg; intros H; simplify_eq.
    - split; [done|]. by eapply resolveToken_Some.
    - apply resolveToken_None in H as (-> & H). split; [done|]. by intros.
    - done. }
  destruct (if bool_decide (got ≠ "") then _ else _) as [first cfg1]. specialize (Hfirst _ _ eq_refl).
  destruct first as [id|].
  { split; [|done]. intros id' cfg' [= <- _]. exists got. destruct Hfirst as (? & ?). split; [by left|done]. }
  destruct Hfirst as (-> & Hgot). destruct (has_prefix _ bearer) eqn:Hp.
  - apply has_prefix_spec in Hp as (rest & Hrest). rewrite Hrest, drop_prefix_app. split.
    + intros id cfg' H. exists rest. split; [by right|]. by eapply resolveToken_Some.
    + intros cfg' H. apply resolveToken_None in H as (-> & H). split; [done|].
      intros p id [(-> & Hg)|Hb]; [by apply Hgot|]. rewrite Hrest in Hb. apply app_inj_l_str in Hb as ->. apply H.
  - split; [done|]. intros cfg' [= <-]. split; [done|].
    intros p id [(-> & Hg)|Hb]; [by apply Hgot|]. rewrite Hb in Hp. exfalso.
    assert (has_prefix (bearer +:+ p) bearer = true) by (apply has_prefix_spec; by exists p). congruence.
Qed.

Lemma authenticate_cases now s store h : authDisabled (au_cfg s) = false →
  match (Authenticate now s store h).1 with
  | inl id => ∃ p, presents h p ∧ credential (au_cfg s) store p id
  | inr ErrUnauthenticated => ∀ p id, presents h p → ¬ credential (au_cfg s) store p id
  | inr ErrRateLimited => ∃ p id, presents h p ∧ credential (au_cfg s) store p id ∧ IsAdmin id = false
  | inr _ => False
  end.
Proof.
  intros Hd. unfold Authenticate. rewrite Hd. destruct (resolveRequest_spec (au_cfg s) store h) as (HS & HN).
  destruct (resolveRequest _ _ _) as [[id|] cfg']; [specialize (HS _ _ eq_refl) as (p & Hp & Hc)|].
  - destruct (au_limit s) as [rl|]; [|by exists p].
    destruct (IsAdmin id) eqn:Ha; cbn [negb]; [by exists p|].
    destruct (rl_allow now rl (id_name id)) as [[|] rl']; [by exists p|by exists p, id].
  - by destruct (HN _ eq_refl).
Qed.

(** C8: Who gets in. As long as some credential is configured, a request is served
    only under the identity of a configured credential it carries, in one of the
    two headers; it is refused as unauthenticated exactly when it carries none; a
    limiter only ever turns away those who are not administrators. The handlers
    behind [adminOnly] run for administrators alone, those behind [workerRoute]
    for administrators and workers. *)
Theorem authenticate_credential (now : gotime) (s : AuthState) (store : TokenRepo) (h : Header) :
  authDisabled (au_cfg s) = false →
  let r := (Authenticate now s store h).1 in
  (∀ id, authMiddleware r = Serve id → ∃ p, presents h p ∧ credential (au_cfg s) store p id) ∧
  (authMiddleware r = Refuse 401 ↔ ∀ p id, presents h p → ¬ credential (au_cfg s) store p id) ∧
  (authMiddleware r = Refuse 429 → isSome (au_limit s) = true ∧
     ∃ p id, presents h p ∧ credential (au_cfg s) store p id ∧ IsAdmin id = false) ∧
  (∀ id, adminOnly r = Serve id → authMiddleware r = Serve id ∧ IsAdmin id = true) ∧
  (∀ id, workerRoute r = Serve id → authMiddleware r = Serve id ∧ (IsAdmin id = true ∨ IsWorker id = true)).
Proof.
  intros Hd r. pose proof (authenticate_cases now s store h Hd) as H. fold r in H. split_and!.
  - intros id. destruct r as [i|[]]; intros E; simplify_eq/=. done.
  - destruct r as [i|[]]; simpl; (split; [done|]); intros HN; try done.
    + destruct H as (p & Hp & Hc). by destruct (HN p i Hp).
    + destruct H as (p & id & Hp & Hc & _). by destruct (HN p id Hp).
  - intros E. split; [|by destruct r as [i|[]]; simplify_eq/=].
    assert (Er : r = inr ErrRateLimited) by (destruct r as [i|[]]; simplify_eq/=; done).
    unfold r, Authenticate in Er. rewrite Hd in Er.
    destruct (resolveRequest _ _ _) as [[id|] cfg']; [|done]. by destruct (au_limit s).
  - unfold adminOnly. destruct (authMiddleware r) as [|id']; [done|]. intros id.
    destruct (IsAdmin id') eqn:Ha; simpl; intros [= <-]. done.
  - unfold workerRoute. destruct (authMiddleware r) as [|id']; [done|]. intros id.
    destruct (IsAdmin id') eqn:Ha, (IsWorker id') eqn:Hw; simpl; intros [= <-]; auto.
Qed.

(** ** Issued keys *)

(** One instance while its calls overlap: its index, the store it shares with its peers,
    the [put] of every key created or found and not yet entered, the listings of reloads
    that have not replaced the index yet, and the hashes still to be removed from it. *)
Record KeyNode := mkNode {
  kn_keys : KeyIndex;
  kn_store : TokenRepo;
  kn_puts : list (string * Identity);
  kn_lists : list (list APIToken);
  kn_removes : list string;
}.

(** The calls on the store and on the index, each under its own lock and in any order,
    with the hash that the step creates. A peer's calls change the store alone. *)
Inductive key_step : option string → KeyNode → KeyNode → Prop :=
| ks_create t keys store store' ps ls rs : tok_Create store t = Ok store' →
    key_step (Some (tk_hash t)) (mkNode keys store ps ls rs) (mkNode keys store' ((tk_hash t, token_identity t) :: ps) ls rs)
| ks_peer_create t keys store store' ps ls rs : tok_Create store t = Ok store' →
    key_step (Some (tk_hash t)) (mkNode keys store ps ls rs) (mkNode keys store' ps ls rs)
| ks_find h t keys store ps ls rs : tok_FindByHash store h = Some t →
    key_step None (mkNode keys store ps ls rs) (mkNode keys store ((h, token_identity t) :: ps) ls rs)
| ks_put h id keys store ps1 ps2 ls rs :
    key_step None (mkNode keys store (ps1 ++ (h, id) :: ps2) ls rs) (mkNode (<[h := id]> keys) store (ps1 ++ ps2) ls rs)
| ks_delete order prefix removed keys store store' ps ls rs :
    order ≡ₚ map_to_list store → tok_DeleteByPrefix order store prefix = (removed, store') →
    key_step None (mkNode keys store ps ls rs) (mkNode keys store' ps ls (removed ++ rs))
| ks_peer_delete order prefix removed keys store store' ps ls rs :
    order ≡ₚ map_to_list store → tok_DeleteByPrefix order store prefix = (removed, store') →
    key_step None (mkNode keys store ps ls rs) (mkNode keys store' ps ls rs)
| ks_remove h keys store ps ls rs1 rs2 :
    key_step None (mkNode keys store ps ls (rs1 ++ h :: rs2)) (mkNode (delete h keys) store ps ls (rs1 ++ rs2))
| ks_list order keys store ps ls rs : order ≡ₚ map_to_list store →
    key_step None (mkNode keys store ps ls rs) (mkNode keys store ps (tok_List order :: ls) rs)
| ks_replace toks keys store ps ls1 ls2 rs :
    key_step None (mkNode keys store ps (ls1 ++ toks :: ls2) rs) (mkNode (keys_replace toks) store ps (ls1 ++ ls2) rs).

Definition key_next (n n' : KeyNode) : Prop := ∃ made, key_step made n n'.
Definition next_without (h : string) (n n' : KeyNode) : Prop := ∃ made, made ≠ Some h ∧ key_step made n n'.

(** The server as it starts: the index loaded from the store, or empty when the listing
    fails. *)
Definition key_start (n : KeyNode) : Prop :=
  well_keyed tk_hash (kn_store n) ∧ kn_puts n = [] ∧ kn_lists n = [] ∧ kn_removes n = [] ∧
  (kn_keys n = ∅ ∨ ∃ order, order ≡ₚ map_to_list (kn_store n) ∧ kn_keys n = keys_load ∅ (tok_List order)).

Definition node_cfg (cfg : Config) (n : KeyNode) : Config := with_keys cfg (Some (kn_keys n)).

(** *** The handlers run on their own are runs of these steps *)

Definition at_rest (n : KeyNode) : Prop := kn_puts n = [] ∧ kn_lists n = [] ∧ kn_removes n = [].
Definition runs_to (cfg : Config) (n : KeyNode) (cfg' : Config) (store' : TokenRepo) : Prop :=
  ∃ n', rtc key_next n n' ∧ at_rest n' ∧ cfg' = node_cfg cfg n' ∧ store' = kn_store n'.

Lemma removes_run keys store rs : rtc key_next (mkNode keys store [] [] rs)
  (mkNode (fold_left (λ x h, delete h x) rs keys) store [] [] []).
Proof. clear hashKey.
  revert keys. induction rs as [|h rs IH]; intros keys; [done|]. eapply rtc_l; [|apply IH].
  exists None. apply (ks_remove h keys store [] [] [] rs).
Qed.

Lemma issue_runs now raw cfg n name role : at_rest n →
  let '(_, cfg', store') := issue_token tok_Create now raw (node_cfg cfg n) (kn_store n) name role in runs_to cfg n cfg' store'.
Proof.
  destruct n as [keys store ps ls rs]. intros (Hp & Hl & Hr). simpl in *. subst.
  assert (Hid : runs_to cfg (mkNode keys store [] [] []) (with_keys cfg (Some keys)) store) by (eexists; by repeat split).
  unfold issue_token. case_bool_decide; [done|]. destruct (issued_role role) as [role'|]; [|done]. destruct raw as [raw|e]; [|done].
  destruct (tok_Create _ _) as [store'|] eqn:Hc; [|done]. eexists (mkNode _ store' [] [] []). split; [|by repeat split].
  eapply rtc_l; [eexists; by eapply ks_create|]. apply rtc_once. exists None. apply (ks_put _ _ keys store' [] [] [] []).
Qed.

Lemma revoke_runs order cfg n path : at_rest n → order ≡ₚ map_to_list (kn_store n) →
  let '(_, cfg', store') := revoke_token (λ s p, Ok (tok_DeleteByPrefix order s p)) (node_cfg cfg n) (kn_store n) path in
  runs_to cfg n cfg' store'.
Proof.
  destruct n as [keys store ps ls rs]. intros (Hp & Hl & Hr) HP. simpl in *. subst.
  unfold revoke_token. destruct (_ || _); [eexists; by repeat split|].
  destruct (tok_DeleteByPrefix _ _ _) as [removed store'] eqn:Hd.
  assert (Hrun : rtc key_next (mkNode keys store [] [] []) (mkNode (fold_left (λ x h, delete h x) removed keys) store' [] [] [])).
  { eapply rtc_l; [exists None; by eapply ks_delete|]. rewrite app_nil_r. apply removes_run. }
  destruct removed as [|h removed]; (eexists (mkNode _ store' [] [] []); split; [exact Hrun|by repeat split]).
Qed.

Lemma resolve_runs cfg n presented : at_rest n →
  runs_to cfg n (resolveToken (node_cfg cfg n) (kn_store n) presented).2 (kn_store n).
Proof.
  destruct n as [keys store ps ls rs]. intros (Hp & Hl & Hr). simpl in *. subst.
  assert (Hid : runs_to cfg (mkNode keys store [] [] []) (with_keys cfg (Some keys)) store) by (eexists; by repeat split).
  unfold resolveToken, node_cfg. cbn [kn_keys kn_store]. destruct (_ && _); [done|]. destruct (find_first _ _); [done|].
  cbn [cf_keys with_keys]. destruct (keys !! _); [done|]. destruct (_ && _); [|done].
  destruct (tok_FindByHash _ _) as [t|] eqn:Hf; [|done]. eexists (mkNode _ store [] [] []). split; [|by repeat split].
  eapply rtc_l; [exists None; by eapply ks_find|]. apply rtc_once. exists None. apply (ks_put _ _ keys store [] [] [] []).
Qed.

(** *** What a key is worth *)

(** [presented] is none of the keys the server was started with. *)
Definition not_static (cfg : Config) (presented : string) : Prop :=
  ¬ (cf_token cfg ≠ "" ∧ presented = cf_token cfg) ∧ ∀ t, t ∈ candidates cfg → nt_token t ≠ presented.
Definition accepts (cfg : Config) (n : KeyNode) (presented : string) : option Identity :=
  (resolveToken (node_cfg cfg n) (kn_store n) presented).1.
Definition shares (cfg : Config) : bool := bool_decide (cf_node_url cfg ≠ "") && cf_peer_store cfg.

Lemma accepts_issued cfg n p : not_static cfg p → accepts cfg n p =
  match kn_keys n !! hashKey p with
  | Some id => Some id
  | None => if shares cfg then token_identity <$> kn_store n !! hashKey p else None
  end.
Proof.
  intros (H1 & H2). unfold accepts, resolveToken, node_cfg, shares. cbn [cf_token cf_keys cf_node_url cf_peer_store with_keys].
  rewrite <- bool_decide_and, bool_decide_eq_false_2 by done. rewrite (proj2 (find_first_None _ _)).
  2: { intros t Ht. apply bool_decide_eq_false. intros E. by apply (H2 t Ht). }
  destruct (kn_keys n !! _); [done|]. destruct (_ && _); [|done]. unfold tok_FindByHash. by destruct (kn_store n !! _).
Qed.

(** Something in flight would enter [h] into the index. *)
Definition carried (h : string) (n : KeyNode) : Prop :=
  (∃ id, (h, id) ∈ kn_puts n) ∨ ∃ l t, l ∈ kn_lists n ∧ t ∈ l ∧ tk_hash t = h.
(** [h] is nowhere; it was in the store as [id] at some moment since [n0]. *)
Definition gone (h : string) (n : KeyNode) : Prop := kn_store n !! h = None ∧ ¬ carried h n ∧ kn_keys n !! h = None.
Definition once (n0 n : KeyNode) (h : string) (id : Identity) : Prop :=
  ∃ m t, rtc key_next n0 m ∧ rtc key_next m n ∧ kn_store m !! h = Some t ∧ token_identity t = id.

Lemma keys_load_in toks h id : ∀ x, keys_load x toks !! h = Some id →
  x !! h = Some id ∨ ∃ t, t ∈ toks ∧ tk_hash t = h ∧ token_identity t = id.
Proof. clear hashKey.
  unfold keys_load. induction toks as [|t toks IH]; intros x Hx; simpl in *; [by left|].
  apply IH in Hx as [[(<- & <-)|(_ & Hx)]%lookup_insert_Some|(t' & ? & ? & ?)]; [right|by left|right].
  - exists t. repeat split; by left.
  - exists t'. repeat split; [by right|done..].
Qed.

Lemma keys_replace_in toks h id : keys_replace toks !! h = Some id → ∃ t, t ∈ toks ∧ tk_hash t = h ∧ token_identity t = id.
Proof. clear hashKey. intros [Hx|H]%keys_load_in; [by rewrite lookup_empty in Hx|done]. Qed.

Lemma listed_in order (store : TokenRepo) t : well_keyed tk_hash store → order ≡ₚ map_to_list store → t ∈ tok_List order →
  store !! tk_hash t = Some t.
Proof. clear hashKey.
  intros WK HP. unfold tok_List. rewrite HP. intros ([k y] & -> & Hy%elem_of_map_to_list)%list_elem_of_fmap. simpl. by rewrite (WK _ _ Hy).
Qed.

Definition mirrored (cs : Config * TokenRepo) : Prop :=
  cf_keys cs.1 = Some (token_identity <$> cs.2) ∧ well_keyed tk_hash cs.2.

Lemma delete_all_lookup {A} (hs : list string) h : ∀ m : gmap string A,
  fold_left (λ x h, delete h x) hs m !! h = if decide (h ∈ hs) then None else m !! h.
Proof.
  clear hashKey. induction hs as [|k hs IH]; intros m; simpl; [done|]. rewrite IH.
  destruct (decide (k = h)) as [->|Hne].
  - rewrite lookup_delete_eq. repeat case_decide; set_solver.
  - rewrite lookup_delete_ne by done. repeat case_decide; set_solver.
Qed.

Lemma deleted_mirror order (store : TokenRepo) prefix removed store' : well_keyed tk_hash store →
  tok_DeleteByPrefix order store prefix = (removed, store') →
  fold_left (λ x h, delete h x) removed (token_identity <$> store) = token_identity <$> store' ∧ well_keyed tk_hash store'.
Proof.
  intros WK Hd. destruct (delete_prefix_spec prefix order store) as (H1 & H2).
  unfold tok_DeleteByPrefix in Hd. rewrite Hd in H1, H2. simpl in H1, H2. subst removed. split.
  - apply map_eq. intros h. rewrite delete_all_lookup, !lookup_fmap, H2. by case_decide.
  - intros k x. rewrite H2. case_decide; [done|]. apply WK.
Qed.

Lemma key_step_keyed made n n' : key_step made n n' → well_keyed tk_hash (kn_store n) → well_keyed tk_hash (kn_store n').
Proof. clear hashKey.
  assert (Hdel : ∀ order prefix (store : TokenRepo) removed store', tok_DeleteByPrefix order store prefix = (removed, store') →
    well_keyed tk_hash store → well_keyed tk_hash store').
  { intros order prefix store removed store' Hd WK. by destruct (deleted_mirror _ _ _ _ _ WK Hd). }
  assert (Hadd : ∀ (store : TokenRepo) t store', tok_Create store t = Ok store' → well_keyed tk_hash store → well_keyed tk_hash store').
  { intros store t store' Hc WK k x. unfold tok_Create in Hc. destruct (store !! tk_hash t); [done|]. injection Hc as <-.
    intros [(<- & <-)|(_ & Hx)]%lookup_insert_Some; [done|by apply WK]. }
  destruct 1; simpl; intros WK; by eauto.
Qed.

Lemma deleted_sub order prefix (store : TokenRepo) removed store' h : tok_DeleteByPrefix order store prefix = (removed, store') →
  store !! h = None → store' !! h = None.
Proof. clear hashKey.
  intros Hd Hs. destruct (delete_prefix_spec prefix order store) as (_ & H2). unfold tok_DeleteByPrefix in Hd. rewrite Hd in H2.
  rewrite H2. by case_decide.
Qed.

(** A step that does not create [h] leaves a store without it as it is, and puts nothing
    of it in flight. *)
Lemma step_absent made n n' h : key_step made n n' → made ≠ Some h → well_keyed tk_hash (kn_store n) → kn_store n !! h = None →
  kn_store n' !! h = None ∧ (carried h n' → carried h n).
Proof. clear hashKey.
  assert (Hadd : ∀ (store : TokenRepo) t store', tok_Create store t = Ok store' → Some (tk_hash t) ≠ Some h → store !! h = None →
    store' !! h = None).
  { intros store t store' Hc Hne Hs. unfold tok_Create in Hc. destruct (store !! tk_hash t); [done|]. injection Hc as <-.
    rewrite lookup_insert_ne; [done|congruence]. }
  destruct 1; simpl; intros Hne WK Hs; (split; [by eauto using deleted_sub|]); unfold carried; simpl; try done.
  - intros [(id & Hin)|?]; [left|by right]. set_solver.
  - intros [(id & Hin)|?]; [left|by right]. unfold tok_FindByHash in H. set_solver.
  - intros [(id' & Hin)|?]; [left|by right]. exists id'. set_solver.
  - intros [?|(l & t & Hl & Ht & Hh)]; [by left|right]. apply elem_of_cons in Hl as [->|Hl]; [|by exists l, t].
    apply (listed_in _ _ _ WK H) in Ht. congruence.
  - intros [?|(l & t & Hl & Ht & Hh)]; [by left|right]. exists l, t. split; [set_solver|done].
Qed.

Lemma run_absent n n' h : rtc (next_without h) n n' → well_keyed tk_hash (kn_store n) → kn_store n !! h = None →
  well_keyed tk_hash (kn_store n') ∧ kn_store n' !! h = None ∧ (carried h n' → carried h n).
Proof. clear hashKey.
  induction 1 as [n|n m n' (made & Hne & Hs) Hrun IH]; intros WK Hh; [done|].
  destruct (step_absent _ _ _ h Hs Hne WK Hh) as (Hh' & Hc). destruct (IH (key_step_keyed _ _ _ Hs WK) Hh') as (? & ? & ?). auto.
Qed.

Lemma gone_step made n n' h : key_step made n n' → made ≠ Some h → well_keyed tk_hash (kn_store n) → gone h n → gone h n'.
Proof. clear hashKey.
  intros Hs Hne WK (Hh & Hc & Hk). destruct (step_absent _ _ _ h Hs Hne WK Hh) as (Hh' & Hc'). split_and!; [done|naive_solver|].
  clear Hc'. destruct Hs; simpl in *; try done.
  - rewrite lookup_insert_ne; [done|]. intros ->. apply Hc. left. exists id. set_solver.
  - by rewrite lookup_delete_None; right.
  - apply eq_None_not_Some. intros (id & (t & Ht & Hth & _)%keys_replace_in). apply Hc. right. exists toks, t. simpl. set_solver.
Qed.

Lemma gone_run n n' h : rtc (next_without h) n n' → well_keyed tk_hash (kn_store n) → gone h n → gone h n'.
Proof. clear hashKey.
  induction 1 as [n|n m n' (made & Hne & Hs) Hrun IH]; intros WK Hg; [done|].
  apply IH; [by eapply key_step_keyed|by eapply gone_step].
Qed.

(** What the index holds, what is on its way there and what reloads have read was in the
    store at some moment. *)
Definition remembers (n0 n : KeyNode) : Prop :=
  well_keyed tk_hash (kn_store n) ∧ (∀ h id, kn_keys n !! h = Some id → once n0 n h id) ∧
  (∀ h id, (h, id) ∈ kn_puts n → once n0 n h id) ∧
  ∀ l t, l ∈ kn_lists n → t ∈ l → once n0 n (tk_hash t) (token_identity t).

Lemma once_next n0 n n' h id : once n0 n h id → key_next n n' → once n0 n' h id.
Proof. clear hashKey. intros (m & t & ? & ? & ?) Hs. exists m, t. split; [done|]. split; [|done]. by eapply rtc_r. Qed.

Lemma remembers_step n0 n n' : rtc key_next n0 n → key_next n n' → remembers n0 n → remembers n0 n'.
Proof. clear hashKey.
  intros Hr Hs (WK & Hk & Hp & Hl). split; [destruct Hs; by eapply key_step_keyed|].
  assert (Hnow : ∀ h t, kn_store n' !! h = Some t → once n0 n' h (token_identity t)).
  { intros h t Ht. exists n', t. split; [by eapply rtc_r|]. by split. }
  assert (Hbefore : ∀ h t, kn_store n !! h = Some t → once n0 n' h (token_identity t)).
  { intros h t Ht. apply (once_next _ n); [|done]. by exists n, t. }
  assert (Hkeep : ∀ h id, once n0 n h id → once n0 n' h id) by (intros; by eapply once_next).
  clear Hr. destruct Hs as [made Hs]. destruct Hs; simpl in *; split_and!; eauto.
  - intros h id [[= -> ->]|?]%elem_of_cons; [|eauto]. apply Hnow. unfold tok_Create in H.
    destruct (store !! tk_hash t); [done|]. injection H as <-. apply lookup_insert_eq.
  - intros h' id [[= -> ->]|?]%elem_of_cons; [|eauto]. by apply Hbefore.
  - intros h' id' [(<- & <-)|(_ & ?)]%lookup_insert_Some; [|eauto]. apply Hkeep, Hp. set_solver.
  - intros h' id' Hin. apply Hkeep, Hp. set_solver.
  - intros h' id' (_ & ?)%lookup_delete_Some. eauto.
  - intros l t [->|Hin]%elem_of_cons Ht; [|eauto]. by apply Hbefore, (listed_in order).
  - intros h id (t & Ht & <- & <-)%keys_replace_in. apply Hkeep, (Hl toks); [set_solver|done].
  - intros l t Hin Ht. apply Hkeep, (Hl l); [set_solver|done].
Qed.

Lemma remembers_run n0 n : key_start n0 → rtc key_next n0 n → remembers n0 n.
Proof. clear hashKey.
  intros (WK & Hp & Hl & _ & Hload). apply rtc_ind_r.
  - split_and!; [done| |by rewrite Hp; set_solver|by rewrite Hl; set_solver].
    intros h id Hid. destruct Hload as [E|(order & HP & E)]; rewrite E in Hid; [by rewrite lookup_empty in Hid|].
    apply keys_replace_in in Hid as (t & Ht & <- & <-). exists n0, t. by apply (listed_in _ _ _ WK HP) in Ht.
  - intros n1 n2 Hr Hs. by apply remembers_step.
Qed.

(** C19: Issued keys, while issuing, revoking, looking up and reloading overlap and peers
    write to the shared store. An accepted key that is not configured statically has the
    name and role of a token that was in the store at some moment since the start; where
    the store is shared, a key whose token is in it is accepted. From a moment when a
    key's token is out of the store, whoever revoked it, and as long as nobody creates it
    again: once every lookup and reload that had read it before has landed, the next
    removal of its hash, or the next reload to land, makes the key refused for good. Until
    then it may be accepted: a reload that listed before the revocation and replaces after
    it brings the key back ([reload_resurrects]). *)
Theorem issued_keys (cfg : Config) (n0 n : KeyNode) (p : string) :
  key_start n0 → rtc key_next n0 n → not_static cfg p →
  (∀ id, accepts cfg n p = Some id → once n0 n (hashKey p) id) ∧
  (shares cfg = true → isSome (kn_store n !! hashKey p) = true → isSome (accepts cfg n p) = true) ∧
  (kn_store n !! hashKey p = None →
   ∀ m m' k, rtc (next_without (hashKey p)) n m → ¬ carried (hashKey p) m →
     ((∃ rs1 rs2, kn_removes m = rs1 ++ hashKey p :: rs2 ∧
        m' = mkNode (delete (hashKey p) (kn_keys m)) (kn_store m) (kn_puts m) (kn_lists m) (rs1 ++ rs2)) ∨
      (∃ ls1 toks ls2, kn_lists m = ls1 ++ toks :: ls2 ∧
        m' = mkNode (keys_replace toks) (kn_store m) (kn_puts m) (ls1 ++ ls2) (kn_removes m))) →
     rtc (next_without (hashKey p)) m' k → accepts cfg k p = None).
Proof.
  intros H0 Hrun Hst. destruct (remembers_run _ _ H0 Hrun) as (WK & Hk & _). split_and!.
  - intros id. rewrite accepts_issued by done. destruct (kn_keys n !! _) eqn:E; [intros [= <-]; by apply Hk|].
    destruct (shares cfg); [|done]. intros (t & Ht & ->)%fmap_Some. by exists n, t.
  - intros Hs Hin. rewrite accepts_issued, Hs by done. destruct (kn_keys n !! _); [done|]. by destruct (kn_store n !! _).
  - intros Habs m m' k Hm Hc Hland Hrest. destruct (run_absent _ _ _ Hm WK Habs) as (WK' & Hm' & _).
    assert (Hg : gone (hashKey p) m' ∧ kn_store m' = kn_store m).
    { destruct Hland as [(rs1 & rs2 & _ & ->)|(ls1 & toks & ls2 & Hl & ->)]; (split; [|done]); split_and!; simpl; try done.
      - apply lookup_delete_eq.
      - intros [?|(l & t & ? & ?)]; apply Hc; [by left|right]. exists l, t. rewrite Hl. set_solver.
      - apply eq_None_not_Some. intros (id & (t & Ht & Hth & _)%keys_replace_in). apply Hc. right. exists toks, t.
        rewrite Hl. set_solver. }
    destruct Hg as (Hg & Es). destruct (gone_run _ _ _ Hrest ltac:(by rewrite Es) Hg) as (Hk1 & _ & Hk3).
    rewrite accepts_issued, Hk3, Hk1 by done. by destruct (shares cfg).
Qed.

(** Revoking the last credential opens the server: when nothing but issued keys is
    configured and all of them carry the revoked prefix, every later request is an
    administrator's. *)
Lemma last_revocation_opens now limit cfg store order prefix h :
  cf_token cfg = "" → candidates cfg = [] → mirrored (cfg, store) → order ≡ₚ map_to_list store → store ≠ ∅ →
  (∀ k t, store !! k = Some t → tk_prefix t = prefix) →
  bool_decide (trim_prefix prefix "/api/v1/tokens/" = "") || contains (trim_prefix prefix "/api/v1/tokens/") "/" = false →
  trim_prefix prefix "/api/v1/tokens/" = prefix →
  let '(status, cfg', store') := revoke_token (λ s p, Ok (tok_DeleteByPrefix order s p)) cfg store prefix in
  status = 204%Z ∧ (Authenticate now (mkAuth cfg' limit) store' h).1 = inl (mkIdentity "" RoleAdmin "").
Proof.
  intros Ht Hc (Hk & WK) HP Hne Hp Hpath Htrim. simpl in Hk, WK. unfold revoke_token. rewrite Hpath, Htrim.
  destruct (tok_DeleteByPrefix _ _ _) as [removed store'] eqn:Hd.
  destruct (deleted_mirror _ _ _ _ _ WK Hd) as (Hm & _).
  destruct (delete_prefix_spec prefix order store) as (H1 & _). unfold tok_DeleteByPrefix in Hd. rewrite Hd in H1.
  simpl in H1.
  assert (Hempty : store' = ∅).
  { apply map_eq. intros k. pose proof (delete_prefix_lookup prefix order store k HP) as E. rewrite Hd in E. simpl in E.
    rewrite E, lookup_empty. destruct (store !! k) as [t|] eqn:Hs; [|done]. by rewrite bool_decide_eq_true_2 by eauto. }
  destruct removed as [|r removed].
  - exfalso. apply Hne. apply (f_equal (fmap (M := gmap string) (λ i : Identity, i))) in Hm. simpl in Hm.
    rewrite Hempty, !map_fmap_id, fmap_empty in Hm. by apply fmap_empty_inv in Hm.
  - split; [done|]. rewrite Hk.
    assert (HK : (λ keys, fold_left (λ x h, delete h x) (r :: removed) keys) <$> Some (token_identity <$> store) = Some ∅).
    { change (Some (fold_left (λ x h, delete h x) (r :: removed) (token_identity <$> store)) = Some ∅).
      by rewrite Hm, Hempty, fmap_empty. }
    rewrite HK. unfold Authenticate. cbn [au_cfg].
    replace (authDisabled (with_keys cfg (Some ∅))) with true; [done|]. unfold authDisabled. simpl.
    unfold candidates in Hc. apply app_eq_nil in Hc as (Hc1 & Hc2). rewrite Ht, Hc1.
    destruct (cf_registry cfg) as [l|]; simpl in Hc2; [subst l|]; reflexivity.
Qed.
End Hash.

(** ** Witnesses *)

Definition demo_hash (s : string) : string := "sha:" +:+ s.
Definition demo_cfg (token : string) (keys : KeyIndex) : Config := mkConfig token [] None (Some keys) "" false 0.
Definition demo_header (token : string) : Header := h_set ∅ "X-Sandrpod-Token" token.

Lemma authenticate_credential_witness :
  authDisabled (demo_cfg "root" ∅) = false ∧
  let r := (Authenticate demo_hash 0 (mkAuth (demo_cfg "root" ∅) None) ∅ (demo_header "root")).1 in
  r = inl (mkIdentity "admin" RoleAdmin "") ∧
  (∀ id, authMiddleware r = Serve id →
     ∃ p, presents (demo_header "root") p ∧ credential demo_hash (demo_cfg "root" ∅) ∅ p id).
Proof.
  split; [reflexivity|]. split; [vm_compute; reflexivity|].
  apply (authenticate_credential demo_hash 0 (mkAuth (demo_cfg "root" ∅) None) ∅ (demo_header "root")). reflexivity.
Defined.

Definition demo_issue (raw name : string) (cs : Config * TokenRepo) : Config * TokenRepo :=
  let '(_, cfg, store) := issue_token demo_hash tok_Create ns_second (Ok raw) cs.1 cs.2 name "" in (cfg, store).

(** A key issued by one instance, revoked by a peer while a reload of the first has it. *)
Definition demo_key : APIToken := mkToken "ci" "e2b_001122334455" (demo_hash "k") RoleUser ns_second.
Definition demo_held : TokenRepo := {[demo_hash "k" := demo_key]}.
Definition demo_node : KeyNode := mkNode (token_identity <$> demo_held) demo_held [] [] [].
Definition demo_revoked (lists : list (list APIToken)) : KeyNode := mkNode (token_identity <$> demo_held) ∅ [] lists [].

Lemma demo_start : key_start demo_node.
Proof.
  repeat split; try done. 2: right; exists (map_to_list demo_held); split; [done|by vm_compute].
  intros k x. unfold demo_node, demo_held. simpl. intros (<- & <-)%lookup_singleton_Some. done.
Qed.

(** The store at [n] is the demo store or empty: the revocation, then a reload. *)
Lemma issued_keys_witness :
  accepts demo_hash (demo_cfg "root" ∅) (demo_revoked []) "k" = Some (mkIdentity "ci" RoleUser "") ∧
  accepts demo_hash (demo_cfg "root" ∅) (mkNode ∅ ∅ [] [] []) "k" = None.
Proof.
  assert (Hdel : key_next demo_node (demo_revoked [])).
  { exists None. apply (ks_peer_delete (map_to_list demo_held) "e2b_001122334455" [demo_hash "k"]); [done|by vm_compute]. }
  split; [by vm_compute|].
  destruct (issued_keys demo_hash (demo_cfg "root" ∅) demo_node (demo_revoked []) "k" demo_start (rtc_once _ _ Hdel))
    as (_ & _ & H); [split; [by intros (_ & ?)|by intros t ?%elem_of_nil]|].
  apply (H eq_refl (demo_revoked [[]]) (mkNode ∅ ∅ [] [] []) (mkNode ∅ ∅ [] [] [])).
  - apply rtc_once. exists None. split; [done|]. apply (ks_list [] _ ∅ [] [] []). by rewrite map_to_list_empty.
  - intros [(? & ?%elem_of_nil)|(l & t & Hl & Ht & _)]; [done|]. apply list_elem_of_singleton in Hl as ->. by apply elem_of_nil in Ht.
  - right. exists [], [], []. split; reflexivity.
  - reflexivity.
Defined.

(** A reload lists, this instance revokes the key and removes it from the index, and the
    reload replaces the index by what it listed: the revoked key is accepted again, until
    the next reload. *)
Example reload_resurrects :
  let listed := mkNode (kn_keys demo_node) demo_held [] [[demo_key]] [] in
  let revoked := mkNode ∅ ∅ [] [[demo_key]] [] in
  let back := mkNode (keys_replace [demo_key]) ∅ [] [] [] in
  rtc key_next demo_node revoked ∧ accepts demo_hash (demo_cfg "root" ∅) revoked "k" = None ∧
  key_next revoked back ∧ accepts demo_hash (demo_cfg "root" ∅) back "k" = Some (mkIdentity "ci" RoleUser "").
Proof.
  intros listed revoked back. split_and!; [|by vm_compute| |by vm_compute].
  - eapply rtc_l. { exists None. by apply (ks_list (map_to_list demo_held) _ demo_held [] [] []). }
    eapply rtc_l. { exists None. apply (ks_delete (map_to_list demo_held) "e2b_001122334455" [demo_hash "k"]); [done|by vm_compute]. }
    apply rtc_once. exists None.
    assert (E : revoked = mkNode (delete (demo_hash "k") (kn_keys demo_node)) ∅ [] [[demo_key]] ([] ++ [])) by by vm_compute.
    rewrite E. exact (ks_remove (demo_hash "k") (kn_keys demo_node) ∅ [] [[demo_key]] [] []).
  - exists None. apply (ks_replace [demo_key] _ ∅ [] [] [] []).
Qed.

(** One token for everybody, then none: the open server of [last_revocation_opens]. *)
Example demo_opens :
  let cs := demo_issue "e2b_001122334455" "ci" (demo_cfg "" ∅, ∅) in
  authDisabled cs.1 = false ∧
  let '(status, cfg, store) := revoke_token (λ s p, Ok (tok_DeleteByPrefix (map_to_list s) s p)) cs.1 cs.2 "/api/v1/tokens/e2b_001122334455" in
  status = 204%Z ∧ (Authenticate demo_hash 0 (mkAuth cfg None) store ∅).1 = inl (mkIdentity "" RoleAdmin "").
Proof. vm_compute. repeat split. Qed.
