(* ===== verification/Scheduler.v ===== *)
(** pkg/sandpod/scheduler.go: placing a sandbox on a worker, provisioning a
    machine when there is none. The scheduler is written against the
    PoderRepository interface. What it reads from outside is an argument: the
    environment variables, the cloud provider, the store as each query finds it
    and the clock of each polling loop. Messages are kept up to the figures Go
    formats into them. *)

From S2P Require Import Prelude GoStrings GoShell GoFloat EgressPolicy PoderStore JobStore Leases.

(** ** Environment variables *)

Definition env_scoped (getenv : string → string) (key providerType : string) : string :=
  trim_space (getenv (key +:+ "_" +:+ to_upper providerType)).

(** [func providerEnv(key, providerType string) string] *)
Definition providerEnv (getenv : string → string) (key providerType : string) : string :=
  let v := env_scoped getenv key providerType in
  if bool_decide (providerType ≠ "") && bool_decide (v ≠ "") then v else trim_space (getenv key).

Definition bool_word (s : string) : option bool :=
  let s := to_lower s in
  if bool_decide (s ∈ ["1"; "true"; "yes"; "on"]) then Some true
  else if bool_decide (s ∈ ["0"; "false"; "no"; "off"]) then Some false
  else None.

(** [func envBoolDefault(key string, def bool) bool] *)
Definition envBoolDefault (getenv : string → string) (key : string) (def : bool) : bool :=
  default def (bool_word (trim_space (getenv key))).

(** [func providerEnvBool(key, providerType string, def bool) bool] *)
Definition providerEnvBool (getenv : string → string) (key providerType : string) (def : bool) : bool :=
  match (if bool_decide (providerType ≠ "") then bool_word (env_scoped getenv key providerType) else None) with
  | Some b => b
  | None => envBoolDefault getenv key def
  end.

(** [func poderImage(providerType string) string] *)
Definition poderImage (getenv : string → string) (providerType : string) : string :=
  let img := providerEnv getenv "SANDRPOD_PODER_IMAGE" providerType in
  if bool_decide (img ≠ "") then img else "ghcr.io/sandrpod/poder:latest".

(** ** Machines *)

(** [type NetworkConfig struct] *)
Record NetworkConfig := mkNet { nc_public_ip : bool; nc_subnet : string; nc_security_group : string }.

(** [func vmNetworkConfig(providerType string)] *)
Definition vmNetworkConfig (getenv : string → string) (providerType : string) : NetworkConfig :=
  mkNet (providerEnvBool getenv "SANDRPOD_VM_PUBLIC_IP" providerType true)
        (providerEnv getenv "SANDRPOD_VM_SUBNET_ID" providerType)
        (providerEnv getenv "SANDRPOD_VM_SECURITY_GROUP" providerType).

(** [type CreateVMRequest struct] *)
Record CreateVMRequest := mkCreateVM {
  cv_name : string;
  cv_region : string;
  cv_instance_type : string;
  cv_image_id : string;
  cv_tags : list (string * string);
  cv_network : NetworkConfig;
  cv_api_url : string;
}.

(** [type VMInfo struct], the fields the scheduler reads. *)
Record VMInfo := mkVM { vm_id : string; vm_public_ip : string }.

(** [type CommandResult struct] *)
Record CommandResult := mkCmd { cr_output : string; cr_exit_code : Z; cr_stderr : string }.

(** What a provider answers: [vp_exec i] is the [i]-th remote command of a
    set-up, [vp_health] the health checks with the clock before each. *)
Record VMProvider := mkProvider {
  vp_create : CreateVMRequest → result VMInfo;
  vp_delete : string → option string;
  vp_health : nat → gotime * result bool;
  vp_exec : nat → string → string → result CommandResult;
}.

(** What the scheduler asks of a provider, in order. *)
Inductive VMEffect :=
| VMCreate (req : CreateVMRequest) (made : option string)
| VMExec (vm cmd : string)
| VMDelete (vm : string).

(** [type CreateSandboxRequest struct] *)
Record CreateSandboxRequest := mkCreate {
  cs_name : string;
  cs_region : string;
  cs_provider : string;
  cs_instance_type : string;
  cs_image_id : string;
  cs_ttl : Z;
  cs_cpu : f64;
  cs_memory : Z;
  cs_workspace : string;
  cs_async : bool;
  cs_network : option Policy;
}.

(** [type Scheduler struct] and the process-wide tables it works on. *)
Record Sched := mkSched {
  sc_api_url : string;
  sc_token : string;
  sc_book : provisionBook;
  sc_tenants : gmap string vmTenantEntry;
  sc_fx : list VMEffect;
}.

Definition sched_book (s : Sched) (b : provisionBook) : Sched :=
  mkSched (sc_api_url s) (sc_token s) b (sc_tenants s) (sc_fx s).
Definition sched_tenants (s : Sched) (m : gmap string vmTenantEntry) : Sched :=
  mkSched (sc_api_url s) (sc_token s) (sc_book s) m (sc_fx s).
Definition sched_fx (s : Sched) (f : VMEffect) : Sched :=
  mkSched (sc_api_url s) (sc_token s) (sc_book s) (sc_tenants s) (sc_fx s ++ [f]).

(** [func NewScheduler(poderStore, apiURL, token string)] *)
Definition NewScheduler (apiURL token : string) : Sched :=
  mkSched (if bool_decide (apiURL = "") then "http://localhost:8080" else apiURL) token ∅ ∅ [].

(** ** Shell text *)

Definition nl_str : string := str1 newline.

(** [func shellQuoteSingleValue(s string) string]: a loop over the runes. *)
Definition shellQuoteSingleValue (s : string) : string := escape_squotes (runes_of s).

(** [func truncate(s string, n int) string]: the last sign is one ellipsis. *)
Definition ellipsis : string :=
  String (ascii_of_nat 226) (String (ascii_of_nat 128) (str1 (ascii_of_nat 166))).
Definition truncate_text (s : string) (n : nat) : string :=
  if (String.length s <=? n)%nat then s else take_str n s +:+ ellipsis.

(** [func execOutput(r) string] *)
Definition execOutput (r : option CommandResult) : string :=
  match r with
  | None => "(no result)"
  | Some r =>
      let part label v := if bool_decide (trim_space v ≠ "") then [label +:+ truncate_text (trim_space v) 500] else [] in
      match (part "output: " (cr_output r) ++ part "stderr: " (cr_stderr r))%list with
      | [] => "(the command printed nothing)"
      | parts => join " | " parts
      end
  end.

(** [func orDefault(v, fallback string) string] *)
Definition orDefault (v fallback : string) : string := if bool_decide (v = "") then fallback else v.

(** ** Choosing a worker *)

Inductive SchedErr :=
| ErrPoderCapability (msg : string)
| ErrSched (msg : string).

Section Scheduler.
  Context {S : Type} `{PoderRepository S}.

(** [func capabilityRequirement(req) []string] *)
Definition capabilityRequirement (req : CreateSandboxRequest) : list string :=
  match cs_network req with
  | Some _ => [CapabilityEgress]
  | None => []
  end.

Definition matches_fleet (providerType region : string) (p : PoderInfo) : bool :=
  bool_decide (pd_state p = PoderStateOnline) &&
  negb (bool_decide (region ≠ "") && bool_decide (pd_region p ≠ region)) &&
  negb (bool_decide (providerType ≠ "") && bool_decide (pd_provider p ≠ providerType)).

(** [func (s Scheduler) onlineWithoutCapability(providerType, region, require) int] *)
Definition onlineWithoutCapability (st : S) (providerType region : string) (require : list string) : nat :=
  length (keep (λ p, matches_fleet providerType region p && any (λ cap, negb (HasCapability p cap)) require)
            (pr_List st)).

(** [func (s Scheduler) atCapacity(providerType, region string) int] *)
Definition atCapacity (st : S) (providerType region : string) : nat :=
  length (keep (λ p, matches_fleet providerType region p &&
                     bool_decide (rs_max_containers (pd_resources p) ≤ us_containers (pd_usage p))%Z)
            (pr_List st)).

(** A polling loop's outside: when it starts, and the clock and the store at
    each turn. *)
Record Wait := mkWait { wt_start : gotime; wt_poll : nat → gotime * S }.

Fixpoint wait_loop (fuel i : nat) (w : Wait) (deadline : gotime)
    (region providerType : string) (require : list string) (tenant : string) : option PoderInfo :=
  match fuel with
  | O => None
  | Datatypes.S fuel =>
      let '(now, st) := wt_poll w i in
      if negb (before now deadline) then None
      else match pr_SelectBestFor st region providerType require tenant with
           | Ok p => Some p
           | Err _ => wait_loop fuel (Datatypes.S i) w deadline region providerType require tenant
           end
  end.

(** One turn per interval, and the last one past the deadline. *)
Definition wait_fuel (timeout interval : Z) : nat := Datatypes.S (Datatypes.S (Z.to_nat (timeout / interval))).

(** [func (s Scheduler) waitForPoderRegistration(...)] *)
Definition waitForPoderRegistration (w : Wait) (providerType region : string) (timeout interval : Z)
    (require : list string) (tenant : string) : option PoderInfo :=
  wait_loop (wait_fuel timeout interval) 0 w (wt_start w + timeout) region providerType require tenant.

(** [func (s Scheduler) createJobForPoder(req, poder)] *)
Definition createJobForPoder (jobID : string) (now : gotime) (req : CreateSandboxRequest) (p : PoderInfo) : Job :=
  mkJob jobID JobTypeCreateSandbox JobStatusPending (cs_name req) "" (cs_region req) (cs_provider req)
    (pd_id p) (pd_url p) "" (cs_instance_type req) (cs_image_id req) "" "" None "" "" "" ∅ now now.

(** ** Provisioning *)

(** What a scheduling attempt reads from outside. [sn_factory i] is the [i]-th
    look-up of the provider. *)
Record SchedEnv := mkSchedEnv {
  sn_getenv : string → string;
  sn_factory : nat → string → result VMProvider;
  sn_first : S;
  sn_fleet : S;
  sn_grace_period : Z;
  sn_grace : Wait;
  sn_reserve_at : gotime;
  sn_other : Wait;
  sn_reserve_again : gotime;
  sn_created_at : gotime;
  sn_ready_start : gotime;
  sn_boot : Wait;
  sn_job_id : string;
  sn_clock : gotime;
}.

(** [func (s Scheduler) terminateOrphanVM(providerType, vmID string) string] *)
Definition terminateOrphanVM (env : SchedEnv) (s : Sched) (providerType vmID : string) : string * Sched :=
  let left := "VM " +:+ vmID +:+ " left running, terminate it by hand" in
  match sn_factory env 4 providerType with
  | Err _ => (left, s)
  | Ok p =>
      let s := sched_fx s (VMDelete vmID) in
      match vp_delete p vmID with
      | Some _ => (left, s)
      | None => ("VM " +:+ vmID +:+ " terminated", s)
      end
  end.

(** [func (s Scheduler) createVMWithProvider(ctx, providerType, req)] *)
Definition createVMWithProvider (env : SchedEnv) (s : Sched) (providerType : string)
    (req : CreateSandboxRequest) : result VMInfo * Sched :=
  match sn_factory env 0 providerType with
  | Err e => (Err e, s)
  | Ok p =>
      let net := vmNetworkConfig (sn_getenv env) providerType in
      let creq := mkCreateVM ("sandrpod-" +:+ cs_name req) (cs_region req) (cs_instance_type req)
                    (cs_image_id req) [("CreatedBy", "sandrpod"); ("Sandbox", cs_name req)] net (sc_api_url s) in
      match vp_create p creq with
      | Err e => (Err e, sched_fx s (VMCreate creq None))
      | Ok vm =>
          let s := sched_fx s (VMCreate creq (Some (vm_id vm))) in
          let s := sched_tenants s (RecordVMTenant (sn_created_at env) (sc_tenants s) (vm_id vm) (cs_workspace req)) in
          if nc_public_ip net && bool_decide (vm_public_ip vm = "")
          then (Err ("provider " +:+ providerType +:+ " created VM " +:+ vm_id vm +:+
                     " but reported no public IP before timeout — the VM may still be running and need manual cleanup"), s)
          else (Ok vm, s)
      end
  end.

Fixpoint ready_loop (fuel i : nat) (p : VMProvider) (deadline : gotime) : bool :=
  match fuel with
  | O => false
  | Datatypes.S fuel =>
      let '(now, r) := vp_health p i in
      if negb (before now deadline) then false
      else match r with
           | Ok true => true
           | _ => ready_loop fuel (Datatypes.S i) p deadline
           end
  end.

(** [func (s Scheduler) waitForVMReady(ctx, providerType, vmID) error] *)
Definition waitForVMReady (env : SchedEnv) (providerType vmID : string) : option string :=
  match sn_factory env 1 providerType with
  | Err e => Some e
  | Ok p =>
      if ready_loop (wait_fuel (5 * ns_minute) (10 * ns_second)) 0 p (sn_ready_start env + 5 * ns_minute)
      then None else Some ("timeout waiting for VM " +:+ vmID)
  end.

Definition q2 : string := str1 dquote.

(** The script that installs Docker. *)
Definition installDocker : string := join nl_str
  ["set -u";
   "timeout 180 cloud-init status --wait >/dev/null 2>&1 || true";
   "if ! command -v docker >/dev/null 2>&1; then";
   "  if curl -fsSL https://get.docker.com -o /tmp/get-docker.sh 2>/tmp/get-docker.err; then";
   "    sh /tmp/get-docker.sh >/tmp/docker-install.log 2>&1 || true";
   "  fi";
   "fi";
   "if ! command -v docker >/dev/null 2>&1; then";
   "  # Fallback for images where get.docker.com is unreachable: the distro package.";
   "  (apt-get update -qq && DEBIAN_FRONTEND=noninteractive apt-get install -y -qq docker.io) >/tmp/docker-install.log 2>&1 || true";
   "fi";
   "systemctl enable --now docker >/dev/null 2>&1 || true";
   "docker --version ||";
   "  { echo " +:+ q2 +:+ "docker still missing" +:+ q2 +:+
     "; tail -5 /tmp/get-docker.err /tmp/docker-install.log 2>/dev/null; exit 1; }"].

(** A value between single quotes. *)
Definition quoted (v : string) : string := "'" +:+ shellQuoteSingleValue v +:+ "'".

Definition docker_pull (image : string) : string := "docker pull " +:+ quoted image +:+ " 2>&1 | tail -3".

(** The command that starts the worker's container. *)
Definition poderStartCmd (env : SchedEnv) (s : Sched) (providerType region : string) (vm : VMInfo) : string :=
  let tb := providerEnv (sn_getenv env) "SANDRPOD_TOOLBOX_IMAGE" providerType in
  let opt name v := if bool_decide (v ≠ "") then " -e " +:+ name +:+ "=" +:+ quoted v else "" in
  "docker run -d --name sandrpod-poder --restart=always -e API_URL=" +:+ quoted (sc_api_url s)
  +:+ " -e PROXY_HOST=" +:+ quoted (vm_public_ip vm) +:+ " -e REGION=" +:+ quoted region
  +:+ " -e PROVIDER_TYPE=" +:+ quoted providerType
  +:+ opt "SANDRPOD_TOOLBOX_IMAGE" tb +:+ opt "SANDRPOD_TOKEN" (sc_token s) +:+ opt "VM_INSTANCE_ID" (vm_id vm)
  +:+ " -v /var/run/docker.sock:/var/run/docker.sock " +:+ quoted (poderImage (sn_getenv env) providerType).

(** One remote command: its effect, and its answer. *)
Definition run_cmd (p : VMProvider) (i : nat) (s : Sched) (vm cmd : string) : result CommandResult * Sched :=
  (vp_exec p i vm cmd, sched_fx s (VMExec vm cmd)).

Definition cmd_ok (r : result CommandResult) : bool :=
  match r with
  | Ok c => bool_decide (cr_exit_code c = 0%Z)
  | Err _ => false
  end.
Definition cmd_result (r : result CommandResult) : option CommandResult :=
  match r with
  | Ok c => Some c
  | Err _ => None
  end.

(** A command that must succeed: the message of its failure. *)
Definition must_run (what failed : string) (r : result CommandResult) : option string :=
  match r with
  | Err e => Some ("failed to " +:+ what +:+ ": " +:+ e)
  | Ok c => if bool_decide (cr_exit_code c ≠ 0%Z)
            then Some (failed +:+ " (exit " +:+ itoa (cr_exit_code c) +:+ "): " +:+ execOutput (Some c))
            else None
  end.

(** [func (s Scheduler) setupPoderOnVM(ctx, providerType, region, vm) error] *)
Definition setupPoderOnVM (env : SchedEnv) (s : Sched) (providerType region : string) (vm : VMInfo)
    : option string * Sched :=
  match sn_factory env 2 providerType with
  | Err e => (Some e, s)
  | Ok p =>
      let '(r, s) := run_cmd p 0 s (vm_id vm) installDocker in
      match must_run "install docker" "docker install failed" r with
      | Some e => (Some e, s)
      | None =>
          let cmd := poderStartCmd env s providerType region vm in
          let tb := providerEnv (sn_getenv env) "SANDRPOD_TOOLBOX_IMAGE" providerType in
          let '(pulled, s) :=
            if bool_decide (tb ≠ "") then
              let '(r, s) := run_cmd p 1 s (vm_id vm) (docker_pull tb) in
              (if cmd_ok r then None
               else Some ("pre-pulling " +:+ tb +:+ " failed (" +:+ execOutput (cmd_result r) +:+ ")"), s)
            else (None, s) in
          match pulled with
          | Some e => (Some e, s)
          | None =>
              let eg := providerEnv (sn_getenv env) "SANDRPOD_EGRESS_IMAGE" providerType in
              let s := if bool_decide (eg ≠ "") then snd (run_cmd p 2 s (vm_id vm) (docker_pull eg)) else s in
              let '(r, s) := run_cmd p 3 s (vm_id vm) cmd in
              (must_run "start poder" "poder start failed" r, s)
          end
      end
  end.

(** The diagnosis asked of a machine that never registered. *)
Definition probe_vm (env : SchedEnv) (s : Sched) (providerType vmID : string) : Sched :=
  match sn_factory env 3 providerType with
  | Err _ => s
  | Ok p => snd (run_cmd p 4 s vmID
      "docker ps -a --format '{{.Names}} {{.Status}}'; echo '--- logs ---'; docker logs --tail 30 sandrpod-poder 2>&1")
  end.

(** ** Scheduling *)

(** Steps 3 to 7 of [ScheduleSandboxCreation], with the claim held: a machine is
    made, readied, set up and awaited; a failure gives it back. *)
Definition provision (env : SchedEnv) (s : Sched) (providerType : string) (req : CreateSandboxRequest)
    : (PoderInfo + string) * Sched :=
  match createVMWithProvider env s providerType req with
  | (Err e, s) => (inr ("failed to create VM: " +:+ e), s)
  | (Ok vm, s) =>
      let give_back s what := let '(t, s) := terminateOrphanVM env s providerType (vm_id vm) in
                              (inr (what +:+ " (" +:+ t +:+ ")"), s) in
      match waitForVMReady env providerType (vm_id vm) with
      | Some e => give_back s ("VM not ready: " +:+ e)
      | None =>
          match setupPoderOnVM env s providerType (cs_region req) vm with
          | (Some e, s) => give_back s ("failed to setup poder: " +:+ e)
          | (None, s) =>
              match waitForPoderRegistration (sn_boot env) providerType (cs_region req)
                      (5 * ns_minute) (5 * ns_second) (capabilityRequirement req) (cs_workspace req) with
              | None => give_back (probe_vm env s providerType (vm_id vm)) "poder registration timeout"
              | Some p => (inl p, s)
              end
          end
      end
  end.

Definition scheduled (env : SchedEnv) (req : CreateSandboxRequest) (p : PoderInfo) : Job :=
  createJobForPoder (sn_job_id env) (sn_clock env) req p.

(** The [local] and [docker] branch: no machine can be provisioned. *)
Definition schedule_local (env : SchedEnv) (providerType : string) (req : CreateSandboxRequest)
    : (PoderInfo + SchedErr) :=
  let require := capabilityRequirement req in
  let lacking := if bool_decide (require = []) then 0
                 else onlineWithoutCapability (sn_fleet env) providerType (cs_region req) require in
  if (0 <? lacking)%nat then
    inr (ErrPoderCapability ("this sandbox asks for an egress policy, but " +:+ itoa (Z.of_nat lacking) +:+
      " online " +:+ providerType +:+ " worker(s) do not support it"))
  else
    let full := atCapacity (sn_fleet env) providerType (cs_region req) in
    if (0 <? full)%nat then
      inr (ErrSched ("no available " +:+ providerType +:+ " poder found — " +:+ itoa (Z.of_nat full) +:+
        " worker(s) online but at their container limit; stop idle sandboxes, raise the worker's limit, or add a worker"))
    else match waitForPoderRegistration (sn_grace env) providerType (cs_region req) (sn_grace_period env)
                 (ns_second / 2) require (cs_workspace req) with
         | Some p => inl p
         | None => inr (ErrSched ("no available " +:+ providerType +:+
                     " poder found — the control plane is running but no worker registered"))
         end.

(** The worker chosen by one attempt, or why there is none. *)
Definition place (env : SchedEnv) (s : Sched) (req : CreateSandboxRequest) : (PoderInfo + SchedErr) * Sched :=
  let providerType := orDefault (cs_provider req) "local" in
  let require := capabilityRequirement req in
  match pr_SelectBestFor (sn_first env) (cs_region req) providerType require (cs_workspace req) with
  | Ok p => (inl p, s)
  | Err _ =>
      if bool_decide (providerType = "local") || bool_decide (providerType = "docker")
      then (schedule_local env providerType req, s)
      else
        let key := provisioningKey providerType (cs_region req) in
        let '(mine, book) := reserve (sn_reserve_at env) (sc_book s) key in
        let s := sched_book s book in
        let waited := if mine then None
                      else waitForPoderRegistration (sn_other env) providerType (cs_region req)
                             provisioningTTL (5 * ns_second) require (cs_workspace req) in
        match waited with
        | Some p => (inl p, s)
        | None =>
            let s := if mine then s else sched_book s (snd (reserve (sn_reserve_again env) (sc_book s) key)) in
            let '(r, s) := provision env s providerType req in
            let s := sched_book s (release (sc_book s) key) in
            (match r with inl p => inl p | inr e => inr (ErrSched e) end, s)
        end
  end.

(** [func (s Scheduler) ScheduleSandboxCreation(ctx, req) (Job, error)] *)
Definition ScheduleSandboxCreation (env : SchedEnv) (s : Sched) (req : CreateSandboxRequest)
    : (Job + SchedErr) * Sched :=
  match place env s req with
  | (inl p, s) => (inl (scheduled env req p), s)
  | (inr e, s) => (inr e, s)
  end.
End Scheduler.

(** ** Shell words *)

#[local] Arguments String.append : simpl nomatch.

(** no shell injection. Whatever a value is (an API token, an image name, a
    region), the shell reads its quoted form back as the runes of that value, inside one
    word and with nothing left to interpret, and goes on reading right after it; a value
    in ASCII comes back byte for byte. *)
Theorem quoted_roundtrip (v t : string) :
  sh_word false (quoted v +:+ t) = (λ r, (runes_of v +:+ fst r, snd r)) <$> sh_word false t ∧
  (∀ rest, sh_word false (quoted v +:+ " " +:+ rest) = Some (runes_of v, " " +:+ rest)) ∧
  ((∀ c, mem_char c v = true → code c <= 127) → runes_of v = v).
Proof.
  split_and!; [apply sh_word_quoted| |apply runes_ascii]. intros rest. by apply sh_word_q.
Qed.

(** ** Lemmas *)

Section Facts.
  Context {S : Type} `{PoderRepositoryLaws S}.

(** The stores one attempt may look into. *)
Definition read_by (env : SchedEnv (S := S)) (st : S) : Prop :=
  st = sn_first env ∨
  ∃ w i, (w = sn_grace env ∨ w = sn_other env ∨ w = sn_boot env) ∧ st = snd (wt_poll w i).

Lemma wait_loop_Some fuel i w deadline region providerType require tenant p :
  wait_loop fuel i w deadline region providerType require tenant = Some p →
  ∃ j, i <= j ∧ (fst (wt_poll w j) < deadline)%Z ∧
       pr_SelectBestFor (snd (wt_poll w j)) region providerType require tenant = Ok p.
Proof.
  revert i; induction fuel as [|fuel IH]; intros i Hw; simpl in Hw; [done|].
  destruct (wt_poll w i) as [now st] eqn:Ew. destruct (before now deadline) eqn:Eb; simpl in Hw; [|done].
  destruct (pr_SelectBestFor _ _ _ _ _) as [p'|] eqn:Es.
  - injection Hw as <-. exists i. rewrite Ew. unfold before in Eb. simpl_bool. auto.
  - destruct (IH _ Hw) as (j & ? & ?). exists j. split; [lia|done].
Qed.

(** Once the clock of the polls is paced by the sleep, more turns change nothing. *)
Lemma wait_loop_fuel w deadline region providerType require tenant interval : (0 < interval)%Z →
  (∀ i, (fst (wt_poll w i) + interval ≤ fst (wt_poll w (Datatypes.S i)))%Z) →
  ∀ fuel fuel' i, (deadline - fst (wt_poll w i) < Z.of_nat fuel * interval)%Z → fuel <= fuel' →
  wait_loop fuel' i w deadline region providerType require tenant =
  wait_loop fuel i w deadline region providerType require tenant.
Proof.
  intros Hint Hpace. induction fuel as [|fuel IH]; intros fuel' i Hf Hle.
  - destruct fuel' as [|fuel']; [done|]. simpl. destruct (wt_poll w i) as [now st]. simpl in Hf.
    unfold before. rewrite bool_decide_eq_false_2 by lia. done.
  - destruct fuel' as [|fuel']; [lia|]. simpl. pose proof (Hpace i) as Hi.
    destruct (wt_poll w i) as [now st]. destruct (negb (before now deadline)); [done|].
    destruct (pr_SelectBestFor _ _ _ _ _); [done|]. simpl in Hi, Hf. apply IH; [lia|lia].
Qed.

Lemma provision_Some env s providerType req p s' :
  provision env s providerType req = (inl p, s') →
  waitForPoderRegistration (sn_boot env) providerType (cs_region req) (5 * ns_minute) (5 * ns_second)
    (capabilityRequirement req) (cs_workspace req) = Some p.
Proof.
  unfold provision. destruct (createVMWithProvider _ _ _ _) as [[vm|e] s1]; [|done].
  destruct (terminateOrphanVM _ _ _ _) as [t s2]. destruct (waitForVMReady _ _ _); [done|].
  destruct (setupPoderOnVM _ _ _ _ _) as [[e|] s3]; [by destruct (terminateOrphanVM _ s3 _ _)|].
  destruct (waitForPoderRegistration _ _ _ _ _ _ _) as [p'|]; [by intros [= -> _]|].
  by destruct (terminateOrphanVM _ _ _ _).
Qed.

(** Wherever the worker of an attempt comes from, the full selection chose it. *)
Lemma place_selected env s req p s' :
  place env s req = (inl p, s') →
  ∃ st, read_by env st ∧
    pr_SelectBestFor st (cs_region req) (orDefault (cs_provider req) "local")
      (capabilityRequirement req) (cs_workspace req) = Ok p.
Proof.
  assert (Hwait : ∀ w providerType timeout interval,
    (w = sn_grace env ∨ w = sn_other env ∨ w = sn_boot env) →
    waitForPoderRegistration w providerType (cs_region req) timeout interval
      (capabilityRequirement req) (cs_workspace req) = Some p →
    ∃ st, read_by env st ∧ pr_SelectBestFor st (cs_region req) providerType
      (capabilityRequirement req) (cs_workspace req) = Ok p).
  { intros w pt t i Hw Hp. apply wait_loop_Some in Hp as (j & _ & _ & Hj).
    exists (snd (wt_poll w j)). split; [|done]. right. by exists w, j. }
  unfold place. set (pt := orDefault _ _).
  destruct (pr_SelectBestFor (sn_first env) _ _ _ _) as [p0|] eqn:E0.
  { intros [= -> _]. exists (sn_first env). split; [by left|done]. }
  destruct (bool_decide (pt = "local") || bool_decide (pt = "docker")).
  { unfold schedule_local. destruct (0 <? _); [done|]. destruct (0 <? _); [done|].
    destruct (waitForPoderRegistration _ _ _ _ _ _ _) eqn:Ew; [|done]. intros [= -> _].
    eapply Hwait; [|exact Ew]. auto. }
  destruct (reserve _ _ _) as [mine book].
  destruct (if mine then None else _) as [p1|] eqn:Ew.
  { intros [= -> _]. destruct mine; [done|]. eapply Hwait; [|exact Ew]. auto. }
  destruct (provision _ _ _ _) as [[p1|e] s1] eqn:Ep; [|done]. intros [= -> _].
  apply provision_Some in Ep. eapply Hwait; [|exact Ep]. auto.
Qed.
End Facts.

(** ** What is asked of the provider *)

Section Effects.
  Context {S : Type} `{PoderRepository S}.

(** A run that only executes commands on one machine. *)
Definition only_exec (s s' : Sched) (vm : string) : Prop :=
  sc_book s' = sc_book s ∧
  ∃ l, sc_fx s' = (sc_fx s ++ l)%list ∧ ∀ f, f ∈ l → ∃ cmd, f = VMExec vm cmd.

Lemma only_exec_refl s vm : only_exec s s vm.
Proof. split; [done|]. exists []. rewrite app_nil_r. split; [done|]. set_solver. Qed.

Lemma only_exec_cmd s s' vm p i cmd : only_exec s s' vm → only_exec s (snd (run_cmd p i s' vm cmd)) vm.
Proof.
  intros (Hb & l & Hl & Hf). split; [done|]. exists (l ++ [VMExec vm cmd])%list. simpl.
  rewrite Hl, app_assoc. split; [done|]. intros f [?|Hin]%elem_of_app; [by apply Hf|].
  apply list_elem_of_singleton in Hin as ->. by eexists.
Qed.

Lemma setup_only_exec (env : SchedEnv (S := S)) s providerType region vm :
  only_exec s (snd (setupPoderOnVM env s providerType region vm)) (vm_id vm).
Proof.
  unfold setupPoderOnVM. destruct (sn_factory _ _ _) as [p|]; [|apply only_exec_refl].
  pose proof (only_exec_cmd s s (vm_id vm) p 0 installDocker (only_exec_refl s _)) as H1.
  destruct (run_cmd p 0 s _ _) as [r s1]. simpl in H1.
  destruct (must_run _ _ _); [done|].
  set (tb := providerEnv _ "SANDRPOD_TOOLBOX_IMAGE" _). set (eg := providerEnv _ "SANDRPOD_EGRESS_IMAGE" _).
  pose proof (only_exec_cmd s s1 (vm_id vm) p 1 (docker_pull tb) H1) as H2.
  assert (Htail : ∀ s2, only_exec s s2 (vm_id vm) → only_exec s (snd (
    let s3 := if bool_decide (eg ≠ "") then snd (run_cmd p 2 s2 (vm_id vm) (docker_pull eg)) else s2 in
    let '(r, s4) := run_cmd p 3 s3 (vm_id vm) (poderStartCmd env s1 providerType region vm) in
    (must_run "start poder" "poder start failed" r, s4))) (vm_id vm)).
  { intros s2 Hs2. cbv zeta.
    assert (H3 : only_exec s (if bool_decide (eg ≠ "") then snd (run_cmd p 2 s2 (vm_id vm) (docker_pull eg)) else s2) (vm_id vm))
      by (case_bool_decide; [by apply only_exec_cmd|done]).
    pose proof (only_exec_cmd _ _ _ p 3 (poderStartCmd env s1 providerType region vm) H3) as H4.
    by destruct (run_cmd p 3 _ _ _). }
  destruct (bool_decide (tb ≠ "")).
  - destruct (run_cmd p 1 s1 _ _) as [r2 s2]. simpl in H2. destruct (cmd_ok r2); [by apply Htail|done].
  - by apply Htail.
Qed.

Lemma probe_only_exec (env : SchedEnv (S := S)) s s0 providerType vmID :
  only_exec s0 s vmID → only_exec s0 (probe_vm env s providerType vmID) vmID.
Proof.
  intros Hs. unfold probe_vm. destruct (sn_factory _ _ _); [by apply only_exec_cmd|done].
Qed.

(** The provider deletes the machine when asked to, or it stays: there is no provider to
    ask, or it refuses. *)
Definition vm_deleted (env : SchedEnv (S := S)) (providerType vm : string) : Prop :=
  ∃ p, sn_factory env 4 providerType = Ok p ∧ vp_delete p vm = None.
Definition vm_stays (env : SchedEnv (S := S)) (providerType vm : string) (fx : list VMEffect) : Prop :=
  (∃ e, sn_factory env 4 providerType = Err e) ∨
  ∃ p e, sn_factory env 4 providerType = Ok p ∧ VMDelete vm ∈ fx ∧ vp_delete p vm = Some e.

(** What may have become of a machine that was made. *)
Definition vm_accounted (env : SchedEnv (S := S)) (providerType : string) (ok : bool) (fx : list VMEffect) : Prop :=
  (∀ creq vm, VMCreate creq (Some vm) ∈ fx →
     ok = true ∨ VMDelete vm ∈ fx ∧ vm_deleted env providerType vm ∨ vm_stays env providerType vm fx ∨
     (nc_public_ip (cv_network creq) = true ∧ fx = [VMCreate creq (Some vm)] ∧
      ∃ p v, sn_factory env 0 providerType = Ok p ∧ vp_create p creq = Ok v ∧ vm_public_ip v = "")) ∧
  (∀ vm, VMDelete vm ∈ fx → ok = false ∧ ∃ creq, VMCreate creq (Some vm) ∈ fx) ∧
  length (keep (λ f, match f with VMCreate _ _ => true | _ => false end) fx) <= 1.

Lemma vm_accounted_nil (env : SchedEnv (S := S)) pt ok : vm_accounted env pt ok [].
Proof. split_and!; [set_solver|set_solver|simpl; lia]. Qed.

Lemma keep_exec vm l : (∀ f, f ∈ l → ∃ cmd, f = VMExec vm cmd) →
  keep (λ f, match f with VMCreate _ _ => true | _ => false end) l = [].
Proof.
  induction l as [|f l IH]; intros Hl; [done|]. simpl.
  destruct (Hl f) as [cmd ->]; [by left|]. apply IH. intros g Hg. apply Hl. by right.
Qed.

Lemma accounted_kept (env : SchedEnv (S := S)) pt creq vm l :
  (∀ f, f ∈ l → ∃ cmd, f = VMExec vm cmd) → vm_accounted env pt true (VMCreate creq (Some vm) :: l).
Proof.
  intros Hl. split_and!; [by left| |by simpl; rewrite (keep_exec vm)].
  intros v [?|Hv]%elem_of_cons; [done|]. by destruct (Hl _ Hv).
Qed.

Lemma accounted_returned (env : SchedEnv (S := S)) pt s s' creq vm l t s'' :
  sc_fx s' = (sc_fx s ++ VMCreate creq (Some vm) :: l)%list →
  (∀ f, f ∈ l → ∃ cmd, f = VMExec vm cmd) →
  terminateOrphanVM env s' pt vm = (t, s'') →
  sc_book s'' = sc_book s' ∧
  ∃ fx, sc_fx s'' = (sc_fx s ++ fx)%list ∧ vm_accounted env pt false fx.
Proof.
  intros Hs' Hl Ht. unfold terminateOrphanVM in Ht.
  destruct (sn_factory env 4 pt) as [p|e] eqn:Ef.
  - assert (Hs'' : sc_fx s'' = (sc_fx s' ++ [VMDelete vm])%list ∧ sc_book s'' = sc_book s')
      by (destruct (vp_delete p vm); by injection Ht as _ <-).
    destruct Hs'' as [Hfx Hb]. split; [done|].
    exists (VMCreate creq (Some vm) :: l ++ [VMDelete vm])%list. split.
    { rewrite Hfx, Hs', <- app_assoc. done. }
    split_and!.
    + intros c v [[= -> ->]|[Hin|Hin]%elem_of_app]%elem_of_cons.
      * right. destruct (vp_delete p vm) as [e|] eqn:Ed.
        { right. left. right. exists p, e. set_solver. }
        left. split; [set_solver|by exists p].
      * by destruct (Hl _ Hin).
      * by apply list_elem_of_singleton in Hin.
    + intros v [?|[Hin|Hin]%elem_of_app]%elem_of_cons; [done|by destruct (Hl _ Hin)|].
      apply list_elem_of_singleton in Hin as [= ->]. split; [done|]. exists creq. by left.
    + simpl. rewrite keep_app, (keep_exec vm) by done. simpl. lia.
  - injection Ht as _ <-. split; [done|]. exists (VMCreate creq (Some vm) :: l)%list. split; [done|]. split_and!.
    + intros c v [[= -> ->]|Hin]%elem_of_cons; [|by destruct (Hl _ Hin)]. right. right. left. left. by exists e.
    + intros v [?|Hin]%elem_of_cons; [done|by destruct (Hl _ Hin)].
    + simpl. by rewrite (keep_exec vm).
Qed.

Lemma provision_accounted (env : SchedEnv (S := S)) s pt req r s' :
  provision env s pt req = (r, s') →
  sc_book s' = sc_book s ∧
  ∃ fx, sc_fx s' = (sc_fx s ++ fx)%list ∧
        vm_accounted env pt (match r with inl _ => true | inr _ => false end) fx.
Proof.
  unfold provision, createVMWithProvider. intros Hp.
  destruct (sn_factory env 0 pt) as [p|e] eqn:Ef.
  2:{ injection Hp as <- <-. split; [done|]. exists []. rewrite app_nil_r. split; [done|apply vm_accounted_nil]. }
  set (net := vmNetworkConfig _ _) in Hp. set (creq := mkCreateVM _ _ _ _ _ net _) in Hp.
  destruct (vp_create p creq) as [vm|e] eqn:Ec.
  2:{ injection Hp as <- <-. split; [done|]. exists [VMCreate creq None]. split; [done|].
      split_and!; [set_solver|set_solver|simpl; lia]. }
  destruct (nc_public_ip net && bool_decide (vm_public_ip vm = "")) eqn:Eip.
  { injection Hp as <- <-. split; [done|]. exists [VMCreate creq (Some (vm_id vm))]. split; [done|].
    apply andb_true_iff in Eip as [En Ev]. simpl_bool. split_and!; [|set_solver|simpl; lia].
    intros c v Hin%list_elem_of_singleton. injection Hin as -> ->. right. right. right.
    split_and!; [done|done|]. by exists p, vm. }
  set (s1 := sched_tenants _ _) in Hp.
  assert (Hs1 : sc_fx s1 = (sc_fx s ++ VMCreate creq (Some (vm_id vm)) :: [])%list ∧ sc_book s1 = sc_book s) by done.
  destruct Hs1 as [Hfx1 Hb1].
  assert (Hgive : ∀ s2 l what r' s3, sc_book s2 = sc_book s →
      sc_fx s2 = (sc_fx s ++ VMCreate creq (Some (vm_id vm)) :: l)%list →
      (∀ f, f ∈ l → ∃ cmd, f = VMExec (vm_id vm) cmd) →
      (let '(t, s3) := terminateOrphanVM env s2 pt (vm_id vm) in
       (@inr PoderInfo _ (what +:+ " (" +:+ t +:+ ")"), s3)) = (r', s3) →
      sc_book s3 = sc_book s ∧ ∃ fx, sc_fx s3 = (sc_fx s ++ fx)%list ∧
        vm_accounted env pt (match r' with inl _ => true | inr _ => false end) fx).
  { intros s2 l what r' s3 Hb2 Hf2 Hl2 Heq.
    destruct (terminateOrphanVM env s2 pt (vm_id vm)) as [t s4] eqn:Et. injection Heq as <- <-.
    destruct (accounted_returned _ _ _ _ _ _ _ _ _ Hf2 Hl2 Et) as (Hb3 & fx & ? & ?).
    split; [congruence|]. by exists fx. }
  destruct (waitForVMReady env pt (vm_id vm)) as [e|].
  { eapply (Hgive s1 []); [done|exact Hfx1|set_solver|exact Hp]. }
  pose proof (setup_only_exec env s1 pt (cs_region req) vm) as Hset.
  destruct (setupPoderOnVM env s1 pt (cs_region req) vm) as [o s2]. simpl in Hset.
  assert (Hexec : ∀ s3, only_exec s1 s3 (vm_id vm) → sc_book s3 = sc_book s ∧ ∃ l,
     sc_fx s3 = (sc_fx s ++ VMCreate creq (Some (vm_id vm)) :: l)%list ∧
     ∀ f, f ∈ l → ∃ cmd, f = VMExec (vm_id vm) cmd).
  { intros s3 (Hb & l & Hl & ?). split; [by rewrite Hb|]. exists l. split; [|done].
    rewrite Hl, Hfx1, <- app_assoc. done. }
  destruct o as [e|].
  { destruct (Hexec _ Hset) as (Hb2 & l & Hl & Hf). by eapply Hgive. }
  destruct (waitForPoderRegistration _ _ _ _ _ _ _) as [pd|].
  - injection Hp as <- <-. destruct (Hexec _ Hset) as (Hb2 & l & Hl & Hf). split; [done|].
    eexists. split; [exact Hl|]. by apply accounted_kept.
  - destruct (Hexec _ (probe_only_exec env s2 s1 pt (vm_id vm) Hset)) as (Hb2 & l & Hl & Hf). by eapply Hgive.
Qed.
End Effects.

Section Waiting.
  Context {S : Type} `{PoderRepository S}.

Lemma wait_loop_hit (w : Wait (S := S)) deadline region providerType require tenant : ∀ fuel i j p,
  (∀ k, i <= k → k <= j → (fst (wt_poll w k) < deadline)%Z) → i <= j → j < i + fuel →
  pr_SelectBestFor (snd (wt_poll w j)) region providerType require tenant = Ok p →
  is_Some (wait_loop fuel i w deadline region providerType require tenant).
Proof.
  induction fuel as [|fuel IH]; intros i j p Hk Hij Hf Hp; [lia|]. simpl.
  pose proof (Hk i (Nat.le_refl i) Hij) as Hi. destruct (wt_poll w i) as [now st] eqn:Ew. simpl in Hi.
  unfold before. rewrite bool_decide_eq_true_2 by done. simpl.
  destruct (pr_SelectBestFor st region providerType require tenant) eqn:Es; [by eexists|].
  destruct (decide (i = j)) as [<-|Hne]; [rewrite Ew in Hp; simpl in Hp; congruence|].
  apply (IH (Datatypes.S i) j p); [|lia|lia|exact Hp]. intros k ? ?. apply Hk; lia.
Qed.

Lemma paced_mono (w : Wait (S := S)) interval : (0 < interval)%Z →
  (∀ i, (fst (wt_poll w i) + interval ≤ fst (wt_poll w (Datatypes.S i)))%Z) →
  ∀ i j, i <= j → (fst (wt_poll w i) ≤ fst (wt_poll w j))%Z.
Proof.
  intros Hint Hp i j Hij. induction Hij as [|j Hij IH]; [lia|]. specialize (Hp j). lia.
Qed.

(** C40: the wait ends, and misses nothing. When every turn of the polling loop
    is at least one interval after the one before, the loop stops within the
    turns the timeout allows, and it finds a worker exactly when at some turn
    before the deadline the full selection would have found one. *)
Theorem wait_finds (w : Wait (S := S)) (providerType region : string) (timeout interval : Z)
    (require : list string) (tenant : string) :
  (0 < interval)%Z → (0 ≤ timeout)%Z → (wt_start w ≤ fst (wt_poll w 0))%Z →
  (∀ i, (fst (wt_poll w i) + interval ≤ fst (wt_poll w (Datatypes.S i)))%Z) →
  (∀ fuel, wait_fuel timeout interval <= fuel →
     wait_loop fuel 0 w (wt_start w + timeout) region providerType require tenant =
     waitForPoderRegistration w providerType region timeout interval require tenant) ∧
  (is_Some (waitForPoderRegistration w providerType region timeout interval require tenant) ↔
   ∃ i p, (fst (wt_poll w i) < wt_start w + timeout)%Z ∧
          pr_SelectBestFor (snd (wt_poll w i)) region providerType require tenant = Ok p).
Proof.
  intros Hint Ht Hstart Hp. unfold waitForPoderRegistration.
  assert (Hfuel : ∀ fuel, wait_fuel timeout interval <= fuel →
     wait_loop fuel 0 w (wt_start w + timeout) region providerType require tenant =
     wait_loop (wait_fuel timeout interval) 0 w (wt_start w + timeout) region providerType require tenant).
  { intros fuel Hf. eapply wait_loop_fuel; [exact Hint|exact Hp| |exact Hf]. unfold wait_fuel.
    assert (0 ≤ timeout / interval)%Z by (apply Z.div_pos; lia).
    rewrite !Nat2Z.inj_succ, Z2Nat.id by done.
    pose proof (Z.mul_succ_div_gt timeout interval Hint). lia. }
  split; [exact Hfuel|]. split.
  - intros [p Hw]. apply wait_loop_Some in Hw as (j & _ & ? & ?). by exists j, p.
  - intros (j & p & Hj & Hsel).
    rewrite <- (Hfuel (Nat.max (wait_fuel timeout interval) (Datatypes.S j))) by lia.
    eapply wait_loop_hit; [|apply Nat.le_0_l| |exact Hsel]; [|lia].
    intros k _ Hk. pose proof (paced_mono w interval Hint Hp k j Hk). lia.
Qed.
End Waiting.

(** A store a worker joins at the third turn. *)
Definition demo_store (l : list PoderInfo) : ordered_store :=
  let m : PoderStore := list_to_map ((λ p, (pd_id p, p)) <$> l) in mkOrdered m (poders m) (reflexivity _).
Definition demo_wait : Wait (S := ordered_store) :=
  mkWait 0 (λ i, ((5 * ns_second * Z.of_nat i)%Z,
                  demo_store (if 2 <=? i then [demo_poder "late" 0] else []))).

Lemma wait_finds_witness :
  is_Some (waitForPoderRegistration demo_wait "aws" "eu" ns_minute (5 * ns_second) [] "") ∧
  ∃ i p, (fst (wt_poll demo_wait i) < wt_start demo_wait + ns_minute)%Z ∧
         pr_SelectBestFor (snd (wt_poll demo_wait i)) "eu" "aws" [] "" = Ok p.
Proof.
  assert (Hs : is_Some (waitForPoderRegistration demo_wait "aws" "eu" ns_minute (5 * ns_second) [] ""))
    by (vm_compute; eauto).
  split; [exact Hs|].
  assert (H1 : (0 < 5 * ns_second)%Z) by (vm_compute; reflexivity).
  assert (H2 : (0 ≤ ns_minute)%Z) by (vm_compute; discriminate).
  assert (H3 : (wt_start demo_wait ≤ fst (wt_poll demo_wait 0))%Z) by (vm_compute; discriminate).
  assert (H4 : ∀ i, (fst (wt_poll demo_wait i) + 5 * ns_second ≤ fst (wt_poll demo_wait (S i)))%Z).
  { intros i. unfold demo_wait. cbn [wt_poll fst]. lia. }
  apply (wait_finds demo_wait "aws" "eu" ns_minute (5 * ns_second) [] "" H1 H2 H3 H4). exact Hs.
Defined.

(** C13: placement is never loosened. Whichever way an attempt finds a worker
    (at once, in the grace period, waiting for another attempt, after making a
    machine), the job it returns targets a worker that was on record, online, in
    the requested region, of the requested provider ([local] when none is named),
    below its container limit, of the caller's workspace or unscoped, and able
    to enforce an egress policy when the sandbox has one. *)
Theorem placement_respected {S : Type} `{PoderRepositoryLaws S} (env : SchedEnv (S := S)) (s s' : Sched)
    (req : CreateSandboxRequest) (job : Job) :
  ScheduleSandboxCreation env s req = (inl job, s') →
  ∃ st p, read_by env st ∧ p ∈ pr_List st ∧
    jb_poder_id job = pd_id p ∧ jb_poder_url job = pd_url p ∧ jb_sandbox job = cs_name req ∧
    jb_status job = JobStatusPending ∧
    pd_state p = PoderStateOnline ∧ (cs_region req = "" ∨ pd_region p = cs_region req) ∧
    pd_provider p = orDefault (cs_provider req) "local" ∧
    (us_containers (pd_usage p) < rs_max_containers (pd_resources p))%Z ∧
    (cs_workspace req = "" ∨ pd_workspace p = "" ∨ pd_workspace p = cs_workspace req) ∧
    (cs_network req ≠ None → HasCapability p CapabilityEgress = true).
Proof.
  unfold ScheduleSandboxCreation. destruct (place env s req) as [[p|e] s1] eqn:Ep; [|done].
  intros [= <- _]. apply place_selected in Ep as (st & Hst & Hsel).
  apply pr_select_sound in Hsel as [Hin He]. apply eligible_spec in He as (H1 & H2 & H3 & H4 & H5 & H6).
  exists st, p. split_and!; try done.
  - destruct H3 as [H3|H3]; [|done]. unfold orDefault in H3. case_bool_decide; [done|by simpl in H3].
  - intros Hn. apply HasCapability_spec, H6. unfold capabilityRequirement. destruct (cs_network req); [by left|done].
Qed.

Definition demo_policy_req : CreateSandboxRequest :=
  mkCreate "sb" "eu" "aws" "t3" "" 0 f_zero 0 "" false (Some (mkPolicy ["*"] [] ∅ [] false)).
Definition demo_sched_env (first : list PoderInfo) : SchedEnv (S := ordered_store) :=
  mkSchedEnv (λ _, "") (λ _ _, Err "no provider") (demo_store first) (demo_store first) (30 * ns_second)
    demo_wait 0 demo_wait 0 0 0 demo_wait "job-1" 7.

Lemma placement_respected_witness :
  ∃ job s', ScheduleSandboxCreation (demo_sched_env [demo_poder "p" 3]) (NewScheduler "" "") demo_policy_req
              = (inl job, s') ∧
  ∃ st p, read_by (demo_sched_env [demo_poder "p" 3]) st ∧ p ∈ pr_List st ∧ jb_poder_id job = pd_id p.
Proof.
  destruct (ScheduleSandboxCreation (demo_sched_env [demo_poder "p" 3]) (NewScheduler "" "") demo_policy_req)
    as [[job|e] s'] eqn:E; [|exfalso; vm_compute in E; discriminate E].
  exists job, s'. split; [reflexivity|].
  destruct (placement_respected (demo_sched_env [demo_poder "p" 3]) (NewScheduler "" "") s' demo_policy_req job E)
    as (st & p & H1 & H2 & H3 & _).
  exists st, p. split; [exact H1|]. split; [exact H2|exact H3].
Defined.

(** C14: no machine is forgotten. A scheduling attempt makes at most one machine and asks
    to delete only a machine it made. If it made one and fails, it asked the provider to
    delete that machine and the provider did; or the machine stays, because the provider
    could not be looked up for that or refused; or the machine came back without the
    public address that was asked for, in which case nothing at all is done about it.
    The attempt leaves no claim on its provider and region, or it asked nothing of the
    provider and left the claims as they were; when it fails for a provider that makes
    machines there is no claim left, whatever was asked. Other claims stay as they were. *)
Theorem machine_accounted {S : Type} `{PoderRepository S} (env : SchedEnv (S := S)) (s : Sched)
    (req : CreateSandboxRequest) :
  let pt := orDefault (cs_provider req) "local" in
  let key := provisioningKey pt (cs_region req) in
  let '(r, s') := ScheduleSandboxCreation env s req in
  ∃ fx, sc_fx s' = (sc_fx s ++ fx)%list ∧
    vm_accounted env pt (match r with inl _ => true | inr _ => false end) fx ∧
    (sc_book s' !! key = None ∨ fx = [] ∧ sc_book s' = sc_book s) ∧
    (match r with inl _ => False | inr _ => pt ≠ "local" ∧ pt ≠ "docker" end → sc_book s' !! key = None) ∧
    (∀ other, other ≠ key → sc_book s' !! other = sc_book s !! other).
Proof.
  cbv zeta. unfold ScheduleSandboxCreation, place. set (pt := orDefault _ _). set (key := provisioningKey _ _).
  assert (Hnone : ∀ ok (P : Prop), (P → False) →
     ∃ fx, sc_fx s = (sc_fx s ++ fx)%list ∧ vm_accounted env pt ok fx ∧
      (sc_book s !! key = None ∨ fx = [] ∧ sc_book s = sc_book s) ∧ (P → sc_book s !! key = None) ∧
      (∀ other, other ≠ key → sc_book s !! other = sc_book s !! other)).
  { intros ok P HP. exists []. rewrite app_nil_r. split_and!; try done; [apply vm_accounted_nil|auto]. }
  destruct (pr_SelectBestFor _ _ _ _ _) as [p|]; [by apply Hnone|].
  destruct (_ || _) eqn:Hloc.
  { destruct (schedule_local env pt req); apply Hnone; [done|]. intros [??]. apply orb_true_iff in Hloc as [?|?]; simpl_bool; done. }
  destruct (reserve (sn_reserve_at env) (sc_book s) key) as [mine book] eqn:Hb.
  assert (Hmine : mine = false → book = sc_book s).
  { intros ->. unfold reserve in Hb. repeat case_match; by simplify_eq. }
  assert (Hres : ∀ now b other, other ≠ key → snd (reserve now b key) !! other = b !! other).
  { clear Hloc. intros now b other Hk. unfold reserve. destruct (b !! key); [case_bool_decide; [done|]|];
      simpl; by rewrite lookup_insert_ne. }
  pose proof (Hres (sn_reserve_at env) (sc_book s)) as Hb1. rewrite Hb in Hb1. simpl in Hb1.
  destruct (if mine then None else _) as [p|] eqn:Hw.
  { destruct mine; [done|]. rewrite Hmine by done. by apply Hnone. }
  set (s2 := if mine then _ else _).
  assert (Hs2 : sc_fx s2 = sc_fx s ∧ ∀ other, other ≠ key → sc_book s2 !! other = sc_book s !! other).
  { unfold s2. destruct mine; [done|]. split; [done|]. intros other Hk. simpl. rewrite Hres by done. by apply Hb1. }
  destruct Hs2 as [Hf2 Hb2]. destruct (provision env s2 pt req) as [r s3] eqn:Ep.
  apply provision_accounted in Ep as (Hb3 & fx & Hfx & Hacc). rewrite Hf2 in Hfx.
  assert (Hdel : sc_book (sched_book s3 (release (sc_book s3) key)) !! key = None) by apply lookup_delete_eq.
  assert (Hkeep : ∀ other, other ≠ key → sc_book (sched_book s3 (release (sc_book s3) key)) !! other = sc_book s !! other).
  { intros other Hk. simpl. unfold release. rewrite lookup_delete_ne by done. rewrite Hb3. by apply Hb2. }
  destruct r as [p|e]; exists fx; split_and!; auto.
Qed.

(** A machine that came back without its public address stays. *)
Example no_address_leaks :
  let p := mkProvider (λ _, Ok (mkVM "i-1" "")) (λ _, None) (λ _, (0%Z, Ok true)) (λ _ _ _, Err "") in
  let env := mkSchedEnv (λ _, "") (λ _ _, Ok p) (demo_store []) (demo_store []) 0 demo_wait 0 demo_wait 0 0 0
               demo_wait "job" 0 in
  match ScheduleSandboxCreation env (NewScheduler "" "") (mkCreate "sb" "eu" "aws" "" "" 0 f_zero 0 "" false None) with
  | (inr _, s) => bool_decide (length (sc_fx s) = 1) && any (λ f, match f with VMCreate _ (Some "i-1") => true | _ => false end) (sc_fx s)
  | _ => false
  end = true.
Proof. vm_compute. reflexivity. Qed.

Lemma schedule_local_refuses {S : Type} `{PoderRepository S} (env : SchedEnv (S := S)) (pt : string)
    (req : CreateSandboxRequest) :
  (∃ m, schedule_local env pt req = inr (ErrPoderCapability m)) ↔
  cs_network req ≠ None ∧
  (0 <? onlineWithoutCapability (sn_fleet env) pt (cs_region req) (capabilityRequirement req)) = true.
Proof.
  assert (Hno : ∀ r, (∀ m, (if 0 <? atCapacity (sn_fleet env) pt (cs_region req) then inr (ErrSched r)
    else match waitForPoderRegistration (sn_grace env) pt (cs_region req) (sn_grace_period env) (ns_second / 2)
                 (capabilityRequirement req) (cs_workspace req) with
         | Some p => inl p
         | None => inr (ErrSched ("no available " +:+ pt +:+
                     " poder found — the control plane is running but no worker registered"))
         end) ≠ @inr PoderInfo _ (ErrPoderCapability m))).
  { intros r m. destruct (0 <? atCapacity _ _ _); [done|]. by destruct (waitForPoderRegistration _ _ _ _ _ _ _). }
  unfold schedule_local. destruct (cs_network req) as [np|] eqn:En.
  - rewrite bool_decide_eq_false_2 by (unfold capabilityRequirement; by rewrite En).
    destruct (0 <? onlineWithoutCapability _ _ _ _) eqn:El.
    + split; [done|]. intros _. by eexists.
    + split; [intros [m Hm]; by apply Hno in Hm|by intros [_ ?]].
  - rewrite bool_decide_eq_true_2 by (unfold capabilityRequirement; by rewrite En).
    split; [intros [m Hm]; by apply Hno in Hm|by intros [? _]].
Qed.

(** when the fleet is told to upgrade. An attempt is refused for a missing
    capability exactly when it is for the [local] or [docker] provider, found no
    worker at once, asks for an egress policy, and at least one online worker of
    that provider and region lacks the capability: a capable worker that is only
    full for the moment does not change the answer. *)
Theorem capability_refusal {S : Type} `{PoderRepository S} (env : SchedEnv (S := S)) (s : Sched)
    (req : CreateSandboxRequest) :
  let pt := orDefault (cs_provider req) "local" in
  (∃ m, fst (ScheduleSandboxCreation env s req) = inr (ErrPoderCapability m)) ↔
  (pt = "local" ∨ pt = "docker") ∧
  is_ok (pr_SelectBestFor (sn_first env) (cs_region req) pt (capabilityRequirement req) (cs_workspace req)) = false ∧
  cs_network req ≠ None ∧
  ∃ p, p ∈ pr_List (sn_fleet env) ∧ matches_fleet pt (cs_region req) p = true ∧
       HasCapability p CapabilityEgress = false.
Proof.
  intros pt.
  assert (Hlack : cs_network req ≠ None →
    (0 <? onlineWithoutCapability (sn_fleet env) pt (cs_region req) (capabilityRequirement req)) = true ↔
    ∃ p, p ∈ pr_List (sn_fleet env) ∧ matches_fleet pt (cs_region req) p = true ∧ HasCapability p CapabilityEgress = false).
  { intros Hn. unfold onlineWithoutCapability, capabilityRequirement. destruct (cs_network req) as [np|]; [|done].
    rewrite Nat.ltb_lt. split.
    - intros Hl. destruct (keep _ _) as [|p l] eqn:Ek; [simpl in Hl; lia|].
      assert (Hp : p ∈ p :: l) by (by left). rewrite <- Ek in Hp. apply elem_of_keep in Hp as [Hin Hp].
      apply andb_true_iff in Hp as [Hm Hc]. simpl in Hc. rewrite orb_false_r in Hc. simpl_bool. eauto.
    - intros (p & Hin & Hm & Hc). destruct (keep _ _) as [|q l] eqn:Ek; [|simpl; lia]. exfalso.
      assert (Hp : p ∈ keep (λ p, matches_fleet pt (cs_region req) p && any (λ cap, negb (HasCapability p cap)) [CapabilityEgress])
                     (pr_List (sn_fleet env))).
      { apply elem_of_keep. split; [done|]. rewrite Hm. simpl. by rewrite Hc. }
      rewrite Ek in Hp. by apply elem_of_nil in Hp. }
  unfold ScheduleSandboxCreation, place. fold pt.
  destruct (pr_SelectBestFor _ _ _ _ _) as [p|]; simpl; [split; [by intros [m ?]|naive_solver]|].
  destruct (bool_decide (pt = "local") || bool_decide (pt = "docker")) eqn:Eb.
  - assert (Hpt : pt = "local" ∨ pt = "docker") by (apply orb_true_iff in Eb as [?|?]; simpl_bool; auto).
    transitivity (∃ m, schedule_local env pt req = inr (ErrPoderCapability m)).
    { destruct (schedule_local env pt req) as [p|e]; simpl; naive_solver. }
    rewrite schedule_local_refuses. split.
    + intros [Hn Hl]. split_and!; [done|done|done|by apply Hlack].
    + intros (_ & _ & Hn & Hp). split; [done|by apply Hlack].
  - apply orb_false_iff in Eb as [? ?]. simpl_bool. split; [|by intros [[?|?] _]].
    destruct (reserve _ _ _) as [mine book]. destruct (if mine then None else _); [by intros [m ?]|].
    destruct (provision _ _ _ _) as [[p|e] s3]; by intros [m ?].
Qed.
