(* ===== verification/Create.v ===== *)
(** pkg/server/create.go and provision.go, and the create branch of the sandboxes
    handler of main.go: admission, scheduling, the record and the job, delivery to
    the worker or to the instance that holds its tunnel.

    The stores are the in-memory ones. Scheduling and delivery take minutes; what
    everybody else does to the stores meanwhile is an argument. *)

From S2P Require Import Prelude GoStrings GoFloat GoHTTP EgressPolicy PoderStore JobStore SandboxStore Leases Scheduler TokenStore Auth.

(** ** Checks on the request *)

Definition maxSandboxNameLen : nat := 64.
Definition name_char (c : char) : bool := is_upper c || is_lower c || is_digit c || mem_char c "._-".

(** [func validateSandboxName(name string) string]; the pattern is
    [^[A-Za-z0-9][A-Za-z0-9._-]*$]. *)
Definition validateSandboxName (name : string) : string :=
  match name with
  | EmptyString => "sandbox name is required"
  | String c rest =>
      if (maxSandboxNameLen <? String.length name)%nat
      then "sandbox name is too long (" +:+ itoa (len name) +:+ " > " +:+ itoa (Z.of_nat maxSandboxNameLen) +:+ ")"
      else if negb ((is_upper c || is_lower c || is_digit c) && all_chars name_char rest)
      then "sandbox name must start with a letter or digit and contain only letters, digits, '.', '_' or '-'"
      else ""
  end.

(** [func isCloudProviderName(providerType) bool] *)
Definition isCloudProviderName (providerType : string) : bool :=
  negb (any (λ n, bool_decide (providerType = n)) [""; "local"; "local-agent"; "agent"; "docker"]).

(** [func nonEmpty(v, fallback string) string] *)
Definition nonEmpty (v fallback : string) : string := if bool_decide (v = "") then fallback else v.

(** [func validateCreateRegion(req) error] *)
Definition validateCreateRegion (req : CreateSandboxRequest) : option string :=
  if negb (isCloudProviderName (cs_provider req)) then None
  else if bool_decide (cs_region req = "") || bool_decide (cs_region req = "local")
  then Some ("provider " +:+ quote (cs_provider req) +:+ " needs a region (for example cn-hongkong); " +:+
             quote (nonEmpty (cs_region req) "empty") +:+ " is not one a cloud provider knows")
  else None.

(** [func validateEgressPolicy(p) error] *)
Definition validateEgressPolicy (p : option Policy) : option string :=
  match p with
  | None => None
  | Some p => match Parse p with Ok _ => None | Err e => Some e end
  end.

(** [func decideForSandbox(sb, found, host, port) egress.Verdict] *)
Definition decideForSandbox (sb : option SandboxInfo) (host : string) (port : Z) : Verdict :=
  let refuse reason := mkVerdict false CodeNotAllowed "" reason host port "" in
  match sb with
  | None => refuse "this sandbox is not registered with the control plane; egress is denied"
  | Some sb =>
      match sb_network sb with
      | None => refuse "the sandbox has no egress policy; add one with PUT /api/v1/sandboxes/{name}/egress"
      | Some p =>
          match Parse p with
          | Err _ => refuse "the sandbox's egress policy is invalid; egress is denied until it is fixed"
          | Ok compiled => Decide compiled host port
          end
      end
  end.

(** ** Admission *)

Inductive AdmitErr := QuotaReached | AdmitRefused (msg : string).
Definition admit_text (e : AdmitErr) : string :=
  match e with QuotaReached => "sandbox quota reached" | AdmitRefused m => m end.

(** [func quotaExceeded(store, owner, max) bool], over the records listed. *)
Definition owned (owner : string) (l : list SandboxInfo) : Z :=
  Z.of_nat (length (keep (λ sb, bool_decide (sb_owner sb = owner)) l)).
Definition quotaExceeded (store : SandboxStore) (owner : string) (max : Z) : bool :=
  if bool_decide (max ≤ 0)%Z then false else bool_decide (max ≤ owned owner (sb_List store))%Z.

(** [type Admission interface] *)
Notation Admission := (SandboxStore → Identity → CreateSandboxRequest → option AdmitErr).

(** [func (q quotaAdmission) Admit(ctx, id, req) error] *)
Definition quotaAdmission (max : Z) : Admission := λ store id _,
  if IsAdmin id || bool_decide (max ≤ 0)%Z then None
  else if quotaExceeded store (id_name id) max then Some QuotaReached else None.

(** [func admissionFor(cfg, store) Admission] *)
Definition admissionFor (custom : option Admission) (max : Z) : Admission := default (quotaAdmission max) custom.

(** ** The state of the control plane *)

Inductive create_fx :=
| FxEvent (event name : string)
| FxCreate (poderID name : string)
| FxPeer (url name : string).

Record cworld := mkCW {
  cw_jobs : JobStore;
  cw_ss : SandboxStore;
  cw_sched : Sched;
  cw_fx : list create_fx;
}.

Definition cw_with_jobs (w : cworld) (j : JobStore) := mkCW j (cw_ss w) (cw_sched w) (cw_fx w).
Definition cw_with_ss (w : cworld) (ss : SandboxStore) := mkCW (cw_jobs w) ss (cw_sched w) (cw_fx w).
Definition cw_with_sched (w : cworld) (s : Sched) := mkCW (cw_jobs w) (cw_ss w) s (cw_fx w).
Definition cw_emit (w : cworld) (f : create_fx) := mkCW (cw_jobs w) (cw_ss w) (cw_sched w) (cw_fx w ++ [f]).

(** An update whose error is dropped. *)
Definition update_job (now : gotime) (w : cworld) (id : string) (fn : Job → Job) : cworld :=
  match UpdateJob now (cw_jobs w) id fn with Ok j => cw_with_jobs w j | Err _ => w end.
Definition update_record (w : cworld) (name : string) (fn : SandboxInfo → SandboxInfo) : cworld :=
  match sb_Update (cw_ss w) name fn with Ok s => cw_with_ss w s | Err _ => w end.

(** The answer of a worker asked to create a container. *)
Inductive PushResult := PushFailed (msg : string) | PushRefused (body : string) | PushCreated (id ip : string).

Inductive CreateErr :=
| CErrRegion (msg : string)
| CErrAdmission (e : AdmitErr)
| CErrSchedule (e : SchedErr)
| CErrStore (msg : string)
| CErrPeer (msg : string)
| CErrElsewhere (poderID : string)
| CErrPush (msg : string).

Section Create.
  Context {S : Type} `{PoderRepository S}.

(** What one create reads from outside. *)
Record CreateEnv := mkCEnv {
  ce_sched : SchedEnv (S := S);
  ce_poder : string → option PoderInfo;
  ce_tunnel : string → bool;
  ce_push : PushResult;
  ce_node_url : string;
  ce_token : string;
  ce_owner : option (string → option string);
  ce_peer : string → result (option SandboxInfo);
  ce_marshal : CreateSandboxRequest → string;
  ce_now : gotime;
  ce_clock : nat → gotime;
  ce_during_schedule : cworld → cworld;
  ce_during_delivery : cworld → cworld;
}.

(** [failBoth] of [runSandboxCreate] *)
Definition failBoth (env : CreateEnv) (name jobID msg : string) (w : cworld) : cworld :=
  let w := cw_emit w (FxEvent "sandbox.error" name) in
  let w := if bool_decide (jobID ≠ "") then update_job (ce_clock env 0) w jobID (fail_job msg) else w in
  update_record w name (set_state StateError).

Definition with_workspace (req : CreateSandboxRequest) (ws : string) : CreateSandboxRequest :=
  mkCreate (cs_name req) (cs_region req) (cs_provider req) (cs_instance_type req) (cs_image_id req) (cs_ttl req)
    (cs_cpu req) (cs_memory req) ws (cs_async req) (cs_network req).

Definition with_job (j : Job) (st : JobStatus) (poderID poderURL request owner : string) : Job :=
  mkJob (jb_id j) (jb_type j) st (jb_sandbox j) (jb_sandbox_id j) (jb_region j) (jb_provider j)
    poderID poderURL (jb_vm_id j) (jb_instance_type j) (jb_image_id j) (jb_command j) (jb_language j) (jb_result j)
    (jb_error j) request owner (jb_trace j) (jb_created j) (jb_updated j).

(** Step 2: the job. *)
Definition book_job (env : CreateEnv) (w : cworld) (preJobID owner : string) (j : Job) : result cworld :=
  if bool_decide (preJobID = "") then
    rmap (cw_with_jobs w)
      (AddJob (cw_jobs w) (with_job j (jb_status j) (jb_poder_id j) (jb_poder_url j) (jb_request j) owner))
  else Ok (update_job (ce_clock env 1) w preJobID
             (λ x, with_job x JobStatusInProgress (jb_poder_id j) (jb_poder_url j) (jb_request x) (jb_owner x))).

(** Step 3: the record, in [PENDING] when it is new. *)
Definition upsert_record (env : CreateEnv) (w : cworld) (req : CreateSandboxRequest) (jobID owner poderID : string) : cworld :=
  let '(arch, os, osv) := match ce_poder env poderID with
                          | Some p => (rs_arch (pd_resources p), rs_os (pd_resources p), rs_os_version (pd_resources p))
                          | None => ("", "", "")
                          end in
  let proxy := "tunnel://" +:+ poderID in
  match sb_Get (cw_ss w) (cs_name req) with
  | Some _ =>
      update_record w (cs_name req) (λ s,
        mkSandbox (sb_id s) (sb_name s) (sb_region s) (sb_provider s) (sb_instance_type s) (sb_image_id s) (sb_state s)
          (sb_ip s) (sb_owner s) (cs_ttl req) (cs_cpu req) (cs_memory req) poderID (sb_poder_url s) (sb_container_id s)
          proxy (sb_api_url s) arch os osv (sb_created s) (ce_now env) (sb_labels s)
          (match cs_network req with Some n => Some n | None => sb_network s end))
  | None =>
      match sb_Add (cw_ss w)
        (mkSandbox jobID (cs_name req) (cs_region req) (cs_provider req) (cs_instance_type req) "" StatePending "" owner
           (cs_ttl req) (cs_cpu req) (cs_memory req) poderID "" "" proxy "" arch os osv (ce_now env) (ce_now env) ∅
           (cs_network req)) with
      | Ok ss => cw_with_ss w ss
      | Err _ => w
      end
  end.

(** Step 3a: the payload and the intent. *)
Definition write_intent (env : CreateEnv) (w : cworld) (req : CreateSandboxRequest) (jobID poderID : string) : cworld :=
  if bool_decide (jobID ≠ "")
  then update_job (ce_clock env 2) w jobID
         (λ x, with_job x JobStatusPending poderID (jb_poder_url x) (ce_marshal env req) (jb_owner x))
  else w.

(** The finalized job and record of [pushCreateToPoder]. *)
Definition finish_job (poderID id ip : string) (j : Job) : Job :=
  let '(sid, res) := if bool_decide (id ≠ "")
                     then (id, Some (mkJobResult id "" ("tunnel://" +:+ poderID) "" 0)) else (jb_sandbox_id j, jb_result j) in
  let res := match res with
             | Some r => if bool_decide (ip ≠ "")
                         then Some (mkJobResult (jr_sandbox_id r) ip (jr_proxy_url r) (jr_output r) (jr_exit_code r)) else Some r
             | None => None
             end in
  mkJob (jb_id j) (jb_type j) JobStatusCompleted (jb_sandbox j) sid (jb_region j) (jb_provider j)
    (jb_poder_id j) (jb_poder_url j) (jb_vm_id j) (jb_instance_type j) (jb_image_id j) (jb_command j) (jb_language j) res
    (jb_error j) (jb_request j) (jb_owner j) (jb_trace j) (jb_created j) (jb_updated j).

Definition finish_record (id ip : string) (s : SandboxInfo) : SandboxInfo :=
  mkSandbox (if bool_decide (id ≠ "") then id else sb_id s) (sb_name s) (sb_region s) (sb_provider s) (sb_instance_type s)
    (sb_image_id s) StateRunning (if bool_decide (ip ≠ "") then ip else sb_ip s) (sb_owner s) (sb_ttl s) (sb_cpu s)
    (sb_memory s) (sb_poder_id s) (sb_poder_url s) (sb_container_id s) (sb_proxy_url s) (sb_api_url s) (sb_arch s) (sb_os s)
    (sb_os_version s) (sb_created s) (sb_activity s) (sb_labels s) (sb_network s).

(** [func pushCreateToPoder(t, req, jobID, poderID, sandboxStore, jobStore, fail)] *)
Definition pushCreateToPoder (env : CreateEnv) (w : cworld) (name jobID poderID : string) (fail : string → cworld → cworld)
    : (option SandboxInfo + CreateErr) * cworld :=
  let w := ce_during_delivery env (cw_emit w (FxCreate poderID name)) in
  match ce_push env with
  | PushFailed msg => (inr (CErrPush ("failed to create sandbox: " +:+ msg)), fail msg w)
  | PushRefused body => (inr (CErrPush ("poder error: " +:+ body)), fail body w)
  | PushCreated id ip =>
      let w := update_job (ce_clock env 3) w jobID (finish_job poderID id ip) in
      let w := update_record w name (finish_record id ip) in
      (inl (sb_Get (cw_ss w) name), cw_emit w (FxEvent "sandbox.running" name))
  end.

(** [func wantsPeerDelivery(cfg, owners, poderID) (string, bool)] *)
Definition wantsPeerDelivery (env : CreateEnv) (poderID : string) : option string :=
  match ce_owner env with
  | None => None
  | Some owners =>
      if bool_decide (ce_node_url env = "") || bool_decide (ce_token env = "") then None
      else match owners poderID with
           | Some n => if bool_decide (n = ce_node_url env) then None else Some n
           | None => None
           end
  end.

(** Steps 3b and 4: delivery over the tunnel, or by the peer that holds it. *)
Definition deliver (env : CreateEnv) (w : cworld) (req : CreateSandboxRequest) (jobID poderID : string)
    : (option SandboxInfo + CreateErr) * cworld :=
  let name := cs_name req in
  if ce_tunnel env poderID then pushCreateToPoder env w name jobID poderID (failBoth env name jobID)
  else match wantsPeerDelivery env poderID with
  | Some peer =>
      let w := ce_during_delivery env (cw_emit w (FxPeer peer name)) in
      match ce_peer env peer with
      | Ok sb => (inl sb, w)
      | Err e => (inr (CErrPeer e),
                  failBoth env name jobID ("worker is connected to another instance and it did not accept the create: " +:+ e) w)
      end
  | None =>
      (inr (CErrElsewhere poderID),
       if bool_decide (jobID ≠ "") then update_job (ce_clock env 4) w jobID (fail_job "worker tunnel is held by another instance")
       else w)
  end.

Definition sched_text (e : SchedErr) : string := match e with Scheduler.ErrPoderCapability m | ErrSched m => m end.

(** [func runSandboxCreate(...)]: the record or the error, and the job's id. *)
Definition runSandboxCreate (env : CreateEnv) (w : cworld) (req : CreateSandboxRequest) (preJobID owner : string)
    (admission : option Admission) (requester : Identity) : (option SandboxInfo + CreateErr) * string * cworld :=
  let name := cs_name req in
  let req := if bool_decide (id_tenant requester ≠ "") then with_workspace req (id_tenant requester) else req in
  match validateCreateRegion req with
  | Some msg => (inr (CErrRegion msg), preJobID, failBoth env name preJobID msg w)
  | None =>
      match match admission with Some a => a (cw_ss w) requester req | None => None end with
      | Some e => (inr (CErrAdmission e), preJobID, failBoth env name preJobID ("failed to create sandbox: " +:+ admit_text e) w)
      | None =>
          let '(r, sched) := ScheduleSandboxCreation (ce_sched env) (cw_sched w) req in
          let w := ce_during_schedule env (cw_with_sched w sched) in
          match r with
          | inr e => (inr (CErrSchedule e), preJobID, failBoth env name preJobID (sched_text e) w)
          | inl job =>
              let jobID := if bool_decide (preJobID = "") then jb_id job else preJobID in
              match book_job env w preJobID owner job with
              | Err e => (inr (CErrStore e), jobID, w)
              | Ok w =>
                  let w := upsert_record env w req jobID owner (jb_poder_id job) in
                  let w := write_intent env w req jobID (jb_poder_id job) in
                  let '(r, w) := deliver env w req jobID (jb_poder_id job) in (r, jobID, w)
              end
          end
      end
  end.

(** ** The handler *)

Definition with_provider (req : CreateSandboxRequest) : CreateSandboxRequest :=
  mkCreate (cs_name req) (cs_region req) (orDefault (cs_provider req) "local") (cs_instance_type req) (cs_image_id req)
    (cs_ttl req) (cs_cpu req) (cs_memory req) (cs_workspace req) (cs_async req) (cs_network req).

(** The checks of [POST /api/v1/sandboxes], in order: the status it is refused
    with, or the request to go on with. *)
Definition post_check (w : cworld) (admission : Admission) (ident : Identity) (body : result CreateSandboxRequest)
    : Z + CreateSandboxRequest :=
  match body with
  | Err _ => inl 400%Z
  | Ok req =>
      let req := with_provider req in
      if bool_decide (validateSandboxName (cs_name req) ≠ "") then inl 400%Z
      else if isSome (validateEgressPolicy (cs_network req)) then inl 400%Z
      else if isSome (validateCreateRegion req) then inl 400%Z
      else if isSome (sb_Get (cw_ss w) (cs_name req)) then inl 409%Z
      else match admission (cw_ss w) ident req with
           | Some QuotaReached => inl 429%Z
           | Some (AdmitRefused _) => inl 403%Z
           | None => inr req
           end
  end.

(** The job and the [PENDING] record of the asynchronous path. *)
Definition async_job (env : CreateEnv) (jobID : string) (ident : Identity) (req : CreateSandboxRequest) : Job :=
  mkJob jobID JobTypeCreateSandbox JobStatusPending (cs_name req) "" (cs_region req) (cs_provider req) "" "" ""
    (cs_instance_type req) (cs_image_id req) "" "" None "" (ce_marshal env req) (id_name ident) ∅ (ce_now env) (ce_now env).
Definition async_record (env : CreateEnv) (jobID : string) (ident : Identity) (req : CreateSandboxRequest) : SandboxInfo :=
  mkSandbox jobID (cs_name req) (cs_region req) (cs_provider req) (cs_instance_type req) "" StatePending "" (id_name ident)
    (cs_ttl req) (cs_cpu req) (cs_memory req) "" "" "" "" "" "" "" "" (ce_now env) (ce_now env) ∅ (cs_network req).

(** What happens in the background once the handler has answered. *)
Definition async_create (env : CreateEnv) (w : cworld) (req : CreateSandboxRequest) (jobID : string) (ident : Identity)
    (admission : Admission) : cworld :=
  match runSandboxCreate env w req jobID (id_name ident) (Some admission) ident with
  | (inr _, _, w) => update_record w (cs_name req)
                       (λ sb, if bool_decide (sb_state sb = StatePending) then set_state StateError sb else sb)
  | (inl _, _, w) => w
  end.

Inductive post_reply :=
| PStatus (status : Z)
| PAccepted (jobID : string) (sb : SandboxInfo)
| PCreated (jobID : string) (sb : option SandboxInfo).

Definition create_status (e : CreateErr) : Z :=
  match e with CErrSchedule (Scheduler.ErrPoderCapability _) => 409 | _ => 500 end.

(** [POST /api/v1/sandboxes]; an accepted request goes on in [async_create]. *)
Definition post_sandboxes (env : CreateEnv) (w : cworld) (admission : Admission) (ident : Identity) (newJobID : string)
    (body : result CreateSandboxRequest) : post_reply * cworld :=
  match post_check w admission ident body with
  | inl status => (PStatus status, w)
  | inr req =>
      if cs_async req then
        match AddJob (cw_jobs w) (async_job env newJobID ident req) with
        | Err _ => (PStatus 500, w)
        | Ok jobs =>
            let w := cw_with_jobs w jobs in
            let sb := async_record env newJobID ident req in
            match sb_Add (cw_ss w) sb with
            | Err _ => (PStatus 409, w)
            | Ok ss => (PAccepted newJobID sb, cw_with_ss w ss)
            end
        end
      else match runSandboxCreate env w req "" (id_name ident) (Some admission) ident with
           | (inr e, _, w) => (PStatus (create_status e), w)
           | (inl sb, jobID, w) => (PCreated jobID sb, w)
           end
  end.

(** [mountProvision]'s handler: a peer asks this instance to deliver over its
    tunnel. The status, and the record it reports. *)
Definition provision_handler (env : CreateEnv) (w : cworld) (method header : string)
    (body : result (option CreateSandboxRequest * string * string)) : (Z * option SandboxInfo) * cworld :=
  if bool_decide (method ≠ "POST") then ((405%Z, None), w)
  else if bool_decide (ce_token env = "") || negb (bool_decide (header = ce_token env)) then ((403%Z, None), w)
  else match body with
  | Err _ => ((400%Z, None), w)
  | Ok (None, _, _) => ((400%Z, None), w)
  | Ok (Some req, jobID, poderID) =>
      if bool_decide (poderID = "") then ((400%Z, None), w)
      else if negb (ce_tunnel env poderID) then ((409%Z, None), w)
      else match pushCreateToPoder env w (cs_name req) jobID poderID (λ _ w, w) with
           | (inl sb, w) => ((200%Z, sb), w)
           | (inr _, w) => ((502%Z, None), w)
           end
  end.

(** ** What an attempt leaves behind *)

Definition job_status (w : cworld) (id : string) : option JobStatus := jb_status <$> js_jobs (cw_jobs w) !! id.
Definition rec_state (w : cworld) (name : string) : option State := sb_state <$> cw_ss w !! name.

Lemma update_job_status now w id fn : job_status (update_job now w id fn) id = (jb_status ∘ fn) <$> js_jobs (cw_jobs w) !! id.
Proof.
  unfold job_status, update_job, UpdateJob. destruct (js_jobs (cw_jobs w) !! id) eqn:E; simpl; [|by rewrite E].
  by rewrite lookup_insert_eq.
Qed.

Lemma update_job_ss now w id fn : cw_ss (update_job now w id fn) = cw_ss w.
Proof. unfold update_job. by destruct (UpdateJob _ _ _ _). Qed.

Lemma update_record_jobs w name fn : cw_jobs (update_record w name fn) = cw_jobs w.
Proof. unfold update_record. by destruct (sb_Update _ _ _). Qed.

Lemma update_record_lookup w name fn : cw_ss (update_record w name fn) !! name = fn <$> cw_ss w !! name.
Proof.
  unfold update_record, sb_Update. destruct (cw_ss w !! name) eqn:E; simpl; [|by rewrite E]. by rewrite lookup_insert_eq.
Qed.

Lemma failBoth_record env name jobID msg w :
  rec_state (failBoth env name jobID msg w) name = (λ _, StateError) <$> rec_state w name.
Proof.
  unfold rec_state, failBoth. rewrite update_record_lookup.
  replace (cw_ss _ !! name) with (cw_ss w !! name); [by destruct (cw_ss w !! name)|].
  case_bool_decide; [by rewrite update_job_ss|done].
Qed.

Lemma failBoth_job env name jobID msg w : jobID ≠ "" →
  job_status (failBoth env name jobID msg w) jobID = (λ _, JobStatusFailed) <$> job_status w jobID.
Proof.
  intros Hj. unfold failBoth. rewrite bool_decide_eq_true_2 by done. unfold job_status. rewrite update_record_jobs.
  pose proof (update_job_status (ce_clock env 0) (cw_emit w (FxEvent "sandbox.error" name)) jobID (fail_job msg)) as E.
  unfold job_status in E. rewrite E. simpl. by destruct (js_jobs (cw_jobs w) !! jobID).
Qed.

(** Nobody else touches the stores while this create waits. *)
Definition quiet (env : CreateEnv) : Prop :=
  (∀ w, ce_during_schedule env w = w) ∧ (∀ w, ce_during_delivery env w = w).

(** The job and the record after an attempt with this outcome. [before] is the
    state the record had when delivery began. *)
Definition left_behind (env : CreateEnv) (before : State) (r : option SandboxInfo + CreateErr) (jobID name : string)
    (w' : cworld) : Prop :=
  match r with
  | inl sb =>
      (∃ id ip poderID, ce_tunnel env poderID = true ∧ ce_push env = PushCreated id ip ∧
         sb = cw_ss w' !! name ∧ rec_state w' name = Some StateRunning ∧ job_status w' jobID = Some JobStatusCompleted) ∨
      (∃ peer, ce_peer env peer = Ok sb ∧ rec_state w' name = Some before ∧ job_status w' jobID = Some JobStatusPending)
  | inr (CErrElsewhere poderID) =>
      ce_tunnel env poderID = false ∧ rec_state w' name = Some before ∧ job_status w' jobID = Some JobStatusFailed
  | inr _ => rec_state w' name = Some StateError ∧ job_status w' jobID = Some JobStatusFailed
  end.

Lemma deliver_leaves env w req jobID poderID before : quiet env → jobID ≠ "" →
  rec_state w (cs_name req) = Some before → job_status w jobID = Some JobStatusPending →
  let '(r, w') := deliver env w req jobID poderID in left_behind env before r jobID (cs_name req) w'.
Proof.
  intros (_ & Hq) Hj Hr Hs. unfold deliver. set (name := cs_name req) in *.
  assert (Hjob : ∃ j, js_jobs (cw_jobs w) !! jobID = Some j).
  { unfold job_status in Hs. destruct (js_jobs (cw_jobs w) !! jobID); [by eexists|done]. }
  assert (Hrec : ∃ sb, cw_ss w !! name = Some sb).
  { unfold rec_state in Hr. destruct (cw_ss w !! name); [by eexists|done]. }
  destruct Hjob as (j & Hjob), Hrec as (sb & Hrec).
  assert (Hfail : ∀ f msg, rec_state (failBoth env name jobID msg (cw_emit w f)) name = Some StateError ∧
                           job_status (failBoth env name jobID msg (cw_emit w f)) jobID = Some JobStatusFailed).
  { intros f msg. rewrite failBoth_record, failBoth_job by done. unfold rec_state, job_status in *. simpl.
    by rewrite Hrec, Hjob. }
  destruct (ce_tunnel env poderID) eqn:Ht.
  - unfold pushCreateToPoder. rewrite Hq. destruct (ce_push env) as [msg|body|id ip] eqn:Hp; [apply Hfail|apply Hfail|].
    left. exists id, ip, poderID. split; [done|]. split; [done|]. simpl. split; [done|]. split.
    + unfold rec_state. simpl. rewrite update_record_lookup, update_job_ss. simpl. by rewrite Hrec.
    + unfold job_status. simpl. rewrite update_record_jobs.
      pose proof (update_job_status (ce_clock env 3) (cw_emit w (FxCreate poderID name)) jobID (finish_job poderID id ip)) as E.
      unfold job_status in E. rewrite E. simpl. rewrite Hjob. simpl. f_equal. unfold finish_job. by case_bool_decide.
  - destruct (wantsPeerDelivery env poderID) as [peer|].
    + rewrite Hq. destruct (ce_peer env peer) as [sb'|e] eqn:Hp; [|apply Hfail]. right. by exists peer.
    + rewrite bool_decide_eq_true_2 by done. split; [done|]. split.
      * unfold rec_state. rewrite update_job_ss. exact Hr.
      * rewrite update_job_status, Hjob. done.
Qed.

Lemma book_job_status env w preJobID owner job w1 jobID :
  jobID = (if bool_decide (preJobID = "") then jb_id job else preJobID) →
  book_job env w preJobID owner job = Ok w1 →
  (preJobID = "" ∨ is_Some (js_jobs (cw_jobs w) !! preJobID)) →
  cw_ss w1 = cw_ss w ∧ is_Some (js_jobs (cw_jobs w1) !! jobID).
Proof.
  intros -> Hb Hpre. unfold book_job in Hb. case_bool_decide as Hp; inv_ok; subst.
  - unfold AddJob in *. simpl in *. destruct (js_jobs (cw_jobs w) !! jb_id job); inv_ok.
    split; [done|]. simpl. rewrite lookup_insert_eq. by eexists.
  - split; [apply update_job_ss|]. destruct Hpre as [?|(j & Hj)]; [done|].
    unfold update_job, UpdateJob. rewrite Hj. simpl. rewrite lookup_insert_eq. by eexists.
Qed.

Lemma upsert_record_state env w req jobID owner poderID :
  cw_jobs (upsert_record env w req jobID owner poderID) = cw_jobs w ∧
  rec_state (upsert_record env w req jobID owner poderID) (cs_name req)
    = Some (default StatePending (rec_state w (cs_name req))).
Proof.
  unfold upsert_record. set (t := match ce_poder env poderID with Some _ => _ | None => _ end).
  destruct t as [[arch os] osv]. unfold rec_state, sb_Get.
  destruct (cw_ss w !! cs_name req) as [sb|] eqn:E.
  - split; [apply update_record_jobs|]. rewrite update_record_lookup, E. done.
  - unfold sb_Add. simpl. rewrite E. simpl. split; [done|]. by rewrite lookup_insert_eq.
Qed.

Lemma write_intent_state env w req jobID poderID : jobID ≠ "" → is_Some (js_jobs (cw_jobs w) !! jobID) →
  cw_ss (write_intent env w req jobID poderID) = cw_ss w ∧
  job_status (write_intent env w req jobID poderID) jobID = Some JobStatusPending.
Proof.
  intros Hj (j & Hjob). unfold write_intent. rewrite bool_decide_eq_true_2 by done.
  split; [apply update_job_ss|]. rewrite update_job_status, Hjob. done.
Qed.

(** A create starts either from nothing (and makes its job), or from the job and the
    record the handler wrote. *)
Definition starts (env : CreateEnv) (w : cworld) (name preJobID : string) : Prop :=
  (preJobID = "" ∧ cw_ss w !! name = None ∧ js_jobs (cw_jobs w) !! sn_job_id (ce_sched env) = None ∧
   sn_job_id (ce_sched env) ≠ "") ∨
  (preJobID ≠ "" ∧ is_Some (js_jobs (cw_jobs w) !! preJobID) ∧ is_Some (cw_ss w !! name)).

Lemma scheduled_id env s req job s' : ScheduleSandboxCreation env s req = (inl job, s') → jb_id job = sn_job_id env.
Proof. unfold ScheduleSandboxCreation. destruct (place env s req) as [[p|e] s1]; [|done]. by intros [= <- _]. Qed.

Definition refused_early (r : option SandboxInfo + CreateErr) : Prop :=
  match r with inr (CErrRegion _ | CErrAdmission _ | CErrSchedule _) => True | _ => False end.


(** The background half of an accepted request never leaves the record [PENDING],
    whatever else happens to the stores, once the attempt has failed. *)
Lemma async_never_pending env w req jobID ident admission :
  let '(r, _, w1) := runSandboxCreate env w req jobID (id_name ident) (Some admission) ident in
  ∀ e, r = inr e → rec_state (async_create env w req jobID ident admission) (cs_name req) ≠ Some StatePending.
Proof.
  unfold async_create. destruct (runSandboxCreate _ _ _ _ _ _ _) as [[r j] w1]. intros e ->.
  unfold rec_state. rewrite update_record_lookup. destruct (cw_ss w1 !! cs_name req) as [sb|]; [|done]. simpl.
  case_bool_decide as Hp; [done|]. intros [= E]. done.
Qed.

(** ** The quota *)

Definition owners (w : cworld) : gmap string string := sb_owner <$> cw_ss w.

Lemma update_record_owners w name fn : (∀ s, sb_owner (fn s) = sb_owner s) → owners (update_record w name fn) = owners w.
Proof.
  intros Hf. unfold owners, update_record, sb_Update. destruct (cw_ss w !! name) as [sb|] eqn:E; [|done]. simpl.
  rewrite fmap_insert, Hf. apply insert_id. by rewrite lookup_fmap, E.
Qed.

Lemma update_job_owners now w id fn : owners (update_job now w id fn) = owners w.
Proof. unfold owners. by rewrite update_job_ss. Qed.

Lemma emit_owners w f : owners (cw_emit w f) = owners w.
Proof. done. Qed.

Lemma failBoth_owners env name jobID msg w : owners (failBoth env name jobID msg w) = owners w.
Proof. unfold failBoth. rewrite update_record_owners by done. case_bool_decide; [by rewrite update_job_owners|done]. Qed.

Lemma deliver_owners env w req jobID poderID : quiet env → owners (deliver env w req jobID poderID).2 = owners w.
Proof.
  intros (_ & Hq). unfold deliver, pushCreateToPoder. destruct (ce_tunnel env poderID).
  - rewrite Hq. destruct (ce_push env); cbn [snd]; rewrite ?failBoth_owners, ?emit_owners; try done.
    rewrite update_record_owners by done. by rewrite update_job_owners.
  - destruct (wantsPeerDelivery env poderID) as [peer|].
    { rewrite Hq. destruct (ce_peer env peer); cbn [snd]; by rewrite ?failBoth_owners, ?emit_owners. }
    cbn [snd]. case_bool_decide; [apply update_job_owners|done].
Qed.

(** A create adds at most its own record, under the owner it was given. *)
Lemma create_owners env w req preJobID owner admission requester : quiet env →
  owners (runSandboxCreate env w req preJobID owner admission requester).2 = owners w ∨
  owners w !! cs_name req = None ∧
  owners (runSandboxCreate env w req preJobID owner admission requester).2 = <[cs_name req := owner]> (owners w).
Proof.
  intros Hq. unfold runSandboxCreate. set (rq := if bool_decide (id_tenant _ ≠ "") then _ else req).
  assert (Hname : cs_name rq = cs_name req) by (unfold rq; by case_bool_decide). clearbody rq.
  destruct (validateCreateRegion rq); [left; apply failBoth_owners|].
  destruct (match admission with Some a => a (cw_ss w) requester rq | None => None end); [left; apply failBoth_owners|].
  destruct (ScheduleSandboxCreation _ _ _) as [[job|e] sched]; rewrite (proj1 Hq); [|left; cbn [snd]; by rewrite failBoth_owners].
  set (jobID := if bool_decide (preJobID = "") then jb_id job else preJobID).
  destruct (book_job env (cw_with_sched w sched) preJobID owner job) as [w1|e] eqn:Hb; [|by left].
  assert (H1 : cw_ss w1 = cw_ss w).
  { unfold book_job in Hb. case_bool_decide; inv_ok; subst; [done|]. by rewrite update_job_ss. }
  assert (H2 : ∀ w2, owners (deliver env (write_intent env w2 rq jobID (jb_poder_id job)) rq jobID (jb_poder_id job)).2 = owners w2).
  { intros w2. rewrite deliver_owners by done. unfold write_intent. case_bool_decide; [apply update_job_owners|done]. }
  specialize (H2 (upsert_record env w1 rq jobID owner (jb_poder_id job))).
  destruct (deliver env _ rq jobID (jb_poder_id job)) as [r w']. simpl in H2. simpl. rewrite H2.
  unfold upsert_record, sb_Get. set (t := match ce_poder env (jb_poder_id job) with Some _ => _ | None => _ end).
  destruct t as [[arch os] osv]. rewrite Hname, H1. destruct (cw_ss w !! cs_name req) as [sb|] eqn:E.
  - left. rewrite update_record_owners by done. unfold owners. by rewrite H1.
  - right. unfold sb_Add. simpl. rewrite E. unfold owners. simpl. rewrite lookup_fmap, E. split; [done|].
    by rewrite fmap_insert.
Qed.

Lemma owned_size owner (m : SandboxStore) :
  owned owner (sb_List m) = Z.of_nat (size (filter (λ kv, kv.2 = owner) (sb_owner <$> m))).
Proof.
  clear H. unfold owned, sb_List. f_equal. induction m as [|k x m Hk IH] using map_ind.
  { by rewrite map_to_list_empty, fmap_empty, map_filter_empty, map_size_empty. }
  rewrite map_to_list_insert, fmap_insert by done. simpl. case_bool_decide as Ho.
  - rewrite map_filter_insert_True by done. rewrite map_size_insert_None; [cbn [length]; f_equal; exact IH|].
    apply map_lookup_filter_None. left. by rewrite lookup_fmap, Hk.
  - rewrite map_filter_insert_not' by (try done; intros y; rewrite lookup_fmap, Hk; done). exact IH.
Qed.

Lemma owned_insert owner name o (m : gmap string string) : m !! name = None →
  size (filter (λ kv, kv.2 = owner) (<[name := o]> m))
  ≤ Datatypes.S (size (filter (λ kv, kv.2 = owner) m)).
Proof.
  clear H. intros Hn. destruct (decide (o = owner)) as [->|Ho].
  - rewrite map_filter_insert_True by done. rewrite map_size_insert_None; [done|]. apply map_lookup_filter_None. by left.
  - rewrite map_filter_insert_not' by (try done; intros y; by rewrite Hn). lia.
Qed.

(** A request that gets past the checks: its name is free and usable, and its owner
    has room. *)
Lemma post_check_passed w max ident body req : IsAdmin ident = false → (0 < max)%Z →
  post_check w (quotaAdmission max) ident body = inr req →
  cw_ss w !! cs_name req = None ∧ validateSandboxName (cs_name req) = "" ∧ validateEgressPolicy (cs_network req) = None ∧
  (owned (id_name ident) (sb_List (cw_ss w)) < max)%Z.
Proof.
  intros Ha Hm. unfold post_check. destruct body as [r|]; [|done]. set (rq := with_provider r).
  case_bool_decide as Hname; [done|]. destruct (validateEgressPolicy (cs_network rq)) eqn:He; [done|].
  destruct (validateCreateRegion rq); [done|]. unfold sb_Get.
  destruct (cw_ss w !! cs_name rq) eqn:Hs; [done|]. simpl. unfold quotaAdmission.
  rewrite Ha, bool_decide_eq_false_2 by lia. simpl. unfold quotaExceeded. rewrite bool_decide_eq_false_2 by lia.
  case_bool_decide as Hq; [done|]. intros [= <-].
  split_and!; [done|done|done|lia].
Qed.

(** C18: The quota. Under the built-in rule a request of a user who is at the limit or over
    it is refused and changes nothing: no job, no record, no machine, no container, and
    nothing else that happens meanwhile matters. A request that nothing else interferes
    with, waited for or not, never takes its user above the limit. The condition is needed:
    the check and the record are apart by all the time scheduling takes, so two requests
    side by side pass it together ([quota_overshot]). *)
Theorem quota_holds (env : CreateEnv) (w : cworld) (max : Z) (ident : Identity) (newJobID : string)
    (body : result CreateSandboxRequest) :
  IsAdmin ident = false → (0 < max)%Z →
  let '(reply, w') := post_sandboxes env w (quotaAdmission max) ident newJobID body in
  ((max ≤ owned (id_name ident) (sb_List (cw_ss w)))%Z → w' = w ∧ ∃ status, reply = PStatus status) ∧
  (quiet env → (owned (id_name ident) (sb_List (cw_ss w)) ≤ max)%Z → (owned (id_name ident) (sb_List (cw_ss w')) ≤ max)%Z).
Proof.
  intros Ha Hm. unfold post_sandboxes.
  destruct (post_check _ _ _ _) as [st|req] eqn:Hc; [split; [|done]; intros _; split; [done|by exists st]|].
  apply post_check_passed in Hc as (Hfree & _ & _ & Hlt); [|done|done].
  assert (Hadd : ∀ w', owners w' = owners w ∨ owners w' = <[cs_name req := id_name ident]> (owners w) →
    (owned (id_name ident) (sb_List (cw_ss w')) ≤ max)%Z).
  { intros w' Ho. rewrite owned_size in *. change (sb_owner <$> cw_ss w') with (owners w').
    change (sb_owner <$> cw_ss w) with (owners w) in Hlt. destruct Ho as [->| ->]; [lia|].
    pose proof (owned_insert (id_name ident) (cs_name req) (id_name ident) (owners w)) as Hi.
    specialize (Hi ltac:(unfold owners; by rewrite lookup_fmap, Hfree)). lia. }
  destruct (cs_async req).
  - destruct (AddJob _ _) as [jobs|]; [|split; [lia|done]]. unfold sb_Add. simpl. rewrite Hfree.
    split; [lia|]. intros _ _. apply Hadd. right. unfold owners. simpl. by rewrite fmap_insert.
  - pose proof (create_owners env w req "" (id_name ident) (Some (quotaAdmission max)) ident) as Ho.
    destruct (runSandboxCreate _ _ _ _ _ _ _) as [[[sb|e] jobID] w']; simpl in Ho;
      (split; [lia|]; intros Hq _; apply Hadd; specialize (Ho Hq); naive_solver).
Qed.

(** ** What a create touches *)

(** [m'] differs from [m] at [name] at most, and keeps its keys. *)
Definition only_at (name : string) (m m' : SandboxStore) : Prop :=
  (well_keyed sb_name m → well_keyed sb_name m') ∧ ∀ k, k ≠ name → m' !! k = m !! k.

#[local] Instance only_at_pre name : PreOrder (only_at name).
Proof.
  split; [done|]. intros m1 m2 m3 (K1 & E1) (K2 & E2). split; [auto|]. intros k Hk. by rewrite E2, E1.
Qed.

Lemma insert_keyed (m : SandboxStore) sb : well_keyed sb_name m → well_keyed sb_name (<[sb_name sb := sb]> m).
Proof. intros WK k x. rewrite lookup_insert_Some. intros [(<- & <-)|(_ & ?)]; [done|by apply WK]. Qed.

Lemma update_record_only w name fn : (∀ s, sb_name (fn s) = sb_name s) → only_at name (cw_ss w) (cw_ss (update_record w name fn)).
Proof.
  intros Hf. unfold update_record, sb_Update. destruct (cw_ss w !! name) as [sb|] eqn:E; [|done]. simpl. split.
  - intros WK. pose proof (WK _ _ E) as Hn. pose proof (insert_keyed (cw_ss w) (fn sb) WK) as HI. by rewrite Hf, Hn in HI.
  - intros k Hk. by rewrite lookup_insert_ne.
Qed.

Lemma failBoth_only env name jobID msg w : only_at name (cw_ss w) (cw_ss (failBoth env name jobID msg w)).
Proof.
  unfold failBoth. etransitivity; [|by apply update_record_only]. case_bool_decide; [by rewrite update_job_ss|done].
Qed.

Lemma deliver_only env w req jobID poderID : quiet env →
  only_at (cs_name req) (cw_ss w) (cw_ss (deliver env w req jobID poderID).2).
Proof.
  intros (_ & Hq). unfold deliver, pushCreateToPoder. destruct (ce_tunnel env poderID).
  - rewrite Hq. destruct (ce_push env); cbn [snd]; try apply (failBoth_only env _ _ _ (cw_emit w _)).
    etransitivity; [|apply (update_record_only _ (cs_name req)); done]. by rewrite update_job_ss.
  - destruct (wantsPeerDelivery env poderID) as [peer|].
    { rewrite Hq. destruct (ce_peer env peer); cbn [snd]; [done|]. apply (failBoth_only env _ _ _ (cw_emit w _)). }
    cbn [snd]. case_bool_decide; [by rewrite update_job_ss|done].
Qed.

Lemma upsert_record_only env w req jobID owner poderID :
  only_at (cs_name req) (cw_ss w) (cw_ss (upsert_record env w req jobID owner poderID)).
Proof.
  unfold upsert_record. set (t := match ce_poder env poderID with Some _ => _ | None => _ end). destruct t as [[arch os] osv].
  destruct (sb_Get (cw_ss w) (cs_name req)) as [sb|]; [by apply update_record_only|].
  unfold sb_Add. simpl. destruct (cw_ss w !! cs_name req); [done|]. simpl. split.
  - intros WK k x. rewrite lookup_insert_Some. intros [(<- & <-)|(_ & ?)]; [done|by apply WK].
  - intros k Hk. by rewrite lookup_insert_ne.
Qed.

(** A create changes no record but its own, and the record it reports is the one
    the store holds, or the one a peer reported. *)
Lemma create_only env w req preJobID owner admission requester : quiet env →
  let '(r, _, w') := runSandboxCreate env w req preJobID owner admission requester in
  only_at (cs_name req) (cw_ss w) (cw_ss w') ∧
  ∀ sb, r = inl (Some sb) → cw_ss w' !! cs_name req = Some sb ∨ ∃ peer, ce_peer env peer = Ok (Some sb).
Proof.
  intros Hq. unfold runSandboxCreate. set (rq := if bool_decide (id_tenant _ ≠ "") then _ else req).
  assert (Hname : cs_name rq = cs_name req) by (unfold rq; by case_bool_decide). clearbody rq.
  destruct (validateCreateRegion rq); [split; [apply failBoth_only|done]|].
  destruct (match admission with Some a => a (cw_ss w) requester rq | None => None end); [split; [apply failBoth_only|done]|].
  destruct (ScheduleSandboxCreation _ _ _) as [[job|e] sched]; rewrite (proj1 Hq);
    [|split; [apply (failBoth_only env _ _ _ (cw_with_sched w sched))|done]].
  set (jobID := if bool_decide (preJobID = "") then jb_id job else preJobID).
  destruct (book_job env (cw_with_sched w sched) preJobID owner job) as [w1|e] eqn:Hb; [|by split].
  assert (H1 : cw_ss w1 = cw_ss w).
  { unfold book_job in Hb. case_bool_decide; inv_ok; subst; [done|]. by rewrite update_job_ss. }
  pose proof (upsert_record_only env w1 rq jobID owner (jb_poder_id job)) as H2.
  set (w2 := upsert_record env w1 rq jobID owner (jb_poder_id job)) in *.
  assert (H3 : cw_ss (write_intent env w2 rq jobID (jb_poder_id job)) = cw_ss w2).
  { unfold write_intent. case_bool_decide; [apply update_job_ss|done]. }
  set (w3 := write_intent env w2 rq jobID (jb_poder_id job)) in *.
  pose proof (deliver_only env w3 rq jobID (jb_poder_id job) Hq) as H4.
  destruct (deliver env w3 rq jobID (jb_poder_id job)) as [r w'] eqn:Hd. simpl in H4.
  rewrite Hname, H1 in H2. rewrite Hname, H3 in H4. split; [by transitivity (cw_ss w2)|].
  intros sb ->. unfold deliver, pushCreateToPoder in Hd. rewrite Hname in Hd.
  destruct (ce_tunnel env _); [destruct (ce_push env); simplify_eq/=|].
  - by left.
  - destruct (wantsPeerDelivery env _) as [peer|]; [|done].
    destruct (ce_peer env peer) as [sb'|e] eqn:Hp; simplify_eq. right. by exists peer.
Qed.

End Create.

(** ** Witnesses *)

(** The world of the scheduler's demonstration, with a worker that answers. *)
Definition demo_cenv {S} `{PoderRepository S} (sched : SchedEnv (S := S)) (tunnel : bool) : CreateEnv (S := S) :=
  mkCEnv sched (λ _, None) (λ _, tunnel) (PushCreated "c-1" "10.0.0.2") "" "" None (λ _, Err "") (λ _, "{}") 5
    (λ i, Z.of_nat i) id id.
Definition demo_empty : cworld := mkCW NewJobStore ∅ (NewScheduler "" "") [].
Definition demo_user : Identity := mkIdentity "alice" RoleUser "".

Lemma demo_quiet : quiet (demo_cenv (demo_sched_env [demo_poder "p" 3]) true).
Proof. by split. Qed.


(** When another instance holds the worker's tunnel and no peer can be asked, the
    record of a create that failed stays [PENDING]. *)
Example demo_elsewhere :
  let '(r, jobID, w') := runSandboxCreate (demo_cenv (demo_sched_env [demo_poder "p" 3]) false) demo_empty demo_policy_req
                           "" "alice" None demo_user in
  (∃ p, r = inr (CErrElsewhere p)) ∧ rec_state w' (cs_name demo_policy_req) = Some StatePending ∧
  job_status w' jobID = Some JobStatusFailed.
Proof. vm_compute. split; [by eexists|done]. Qed.

Lemma quota_holds_witness :
  let env := demo_cenv (demo_sched_env [demo_poder "p" 3]) true in
  let '(reply, w') := post_sandboxes env demo_empty (quotaAdmission 1) demo_user "job-2" (Ok demo_policy_req) in
  (owned "alice" (sb_List (cw_ss w')) ≤ 1)%Z.
Proof.
  pose proof (quota_holds (demo_cenv (demo_sched_env [demo_poder "p" 3]) true) demo_empty 1 demo_user "job-2"
    (Ok demo_policy_req) eq_refl ltac:(lia)) as H.
  cbv zeta. destruct (post_sandboxes _ _ _ _ _ _) as [reply w']. apply H; [exact demo_quiet|by vm_compute].
Defined.

(** Two requests of one user under a limit of one: while the first is scheduled, the second
    is checked, scheduled and recorded. *)
Example quota_overshot :
  let quick := demo_cenv (demo_sched_env [demo_poder "p" 3]) true in
  let second := mkCreate "sb2" "eu" "aws" "t3" "" 0 f_zero 0 "" false None in
  let gate := quotaAdmission 1 in
  let meanwhile w := (post_sandboxes quick w gate demo_user "job-3" (Ok second)).2 in
  let sched := mkSchedEnv (λ _, "") (λ _ _, Err "no provider") (demo_store [demo_poder "p" 3]) (demo_store [demo_poder "p" 3])
                 0 demo_wait 0 demo_wait 0 0 0 demo_wait "job-9" 7 in
  let slow := mkCEnv sched (λ _, None) (λ _, true) (PushCreated "c-1" "10.0.0.2") "" "" None
                (λ _, Err "") (λ _, "{}") 5 (λ i, Z.of_nat i) meanwhile id in
  let '(reply, w') := post_sandboxes slow demo_empty gate demo_user "job-2" (Ok demo_policy_req) in
  owned "alice" (sb_List (cw_ss w')) = 2%Z.
Proof. vm_compute. reflexivity. Qed.

(** The record of an accepted asynchronous create counts when the create asks for admission
    again: the request that takes the last place of a quota fails, with nobody else there. *)
Example async_last_place :
  let env := demo_cenv (demo_sched_env [demo_poder "p" 3]) true in
  let req := mkCreate "sb" "eu" "aws" "t3" "" 0 f_zero 0 "" true None in
  let '(reply, w) := post_sandboxes env demo_empty (quotaAdmission 1) demo_user "job-2" (Ok req) in
  (∃ sb, reply = PAccepted "job-2" sb) ∧
  rec_state (async_create env w req "job-2" demo_user (quotaAdmission 1)) "sb" = Some StateError.
Proof. vm_compute. split; [by eexists|done]. Qed.
