(* ===== verification/Resume.v ===== *)
(** pkg/server/resume.go: the pass that delivers again the creates whose delivery
    was lost, run by every control-plane instance over one database. First one
    pass by itself, then any number of instances stepping in any order. *)

From S2P Require Import Prelude GoStrings GoTime EgressPolicy JobStore SqlJobs SandboxStore Scheduler.

Definition resumeMaxAge : Z := 40 * ns_minute.
Definition ResumeStaleAfter : Z := 45 * ns_second.
Definition ResumeMaxAttempts : nat := 5.

(** ** What a pass makes of one job *)

Inductive Verdict :=
| RSkip
| RFail (msg : string) (record_too : bool)
| RComplete
| RClaim (req : CreateSandboxRequest).

Definition state_text (s : State) : string :=
  match s with
  | StatePending => "PENDING" | StateStarting => "STARTING" | StateRunning => "RUNNING"
  | StateStopping => "STOPPING" | StateStopped => "STOPPED" | StateError => "ERROR"
  | StateTerminated => "TERMINATED" | StateOther s => s
  end.

Section Resume.
  (** [json.Unmarshal] of the payload. *)
  Variable decode : string → result CreateSandboxRequest.

(** The loop body of [resumeOnce] up to the claim; [sandbox] is the state of the
    record the job names, when there is one. *)
Definition resume_decide (now : gotime) (sandbox : option State) (job : Job) : Verdict :=
  match jb_type job with
  | JobTypeCreateSandbox =>
      if bool_decide (jb_status job ≠ JobStatusPending) then RSkip
      else if bool_decide (now - jb_updated job < ResumeStaleAfter)%Z then RSkip
      else if bool_decide (jb_request job = "")
      then RFail "delivery payload was not recorded; cannot resume" true
      else match decode (jb_request job) with
           | Err e => RFail ("delivery payload is corrupt: " +:+ e) false
           | Ok req =>
               if negb (is_zero_time (jb_created job)) && bool_decide (resumeMaxAge < now - jb_created job)%Z
               then RFail "delivery window passed; the create never landed and is not retried" false
               else match sandbox with
                    | Some StateRunning => RComplete
                    | Some ((StateError | StateStopped | StateTerminated) as s) =>
                        RFail ("sandbox is " +:+ state_text s +:+ "; nothing to deliver") false
                    | _ => RClaim req
                    end
           end
  | _ => RSkip
  end.

(** An update whose error is not looked at. *)
Definition try_update (engine : option string) (now : gotime) (t : JobTable) (id : string) (fn : Job → Job) : JobTable :=
  match sql_UpdateJob engine now t id fn with Ok t' => t' | Err _ => t end.
Definition try_record (s : SandboxTable) (name : string) (fn : SandboxInfo → SandboxInfo) : SandboxTable :=
  match sql_sb_Update None s name fn with Ok s' => s' | Err _ => s end.

(** ** One pass *)

(** The two tables and the deliveries attempted so far: the job and the reading of
    the clock it was claimed with. *)
Record rworld := mkR {
  rw_jobs : JobTable;
  rw_sandboxes : SandboxTable;
  rw_log : list (string * gotime);
}.

(** [deps.deliver] with the clock of the updates: it may change both tables. *)
Variable deliver : rworld → Job → CreateSandboxRequest → bool * rworld.
Variable clock : rworld → gotime.

Definition resume_job (now : gotime) (job : Job) (w : rworld) : nat * rworld :=
  let update fn := mkR (try_update None (clock w) (rw_jobs w) (jb_id job) fn) (rw_sandboxes w) (rw_log w) in
  match resume_decide now (sb_state <$> sql_sb_Get None (rw_sandboxes w) (jb_sandbox job)) job with
  | RSkip => (0, w)
  | RFail msg record_too =>
      let w := update (fail_job msg) in
      (0, if record_too
          then mkR (rw_jobs w)
                 (try_record (rw_sandboxes w) (jb_sandbox job)
                    (λ sb, if bool_decide (sb_state sb = StatePending) then set_state StateError sb else sb))
                 (rw_log w)
          else w)
  | RComplete => (0, update complete_job)
  | RClaim req =>
      match sql_ClaimJob None (rw_jobs w) (jb_id job) (jb_updated job) now with
      | Ok (true, t) =>
          match deliver (mkR t (rw_sandboxes w) (rw_log w ++ [(jb_id job, now)])) job req with
          | (true, w) => (1, mkR (try_update None (clock w) (rw_jobs w) (jb_id job) complete_job)
                               (rw_sandboxes w) (rw_log w))
          | (false, w) => (0, w)
          end
      | _ => (0, w)
      end
  end.

Fixpoint resume_jobs (now : gotime) (jobs : list Job) (w : rworld) : nat * rworld :=
  match jobs with
  | [] => (0, w)
  | job :: jobs => let '(n, w) := resume_job now job w in
                   let '(m, w) := resume_jobs now jobs w in (n + m, w)
  end.

(** [func resumeOnce(d) int] *)
Definition resumeOnce (order : list (string * JobRow)) (now : gotime) (w : rworld) : nat * rworld :=
  resume_jobs now (sql_ListJobs order) w.
End Resume.

(** ** Many instances *)

(** Where one instance's pass stands. *)
Inductive inst :=
| Idle
| Scanning (now : gotime) (todo : list Job)
| Delivering (now : gotime) (job : Job) (todo : list Job)
| Finishing (now : gotime) (job : Job) (todo : list Job).

Record sys := mkSys {
  y_jobs : JobTable;
  y_clock : gotime;
  y_log : list (string * gotime);
  y_inst : nat → inst;
}.

Definition put (f : nat → inst) (i : nat) (x : inst) : nat → inst := λ k, if decide (k = i) then x else f k.

(** What anybody else may do to the job table at time [c]: rows stay, a row that is
    written is stamped with the clock, and a row's key is its job's ID. *)
Definition others (c : gotime) (t t' : JobTable) : Prop :=
  (∀ id r, t !! id = Some r → ∃ r', t' !! id = Some r' ∧
     (jw_updated r' = jw_updated r ∨ jw_updated r' = rfc3339nano c)) ∧
  (∀ id r', t !! id = None → t' !! id = Some r' →
     ∃ u, writable u ∧ (u ≤ c)%Z ∧ jw_updated r' = rfc3339nano u) ∧
  (∀ id r', t' !! id = Some r' → jb_id (jw_cols r') = id).

Inductive step (decode : string → result CreateSandboxRequest) : sys → sys → Prop :=
| step_tick y c : (y_clock y ≤ c)%Z → writable c →
    step decode y (mkSys (y_jobs y) c (y_log y) (y_inst y))
| step_others y t : others (y_clock y) (y_jobs y) t →
    step decode y (mkSys t (y_clock y) (y_log y) (y_inst y))
| step_begin y i order : y_inst y i = Idle → ordered_rows (y_jobs y) order →
    step decode y (mkSys (y_jobs y) (y_clock y) (y_log y)
                     (put (y_inst y) i (Scanning (y_clock y) (sql_ListJobs order))))
| step_end y i now : y_inst y i = Scanning now [] →
    step decode y (mkSys (y_jobs y) (y_clock y) (y_log y) (put (y_inst y) i Idle))
| step_skip y i now job todo sandbox : y_inst y i = Scanning now (job :: todo) →
    resume_decide decode now sandbox job = RSkip →
    step decode y (mkSys (y_jobs y) (y_clock y) (y_log y) (put (y_inst y) i (Scanning now todo)))
| step_fail y i now job todo sandbox msg record_too engine : y_inst y i = Scanning now (job :: todo) →
    resume_decide decode now sandbox job = RFail msg record_too →
    step decode y (mkSys (try_update engine (y_clock y) (y_jobs y) (jb_id job) (fail_job msg)) (y_clock y) (y_log y)
                     (put (y_inst y) i (Scanning now todo)))
| step_complete y i now job todo sandbox engine : y_inst y i = Scanning now (job :: todo) →
    resume_decide decode now sandbox job = RComplete →
    step decode y (mkSys (try_update engine (y_clock y) (y_jobs y) (jb_id job) complete_job) (y_clock y) (y_log y)
                     (put (y_inst y) i (Scanning now todo)))
| step_claim y i now job todo sandbox req engine t : y_inst y i = Scanning now (job :: todo) →
    resume_decide decode now sandbox job = RClaim req →
    sql_ClaimJob engine (y_jobs y) (jb_id job) (jb_updated job) now = Ok (true, t) →
    step decode y (mkSys t (y_clock y) (y_log y) (put (y_inst y) i (Delivering now job todo)))
| step_refused y i now job todo sandbox req engine : y_inst y i = Scanning now (job :: todo) →
    resume_decide decode now sandbox job = RClaim req →
    (∀ t, sql_ClaimJob engine (y_jobs y) (jb_id job) (jb_updated job) now ≠ Ok (true, t)) →
    step decode y (mkSys (y_jobs y) (y_clock y) (y_log y) (put (y_inst y) i (Scanning now todo)))
| step_deliver y i now job todo (landed : bool) : y_inst y i = Delivering now job todo →
    step decode y (mkSys (y_jobs y) (y_clock y) (y_log y ++ [(jb_id job, now)])
                     (put (y_inst y) i (if landed then Finishing now job todo else Scanning now todo)))
| step_finish y i now job todo engine : y_inst y i = Finishing now job todo →
    step decode y (mkSys (try_update engine (y_clock y) (y_jobs y) (jb_id job) complete_job) (y_clock y) (y_log y)
                     (put (y_inst y) i (Scanning now todo))).

Inductive reach (decode : string → result CreateSandboxRequest) : sys → sys → Prop :=
| reach_refl y : reach decode y y
| reach_step y1 y2 y3 : reach decode y1 y2 → step decode y2 y3 → reach decode y1 y3.

(** ** Lemmas: a pass only claims what is stale *)

Lemma decide_claim decode now sandbox job req :
  resume_decide decode now sandbox job = RClaim req →
  jb_type job = JobTypeCreateSandbox ∧ jb_status job = JobStatusPending ∧
  (jb_updated job + ResumeStaleAfter ≤ now)%Z ∧ decode (jb_request job) = Ok req.
Proof.
  unfold resume_decide. destruct (jb_type job); try done.
  case_bool_decide as Hst; [done|]. case_bool_decide as Hage; [done|]. case_bool_decide; [done|].
  destruct (decode (jb_request job)) as [r|]; [|done]. destruct (_ && _); [done|].
  intros Hcl. assert (r = req) by (destruct sandbox as [[]|]; congruence). subst.
  split_and!; [done|done|lia|done].
Qed.

(** The claim granted was on the time read, and stamps the pass's own. *)
Lemma claim_granted engine t id expected now t' :
  sql_ClaimJob engine t id expected now = Ok (true, t') →
  ∃ r, t !! id = Some r ∧ jw_updated r = rfc3339nano expected ∧
       t' = <[id := mkJobRow (jw_cols r) (jw_created r) (rfc3339nano now)]> t.
Proof.
  unfold sql_ClaimJob. destruct engine; [done|]. destruct (t !! id) as [r|]; [|done].
  case_bool_decide; [|done]. intros [= <-]. eauto.
Qed.

(** ** The rely condition is what the repository's own operations do *)

Definition keyed (t : JobTable) : Prop := ∀ id r, t !! id = Some r → jb_id (jw_cols r) = id.

Lemma others_refl c t : keyed t → others c t t.
Proof. intros Hk. split_and!; [eauto|congruence|done]. Qed.

(** One row written and stamped, under its own key. *)
Lemma others_write c t id r' : keyed t → is_Some (t !! id) → jw_updated r' = rfc3339nano c →
  jb_id (jw_cols r') = id → others c t (<[id := r']> t).
Proof.
  intros Hk [r E] Hu Hid. split_and!.
  - intros x rx Hx. destruct (decide (x = id)) as [->|Hne].
    + rewrite lookup_insert_eq. eauto.
    + rewrite lookup_insert_ne by done. eauto.
  - intros x rx Hx Hx'. rewrite lookup_insert_ne in Hx' by congruence. congruence.
  - intros x rx Hx. destruct (decide (x = id)) as [->|Hne].
    + rewrite lookup_insert_eq in Hx. congruence.
    + rewrite lookup_insert_ne in Hx by done. by apply Hk.
Qed.

Lemma others_update engine c t id fn : (∀ j, jb_id (fn j) = jb_id j) → keyed t →
  others c t (try_update engine c t id fn).
Proof.
  intros Hfn Hk. unfold try_update, sql_UpdateJob. destruct engine; [by apply others_refl|].
  destruct (t !! id) as [r|] eqn:E; [|by apply others_refl].
  assert (Hid : jb_id (set_updated (fn (scanJob r)) c) = id).
  { cbn [set_updated set_status jb_id]. rewrite Hfn. by apply Hk in E. }
  unfold upsert_job. rewrite Hid, E. by apply others_write.
Qed.

(** Every row mapped, the written ones stamped. *)
Lemma others_map c t (f : JobRow → JobRow) : keyed t →
  (∀ r, jb_id (jw_cols (f r)) = jb_id (jw_cols r) ∧
        (jw_updated (f r) = jw_updated r ∨ jw_updated (f r) = rfc3339nano c)) → others c t (f <$> t).
Proof.
  intros Hk Hf. split_and!.
  - intros id r E. rewrite lookup_fmap, E. eexists. split; [done|]. apply Hf.
  - intros id r' E. by rewrite lookup_fmap, E.
  - intros id r'. rewrite lookup_fmap. destruct (t !! id) as [r|] eqn:E; [|done]. intros [= <-].
    destruct (Hf r) as [-> _]. by apply Hk.
Qed.

Lemma others_trans c t1 t2 t3 : writable c → others c t1 t2 → others c t2 t3 → others c t1 t3.
Proof.
  intros Hw (H1 & H2 & H3) (H1' & H2' & H3'). split_and!; [| |done].
  - intros id r E. destruct (H1 id r E) as (r' & E' & Hu). destruct (H1' id r' E') as (r'' & E'' & Hu').
    exists r''. split; [done|]. destruct Hu' as [->|?]; [done|by right].
  - intros id r'' E E''. destruct (t2 !! id) as [r'|] eqn:E'; [|by eapply H2'].
    destruct (H2 id r' E E') as (u & Hu & Hc & Heq). destruct (H1' id r' E') as (r3 & E3 & Hu3).
    assert (r3 = r'') as -> by congruence. destruct Hu3 as [Hu3|Hu3]; [exists u|exists c]; rewrite Hu3; auto with lia.
Qed.

(** Adding, updating, polling and recovering at the clock's time. *)
Lemma repository_others d fail order c timeout limit t j id fn : writable c → keyed t →
  writable (jb_updated j) → (jb_updated j ≤ c)%Z → (∀ k, jb_id (fn k) = jb_id k) →
  (∀ t', sql_AddJob None "" t j = Ok t' → others c t t') ∧
  others c t (try_update None c t id fn) ∧
  others c t (snd (sql_poll_tx d fail order c timeout limit t)) ∧
  others c t (sql_recover c t).
Proof.
  intros Hw Hk Hu Hc Hfn. split_and!.
  - unfold sql_AddJob. intros t'. destruct (t !! jb_id j) eqn:E; [done|]. intros [= <-]. split_and!.
    + intros x r Hx. rewrite lookup_insert_ne by congruence. eauto.
    + intros x r Hx Hx'. destruct (decide (x = jb_id j)) as [->|Hne].
      * rewrite lookup_insert_eq in Hx'. injection Hx' as <-. by exists (jb_updated j).
      * rewrite lookup_insert_ne in Hx' by done. congruence.
    + intros x r Hx. destruct (decide (x = jb_id j)) as [->|Hne].
      * rewrite lookup_insert_eq in Hx. by injection Hx as <-.
      * rewrite lookup_insert_ne in Hx by done. by apply Hk.
  - by apply others_update.
  - assert (Hreset : others c t (reset_row (rfc3339nano c) (rfc3339nano (c - timeout)) <$> t)).
    { apply others_map; [done|]. intros r. unfold reset_row. destruct (row_stale _ r); [by split; [|right]|by split; [|left]]. }
    assert (Hmark : ∀ ids u, others c t u → others c t (fold_left (mark_row (rfc3339nano c)) ids u)).
    { induction ids as [|x ids IH]; intros u Hu0; [done|]. simpl. apply IH. eapply others_trans; [done|exact Hu0|].
      unfold mark_row. destruct Hu0 as (_ & _ & Hk').
      destruct (u !! x) as [r|] eqn:E.
      - assert (alter (row_mark JobStatusInProgress (rfc3339nano c)) x u = <[x := row_mark JobStatusInProgress (rfc3339nano c) r]> u) as ->.
        { apply map_eq. intros k. destruct (decide (k = x)) as [->|Hne].
          - by rewrite lookup_alter_eq, lookup_insert_eq, E.
          - by rewrite lookup_alter_ne, lookup_insert_ne. }
        apply others_write; [done|by eexists|done|]. by apply Hk' in E.
      - assert (alter (row_mark JobStatusInProgress (rfc3339nano c)) x u = u) as ->; [|by apply others_refl].
        apply map_eq. intros k. destruct (decide (k = x)) as [->|Hne].
        + by rewrite lookup_alter_eq, E.
        + by rewrite lookup_alter_ne. }
    unfold sql_poll_tx.
    destruct fail as [[]|]; try (by apply others_refl);
      (destruct (limited d limit _) as [[|x rows]|]; [|..]); simpl; try done; try (by apply others_refl);
      by apply (Hmark (x.1 :: rows.*1)).
  - apply others_map; [done|]. intros r. destruct (bool_decide _); [by split; [|right]|by split; [|left]].
Qed.

(** ** The invariant of the instances *)

(** Two claims of one job lie a stale period apart. *)
Definition spaced (x y : string * gotime) : Prop :=
  x.1 = y.1 → (x.2 + ResumeStaleAfter ≤ y.2 ∨ y.2 + ResumeStaleAfter ≤ x.2)%Z.

Lemma spaced_sym x y : spaced x y → spaced y x.
Proof. unfold spaced. intros H E. symmetry in E. destruct (H E); auto. Qed.

(** The claims not yet recorded as deliveries. *)
Definition holds (f : nat → inst) (i : nat) (x : string * gotime) : Prop :=
  ∃ job todo, f i = Delivering x.2 job todo ∧ jb_id job = x.1.

Definition now_of (s : inst) : option gotime :=
  match s with
  | Idle => None
  | Scanning now _ | Delivering now _ _ | Finishing now _ _ => Some now
  end.
Definition todo_of (s : inst) : list Job :=
  match s with
  | Idle => []
  | Scanning _ todo | Delivering _ _ todo | Finishing _ _ todo => todo
  end.

Definition stamped (c : gotime) (t : JobTable) : Prop :=
  ∀ id r, t !! id = Some r → ∃ u, writable u ∧ (u ≤ c)%Z ∧ jw_updated r = rfc3339nano u.

(** A claim leaves its mark: the job was last touched no earlier. *)
Definition marked (t : JobTable) (x : string * gotime) : Prop :=
  ∃ r u, t !! x.1 = Some r ∧ writable u ∧ (x.2 ≤ u)%Z ∧ jw_updated r = rfc3339nano u.

Record Inv (y : sys) : Prop := {
  inv_clock : writable (y_clock y);
  inv_keyed : keyed (y_jobs y);
  inv_stamped : stamped (y_clock y) (y_jobs y);
  inv_now : ∀ i now, now_of (y_inst y i) = Some now → writable now ∧ (now ≤ y_clock y)%Z;
  inv_todo : ∀ i job, job ∈ todo_of (y_inst y i) → writable (jb_updated job);
  inv_log_marked : ∀ x, x ∈ y_log y → marked (y_jobs y) x;
  inv_held_marked : ∀ i x, holds (y_inst y) i x → marked (y_jobs y) x;
  inv_log : ForallOrdPairs spaced (y_log y);
  inv_log_held : ∀ i x z, holds (y_inst y) i x → z ∈ y_log y → spaced x z;
  inv_held : ∀ i k x z, i ≠ k → holds (y_inst y) i x → holds (y_inst y) k z → spaced x z;
}.

Lemma others_stamped c t t' : writable c → others c t t' → stamped c t → stamped c t'.
Proof.
  intros Hw (H1 & H2 & _) Hs id r' E'. destruct (t !! id) as [r|] eqn:E.
  - destruct (H1 id r E) as (r'' & E'' & Hu). assert (r'' = r') as -> by congruence.
    destruct Hu as [Hu|Hu]; rewrite Hu; [by apply (Hs id)|]. exists c. auto with lia.
  - by apply (H2 id).
Qed.

Lemma others_marked c t t' x : writable c → others c t t' → stamped c t → marked t x → marked t' x.
Proof.
  intros Hw (H1 & _) Hs (r & u & E & Hu & Hle & Heq). destruct (H1 _ _ E) as (r' & E' & Hr').
  destruct (Hs _ _ E) as (v & Hv & Hvc & Heqv). rewrite Heq in Heqv.
  apply rfc3339nano_inj in Heqv as ->; [|done|done].
  destruct Hr' as [Hr'|Hr']; [exists r', v|exists r', c]; split_and!; try done; try congruence; lia.
Qed.

Lemma holds_put f i s k x : holds (put f i s) k x →
  k = i ∧ (∃ job todo, s = Delivering x.2 job todo ∧ jb_id job = x.1) ∨ k ≠ i ∧ holds f k x.
Proof. unfold holds, put. destruct (decide (k = i)); [left|right]; eauto. Qed.

Definition still (s : inst) : Prop := match s with Delivering _ _ _ => False | _ => True end.

(** A move of one instance that neither claims nor delivers, with the job table
    changed as anybody may change it. *)
Lemma inv_move y t i s : Inv y → others (y_clock y) (y_jobs y) t → still s →
  (∀ now, now_of s = Some now → writable now ∧ (now ≤ y_clock y)%Z) →
  (∀ job, job ∈ todo_of s → writable (jb_updated job)) →
  Inv (mkSys t (y_clock y) (y_log y) (put (y_inst y) i s)).
Proof.
  intros Hinv Ho Hs Hnow Htodo. pose proof (inv_clock _ Hinv) as Hc. pose proof (inv_stamped _ Hinv) as Hst.
  assert (Hh : ∀ k x, holds (put (y_inst y) i s) k x → holds (y_inst y) k x).
  { intros k x [[-> (job & todo & -> & _)]|[_ ?]]%holds_put; done. }
  split; simpl; try apply Hinv.
  - by destruct Ho as (_ & _ & ?).
  - by eapply others_stamped.
  - intros k now. unfold put. destruct (decide (k = i)); [apply Hnow|apply Hinv].
  - intros k job. unfold put. destruct (decide (k = i)); [apply Htodo|apply Hinv].
  - intros x Hx. eapply others_marked; [done|exact Ho|done|by apply Hinv].
  - intros k x Hx. eapply others_marked; [done|exact Ho|done|]. by eapply (inv_held_marked _ Hinv), Hh.
  - intros k x z Hx. by apply (inv_log_held _ Hinv k), Hh.
  - intros k l x z Hne Hx Hz. by eapply (inv_held _ Hinv k l); [|apply Hh|apply Hh].
Qed.

Lemma ordpairs_snoc {A} (R : relation A) l x :
  ForallOrdPairs R l → (∀ y, y ∈ l → R y x) → ForallOrdPairs R (l ++ [x]).
Proof.
  induction 1 as [|y l Hy Hl IH]; intros Hx; simpl; [repeat constructor|]. constructor.
  - rewrite List.Forall_app. split; [done|]. constructor; [|constructor]. apply Hx. by left.
  - apply IH. intros z Hz. apply Hx. by right.
Qed.

Lemma inv_claim y i now job todo decode sandbox req engine t :
  Inv y → y_inst y i = Scanning now (job :: todo) →
  resume_decide decode now sandbox job = RClaim req →
  sql_ClaimJob engine (y_jobs y) (jb_id job) (jb_updated job) now = Ok (true, t) →
  Inv (mkSys t (y_clock y) (y_log y) (put (y_inst y) i (Delivering now job todo))).
Proof.
  intros Hinv Hi Hd Hcl. apply decide_claim in Hd as (_ & _ & Hage & _).
  apply claim_granted in Hcl as (r & E & Hr & ->).
  destruct (inv_now _ Hinv i now) as [Hw Hle]; [by rewrite Hi|].
  assert (He : writable (jb_updated job)) by (apply (inv_todo _ Hinv i); rewrite Hi; by left).
  assert (Hmark : ∀ x, marked (y_jobs y) x → x.1 = jb_id job → (x.2 + ResumeStaleAfter ≤ now)%Z).
  { intros x (r' & u & E' & Hu & Hxu & Heq) Hx. rewrite Hx, E in E'. injection E' as <-. rewrite Hr in Heq.
    assert (jb_updated job = u) by (by apply rfc3339nano_inj). lia. }
  set (row := mkJobRow (jw_cols r) (jw_created r) (rfc3339nano now)).
  assert (Hmarked : ∀ x, marked (y_jobs y) x → marked (<[jb_id job := row]> (y_jobs y)) x).
  { intros x Hx. destruct (decide (x.1 = jb_id job)) as [Hid|Hne].
    - exists row, now. rewrite Hid, lookup_insert_eq. split_and!; try done.
      specialize (Hmark x Hx Hid). unfold ResumeStaleAfter, ns_second in Hmark. lia.
    - destruct Hx as (r' & u & E' & Hu). exists r', u. by rewrite lookup_insert_ne. }
  assert (Hsp : ∀ x z, x.1 = jb_id job → x.2 = now → marked (y_jobs y) z → spaced x z).
  { intros x z Hx1 Hx2 Hz Heq. right. rewrite Hx2. apply Hmark; [done|congruence]. }
  assert (Hh : ∀ k x, holds (put (y_inst y) i (Delivering now job todo)) k x →
     k = i ∧ x.1 = jb_id job ∧ x.2 = now ∨ k ≠ i ∧ holds (y_inst y) k x).
  { intros k x [[-> (job' & todo' & [= -> -> ->] & Hid)]|?]%holds_put; [by left|by right]. }
  split; simpl; try apply Hinv.
  - intros x rx. destruct (decide (x = jb_id job)) as [->|Hne].
    + rewrite lookup_insert_eq. intros [= <-]. by apply (inv_keyed _ Hinv) in E.
    + rewrite lookup_insert_ne by done. apply Hinv.
  - intros x rx. destruct (decide (x = jb_id job)) as [->|Hne].
    + rewrite lookup_insert_eq. intros [= <-]. by exists now.
    + rewrite lookup_insert_ne by done. apply Hinv.
  - intros k now'. unfold put. destruct (decide (k = i)); [intros [= <-]; done|apply Hinv].
  - intros k job' Hin. unfold put in Hin. destruct (decide (k = i)) as [->|Hne]; [|by apply (inv_todo _ Hinv k)].
    apply (inv_todo _ Hinv i). rewrite Hi. by right.
  - intros x Hx. by apply Hmarked, Hinv.
  - intros k x [(_ & Hx1 & Hx2)|[_ Hx]]%Hh; [|by eapply Hmarked, (inv_held_marked _ Hinv)].
    exists row, now. rewrite Hx1, Hx2, lookup_insert_eq. by split_and!.
  - intros k x z [(_ & Hx1 & Hx2)|[_ Hx]]%Hh Hz.
    + apply Hsp; [done|done|by apply Hinv].
    + by apply (inv_log_held _ Hinv k).
  - intros k l x z Hne [(-> & Hx1 & Hx2)|[Hk Hx]]%Hh [(-> & Hz1 & Hz2)|[Hl Hz]]%Hh.
    + done.
    + apply Hsp; [done|done|by eapply (inv_held_marked _ Hinv)].
    + apply spaced_sym, Hsp; [done|done|by eapply (inv_held_marked _ Hinv)].
    + by apply (inv_held _ Hinv k l).
Qed.

Lemma inv_deliver y i now job todo s : Inv y → y_inst y i = Delivering now job todo → still s →
  now_of s = Some now → todo_of s = todo →
  Inv (mkSys (y_jobs y) (y_clock y) (y_log y ++ [(jb_id job, now)]) (put (y_inst y) i s)).
Proof.
  intros Hinv Hi Hs Hnow Htodo.
  assert (Hhi : holds (y_inst y) i (jb_id job, now)) by (by exists job, todo).
  assert (Hh : ∀ k x, holds (put (y_inst y) i s) k x → k ≠ i ∧ holds (y_inst y) k x).
  { intros k x [[-> (job' & todo' & -> & _)]|?]%holds_put; done. }
  split; simpl; try apply Hinv.
  - intros k now'. unfold put. destruct (decide (k = i)); [|apply Hinv]. rewrite Hnow. intros [= <-].
    apply (inv_now _ Hinv i). by rewrite Hi.
  - intros k job'. unfold put. destruct (decide (k = i)); [|apply Hinv]. rewrite Htodo. intros Hin.
    apply (inv_todo _ Hinv i). by rewrite Hi.
  - intros x [Hx|Hx%list_elem_of_singleton]%elem_of_app; [by apply Hinv|]. subst x.
    by apply (inv_held_marked _ Hinv i).
  - intros k x [_ Hx]%Hh. by eapply (inv_held_marked _ Hinv).
  - apply ordpairs_snoc; [apply Hinv|]. intros x Hx. apply spaced_sym. by apply (inv_log_held _ Hinv i).
  - intros k x z [Hk Hx]%Hh [Hz|Hz%list_elem_of_singleton]%elem_of_app; [by apply (inv_log_held _ Hinv k)|].
    subst z. by apply (inv_held _ Hinv k i).
  - intros k l x z Hne [_ Hx]%Hh [_ Hz]%Hh. by apply (inv_held _ Hinv k l).
Qed.

Lemma inv_step decode y y' : Inv y → step decode y y' → Inv y'.
Proof.
  intros Hinv Hstep. pose proof (inv_keyed _ Hinv) as Hk. pose proof (inv_clock _ Hinv) as Hc.
  pose proof (others_refl (y_clock y) _ Hk) as Hsame.
  assert (Hscan : ∀ i now job todo, y_inst y i = Scanning now (job :: todo) →
     (∀ n, now_of (Scanning now todo) = Some n → writable n ∧ (n ≤ y_clock y)%Z) ∧
     (∀ j, j ∈ todo → writable (jb_updated j))).
  { intros i now job todo Hi. split.
    - intros n Hn. apply (inv_now _ Hinv i). by rewrite Hi.
    - intros j Hj. apply (inv_todo _ Hinv i). rewrite Hi. by right. }
  destruct Hstep as [y c Hle Hw|y t Ho|y i order Hi Hord|y i now Hi|y i now job todo sandbox Hi Hd
    |y i now job todo sandbox msg rt engine Hi Hd|y i now job todo sandbox engine Hi Hd
    |y i now job todo sandbox req engine t Hi Hd Hcl|y i now job todo sandbox req engine Hi Hd Hcl
    |y i now job todo landed Hi|y i now job todo engine Hi].
  - split; simpl; try apply Hinv; [done| |].
    + intros id r E. destruct (inv_stamped _ Hinv id r E) as (u & ? & ? & ?). exists u. auto with lia.
    + intros i now Hi. destruct (inv_now _ Hinv i now Hi). split; [done|lia].
  - split; simpl; try apply Hinv.
    + by destruct Ho as (_ & _ & ?).
    + eapply others_stamped; [done|exact Ho|apply Hinv].
    + intros x Hx. eapply others_marked; [done|exact Ho|apply Hinv|by apply Hinv].
    + intros i x Hx. eapply others_marked; [done|exact Ho|apply Hinv|by eapply (inv_held_marked _ Hinv)].
  - apply inv_move; [done|done|done| |].
    + intros now [= <-]. split; [done|lia].
    + simpl. intros job Hin. unfold sql_ListJobs in Hin. apply list_elem_of_fmap in Hin as ([id r] & -> & Hin).
      destruct Hord as [Hp _]. rewrite Hp, elem_of_map_to_list in Hin.
      destruct (inv_stamped _ Hinv id r Hin) as (u & Hu & _ & Heq). simpl. rewrite Heq.
      by rewrite (rfc3339nano_roundtrip u Hu).
  - apply inv_move; [done|done|done|done|]. simpl. intros job Hin. by apply elem_of_nil in Hin.
  - destruct (Hscan _ _ _ _ Hi). by apply inv_move.
  - destruct (Hscan _ _ _ _ Hi). apply inv_move; try done. by apply others_update.
  - destruct (Hscan _ _ _ _ Hi). apply inv_move; try done. by apply others_update.
  - by eapply inv_claim.
  - destruct (Hscan _ _ _ _ Hi). by apply inv_move.
  - eapply inv_deliver; [done|exact Hi|by destruct landed..].
  - apply inv_move; [done|by apply others_update|done| |].
    + intros n Hn. apply (inv_now _ Hinv i). by rewrite Hi.
    + simpl. intros j Hj. apply (inv_todo _ Hinv i). by rewrite Hi.
Qed.

(** ** Properties *)

(** A system at rest: rows written by the code no later than now, nobody scanning. *)
Definition at_rest (y : sys) : Prop :=
  writable (y_clock y) ∧ keyed (y_jobs y) ∧ stamped (y_clock y) (y_jobs y) ∧ y_log y = [] ∧ ∀ i, y_inst y i = Idle.

Lemma inv_at_rest y : at_rest y → Inv y.
Proof.
  intros (Hc & Hk & Hs & Hl & Hi).
  assert (Hh : ∀ i x, ¬ holds (y_inst y) i x) by (intros i x (job & todo & Hd & _); by rewrite Hi in Hd).
  split; try done; rewrite ?Hl.
  - intros i now. by rewrite Hi.
  - intros i job. rewrite Hi. intros H. by apply elem_of_nil in H.
  - intros x Hx. by apply elem_of_nil in Hx.
  - intros i x Hx. by apply Hh in Hx.
  - constructor.
  - intros i x z Hx. by apply Hh in Hx.
  - intros i k x z _ Hx. by apply Hh in Hx.
Qed.

(** C17: at least once, and not once per node. However many instances run the pass
    over one database, whatever anybody else does to the job table meanwhile and
    whichever statements the engine refuses, the claims of two deliveries of one job are
    stamped at least 45 seconds apart. The stamp is the reading of the clock a pass starts
    with, so it is the passes that started that far apart: a pass that has been running for
    a while claims under its early stamp, and the job can be claimed again sooner than 45
    seconds after it did ([claims_crowd]). *)
Theorem deliveries_spaced (decode : string → result CreateSandboxRequest) (y0 y : sys) :
  at_rest y0 → reach decode y0 y →
  ∀ i k id n m, i < k → y_log y !! i = Some (id, n) → y_log y !! k = Some (id, m) →
    (n + ResumeStaleAfter ≤ m ∨ m + ResumeStaleAfter ≤ n)%Z.
Proof.
  intros H0 Hr. assert (Hinv : Inv y).
  { apply inv_at_rest in H0. induction Hr as [y|y1 y2 y3 _ IH Hs]; [done|]. eapply inv_step; [by apply IH|exact Hs]. }
  assert (Hpairs : ∀ (l : list (string * gotime)), ForallOrdPairs spaced l → ∀ i k x z, i < k → l !! i = Some x → l !! k = Some z → spaced x z).
  { induction 1 as [|x l Hx Hl IH]; intros i k a b Hik Ha Hb; [done|].
    destruct k as [|k]; [lia|]. destruct i as [|i].
    - injection Ha as ->. rewrite Forall_forall in Hx. by eapply Hx, list_elem_of_lookup_2.
    - apply (IH i k); [lia|done|done]. }
  intros i k id n m Hik Hn Hm. by apply (Hpairs _ (inv_log _ Hinv) i k (id, n) (id, m)).
Qed.

Definition demo_create : Job :=
  mkJob "a" JobTypeCreateSandbox JobStatusPending "sb" "" "eu" "docker" "p" "" "" "" "" "" "" None "" "{}" "alice" ∅
    ns_second ns_second.
Definition demo_rows (touched : gotime) : JobTable := {[ "a" := job_row (set_updated demo_create touched) ]}.
Definition demo_sys : sys := mkSys (demo_rows ns_second) (100 * ns_second) [] (λ _, Idle).
Definition demo_decode (s : string) : result CreateSandboxRequest := Ok demo_policy_req.

Lemma demo_at_rest : at_rest demo_sys.
Proof.
  split_and!; [decided| | |done|done].
  - intros id r E. cbn [demo_sys y_jobs] in E. unfold demo_rows in E. by apply lookup_singleton_Some in E as [<- <-].
  - intros id r E. cbn [demo_sys y_jobs] in E. unfold demo_rows in E. apply lookup_singleton_Some in E as [<- <-].
    exists ns_second. split_and!; [decided|vm_compute; discriminate|done].
Qed.

Lemma demo_rows_list touched : writable touched →
  ordered_rows (demo_rows touched) [("a", job_row (set_updated demo_create touched))] ∧
  sql_ListJobs [("a", job_row (set_updated demo_create touched))] = [set_updated demo_create touched].
Proof.
  intros Hw. split.
  - split; [unfold demo_rows; by rewrite map_to_list_singleton|repeat constructor].
  - unfold sql_ListJobs. simpl. rewrite scan_job_row; [done| |done]. decided.
Qed.

Lemma demo_claim touched now :
  sql_ClaimJob None (demo_rows touched) "a" touched now = Ok (true, demo_rows now) ∧
  (now ≠ touched → writable now → writable touched → ∀ later t,
   sql_ClaimJob None (demo_rows now) "a" touched later ≠ Ok (true, t)).
Proof.
  unfold sql_ClaimJob, demo_rows. rewrite !lookup_singleton_eq. cbn [job_row jw_updated set_updated set_status jb_updated].
  split.
  - rewrite bool_decide_eq_true_2 by done. by rewrite insert_singleton.
  - intros Hne Hw Hw' later t. rewrite bool_decide_eq_false_2; [done|]. intros H. by apply rfc3339nano_inj in H.
Qed.

Lemma reach_trans decode y1 y2 y3 : reach decode y1 y2 → reach decode y2 y3 → reach decode y1 y3.
Proof. intros H12 H23. induction H23 as [|y2 y3 y4 _ IH Hs]; [done|]. eapply reach_step; [by apply IH|done]. Qed.

(** An instance reads the job, last touched at [touched]; and claims and delivers what it
    has read, in vain, under the time [now] its pass began. *)
Lemma demo_begin y i touched : y_jobs y = demo_rows touched → y_inst y i = Idle → writable touched →
  reach demo_decode y (mkSys (demo_rows touched) (y_clock y) (y_log y)
                         (put (y_inst y) i (Scanning (y_clock y) [set_updated demo_create touched]))).
Proof.
  intros Hj Hi Hw. destruct (demo_rows_list _ Hw) as [Ho Hl]. eapply reach_step; [apply reach_refl|]. rewrite <- Hl, <- Hj.
  apply step_begin; [done|by rewrite Hj].
Qed.

Lemma demo_stale now touched : (touched + ResumeStaleAfter ≤ now)%Z → (now ≤ ns_second + resumeMaxAge)%Z →
  resume_decide demo_decode now None (set_updated demo_create touched) = RClaim demo_policy_req.
Proof.
  intros Ht Hn. unfold resume_decide. cbn [set_updated set_status demo_create jb_type jb_status jb_updated jb_request jb_created].
  rewrite bool_decide_eq_false_2 by (by intros H). rewrite bool_decide_eq_false_2 by lia. unfold demo_decode.
  rewrite bool_decide_eq_false_2 by done. cbv iota. rewrite (bool_decide_eq_false_2 (resumeMaxAge < _)%Z) by lia.
  by rewrite andb_false_r.
Qed.

Lemma demo_deliver y i now touched : y_jobs y = demo_rows touched →
  y_inst y i = Scanning now [set_updated demo_create touched] →
  (touched + ResumeStaleAfter ≤ now)%Z → (now ≤ ns_second + resumeMaxAge)%Z →
  reach demo_decode y (mkSys (demo_rows now) (y_clock y) (y_log y ++ [("a", now)])
                         (put (put (y_inst y) i (Delivering now (set_updated demo_create touched) [])) i (Scanning now []))).
Proof.
  intros Hj Hi Ht Hn. eapply reach_step; [eapply reach_step; [apply reach_refl|]|].
  - eapply step_claim; [exact Hi|by apply demo_stale|]. rewrite Hj. apply (proj1 (demo_claim touched now)).
  - eapply (step_deliver _ (mkSys _ _ _ _) i now (set_updated demo_create touched) [] false). cbn [y_inst].
    unfold put. by rewrite decide_True.
Qed.

Lemma demo_tick y c : (y_clock y ≤ c)%Z → writable c → reach demo_decode y (mkSys (y_jobs y) c (y_log y) (y_inst y)).
Proof. intros Hc Hw. eapply reach_step; [apply reach_refl|]. by apply step_tick. Qed.

(** Two passes that begin at 100 s and at [later] deliver the job in turn; the first claims
    it only at the clock [c]. *)
Lemma demo_two c later : (100 * ns_second ≤ c)%Z → (c ≤ later)%Z → (145 * ns_second ≤ later)%Z →
  (later ≤ ns_second + resumeMaxAge)%Z → writable c → writable later →
  ∃ y1 y2, reach demo_decode demo_sys y1 ∧ y_log y1 = [("a", 100 * ns_second)]%Z ∧ y_clock y1 = c ∧
    reach demo_decode y1 y2 ∧ y_log y2 = [("a", 100 * ns_second); ("a", later)]%Z ∧ y_clock y2 = later.
Proof.
  intros H1 H2 H3 H4 Hc Hl. assert (W1 : writable ns_second) by decided. assert (W2 : writable (100 * ns_second)) by decided.
  pose proof (demo_begin demo_sys 0 _ eq_refl eq_refl W1) as R1. set (s1 := mkSys _ _ _ _) in R1.
  pose proof (demo_tick s1 c H1 Hc) as R2. set (s2 := mkSys _ _ _ _) in R2.
  pose proof (demo_deliver s2 0 (100 * ns_second) ns_second eq_refl eq_refl) as R3.
  set (s3 := mkSys _ _ _ _) in R3. specialize (R3 ltac:(vm_compute; discriminate) ltac:(vm_compute; discriminate)).
  pose proof (demo_tick s3 later H2 Hl) as R4. set (s4 := mkSys _ _ _ _) in R4.
  pose proof (demo_begin s4 1 _ eq_refl eq_refl W2) as R5. set (s5 := mkSys _ _ _ _) in R5.
  pose proof (demo_deliver s5 1 later (100 * ns_second) eq_refl eq_refl) as R6. set (s6 := mkSys _ _ _ _) in R6.
  exists s3, s6. split; [by eapply reach_trans; [eapply reach_trans; [exact R1|exact R2]|exact R3]|].
  split; [done|]. split; [done|]. split; [|done].
  eapply reach_trans; [eapply reach_trans; [exact R4|exact R5]|]. apply R6; [|done].
  unfold ResumeStaleAfter. lia.
Qed.

(** Claimed at 400 s by a pass of 100 s, and again at 401 s. *)
Example claims_crowd : ∃ y1 y2, reach demo_decode demo_sys y1 ∧ y_log y1 = [("a", 100 * ns_second)]%Z ∧
  y_clock y1 = (400 * ns_second)%Z ∧ reach demo_decode y1 y2 ∧
  y_log y2 = [("a", 100 * ns_second); ("a", 401 * ns_second)]%Z ∧ y_clock y2 = (401 * ns_second)%Z.
Proof. apply (demo_two (400 * ns_second) (401 * ns_second)); first [decided|vm_compute; discriminate]. Qed.

Lemma demo_run : ∃ y, reach demo_decode demo_sys y ∧ y_log y = [("a", 100 * ns_second); ("a", 200 * ns_second)]%Z.
Proof.
  destruct (demo_two (100 * ns_second) (200 * ns_second)) as (y1 & y2 & H1 & _ & _ & H2 & Hl & _);
    [vm_compute; discriminate..|decided|decided|]. exists y2. split; [by eapply reach_trans|exact Hl].
Qed.

Lemma deliveries_spaced_witness :
  ∃ y, reach demo_decode demo_sys y ∧ length (y_log y) = 2 ∧
    ∀ n m, y_log y !! 0 = Some ("a", n) → y_log y !! 1 = Some ("a", m) →
      (n + ResumeStaleAfter ≤ m ∨ m + ResumeStaleAfter ≤ n)%Z.
Proof.
  destruct demo_run as (y & Hr & Hl). exists y. split; [exact Hr|]. split; [rewrite Hl; reflexivity|].
  intros n m Hn Hm.
  exact (deliveries_spaced demo_decode demo_sys y demo_at_rest Hr 0 1 "a" n m (Nat.lt_0_succ 0) Hn Hm).
Defined.
