(* ===== verification/Reclaim.v ===== *)
(** pkg/server/reclaim.go and the liveness passes of pkg/server/main.go: marking
    workers offline and online, reclaiming dead workers, empty cloud machines and
    idle sandboxes, and the reconciliation a heartbeat brings.

    The first half gives each pass as the entry-wise change it amounts to. The
    second half lets the passes that terminate idle machines run against
    everything else the server does, one worker at a time. *)

From S2P Require Import Prelude GoStrings GoFloat PoderStore SandboxStore Leases.

(** ** The world of a pass *)

Inductive effect :=
| Examined (p : PoderInfo) (now : gotime) (records : list string)
| Listed (ids : list string)
| Terminate (provider vmID id : string) (now : gotime)
| DeleteContainer (poderID name : string)
| Notify (event id : string).

(** [rc_ts] says of each tunnel the server holds whether it is closed. What happened
    is recorded newest first. *)
Record fworld := mkRW {
  rc_ps : PoderStore;
  rc_ss : SandboxStore;
  rc_ts : gmap string bool;
  rc_tombs : Tombstones;
  rc_log : list effect;
}.

Definition with_ps (w : fworld) (ps : PoderStore) := mkRW ps (rc_ss w) (rc_ts w) (rc_tombs w) (rc_log w).
Definition with_ss (w : fworld) (ss : SandboxStore) := mkRW (rc_ps w) ss (rc_ts w) (rc_tombs w) (rc_log w).
Definition with_ts (w : fworld) (ts : gmap string bool) := mkRW (rc_ps w) (rc_ss w) ts (rc_tombs w) (rc_log w).
Definition with_tombs (w : fworld) (t : Tombstones) := mkRW (rc_ps w) (rc_ss w) (rc_ts w) t (rc_log w).
Definition tell (e : effect) (w : fworld) := mkRW (rc_ps w) (rc_ss w) (rc_ts w) (rc_tombs w) (e :: rc_log w).

(** A store operation whose error the code drops or only logs. *)
Definition orelse {A} (r : result A) (old : A) : A := match r with Ok a => a | Err _ => old end.

(** [func isCloudProvider(providerType) bool] *)
Definition isCloudProvider (providerType : string) : bool :=
  any (λ n, bool_decide (providerType = n))
    ["aws"; "aliyun"; "azure"; "gcp"; "tencent"; "digitalocean"; "hetzner"; "oracle"].

(** ** Heartbeats and liveness *)

(** What [reconcileByHeartbeat] makes of one record of the worker. *)
Definition reconcile_state (alive : bool) (st : State) : State :=
  match st with
  | StateRunning | StateStarting => if alive then st else StateError
  | StateError => if alive then StateRunning else st
  | _ => st
  end.

Definition reconcile_one (containerNames : list string) (ss : SandboxStore) (sb : SandboxInfo) : SandboxStore :=
  let isAlive := bool_decide (sb_name sb ∈ containerNames) in
  match sb_state sb with
  | StateRunning | StateStarting =>
      if isAlive then ss else orelse (sb_Update ss (sb_name sb) (set_state StateError)) ss
  | StateError =>
      if isAlive then orelse (sb_Update ss (sb_name sb) (set_state StateRunning)) ss else ss
  | _ => ss
  end.

(** [func reconcileByHeartbeat(poderID, containerNames, ss)] *)
Definition reconcileByHeartbeat (order : list SandboxInfo) (poderID : string) (containerNames : list string)
    (ss : SandboxStore) : SandboxStore :=
  foldl (reconcile_one containerNames) ss (keep (λ sb, bool_decide (sb_poder_id sb = poderID)) order).

(** The body of the loop of [sweepBody]; [clock] is read by the store. *)
Definition sweep_one (ts : gmap string bool) (timeout now clock : Z) (ps : PoderStore) (p : PoderInfo) : PoderStore :=
  let tunnelUp := match ts !! pd_id p with Some closed => negb closed | None => false end in
  if tunnelUp then
    if bool_decide (pd_state p ≠ PoderStateOnline) then orelse (SetOnline clock ps (pd_id p)) ps else ps
  else if bool_decide (pd_state p = PoderStateOnline) && bool_decide (timeout < sub_time now (pd_heartbeat p))%Z
  then SetOffline ps (pd_id p) else ps.

(** [func sweepBody(ps, ts, timeout, now)] *)
Definition sweepBody (order : list PoderInfo) (ts : gmap string bool) (timeout now clock : Z) (ps : PoderStore) : PoderStore :=
  foldl (sweep_one ts timeout now clock) ps order.

(** ** Terminating machines *)

Section Cloud.
  (** [vmTerminator]: the error of terminating a machine, if any. *)
  Variable terminate : string → string → option string.
  (** The clock [Tombstones.Add] reads. *)
  Variable clock : gotime.

(** The body of the loop of [reapOfflinePodersOnce]. *)
Definition reap_offline_one (now timeout : Z) (w : fworld) (p : PoderInfo) : fworld :=
  if negb (bool_decide (pd_state p = PoderStateOffline)) || bool_decide (sub_time now (pd_heartbeat p) ≤ timeout)%Z
  then w
  else
    let cloud := isCloudProvider (pd_provider p) && bool_decide (pd_vm_id p ≠ "") in
    let '(failed, w) :=
      if cloud then (isSome (terminate (pd_provider p) (pd_vm_id p)),
                     tell (Terminate (pd_provider p) (pd_vm_id p) (pd_id p) now) w)
      else (false, w) in
    if failed then w
    else
      let w := with_tombs w (TombAdd clock clock (rc_tombs w) (pd_id p)) in
      with_ps w (orelse (PoderDelete (rc_ps w) (pd_id p)) (rc_ps w)).

(** [func reapOfflinePodersOnce(ctx, now, timeout, ps, terminate)] *)
Definition reapOfflinePodersOnce (order : list PoderInfo) (now timeout : Z) (w : fworld) : fworld :=
  foldl (reap_offline_one now timeout) w order.

(** An online worker on a machine of its own. *)
Definition reclaimable (p : PoderInfo) : bool :=
  bool_decide (pd_state p = PoderStateOnline) && isCloudProvider (pd_provider p) && bool_decide (pd_vm_id p ≠ "").

(** The body of the loop of [reapEmptyPodersOnce], with its map [emptySince]. *)
Definition reap_empty_one (now ttl : Z) (p : PoderInfo) (s : gmap string gotime * fworld) : gmap string gotime * fworld :=
  let '(emptySince, w) := s in
  let records := sb_name <$> sb_ListByPoderID (rc_ss w) (pd_id p) in
  let w := tell (Examined p now records) w in
  if negb (reclaimable p) then (delete (pd_id p) emptySince, w)
  else if bool_decide (records ≠ []) then (delete (pd_id p) emptySince, w)
  else match emptySince !! pd_id p with
  | None => (<[pd_id p := now]> emptySince, w)
  | Some since =>
      if bool_decide (sub_time now since ≤ ttl)%Z then (emptySince, w)
      else
        let w := tell (Terminate (pd_provider p) (pd_vm_id p) (pd_id p) now) w in
        match terminate (pd_provider p) (pd_vm_id p) with
        | Some _ => (emptySince, w)
        | None =>
            let w := with_tombs w (TombAdd clock clock (rc_tombs w) (pd_id p)) in
            let w := with_ts w (alter (λ _, true) (pd_id p) (rc_ts w)) in
            match PoderDelete (rc_ps w) (pd_id p) with
            | Err _ => (emptySince, w)
            | Ok ps => (delete (pd_id p) emptySince, tell (Notify "poder.reclaimed" (pd_id p)) (with_ps w ps))
            end
        end
  end.

(** The end of the pass: tracking of workers that were not listed is dropped. *)
Definition drop_untracked (live : list string) (emptySince : gmap string gotime) : gmap string gotime :=
  filter (λ kv, kv.1 ∈ live) emptySince.

(** [func reapEmptyPodersOnce(ctx, now, ttl, ps, ss, ts, emptySince, terminate)] *)
Definition reapEmptyPodersOnce (order : list PoderInfo) (now ttl : Z) (emptySince : gmap string gotime) (w : fworld)
    : gmap string gotime * fworld :=
  let '(emptySince, w) := foldl (λ s p, reap_empty_one now ttl p s) (emptySince, w) order in
  (drop_untracked (pd_id <$> order) emptySince, tell (Listed (pd_id <$> order)) w).
End Cloud.

(** ** Idle sandboxes *)

(** [func effectiveSandboxTTL(sb, ttl) time.Duration] *)
Definition effectiveSandboxTTL (sb : SandboxInfo) (ttl : Z) : Z :=
  if bool_decide (0 < sb_ttl sb)%Z then int64 (sb_ttl sb * ns_second) else ttl.

(** [func shouldReapSandbox(sb, now, ttl) bool] *)
Definition shouldReapSandbox (sb : SandboxInfo) (now ttl : Z) : bool :=
  if has_prefix (sb_proxy_url sb) "direct://" then false
  else match sb_state sb with
  | StateRunning | StateStopped | StateError =>
      let effective := effectiveSandboxTTL sb ttl in
      if bool_decide (effective ≤ 0)%Z then false
      else
        let last := if is_zero_time (sb_activity sb) then sb_created sb else sb_activity sb in
        negb (is_zero_time last) && bool_decide (effective < sub_time now last)%Z
  | _ => false
  end.

Definition one_less (u : PoderUsage) : PoderUsage :=
  mkUsage (if bool_decide (0 < us_containers u)%Z then us_containers u - 1 else us_containers u)%Z (us_cpu u) (us_memory u).

(** [func teardownSandbox(ctx, sb, ss, ps, ts)] *)
Definition teardownSandbox (w : fworld) (sb : SandboxInfo) : fworld :=
  let w := with_ss w (orelse (sb_Delete (rc_ss w) (sb_name sb)) (rc_ss w)) in
  let w := with_ps w (orelse (UpdateUsage (rc_ps w) (sb_poder_id sb) one_less) (rc_ps w)) in
  match rc_ts w !! sb_poder_id sb with
  | Some _ => tell (DeleteContainer (sb_poder_id sb) (sb_name sb)) w
  | None => w
  end.

(** The body of [reapIdleSandboxes] at one tick. *)
Definition reap_idle_one (now ttl : Z) (w : fworld) (sb : SandboxInfo) : fworld :=
  if shouldReapSandbox sb now ttl then teardownSandbox (tell (Notify "sandbox.reaped" (sb_name sb)) w) sb else w.

Definition reapIdleSandboxes (order : list SandboxInfo) (now ttl : Z) (w : fworld) : fworld :=
  foldl (reap_idle_one now ttl) w order.

(** ** Each pass, entry by entry *)

Definition sweep_entry (ts : gmap string bool) (timeout now clock : Z) (p : PoderInfo) : PoderInfo :=
  if decide (ts !! pd_id p = Some false) then
    match pd_state p with PoderStateOnline => p | PoderStateOffline => with_state p PoderStateOnline clock end
  else if decide (pd_state p = PoderStateOnline ∧ (timeout < sub_time now (pd_heartbeat p))%Z)
  then with_state p PoderStateOffline (pd_heartbeat p) else p.

Lemma partial_alter_same {A} (m : gmap string A) k x : m !! k = Some x → m = partial_alter (λ _, Some x) k m.
Proof.
  intros H. apply map_eq. intros j. destruct (decide (k = j)) as [->|Hj].
  - by rewrite lookup_partial_alter_eq.
  - by rewrite lookup_partial_alter_ne.
Qed.

Lemma omap_pure {A} (f : A → A) (m : gmap string A) : omap (λ x, Some (f x)) m = f <$> m.
Proof. apply map_eq. intros k. rewrite lookup_omap, lookup_fmap. by destruct (m !! k). Qed.

Lemma sweep_one_entry ts timeout now clock ps p : ps !! pd_id p = Some p →
  sweep_one ts timeout now clock ps p = partial_alter (λ _, Some (sweep_entry ts timeout now clock p)) (pd_id p) ps.
Proof.
  intros Hp. unfold sweep_one, sweep_entry.
  destruct (decide (ts !! pd_id p = Some false)) as [->|Ht]; simpl.
  - unfold SetOnline. rewrite Hp. destruct (pd_state p); simpl; auto using partial_alter_same.
  - replace (match ts !! pd_id p with Some closed => negb closed | None => false end) with false
      by (destruct (ts !! pd_id p) as [[|]|]; done).
    rewrite <- bool_decide_and. unfold SetOffline. rewrite Hp.
    case_bool_decide as H; [by rewrite decide_True|rewrite decide_False by done]. by apply partial_alter_same.
Qed.

(** A liveness pass changes each record by itself: an open tunnel makes a worker
    online whatever its heartbeat; without one, an online worker goes offline once
    its heartbeat is older than the timeout. *)
Lemma sweepBody_entries order ts timeout now clock ps : well_keyed pd_id ps → order ≡ₚ poders ps →
  sweepBody order ts timeout now clock ps = sweep_entry ts timeout now clock <$> ps.
Proof.
  intros WK HP. unfold sweepBody. rewrite <- omap_pure.
  apply (fold_entries pd_id id (λ p, Some (sweep_entry ts timeout now clock p))); [|done|done].
  intros s p Hp. by apply sweep_one_entry.
Qed.

Definition reconcile_entry (poderID : string) (names : list string) (sb : SandboxInfo) : SandboxInfo :=
  if decide (sb_poder_id sb = poderID)
  then set_state (reconcile_state (bool_decide (sb_name sb ∈ names)) (sb_state sb)) sb else sb.

Lemma set_state_same sb : set_state (sb_state sb) sb = sb.
Proof. by destruct sb. Qed.

Lemma fold_keep {A S} (p : A → bool) (f : S → A → S) (xs : list A) : ∀ s,
  foldl f s (keep p xs) = foldl (λ s x, if p x then f s x else s) s xs.
Proof. induction xs as [|x xs IH]; intros s; simpl; [done|]. destruct (p x); simpl; apply IH. Qed.

Lemma reconcile_one_entry names ss sb : ss !! sb_name sb = Some sb →
  reconcile_one names ss sb
  = partial_alter (λ _, Some (set_state (reconcile_state (bool_decide (sb_name sb ∈ names)) (sb_state sb)) sb)) (sb_name sb) ss.
Proof.
  intros Hs. unfold reconcile_one, sb_Update, orelse. rewrite Hs. pose proof (set_state_same sb) as E.
  destruct (sb_state sb) eqn:Hst; simpl; try (case_bool_decide; simpl);
    rewrite ?E; auto using partial_alter_same.
Qed.

(** A heartbeat changes each record of its worker by itself, and no other. *)
Lemma reconcile_entries order poderID names ss : well_keyed sb_name ss → order ≡ₚ sb_List ss →
  reconcileByHeartbeat order poderID names ss = reconcile_entry poderID names <$> ss.
Proof.
  intros WK HP. unfold reconcileByHeartbeat. rewrite fold_keep, <- omap_pure.
  apply (fold_entries sb_name id (λ sb, Some (reconcile_entry poderID names sb))); [|done|done].
  intros s sb Hs. unfold reconcile_entry, id in *. case_bool_decide as H.
  - rewrite decide_True by done. by apply reconcile_one_entry.
  - rewrite decide_False by done. by apply partial_alter_same.
Qed.

Definition dead (now timeout : Z) (p : PoderInfo) : bool :=
  bool_decide (pd_state p = PoderStateOffline) && bool_decide (timeout < sub_time now (pd_heartbeat p))%Z.
Definition has_machine (p : PoderInfo) : bool := isCloudProvider (pd_provider p) && bool_decide (pd_vm_id p ≠ "").

(** The record [reapOfflinePodersOnce] leaves of a worker. *)
Definition offline_entry (terminate : string → string → option string) (now timeout : Z) (p : PoderInfo) : option PoderInfo :=
  if dead now timeout p && negb (has_machine p && isSome (terminate (pd_provider p) (pd_vm_id p))) then None else Some p.

Definition termination (now : Z) (p : PoderInfo) : effect := Terminate (pd_provider p) (pd_vm_id p) (pd_id p) now.

Lemma reap_offline_skip terminate clock now timeout w p :
  dead now timeout p = false → reap_offline_one terminate clock now timeout w p = w.
Proof.
  unfold dead, reap_offline_one. intros H.
  case_bool_decide as H1; [|done]. case_bool_decide as H2; [done|].
  rewrite bool_decide_eq_true_2 by lia. done.
Qed.

Lemma reap_offline_dead terminate clock now timeout w p : dead now timeout p = true →
  rc_log (reap_offline_one terminate clock now timeout w p)
    = (if has_machine p then [termination now p] else []) ++ rc_log w ∧
  rc_ss (reap_offline_one terminate clock now timeout w p) = rc_ss w ∧
  (rc_ps w !! pd_id p = Some p → rc_ps (reap_offline_one terminate clock now timeout w p)
    = partial_alter (λ _, offline_entry terminate now timeout p) (pd_id p) (rc_ps w)).
Proof.
  intros H. unfold offline_entry. rewrite H. unfold dead in H. unfold reap_offline_one, has_machine. simpl_bool.
  rewrite bool_decide_eq_true_2 by done. rewrite (bool_decide_eq_false_2 (_ ≤ _)%Z) by lia. simpl.
  unfold PoderDelete.
  destruct (isCloudProvider _ && _) eqn:Hc; simpl.
  - destruct (terminate _ _); simpl; split; try done; split; try done; intros Hp.
    + by apply partial_alter_same.
    + by rewrite Hp.
  - split; [done|]. split; [done|]. intros Hp. by rewrite Hp.
Qed.

Lemma reap_offline_ps terminate clock now timeout w p : rc_ps w !! pd_id p = Some p →
  rc_ps (reap_offline_one terminate clock now timeout w p)
  = partial_alter (λ _, offline_entry terminate now timeout p) (pd_id p) (rc_ps w).
Proof.
  intros Hp. destruct (dead now timeout p) eqn:Hd.
  - by apply reap_offline_dead.
  - rewrite reap_offline_skip by done. unfold offline_entry. rewrite Hd. by apply partial_alter_same.
Qed.

Lemma reap_offline_log terminate clock now timeout order : ∀ w,
  rc_log (foldl (reap_offline_one terminate clock now timeout) w order)
  = reverse (termination now <$> keep (λ p, dead now timeout p && has_machine p) order) ++ rc_log w.
Proof.
  induction order as [|p order IH]; intros w; simpl; [done|]. rewrite IH.
  destruct (dead now timeout p) eqn:Hd; simpl.
  - destruct (reap_offline_dead terminate clock now timeout w p Hd) as (-> & _).
    destruct (has_machine p); simpl; [|done]. by rewrite reverse_cons, <- app_assoc.
  - by rewrite reap_offline_skip.
Qed.

(** Reclaiming dead workers takes exactly the workers that have been offline for
    longer than the timeout and whose machine, if they have one, is gone; machines
    are terminated for exactly the dead workers that have one, each once. *)
Theorem reapOffline_exact (terminate : string → string → option string) (clock now timeout : Z) (order : list PoderInfo)
    (w : fworld) :
  well_keyed pd_id (rc_ps w) → order ≡ₚ poders (rc_ps w) →
  let w' := reapOfflinePodersOnce terminate clock order now timeout w in
  (∀ id p, rc_ps w' !! id = Some p ↔
     rc_ps w !! id = Some p ∧
     ¬ (pd_state p = PoderStateOffline ∧ (timeout < sub_time now (pd_heartbeat p))%Z ∧
        (isCloudProvider (pd_provider p) = true → pd_vm_id p ≠ "" → terminate (pd_provider p) (pd_vm_id p) = None))) ∧
  rc_log w' = reverse (termination now <$> keep (λ p, dead now timeout p && has_machine p) order) ++ rc_log w.
Proof.
  intros WK HP w'. split; [|apply reap_offline_log].
  assert (E : rc_ps w' = omap (offline_entry terminate now timeout) (rc_ps w)).
  { apply (fold_entries pd_id rc_ps); [|done|done]. intros s p. apply reap_offline_ps. }
  intros id p. rewrite E, lookup_omap_Some. unfold offline_entry, dead, has_machine. split.
  - intros (q & Hq & Hid). case_match eqn:Hc; [done|]. injection Hq as ->. split; [done|].
    intros (H1 & H2 & H3). rewrite !bool_decide_eq_true_2 in Hc by done. simpl in Hc.
    apply negb_false_iff in Hc. simpl_bool. by rewrite H3 in H0.
  - intros (Hid & Hn). exists p. split; [|done]. case_match eqn:Hc; [|done]. exfalso. apply Hn.
    apply andb_true_iff in Hc as (Hd & Hc). simpl_bool. split; [done|]. split; [done|]. intros H1 H2.
    rewrite H1, bool_decide_eq_true_2 in Hc by done. by destruct (terminate _ _).
Qed.

(** A counter lowered [n] times. *)
Definition less (n : nat) (u : PoderUsage) : PoderUsage :=
  mkUsage (if bool_decide (0 < us_containers u)%Z then Z.max 0 (us_containers u - Z.of_nat n) else us_containers u)%Z
    (us_cpu u) (us_memory u).

Lemma less_0 u : less 0 u = u.
Proof. destruct u as [c ? ?]. unfold less. simpl. f_equal. case_bool_decide; lia. Qed.

Lemma less_S n u : less n (one_less u) = less (S n) u.
Proof. destruct u as [c ? ?]. unfold less, one_less. simpl. f_equal. repeat case_bool_decide; lia. Qed.

Lemma with_usage_same p : with_usage p (pd_usage p) = p.
Proof. by destruct p. Qed.

Definition reaped_on (now ttl : Z) (id : string) (order : list SandboxInfo) : list SandboxInfo :=
  keep (λ sb, shouldReapSandbox sb now ttl && bool_decide (sb_poder_id sb = id)) order.

Lemma reap_idle_usage now ttl order : ∀ w id,
  rc_ps (reapIdleSandboxes order now ttl w) !! id
  = (λ p, with_usage p (less (length (reaped_on now ttl id order)) (pd_usage p))) <$> rc_ps w !! id.
Proof.
  unfold reapIdleSandboxes. induction order as [|sb order IH]; intros w id; simpl.
  - destruct (rc_ps w !! id); simpl; [|done]. by rewrite less_0, with_usage_same.
  - rewrite IH. unfold reap_idle_one. destruct (shouldReapSandbox sb now ttl); simpl; [|done].
    assert (E : rc_ps (teardownSandbox (tell (Notify "sandbox.reaped" (sb_name sb)) w) sb)
                = orelse (UpdateUsage (rc_ps w) (sb_poder_id sb) one_less) (rc_ps w)).
    { unfold teardownSandbox; simpl. by case_match. }
    rewrite E. unfold UpdateUsage. case_bool_decide as Hid.
    + rewrite Hid. destruct (rc_ps w !! id) as [p|] eqn:Hp; simpl; [|by rewrite Hp].
      rewrite lookup_insert_eq. simpl. by rewrite less_S.
    + destruct (rc_ps w !! sb_poder_id sb) eqn:Hp; simpl; [|done]. by rewrite lookup_insert_ne.
Qed.

Lemma reap_idle_records now ttl order w : well_keyed sb_name (rc_ss w) → order ≡ₚ sb_List (rc_ss w) →
  rc_ss (reapIdleSandboxes order now ttl w)
  = omap (λ sb, if shouldReapSandbox sb now ttl then None else Some sb) (rc_ss w).
Proof.
  intros WK HP. unfold reapIdleSandboxes.
  apply (fold_entries sb_name rc_ss (λ sb, if shouldReapSandbox sb now ttl then None else Some sb)); [|done|done].
  intros s sb Hs. unfold reap_idle_one. destruct (shouldReapSandbox sb now ttl); [|by apply partial_alter_same].
  assert (E : rc_ss (teardownSandbox (tell (Notify "sandbox.reaped" (sb_name sb)) s) sb)
              = orelse (sb_Delete (rc_ss s) (sb_name sb)) (rc_ss s)).
  { unfold teardownSandbox; simpl. by case_match. }
  rewrite E. unfold sb_Delete. by rewrite Hs.
Qed.

(** When a sandbox is past its time: it is not on a user's own machine, not starting, and
    was last used longer ago than the lifetime of its own in seconds, as 64 bits hold it in
    nanoseconds, if it has one, or else the server's, if that is set. *)
Definition past_its_time (now ttl : Z) (sb : SandboxInfo) : Prop :=
  let own := (if bool_decide (0 < sb_ttl sb) then int64 (sb_ttl sb * ns_second) else ttl)%Z in
  let last := if bool_decide (sb_activity sb = 0%Z) then sb_created sb else sb_activity sb in
  (∀ host, sb_proxy_url sb ≠ "direct://" +:+ host) ∧
  (sb_state sb = StateRunning ∨ sb_state sb = StateStopped ∨ sb_state sb = StateError) ∧
  (0 < own)%Z ∧ last ≠ 0%Z ∧ (own < sub_time now last)%Z.

Lemma shouldReap_spec sb now ttl : shouldReapSandbox sb now ttl = true ↔ past_its_time now ttl sb.
Proof.
  unfold past_its_time, shouldReapSandbox, effectiveSandboxTTL, is_zero_time. cbv zeta.
  set (own := if bool_decide _ then int64 _ else ttl). set (last := if bool_decide _ then sb_created sb else _).
  assert (E : (if bool_decide (own ≤ 0)%Z then false
              else negb (bool_decide (last = 0%Z)) && bool_decide (own < sub_time now last)%Z) = true
              ↔ (0 < own)%Z ∧ last ≠ 0%Z ∧ (own < sub_time now last)%Z).
  { case_bool_decide; [split; [done|lia]|]. rewrite andb_true_iff, negb_true_iff, bool_decide_eq_false, bool_decide_eq_true.
    naive_solver lia. }
  destruct (has_prefix _ _) eqn:Hp.
  - apply has_prefix_spec in Hp as (host & Hp). split; [done|]. intros (H & _). by destruct (H host).
  - assert (Hd : ∀ host, sb_proxy_url sb ≠ "direct://" +:+ host).
    { intros host Hh. rewrite (proj2 (has_prefix_spec _ _)) in Hp; [done|by exists host]. }
    destruct (sb_state sb); rewrite ?E; naive_solver.
Qed.

(** C33: One tick of the idle reaper. It removes exactly the sandboxes that are past their
    time; such a one has really been idle for the lifetime of its own when that is at most
    292 years, or for the server's; and a worker's container count drops by the number of
    its sandboxes removed, not below zero. *)
Theorem reapIdle_exact (order : list SandboxInfo) (now ttl : Z) (w : fworld) :
  well_keyed sb_name (rc_ss w) → order ≡ₚ sb_List (rc_ss w) →
  let w' := reapIdleSandboxes order now ttl w in
  (∀ name sb, rc_ss w' !! name = Some sb ↔ rc_ss w !! name = Some sb ∧ ¬ past_its_time now ttl sb) ∧
  (∀ sb, (sb_ttl sb ≤ 9223372036)%Z → past_its_time now ttl sb →
     (0 < (if bool_decide (0 < sb_ttl sb) then sb_ttl sb * ns_second else ttl)
        < now - (if bool_decide (sb_activity sb = 0) then sb_created sb else sb_activity sb))%Z) ∧
  (∀ id, ∃ gone, NoDup gone ∧
     (∀ sb, sb ∈ gone ↔ rc_ss w !! sb_name sb = Some sb ∧ past_its_time now ttl sb ∧ sb_poder_id sb = id) ∧
     rc_ps w' !! id = (λ p, with_usage p (less (length gone) (pd_usage p))) <$> rc_ps w !! id).
Proof.
  intros WK HP w'. assert (Hin : ∀ sb, sb ∈ order ↔ rc_ss w !! sb_name sb = Some sb).
  { intros sb. rewrite HP. unfold sb_List. rewrite list_elem_of_fmap. split.
    - intros ([k x] & -> & Hx%elem_of_map_to_list). simpl. by rewrite (WK _ _ Hx).
    - intros Hs. exists (sb_name sb, sb). by rewrite elem_of_map_to_list. }
  split; [|split].
  - intros name sb. unfold w'. rewrite reap_idle_records, lookup_omap_Some, <- shouldReap_spec by done. split.
    + intros (x & Hx & Hn). destruct (shouldReapSandbox x now ttl) eqn:E; simplify_eq. split; [done|congruence].
    + intros (Hn & Hr%not_true_is_false). exists sb. by rewrite Hr.
  - intros sb Hb (_ & _ & H3 & H4 & H5). set (last := if bool_decide (sb_activity sb = 0%Z) then _ else _) in *.
    assert (E : (if bool_decide (0 < sb_ttl sb)%Z then int64 (sb_ttl sb * ns_second) else ttl)
                = (if bool_decide (0 < sb_ttl sb) then sb_ttl sb * ns_second else ttl)%Z).
    { case_bool_decide; [|done]. rewrite int64_id; [done|]. unfold ns_second. lia. }
    rewrite E in *. split; [done|]. apply sub_time_gt; [lia|done].
  - intros id. exists (reaped_on now ttl id order). split_and!; [| |apply reap_idle_usage].
    + eapply sublist_NoDup; [|apply keep_sublist]. rewrite HP. apply (NoDup_fmap_1 sb_name). unfold sb_List.
      rewrite <- list_fmap_compose, (list_fmap_ext (sb_name ∘ snd) fst); [apply NoDup_fst_map_to_list|].
      intros i [k x] Hx. apply list_elem_of_lookup_2, elem_of_map_to_list in Hx. by apply WK.
    + intros sb. unfold reaped_on. rewrite elem_of_keep, Hin, andb_true_iff, shouldReap_spec, bool_decide_eq_true. tauto.
Qed.

(** A lifetime in seconds above 292 years wraps in the conversion to nanoseconds:
    such a sandbox may live less than a second. *)
Example ttl_wraps : int64 (18446744074 * ns_second) = 290448384%Z.
Proof. reflexivity. Qed.

(** ** The empty-machine reaper among everything else

    The reaper works through the workers it listed one at a time, while handlers,
    other reapers and the workers themselves change every store. [emptySince] is the
    reaper's own. A record may have changed since it was listed (the in-memory store
    lists the records themselves), so each turn reads some record of that worker. *)
Section Reaper.
  Variables (terminate : gotime → string → string → option string) (ttl : Z).

Record reaper := mkReaper {
  rp_world : fworld;
  rp_since : gmap string gotime;
  rp_pass : option (gotime * list string * list string);
}.

Inductive reaper_step : reaper → reaper → Prop :=
| step_other w since pass ps ss ts tombs :
    reaper_step (mkReaper w since pass) (mkReaper (mkRW ps ss ts tombs (rc_log w)) since pass)
| step_tick w since now order :
    order ≡ₚ poders (rc_ps w) →
    reaper_step (mkReaper w since None)
      (mkReaper w since (Some (now, pd_id <$> order, pd_id <$> order)))
| step_worker w since now id todo live p clock since' w' :
    pd_id p = id →
    reap_empty_one (terminate clock) clock now ttl p (since, w) = (since', w') →
    reaper_step (mkReaper w since (Some (now, id :: todo, live))) (mkReaper w' since' (Some (now, todo, live)))
| step_end w since now live :
    reaper_step (mkReaper w since (Some (now, [], live)))
      (mkReaper (tell (Listed live) w) (drop_untracked live since) None).

Definition reaper_start (r : reaper) : Prop := rp_since r = ∅ ∧ rp_pass r = None ∧ rc_log (rp_world r) = [].

(** [p] was examined as a reclaimable worker without sandbox records. *)
Definition seen_idle (e : effect) (id : string) (now : gotime) : Prop :=
  ∃ p, e = Examined p now [] ∧ pd_id p = id ∧ reclaimable p = true.

(** What happened does not interrupt the idleness of worker [id]. *)
Definition keeps_idle (id : string) (e : effect) : Prop :=
  match e with
  | Examined p _ records => pd_id p = id → reclaimable p = true ∧ records = []
  | Listed ids => id ∈ ids
  | _ => True
  end.

(** In this log, newest first, worker [id] has been idle at every look since it was
    found idle at time [since]. *)
Definition idle_from (log : list effect) (id : string) (since : gotime) : Prop :=
  ∃ recent e older, log = recent ++ e :: older ∧ seen_idle e id since ∧ Forall (keeps_idle id) recent.

Inductive justified : list effect → Prop :=
| justified_nil : justified []
| justified_terminate provider vmID id now since e log :
    seen_idle e id now → (ttl < sub_time now since)%Z → idle_from log id since → justified log →
    (∃ p, e = Examined p now [] ∧ pd_provider p = provider ∧ pd_vm_id p = vmID) →
    justified (Terminate provider vmID id now :: e :: log)
| justified_other e log :
    match e with Terminate _ _ _ _ => False | _ => True end → justified log → justified (e :: log).

Definition reaper_inv (r : reaper) : Prop :=
  justified (rc_log (rp_world r)) ∧
  ∀ id since, rp_since r !! id = Some since → idle_from (rc_log (rp_world r)) id since.

Lemma idle_from_cons e log id since : idle_from log id since → keeps_idle id e → idle_from (e :: log) id since.
Proof.
  intros (recent & e0 & older & -> & He & Hr) Hk. exists (e :: recent), e0, older. by rewrite Forall_cons.
Qed.

Lemma examined_other p now records log id since : pd_id p ≠ id →
  idle_from log id since → idle_from (Examined p now records :: log) id since.
Proof. intros Hn H. apply idle_from_cons; [done|]. simpl. by intros. Qed.

Lemma worker_inv clock now p since w since' w' :
  justified (rc_log w) → (∀ id t, since !! id = Some t → idle_from (rc_log w) id t) →
  reap_empty_one (terminate clock) clock now ttl p (since, w) = (since', w') →
  justified (rc_log w') ∧ ∀ id t, since' !! id = Some t → idle_from (rc_log w') id t.
Proof.
  intros Hj Hs. unfold reap_empty_one. set (records := sb_name <$> sb_ListByPoderID (rc_ss w) (pd_id p)).
  assert (Hj' : justified (Examined p now records :: rc_log w)) by (by constructor).
  assert (Hdel : ∀ id t, delete (pd_id p) since !! id = Some t → idle_from (Examined p now records :: rc_log w) id t).
  { intros id t (Hn & Ht)%lookup_delete_Some. apply examined_other; auto. }
  destruct (reclaimable p) eqn:Hr; cbn [negb]; [|by intros [= <- <-]].
  case_bool_decide as Hrec; [by intros [= <- <-]|].
  assert (Hidle : seen_idle (Examined p now records) (pd_id p) now) by (exists p; by rewrite Hrec).
  assert (Hkeep : ∀ id t, since !! id = Some t → idle_from (Examined p now records :: rc_log w) id t).
  { intros id t Ht. apply idle_from_cons; [auto|]. simpl. by intros. }
  destruct (since !! pd_id p) as [t0|] eqn:Ht0.
  2: { intros [= <- <-]. split; [done|]. intros id t. rewrite lookup_insert. case_decide as E; [|auto].
       intros [= <-]. exists [], (Examined p now records), (rc_log w). subst id. by repeat split. }
  case_bool_decide as Httl; [by intros [= <- <-]|].
  assert (HT : justified (termination now p :: Examined p now records :: rc_log w)).
  { econstructor; [done| |exact (Hs _ _ Ht0)|done|]; [lia|]. exists p. by rewrite Hrec. }
  assert (HkT : ∀ id t, since !! id = Some t → idle_from (termination now p :: Examined p now records :: rc_log w) id t).
  { intros id t Ht. by apply idle_from_cons; auto. }
  destruct (terminate clock (pd_provider p) (pd_vm_id p)); [by intros [= <- <-]|].
  destruct (PoderDelete _ _); intros [= <- <-]; [|done].
  simpl. split; [by constructor|]. intros id t (Hn & Ht)%lookup_delete_Some.
  apply idle_from_cons; [|done]. by apply HkT.
Qed.

Lemma reaper_inv_step r r' : reaper_inv r → reaper_step r r' → reaper_inv r'.
Proof.
  intros (Hj & Hs) Hstep. destruct Hstep; unfold reaper_inv in *; simpl in *.
  - done.
  - done.
  - by eapply worker_inv.
  - split; [by constructor|]. intros id t (Ht & Hl)%map_lookup_filter_Some.
    apply idle_from_cons; [by apply Hs|done].
Qed.

Lemma justified_split log1 provider vmID id now log : justified (log1 ++ Terminate provider vmID id now :: log) →
  ∃ p rest since, log = Examined p now [] :: rest ∧ pd_id p = id ∧ pd_provider p = provider ∧ pd_vm_id p = vmID ∧
    reclaimable p = true ∧ (ttl < sub_time now since)%Z ∧ idle_from rest id since.
Proof.
  intros H. remember (log1 ++ Terminate provider vmID id now :: log) as l eqn:El. revert log1 El.
  induction H as [|provider' vmID' id' now' since e l Hseen Httl Hidle H IH (q & Hq & Hpv)|e l He H IH]; intros log1 El.
  - by destruct log1.
  - destruct Hseen as (p & -> & <- & Hr), Hpv as (<- & <-). injection Hq as <-.
    destruct log1 as [|x [|y log1]]; simplify_eq/=; [by exists p, l, since|by eapply IH].
  - destruct log1; simplify_eq/=; [done|]. by eapply IH.
Qed.

(** C16: In every run of the reaper next to anything else that changes the stores, a
    machine is only terminated for a worker that was online and on a cloud machine
    without a single sandbox record at this very look, and at every look of every
    pass since one more than [ttl] ago; and it is that worker's machine. *)
Theorem reclaim_after_idle (r0 r : reaper) (log1 log2 : list effect) (provider vmID id : string) (now : gotime) :
  (0 ≤ ttl)%Z → reaper_start r0 → rtc reaper_step r0 r →
  rc_log (rp_world r) = log1 ++ Terminate provider vmID id now :: log2 →
  ∃ p rest since,
    log2 = Examined p now [] :: rest ∧ pd_id p = id ∧ pd_provider p = provider ∧ pd_vm_id p = vmID ∧
    pd_state p = PoderStateOnline ∧ isCloudProvider provider = true ∧ vmID ≠ "" ∧
    (ttl < now - since)%Z ∧ idle_from rest id since.
Proof.
  intros Httl (Hs & Hp & Hl) Hrun Hlog.
  assert (Hinv : reaper_inv r).
  { clear Hlog. assert (reaper_inv r0) as H0.
    { split; [rewrite Hl; constructor|]. intros id' t. rewrite Hs. done. }
    clear Hs Hp Hl. induction Hrun; eauto using reaper_inv_step. }
  destruct Hinv as (Hj & _). rewrite Hlog in Hj.
  apply justified_split in Hj as (p & rest & since & -> & ? & <- & <- & Hr & Ht & Hi).
  unfold reclaimable in Hr. simpl_bool. exists p, rest, since. by eauto 12 using sub_time_gt.
Qed.
End Reaper.

Definition settle (s : gmap string gotime * fworld) : reaper := mkReaper (snd s) (fst s) None.

Lemma workers_run terminate ttl clock now live order : ∀ since w,
  rtc (reaper_step terminate ttl) (mkReaper w since (Some (now, pd_id <$> order, live)))
    (let '(since', w') := foldl (λ s p, reap_empty_one (terminate clock) clock now ttl p s) (since, w) order in
     mkReaper w' since' (Some (now, [], live))).
Proof.
  induction order as [|p order IH]; intros since w; [reflexivity|].
  cbn [fmap list_fmap foldl]. destruct (reap_empty_one _ _ _ _ p (since, w)) as [since' w'] eqn:E.
  eapply rtc_l; [by eapply step_worker|apply IH].
Qed.

(** An undisturbed pass is one way the reaper runs. *)
Lemma pass_is_run terminate ttl clock now order since w : order ≡ₚ poders (rc_ps w) →
  rtc (reaper_step terminate ttl) (mkReaper w since None)
    (settle (reapEmptyPodersOnce (terminate clock) clock order now ttl since w)).
Proof.
  intros HP. eapply rtc_l; [by apply step_tick|].
  pose proof (workers_run terminate ttl clock now (pd_id <$> order) order since w) as H.
  unfold reapEmptyPodersOnce. destruct (foldl _ _ _) as [since' w'].
  eapply rtc_r; [exact H|]. apply step_end.
Qed.

(** ** Witnesses *)

Definition demo_cloud (id vm : string) (st : PoderState) (beat : gotime) : PoderInfo :=
  mkPoder id id "" "eu" "aws" vm st (demo_res 0) [] "" (mkUsage 2 f_zero f_zero) beat 1.
Definition demo_fworld (p : PoderInfo) (ss : SandboxStore) : fworld :=
  mkRW {[ pd_id p := p ]} ss {[ pd_id p := false ]} (mkTombs ∅ (10 * ns_minute)) [].
Definition always (_ : gotime) (_ _ : string) : option string := None.
Definition demo_idle : PoderInfo := demo_cloud "w1" "i-1" PoderStateOnline 5.
Definition demo_pass (now : gotime) (s : gmap string gotime * fworld) : gmap string gotime * fworld :=
  reapEmptyPodersOnce (always now) now [demo_idle] now 60 (fst s) (snd s).

Lemma demo_pass_run now s : poders (rc_ps (snd s)) = [demo_idle] →
  rtc (reaper_step always 60) (settle s) (settle (demo_pass now s)).
Proof. intros H. destruct s as [since w]. apply (pass_is_run always 60 now now [demo_idle]). simpl in *. by rewrite H. Qed.

Lemma reclaim_after_idle_witness :
  ∃ p rest since,
    [Examined demo_idle 200 []; Listed ["w1"]; Examined demo_idle 100 []] = Examined p 200 [] :: rest ∧
    pd_id p = "w1" ∧ pd_provider p = "aws" ∧ pd_vm_id p = "i-1" ∧
    pd_state p = PoderStateOnline ∧ isCloudProvider "aws" = true ∧ "i-1" ≠ "" ∧
    (60 < 200 - since)%Z ∧ idle_from rest "w1" since.
Proof.
  apply (reclaim_after_idle always 60 (settle (∅, demo_fworld demo_idle ∅))
           (settle (demo_pass 200 (demo_pass 100 (∅, demo_fworld demo_idle ∅))))
           [Listed ["w1"]; Notify "poder.reclaimed" "w1"]).
  - done.
  - by vm_compute.
  - transitivity (settle (demo_pass 100 (∅, demo_fworld demo_idle ∅))); apply demo_pass_run; vm_compute; reflexivity.
  - vm_compute. reflexivity.
Defined.

Definition demo_old (name : string) (ttl : Z) : SandboxInfo :=
  mkSandbox "" name "eu" "aws" "" "" StateRunning "" "" ttl f_zero 0 "w1" "" "" "" "" "" "" "" 50 100 ∅ None.
Definition demo_records : SandboxStore := {[ "a" := demo_old "a" 30; "b" := demo_old "b" 0 ]}.

Lemma reapIdle_exact_witness :
  let w := demo_fworld demo_idle demo_records in
  let now := (100 + 31 * ns_second)%Z in
  let w' := reapIdleSandboxes (sb_List demo_records) now ns_minute w in
  (∀ name sb, rc_ss w' !! name = Some sb ↔ rc_ss w !! name = Some sb ∧ ¬ past_its_time now ns_minute sb) ∧
  ∃ gone, NoDup gone ∧
    (∀ sb, sb ∈ gone ↔ rc_ss w !! sb_name sb = Some sb ∧ past_its_time now ns_minute sb ∧ sb_poder_id sb = "w1") ∧
    rc_ps w' !! "w1" = (λ p, with_usage p (less (length gone) (pd_usage p))) <$> rc_ps w !! "w1".
Proof.
  intros w now w'. destruct (reapIdle_exact (sb_List demo_records) now ns_minute w) as (H1 & _ & H3).
  - intros k x. unfold w, demo_fworld, demo_records. simpl. intros [(<- & <-)|(_ & H)]%lookup_insert_Some; [done|].
    by apply lookup_singleton_Some in H as (<- & <-).
  - reflexivity.
  - split; [exact H1|exact (H3 "w1")].
Defined.

Example demo_reaped : (us_containers ∘ pd_usage <$> rc_ps (reapIdleSandboxes (sb_List demo_records) (100 + 31 * ns_second) ns_minute
                        (demo_fworld demo_idle demo_records)) !! "w1") = Some 1%Z.
Proof. vm_compute. reflexivity. Qed.
