(* ===== verification/E2BGateway.v ===== *)
(** pkg/e2bcompat: the gateway in front of the two planes of the E2B protocol
    (gateway.go, apikey.go) and the control plane behind it (controlplane.go),
    against the interface the server implements. Bodies arrive decoded. *)

From S2P Require Import Prelude GoStrings GoHTTP GoTime.

(** ** Hosts, paths and keys *)

(** [func IsE2BKey(s string) bool]: the pattern [^e2b_[0-9a-f]+$]. *)
Definition hex_lower (c : char) : bool := is_digit c || ((97 <=? code c) && (code c <=? 102)).
Definition IsE2BKey (s : string) : bool :=
  has_prefix s "e2b_" &&
  let rest := drop_prefix s "e2b_" in bool_decide (rest ≠ "") && all_chars hex_lower rest.

(** [func TokenFromKey(key string) string] *)
Definition TokenFromKey (key : string) : string := trim_prefix key "e2b_".

(** [func presentedKey(headerAPIKey, authorization string) string] *)
Definition presentedKey (headerAPIKey authorization : string) : string :=
  if bool_decide (headerAPIKey ≠ "") then headerAPIKey
  else if has_prefix authorization "Bearer " then drop_prefix authorization "Bearer " else "".

(** [func hostOnly(host string) string] *)
Definition hostOnly (host : string) : string := match cut ":"%char host with Some (h, _) => h | None => host end.

Definition id_char (c : char) : bool := is_lower c || is_upper c || is_digit c || mem_char c "_-".

(** [func envdHostRe(domain)]: the port and the sandbox a host
    [<port>-<sandboxID>.<domain>] names. *)
Definition envd_host (domain host : string) : option (string * string) :=
  if bool_decide (domain = "") then None
  else match cut "-"%char host with
  | None => None
  | Some (port, rest) =>
      let id := trim_suffix rest ("." +:+ domain) in
      if bool_decide (port ≠ "") && all_chars is_digit port && has_suffix rest ("." +:+ domain) &&
         bool_decide (id ≠ "") && all_chars id_char id
      then Some (port, id) else None
  end.

(** The integer [strconv.Atoi] leaves for a string of digits, overflow included. *)
Definition host_port (digits : string) : Z := default (2 ^ 63 - 1)%Z (atoi digits).

(** [func isEnvdPath(p string) bool] *)
Definition isEnvdPath (p : string) : bool :=
  has_prefix p "/filesystem." || has_prefix p "/process." || bool_decide (p = "/files").

Definition controlPlaneNamespaces : list string := ["/sandboxes"; "/templates"; "/snapshots"; "/volumes"].

Fixpoint drop_digits (s : string) : string :=
  match s with
  | String c s' => if is_digit c then drop_digits s' else s
  | EmptyString => EmptyString
  end.

(** [versionPrefix.ReplaceAllString(p, "")] for the pattern [^/v\d+]. *)
Definition drop_version (p : string) : string :=
  if has_prefix p "/v" then
    let rest := drop_prefix p "/v" in
    let rest' := drop_digits rest in
    if bool_decide (rest' = rest) then p else rest'
  else p.

(** [func IsControlPlanePath(p string) bool] *)
Definition IsControlPlanePath (p : string) : bool :=
  any (λ ns, bool_decide (drop_version p = ns) || has_prefix (drop_version p) (ns +:+ "/")) controlPlaneNamespaces.

(** ** Requests *)

(** What the gateway reads of a request. *)
Record E2BReq := mkE2BReq {
  eq_method : string;
  eq_host : string;
  eq_path : string;
  eq_header : Header;
}.

(** [type Identity struct] *)
Record E2BIdentity := mkE2BIdentity { ei_name : string; ei_tenant : string; ei_admin : bool }.

(** [type Config struct]. The hooks that take the request are given applied to it:
    [gw_forward] and [gw_port_proxy] say whether they answered it. [gw_stat] is
    [Envd.Stat(sandbox, "/")], true when it succeeds. *)
Record GwConfig := mkGw {
  gw_domain : string;
  gw_auth : option (string → option (string * bool));
  gw_authz : option (string → option E2BIdentity);
  gw_throttle : option (string → bool → bool);
  gw_code_port : Z;
  gw_resolver : option (string → string);
  gw_authorize : option (string → string → bool);
  gw_forward : option (string → bool);
  gw_port_proxy : option (string → Z → bool);
  gw_stat : option (string → bool);
  gw_private : bool;
}.

Definition DefaultCodeInterpreterPort : Z := 49999.

(** Who answers: an error or health status of the gateway itself, a peer, the
    service inside the sandbox, or one of the three planes. *)
Inductive outcome :=
| Answer (status : Z)
| Forwarded (ident sandbox : string)
| Proxied (ident sandbox : string) (port : Z)
| ToCode (ident sandbox : string)
| ToEnvd (ident sandbox : string)
| ToControl (ident : string) (admin : bool) (tenant : string).

(** ** The gateway *)

(** What the host of a request names: the sandbox, whether it is on the code
    port, and the port. *)
Definition code_port (cfg : GwConfig) : Z :=
  if bool_decide (gw_code_port cfg = 0%Z) then DefaultCodeInterpreterPort else gw_code_port cfg.

Definition named_by_host (cfg : GwConfig) (r : E2BReq) : string * bool * Z :=
  match envd_host (gw_domain cfg) (hostOnly (eq_host r)) with
  | Some (port, id) => (id, bool_decide (port = itoa (code_port cfg)), host_port port)
  | None => ("", false, 0%Z)
  end.

Definition request_key (r : E2BReq) : string :=
  let key := presentedKey (h_get (eq_header r) "X-API-KEY") (h_get (eq_header r) "Authorization") in
  if bool_decide (key = "") then h_get (eq_header r) "X-Access-Token" else key.

Definition authenticate_key (cfg : GwConfig) (key : string) : option E2BIdentity :=
  match gw_authz cfg with
  | Some authz => authz key
  | None => match gw_auth cfg with
            | Some auth => match auth key with Some (name, admin) => Some (mkE2BIdentity name "" admin) | None => None end
            | None => None
            end
  end.

Definition code_ctx_path (r : E2BReq) : bool := has_prefix (eq_path r) "/contexts".
Definition code_path (r : E2BReq) : bool := bool_decide (eq_path r = "/execute") || code_ctx_path r.

(** The three cases that are decided before authentication. *)
Definition health_probe (cfg : GwConfig) (r : E2BReq) : bool :=
  bool_decide (0 < (named_by_host cfg r).2)%Z && bool_decide (eq_path r = "/health").
Definition host_scoped_ctx (cfg : GwConfig) (r : E2BReq) : bool :=
  let '(sandbox, isCode, _) := named_by_host cfg r in bool_decide (sandbox ≠ "") && isCode && code_ctx_path r.
Definition public_port (cfg : GwConfig) (r : E2BReq) : bool :=
  let '(sandbox, isCode, hostPort) := named_by_host cfg r in
  negb (gw_private cfg) && bool_decide (sandbox ≠ "") && bool_decide (0 < hostPort)%Z && negb isCode &&
  negb (isEnvdPath (eq_path r)) && negb (code_ctx_path r) && negb (bool_decide (eq_path r = "/execute")).
Definition debug_code_path (cfg : GwConfig) (r : E2BReq) : bool :=
  bool_decide (gw_domain cfg = "") && bool_decide (request_key r = "") && code_path r.

Definition anonymous : E2BIdentity := mkE2BIdentity "" "" false.

(** The identity a request continues under, or the status it is refused with. *)
Definition letThrough (cfg : GwConfig) (r : E2BReq) : E2BIdentity + Z :=
  match authenticate_key cfg (request_key r) with
  | Some id => inl id
  | None =>
      if health_probe cfg r then inr 502%Z
      else if negb (debug_code_path cfg r) &&
              negb (bool_decide (request_key r = "") && (host_scoped_ctx cfg r || public_port cfg r))
      then inr 401%Z else inl anonymous
  end.

(** The sandbox a request spells, by host or header, and the one it is for. *)
Definition spelled (cfg : GwConfig) (r : E2BReq) : string :=
  let named := (named_by_host cfg r).1.1 in
  let sid := h_get (eq_header r) "E2b-Sandbox-Id" in
  if bool_decide (named = "")
  then if bool_decide (sid ≠ "") then sid else h_get (eq_header r) "X-Sandbox-ID" else named.
Definition target_sandbox (cfg : GwConfig) (r : E2BReq) : string :=
  let s := spelled cfg r in if bool_decide (s = "debug_sandbox_id") then "" else s.

Definition is_code (cfg : GwConfig) (r : E2BReq) : bool :=
  (named_by_host cfg r).1.2 || bool_decide (h_get (eq_header r) "E2b-Sandbox-Port" = itoa (code_port cfg)).

Definition resolved (cfg : GwConfig) (ident sandbox : string) : string :=
  if bool_decide (sandbox = "") then match gw_resolver cfg with Some f => f ident | None => sandbox end else sandbox.

Definition unauthorized (cfg : GwConfig) (ident sandbox : string) : bool :=
  match gw_authorize cfg with Some f => negb (f ident sandbox) | None => false end.
Definition forwarded (cfg : GwConfig) (sandbox : string) : bool :=
  match gw_forward cfg with Some f => f sandbox | None => false end.

(** [Sandbox.is_running()] *)
Definition serve_health (cfg : GwConfig) (ident sandbox : string) : outcome :=
  let sandbox := resolved cfg ident sandbox in
  let unreachable := bool_decide (sandbox = "") || unauthorized cfg ident sandbox in
  if negb unreachable && forwarded cfg sandbox then Forwarded ident sandbox
  else
    let unreachable := if unreachable then true else match gw_stat cfg with Some f => negb (f sandbox) | None => false end in
    Answer (if unreachable then 502 else 200).

(** [func sandboxOf(r)]: the sandbox the envd and code handlers act on, given the one
    the gateway leaves on the context. *)
Definition sandboxOf (r : E2BReq) (ctx : string) : string :=
  if bool_decide (ctx ≠ "") then ctx else h_get (eq_header r) "X-Sandbox-ID".

(** The envd and code paths. *)
Definition serve_data (cfg : GwConfig) (r : E2BReq) (ident sandbox : string) : outcome :=
  let sandbox := resolved cfg ident sandbox in
  if bool_decide (sandbox ≠ "") && unauthorized cfg ident sandbox then Answer 404
  else if bool_decide (sandbox ≠ "") && forwarded cfg sandbox then Forwarded ident sandbox
  else if is_code cfg r || code_path r then ToCode ident (sandboxOf r sandbox)
  else ToEnvd ident (sandboxOf r sandbox).

(** The generic port proxy; [None] falls through to the control plane. *)
Definition serve_port (cfg : GwConfig) (r : E2BReq) (ident sandbox : string) : option outcome :=
  let hostPort := (named_by_host cfg r).2 in
  match gw_port_proxy cfg with
  | Some proxy =>
      if bool_decide (0 < hostPort)%Z && negb (is_code cfg r) then
        let sandbox := resolved cfg ident sandbox in
        if bool_decide (sandbox ≠ "") then
          if unauthorized cfg ident sandbox then Some (Answer 404)
          else if forwarded cfg sandbox then Some (Forwarded ident sandbox)
          else if proxy sandbox hostPort then Some (Proxied ident sandbox hostPort) else None
        else None
      else None
  | None => None
  end.

(** [func Handler(cfg Config) http.Handler] *)
Definition Handler (cfg : GwConfig) (r : E2BReq) : outcome :=
  match letThrough cfg r with
  | inr status => Answer status
  | inl id =>
      let ident := ei_name id in
      if match gw_throttle cfg with Some f => negb (f ident (ei_admin id)) | None => false end then Answer 429
      else
        let sandbox := target_sandbox cfg r in
        if health_probe cfg r then serve_health cfg ident sandbox
        else if isEnvdPath (eq_path r) || code_path r then serve_data cfg r ident sandbox
        else match serve_port cfg r ident sandbox with
             | Some o => o
             | None => ToControl ident (ei_admin id) (ei_tenant id)
             end
  end.

(** ** The control plane *)

Inductive SandboxState := StRunning | StPaused.

(** [type SandboxDetail struct], the fields the server fills. *)
Record SandboxDetail := mkDetail {
  sd_template : string;
  sd_id : string;
  sd_started : gotime;
  sd_envd_token : string;
  sd_cpu : Z;
  sd_memory : Z;
  sd_metadata : gmap string string;
  sd_state : SandboxState;
}.

(** [type ListedSandbox struct], the fields the server fills. *)
Record ListedSandbox := mkListed {
  ls_template : string;
  ls_id : string;
  ls_started : gotime;
  ls_cpu : Z;
  ls_memory : Z;
  ls_metadata : gmap string string;
  ls_state : SandboxState;
}.

(** [type Sandbox struct] and [func sandboxFromDetail(d) Sandbox] *)
Record E2BSandbox := mkE2BSandbox { sx_template : string; sx_id : string; sx_envd_token : string }.
Definition sandboxFromDetail (d : SandboxDetail) : E2BSandbox :=
  mkE2BSandbox (sd_template d) (sd_id d) (sd_envd_token d).

(** [type NewSandbox struct], the fields the server reads. *)
Record NewSandbox := mkNewSandbox {
  ns_template : string;
  ns_timeout : Z;
  ns_metadata : gmap string string;
  ns_tenant : string;
}.

(** A refused create: over the quota, another error, or a nil record dereferenced. *)
Inductive BackendErr := ErrQuotaExceeded (msg : string) | ErrCreate (msg : string) | ErrNilRecord.

(** [type SandboxBackend interface], over a state [S] and metrics [M]. *)
Class SandboxBackend (S M : Type) := {
  CreateSandbox : S → string → bool → NewSandbox → (SandboxDetail + BackendErr) * S;
  GetSandbox : S → string → string → option SandboxDetail * S;
  ListSandboxes : S → string → gmap string string → list ListedSandbox;
  KillSandbox : S → string → string → bool * S;
  SetTimeout : S → string → string → Z → bool * S;
  PauseSandbox : S → string → string → bool * S;
  ResumeSandbox : S → string → string → Z → option SandboxDetail * S;
  GetMetrics : S → string → string → option (list M);
}.

(** What a backend promises about whose sandboxes an identity reaches: in a state
    that satisfies [inv], [visible] ones alone, and one at a time. *)
Section Laws.
Context {S M R : Type} `{SandboxBackend S M}
  (inv : S → Prop) (record : S → string → option R) (visible : S → string → string → Prop).

(** [s'] differs from [s] in at most the record [id], and only if [ident] sees it. *)
Definition touches (s : S) (ident id : string) (s' : S) : Prop :=
  inv s' ∧ ∀ other, other ≠ id ∨ ¬ visible s ident other → record s' other = record s other.
Definition same_sight (s : S) (ident : string) (s' : S) : Prop :=
  ∀ other, visible s' ident other ↔ visible s ident other.
Definition seen (s : S) (ident id : string) (d : option SandboxDetail) : Prop :=
  ∀ d0, d = Some d0 → visible s ident id ∧ sd_id d0 = id.

Class SandboxBackendLaws := {
  get_spec s ident id : inv s →
    let '(d, s') := GetSandbox s ident id in touches s ident id s' ∧ seen s ident id d;
  list_spec s ident f d : inv s → d ∈ ListSandboxes s ident f → visible s ident (ls_id d);
  kill_spec s ident id : inv s →
    let '(ok, s') := KillSandbox s ident id in
    touches s ident id s' ∧ (ok = true ↔ visible s ident id) ∧ (ok = true → record s' id = None);
  timeout_spec s ident id secs : inv s →
    let '(ok, s') := SetTimeout s ident id secs in
    touches s ident id s' ∧ same_sight s ident s' ∧ (ok = true ↔ visible s ident id);
  pause_spec s ident id : inv s →
    let '(ok, s') := PauseSandbox s ident id in touches s ident id s' ∧ (ok = true → visible s ident id);
  resume_spec s ident id secs : inv s →
    let '(d, s') := ResumeSandbox s ident id secs in
    touches s ident id s' ∧ same_sight s ident s' ∧ seen s ident id d;
  metrics_spec s ident id : inv s → (isSome (GetMetrics s ident id) = true ↔ visible s ident id);
}.
End Laws.

Definition DefaultTimeoutSeconds : Z := 15.

(** [func parseMetadataFilter(s string) map[string]string] *)
Definition parseMetadataFilter (s : string) : gmap string string :=
  if bool_decide (s = "") then ∅
  else fold_left (λ out pair, match cut "="%char pair with Some (k, v) => <[k := v]> out | None => out end)
         (split "&"%char s) ∅.

(** What the control plane answers; [CAborted] is a panic that [net/http] recovers. *)
Inductive cp_answer (M : Type) :=
| CStatus (status : Z)
| CDetail (status : Z) (d : SandboxDetail)
| CCreated (d : E2BSandbox)
| CList (l : list ListedSandbox)
| CMetrics (l : list M)
| CRedirect (path : string)
| CAborted.
Arguments CStatus {M} status.
Arguments CDetail {M} status d.
Arguments CCreated {M} d.
Arguments CList {M} l.
Arguments CMetrics {M} l.
Arguments CRedirect {M} path.
Arguments CAborted {M}.

(** A request to the control plane: the identity the gateway found, and the body
    as decoded: [None] when it does not decode, the zero value when it is empty. *)
Record CpReq := mkCpReq {
  cp_ident : string;
  cp_admin : bool;
  cp_tenant : string;
  cp_method : string;
  cp_path : string;
  cp_query_metadata : string;
  cp_new : option NewSandbox;
  cp_seconds : Z;
}.

Section ControlPlane.
  Context {S M : Type} `{SandboxBackend S M}.

(** [func (c controlPlane) handleSandboxes(w, r)] *)
Definition handleSandboxes (s : S) (r : CpReq) : cp_answer M * S :=
  if bool_decide (cp_method r = "POST") then
    match cp_new r with
    | None => (CStatus 400, s)
    | Some req =>
        let timeout := if bool_decide (ns_timeout req = 0%Z) then DefaultTimeoutSeconds else ns_timeout req in
        let req := mkNewSandbox (ns_template req) timeout (ns_metadata req) (cp_tenant r) in
        match CreateSandbox s (cp_ident r) (cp_admin r) req with
        | (inr (ErrQuotaExceeded _), s) => (CStatus 429, s)
        | (inr (ErrCreate _), s) => (CStatus 500, s)
        | (inr ErrNilRecord, s) => (CAborted, s)
        | (inl d, s) => (CCreated (sandboxFromDetail d), s)
        end
    end
  else if bool_decide (cp_method r = "GET")
  then (CList (ListSandboxes s (cp_ident r) (parseMetadataFilter (cp_query_metadata r))), s)
  else (CStatus 405, s).

Definition or_default (secs : Z) : Z := if bool_decide (secs ≤ 0)%Z then DefaultTimeoutSeconds else secs.

Definition no_content (ok : bool) : cp_answer M := if ok then CStatus 204 else CStatus 404.
Definition detail_or_404 (status : Z) (d : option SandboxDetail) : cp_answer M :=
  match d with Some d => CDetail status d | None => CStatus 404 end.

(** The [connect] action: resume, or else refresh and get. *)
Definition connect (s : S) (ident id : string) (secs : Z) : cp_answer M * S :=
  match ResumeSandbox s ident id secs with
  | (Some d, s) => (CDetail 200 d, s)
  | (None, s) =>
      let s := if bool_decide (0 < secs)%Z then (SetTimeout s ident id secs).2 else s in
      let '(d, s) := GetSandbox s ident id in (detail_or_404 200 d, s)
  end.

(** The switch of [handleSandboxByID] on action and method. *)
Definition sandbox_action (s : S) (r : CpReq) (id action : string) : cp_answer M * S :=
  let is_ a m := bool_decide (action = a) && bool_decide (cp_method r = m) in
  let ident := cp_ident r in
  if is_ "" "GET" then let '(d, s) := GetSandbox s ident id in (detail_or_404 200 d, s)
  else if is_ "" "DELETE" then let '(ok, s) := KillSandbox s ident id in (no_content ok, s)
  else if is_ "timeout" "POST" then let '(ok, s) := SetTimeout s ident id (cp_seconds r) in (no_content ok, s)
  else if is_ "refreshes" "POST" then let '(ok, s) := SetTimeout s ident id (or_default (cp_seconds r)) in (no_content ok, s)
  else if is_ "connect" "POST" then connect s ident id (cp_seconds r)
  else if is_ "pause" "POST" then let '(ok, s) := PauseSandbox s ident id in (no_content ok, s)
  else if is_ "resume" "POST" then
    let '(d, s) := ResumeSandbox s ident id (or_default (cp_seconds r)) in
    (match d with Some d => CCreated (sandboxFromDetail d) | None => CStatus 404 end, s)
  else if is_ "metrics" "GET" then
    (match GetMetrics s ident id with Some l => CMetrics l | None => CStatus 404 end, s)
  else (CStatus 405, s).

(** [func (c controlPlane) handleSandboxByID(w, r)] *)
Definition handleSandboxByID (s : S) (r : CpReq) : cp_answer M * S :=
  let rest := trim_prefix (cp_path r) "/sandboxes/" in
  if bool_decide (rest = "") then (CStatus 404, s)
  else let '(id, action) := match cut slash rest with Some (id, action) => (id, action) | None => (rest, "") end in
       sandbox_action s r id action.

(** The path a [ServeMux] redirects to, or the path itself. *)
Definition clean_path (p : string) : string :=
  let p := if has_prefix p "/" then p else "/" +:+ p in
  let np := clean p in
  if has_suffix p "/" && bool_decide (np ≠ "/") then np +:+ "/" else np.

(** [func (c controlPlane) routes(mux)] behind the mux. *)
Definition control_plane (s : S) (r : CpReq) : cp_answer M * S :=
  let p := cp_path r in
  if bool_decide (clean_path p ≠ p) then (CRedirect (clean_path p), s)
  else if bool_decide (p = "/sandboxes") || bool_decide (p = "/v2/sandboxes") then handleSandboxes s r
  else if has_prefix p "/sandboxes/" || has_prefix p "/v2/sandboxes/" then handleSandboxByID s r
  else if bool_decide (p = "/health") then (CStatus 200, s)
  else (CStatus 404, s).
End ControlPlane.

(** ** What the gateway lets through *)

(** The anonymous cases: a request without any key, on the contexts of a code host,
    on a public port, or on a gateway without a domain. *)
Lemma admit_cases cfg r id : letThrough cfg r = inl id →
  authenticate_key cfg (request_key r) = Some id ∨
  authenticate_key cfg (request_key r) = None ∧ request_key r = "" ∧ id = anonymous ∧
  (host_scoped_ctx cfg r = true ∨ public_port cfg r = true ∨ gw_domain cfg = "" ∧ code_path r = true).
Proof.
  unfold letThrough. destruct (authenticate_key _ _) as [id'|]; [intros [= ->]; by left|].
  destruct (health_probe cfg r); [done|]. unfold debug_code_path.
  destruct (bool_decide (request_key r = "")) eqn:Hk; [|by rewrite andb_false_r, andb_false_l].
  rewrite andb_true_r. intros H. right. simpl_bool.
  destruct (host_scoped_ctx cfg r), (public_port cfg r), (bool_decide (gw_domain cfg = "")) eqn:Hd, (code_path r);
    simplify_eq/=; simpl_bool; auto 10.
Qed.

Definition reaches (o : outcome) : option (string * string) :=
  match o with
  | Forwarded i s | Proxied i s _ | ToCode i s | ToEnvd i s => Some (i, s)
  | Answer _ | ToControl _ _ _ => None
  end.

Definition throttled (cfg : GwConfig) (id : E2BIdentity) : bool :=
  match gw_throttle cfg with Some f => negb (f (ei_name id) (ei_admin id)) | None => false end.

Lemma Handler_admitted cfg r o : Handler cfg r = o → (∀ st, o ≠ Answer st) →
  ∃ id, letThrough cfg r = inl id ∧ throttled cfg id = false ∧
    o = (let ident := ei_name id in let sandbox := target_sandbox cfg r in
         if health_probe cfg r then serve_health cfg ident sandbox
         else if isEnvdPath (eq_path r) || code_path r then serve_data cfg r ident sandbox
         else default (ToControl ident (ei_admin id) (ei_tenant id)) (serve_port cfg r ident sandbox)).
Proof.
  unfold Handler, throttled. intros <- Hn. destruct (letThrough cfg r) as [id|st]; [|by destruct (Hn st)].
  exists id. split; [done|].
  destruct (match gw_throttle cfg with Some _ => _ | None => _ end); [by destruct (Hn 429%Z)|]. split; [done|].
  repeat case_match; try done; simplify_eq/=; done.
Qed.

(** The host program allows [ident] the sandbox [s]. *)
Definition granted (cfg : GwConfig) (ident s : string) : Prop := ∀ f, gw_authorize cfg = Some f → f ident s = true.

Lemma granted_iff cfg ident s : granted cfg ident s ↔ unauthorized cfg ident s = false.
Proof.
  unfold granted, unauthorized. destruct (gw_authorize cfg) as [f|]; [|done]. rewrite negb_false_iff. split; [auto|by intros ? ? [= <-]].
Qed.

(** Nothing the gateway knows names a sandbox: the request spells the placeholder of
    the debug mode, or nothing, and the resolver has no answer. *)
Definition nameless (cfg : GwConfig) (r : E2BReq) (ident : string) : Prop := resolved cfg ident (target_sandbox cfg r) = "".

(** How a request gets at [s]: the gateway settled on it and asked for permission, or it
    settled on none, and a handler took the caller's header instead. *)
Definition reached_by (cfg : GwConfig) (r : E2BReq) (o : outcome) (ident s : string) : Prop :=
  s = resolved cfg ident (target_sandbox cfg r) ∧ s ≠ "" ∧ granted cfg ident s ∨
  nameless cfg r ident ∧ s = h_get (eq_header r) "X-Sandbox-ID" ∧ (o = ToCode ident s ∨ o = ToEnvd ident s).

Lemma reach_sandbox cfg r ident o i s : reaches o = Some (i, s) →
  (o = serve_health cfg ident (target_sandbox cfg r) ∨ o = serve_data cfg r ident (target_sandbox cfg r) ∨
   serve_port cfg r ident (target_sandbox cfg r) = Some o) →
  i = ident ∧ reached_by cfg r o ident s.
Proof.
  unfold reached_by, nameless.
  intros Hr [->|[->|Hp]].
  - unfold serve_health in Hr |- *. set (t := resolved _ _ _) in *.
    destruct (_ && forwarded cfg t) eqn:E; [|done]. injection Hr as <- <-. simpl_bool. rewrite granted_iff. auto.
  - unfold serve_data, sandboxOf in *. set (t := resolved _ _ _) in *. setoid_rewrite granted_iff.
    case_bool_decide as Ht; simpl in *.
    + destruct (unauthorized cfg ident t) eqn:Hu; [done|].
      destruct (forwarded cfg t); [|destruct (is_code cfg r || code_path r)]; injection Hr as <- <-; auto 10.
    + destruct (is_code cfg r || code_path r); injection Hr as <- <-; auto 10.
  - unfold serve_port in Hp. destruct (gw_port_proxy cfg); [|done]. set (t := resolved _ _ _) in *. rewrite granted_iff.
    destruct (bool_decide _ && negb _); [|done]. case_bool_decide; [|done].
    destruct (unauthorized cfg ident t) eqn:Hu; [injection Hp as <-; done|].
    destruct (forwarded cfg t); [|destruct (b t _); [|done]]; injection Hp as <-; injection Hr as <- <-; auto.
Qed.

Lemma reach_admitted cfg r i s : reaches (Handler cfg r) = Some (i, s) →
  ∃ id, letThrough cfg r = inl id ∧ throttled cfg id = false ∧ i = ei_name id ∧
    (Handler cfg r = serve_health cfg (ei_name id) (target_sandbox cfg r) ∨
     Handler cfg r = serve_data cfg r (ei_name id) (target_sandbox cfg r) ∧ (isEnvdPath (eq_path r) || code_path r) = true ∨
     serve_port cfg r (ei_name id) (target_sandbox cfg r) = Some (Handler cfg r)) ∧
    reached_by cfg r (Handler cfg r) (ei_name id) s.
Proof.
  intros Hr. destruct (Handler_admitted cfg r (Handler cfg r) eq_refl) as (id & Hadm & Hthr & Ho).
  { intros st E. by rewrite E in Hr. }
  cbv zeta in Ho. set (o := Handler cfg r) in *. exists id. split; [done|]. split; [done|].
  assert (Hreach : o = serve_health cfg (ei_name id) (target_sandbox cfg r) ∨
                   o = serve_data cfg r (ei_name id) (target_sandbox cfg r) ∧
                     (isEnvdPath (eq_path r) || code_path r) = true ∨
                   serve_port cfg r (ei_name id) (target_sandbox cfg r) = Some o).
  { destruct (health_probe cfg r); [by left|]. destruct (_ || _); [by auto|].
    destruct (serve_port _ _ _ _) as [o'|]; [|by rewrite Ho in Hr]. right. right. by rewrite Ho. }
  destruct (reach_sandbox cfg r (ei_name id) o i s Hr) as (Hi & Hs); naive_solver.
Qed.

Lemma control_admitted cfg r i a t : Handler cfg r = ToControl i a t →
  ∃ id, letThrough cfg r = inl id ∧ throttled cfg id = false ∧ code_path r = false ∧
    i = ei_name id ∧ a = ei_admin id ∧ t = ei_tenant id.
Proof.
  intros H. destruct (Handler_admitted cfg r _ H) as (id & Hadm & Hthr & Ho); [done|]. cbv zeta in Ho.
  exists id. split; [done|]. split; [done|].
  destruct (health_probe cfg r); [unfold serve_health in Ho; by destruct (_ && _)|].
  destruct (isEnvdPath _ || code_path r) eqn:E.
  - unfold serve_data in Ho. by repeat case_match.
  - apply orb_false_iff in E as (_ & ->). destruct (serve_port _ _ _ _) as [o|] eqn:Hsp; simpl in Ho; [|by simplify_eq].
    unfold serve_port in Hsp. repeat case_match; simplify_eq.
Qed.

Lemma public_port_inv cfg r : public_port cfg r = true →
  gw_private cfg = false ∧ (named_by_host cfg r).1.1 ≠ "" ∧ (0 < (named_by_host cfg r).2)%Z ∧
  (named_by_host cfg r).1.2 = false ∧ isEnvdPath (eq_path r) = false ∧ code_path r = false.
Proof.
  unfold public_port, code_path. destruct (named_by_host cfg r) as [[n c] p]. intros H. simpl_bool. simpl.
  split_and!; try done. apply orb_false_iff. split; [by apply bool_decide_eq_false|done].
Qed.

Lemma host_scoped_inv cfg r : host_scoped_ctx cfg r = true →
  (named_by_host cfg r).1.1 ≠ "" ∧ (named_by_host cfg r).1.2 = true ∧ code_path r = true.
Proof.
  unfold host_scoped_ctx, code_path. destruct (named_by_host cfg r) as [[n c] p]. intros H. simpl_bool. simpl.
  split_and!; try done. rewrite H0. apply orb_true_r.
Qed.

Lemma nameless_spelled cfg r i : nameless cfg r i → spelled cfg r = "" ∨ spelled cfg r = "debug_sandbox_id".
Proof.
  unfold nameless, resolved, target_sandbox. cbv zeta. destruct (decide (spelled cfg r = "debug_sandbox_id")); [auto|].
  rewrite (bool_decide_eq_false_2 (spelled cfg r = "debug_sandbox_id")) by done. case_bool_decide; auto.
Qed.

Lemma nameless_header cfg r i : nameless cfg r i → h_get (eq_header r) "X-Sandbox-ID" ≠ "" →
  spelled cfg r = "debug_sandbox_id".
Proof.
  intros [Hs|Hs]%nameless_spelled Hx; [|done]. exfalso. revert Hs. unfold spelled. cbv zeta. by repeat case_bool_decide.
Qed.

(** The anonymous cases on the data plane. *)
Definition anonymous_reach (cfg : GwConfig) (r : E2BReq) (s : string) : Prop :=
  gw_domain cfg = "" ∧ code_path r = true ∨
  ∃ named, (named_by_host cfg r).1.1 = named ∧ named ≠ "" ∧ (s = named ∨ named = "debug_sandbox_id") ∧
    (host_scoped_ctx cfg r = true ∨ public_port cfg r = true ∧ isEnvdPath (eq_path r) = false ∧ code_path r = false).

Lemma reached_named cfg r o i s : reached_by cfg r o i s → (named_by_host cfg r).1.1 ≠ "" →
  s = (named_by_host cfg r).1.1 ∨ (named_by_host cfg r).1.1 = "debug_sandbox_id".
Proof.
  intros Hr Hn. assert (Hsp : spelled cfg r = (named_by_host cfg r).1.1).
  { unfold spelled. cbv zeta. by rewrite (bool_decide_eq_false_2 ((named_by_host cfg r).1.1 = "")). }
  destruct Hr as [(-> & _)|(Hr & _)].
  - unfold target_sandbox. rewrite Hsp. cbv zeta. case_bool_decide as Hd; [by right|left].
    unfold resolved. by rewrite bool_decide_eq_false_2.
  - apply nameless_spelled in Hr as [Hr|Hr]; [congruence|right; congruence].
Qed.

(** C12: The data plane. Whatever reaches a sandbox through the gateway (its envd, its
    code interpreter, one of its ports, or a peer that holds it) gets there in one of two
    ways. Either the gateway settled on that sandbox, by the host, a header or the
    resolver, and the host program granted it to the caller; or the gateway settled on
    none, and then an envd or code handler acts on the sandbox of the X-Sandbox-ID
    header, which nobody is asked about: a header that names anything at all gets this
    far only when the host or E2b-Sandbox-Id spells the placeholder debug_sandbox_id.
    And the caller either presented a key that authenticates, or presented none and
    asked for the contexts or a port of the sandbox its host name spells (for the
    gateway without a domain: for a code path); anonymous callers never reach the envd
    services. *)
Theorem data_plane_gated (cfg : GwConfig) (r : E2BReq) (i s : string) :
  reaches (Handler cfg r) = Some (i, s) →
  (s = resolved cfg i (target_sandbox cfg r) ∧ s ≠ "" ∧ granted cfg i s ∨
   nameless cfg r i ∧ s = h_get (eq_header r) "X-Sandbox-ID" ∧ (s ≠ "" → spelled cfg r = "debug_sandbox_id") ∧
     (Handler cfg r = ToCode i s ∨ Handler cfg r = ToEnvd i s)) ∧
  ((∃ id, authenticate_key cfg (request_key r) = Some id ∧ ei_name id = i ∧ throttled cfg id = false) ∨
   (request_key r = "" ∧ i = "" ∧ Handler cfg r ≠ ToEnvd i s ∧ anonymous_reach cfg r s)).
Proof.
  intros Hr. destruct (reach_admitted cfg r i s Hr) as (id & Hadm & Hthr & -> & Hreach & Hby). split.
  { destruct Hby as [?|(Hn & -> & ?)]; [by left|]. right. eauto using nameless_header. }
  apply admit_cases in Hadm as [Ha|(_ & Hk & -> & Hc)]; [left; by exists id|right]. simpl in *.
  split; [done|]. split; [done|]. split.
  { intros E. rewrite E in Hreach. destruct Hreach as [H|[(H & Hp)|H]].
    - unfold serve_health in H. by destruct (_ && _).
    - assert (code_path r = true) as Hcp.
      { destruct Hc as [(_ & _ & ?)%host_scoped_inv|[(_ & _ & _ & _ & He & Hcp)%public_port_inv|(_ & ?)]]; try done.
        by rewrite He, Hcp in Hp. }
      unfold serve_data in H. rewrite Hcp, orb_true_r in H. by repeat case_match.
    - unfold serve_port in H. repeat case_match; simplify_eq. }
  destruct Hc as [Hh|[Hp|?]]; [right|right|by left]; eexists; (split; [done|]).
  - destruct (host_scoped_inv _ _ Hh) as (? & _). eauto using reached_named.
  - destruct (public_port_inv _ _ Hp) as (_ & ? & _ & _ & ? & ?). eauto 10 using reached_named.
Qed.

Lemma reach_data cfg r id i s : letThrough cfg r = inl id → throttled cfg id = false →
  Handler cfg r = ToCode i s ∨ Handler cfg r = ToEnvd i s →
  health_probe cfg r = false ∧ isEnvdPath (eq_path r) || code_path r = true.
Proof.
  intros Hl Ht. unfold Handler, throttled in *. rewrite Hl, Ht. destruct (health_probe cfg r).
  { unfold serve_health. destruct (_ && _); by intros [?|?]. }
  destruct (isEnvdPath _ || _); [done|]. destruct (serve_port _ _ _ _) as [o|] eqn:Hs; [|by intros [?|?]].
  unfold serve_port in Hs. repeat case_match; simplify_eq; by intros [?|?].
Qed.

(** The second way is there: whatever key, path and header, once the gateway settles on no
    sandbox the handler gets the header's, and no hook is asked about it. *)
Lemma header_unasked cfg r id : letThrough cfg r = inl id → throttled cfg id = false → health_probe cfg r = false →
  isEnvdPath (eq_path r) || code_path r = true → nameless cfg r (ei_name id) →
  let s := h_get (eq_header r) "X-Sandbox-ID" in
  Handler cfg r = if is_code cfg r || code_path r then ToCode (ei_name id) s else ToEnvd (ei_name id) s.
Proof.
  intros Hl Ht Hh Hp Hn. unfold Handler, throttled, nameless in *. rewrite Hl. rewrite Ht, Hh, Hp. unfold serve_data. rewrite Hn.
  done.
Qed.

(** C21: The control plane. A request gets to it under an identity that authenticates,
    or else, unless ports are private, under the empty one, as a request without a
    key for a public port that nothing in front of the control plane answers. *)
Theorem control_plane_gate (cfg : GwConfig) (r : E2BReq) (i t : string) (a : bool) :
  Handler cfg r = ToControl i a t →
  (∃ id, authenticate_key cfg (request_key r) = Some id ∧ i = ei_name id ∧ a = ei_admin id ∧ t = ei_tenant id ∧
     throttled cfg id = false) ∨
  (gw_private cfg = false ∧ request_key r = "" ∧ public_port cfg r = true ∧ i = "" ∧ a = false ∧ t = "").
Proof.
  intros H. destruct (control_admitted cfg r i a t H) as (id & Hadm & Hthr & Hcp & -> & -> & ->).
  apply admit_cases in Hadm as [Ha|(_ & Hk & -> & Hc)]; [left; by exists id|right].
  destruct Hc as [(_ & _ & Hx)%host_scoped_inv|[Hp|(_ & Hx)]]; [congruence| |congruence].
  destruct (public_port_inv _ _ Hp) as (Hpriv & _). done.
Qed.

(** The fall-through exists: a keyless request for a port of a sandbox that is not
    there, or one that claims the code port in a header, is the control plane's. *)
Lemma anonymous_falls_through cfg r :
  request_key r = "" → authenticate_key cfg "" = None → public_port cfg r = true → eq_path r ≠ "/health" →
  throttled cfg anonymous = false →
  (is_code cfg r = true ∨
   ∀ s, s = resolved cfg "" (target_sandbox cfg r) →
     unauthorized cfg "" s = false ∧ forwarded cfg s = false ∧
     ∀ f, gw_port_proxy cfg = Some f → f s (named_by_host cfg r).2 = false) →
  Handler cfg r = ToControl "" false "".
Proof.
  intros Hk Ha Hp Hh Ht Hc. destruct (public_port_inv _ _ Hp) as (_ & _ & _ & _ & He & Hcp).
  unfold Handler, letThrough. rewrite Hk, Ha.
  assert (Hhp : health_probe cfg r = false).
  { unfold health_probe. rewrite (bool_decide_eq_false_2 (eq_path r = _)) by done. apply andb_false_r. }
  rewrite Hhp, Hp, orb_true_r. rewrite bool_decide_eq_true_2 by done. rewrite andb_false_r.
  unfold throttled in Ht. rewrite Ht, He, Hcp. simpl.
  destruct (serve_port cfg r "" (target_sandbox cfg r)) as [o|] eqn:Hs; [|done]. exfalso.
  unfold serve_port in Hs. destruct (gw_port_proxy cfg) as [f|] eqn:Hf; [|done].
  destruct Hc as [Hc|Hc]; [by rewrite Hc, andb_false_r in Hs|].
  destruct (Hc _ eq_refl) as (Hu & Hfw & Hpx). rewrite Hu, Hfw, (Hpx f eq_refl) in Hs.
  by repeat case_match.
Qed.

(** The ids an answer mentions. *)
Definition mentions {M} (a : cp_answer M) : list string :=
  match a with
  | CDetail _ d => [sd_id d]
  | CCreated d => [sx_id d]
  | CList l => ls_id <$> l
  | _ => []
  end.

Definition creates (r : CpReq) : bool :=
  bool_decide (cp_method r = "POST") && (bool_decide (cp_path r = "/sandboxes") || bool_decide (cp_path r = "/v2/sandboxes")).

Section Isolation.
Context {S M R : Type} `{SandboxBackend S M}
  (inv : S → Prop) (record : S → string → option R) (visible : S → string → string → Prop).
Context `{!SandboxBackendLaws inv record visible}.

(** What a step of the control plane for [ident] may do: change one record, a
    visible one, and mention visible ones. *)
Definition confined (s : S) (ident : string) (out : cp_answer M * S) : Prop :=
  (∃ id, touches inv record visible s ident id out.2) ∧ (∀ id, id ∈ mentions out.1 → visible s ident id).

Lemma confined_still s ident a : inv s → mentions a = [] → confined s ident (a, s).
Proof using All. intros Hi Ha. split; [by exists ""|]. simpl. rewrite Ha. set_solver. Qed.

Lemma confined_none s ident id a s' : touches inv record visible s ident id s' → mentions a = [] → confined s ident (a, s').
Proof using All. intros Hi Ha. split; [by exists id|]. simpl. rewrite Ha. set_solver. Qed.

Lemma confined_seen s ident id a s' d : touches inv record visible s ident id s' → seen visible s ident id d →
  mentions a = match d with Some d => [sd_id d] | None => [] end → confined s ident (a, s').
Proof using All.
  intros Ht Hd Ha. split; [by exists id|]. simpl. rewrite Ha. destruct d as [d|]; [|set_solver].
  intros i Hi%list_elem_of_singleton. subst i. by destruct (Hd _ eq_refl) as (? & ->).
Qed.

Lemma touches_trans s ident id s1 s2 : touches inv record visible s ident id s1 → same_sight visible s ident s1 →
  touches inv record visible s1 ident id s2 → touches inv record visible s ident id s2.
Proof using All.
  intros (_ & H1) Hv (Hi & H2). split; [done|]. intros other Ho. rewrite H2, H1; [done|done|]. by rewrite (Hv other).
Qed.

Lemma connect_confined s ident id secs : inv s → confined s ident (connect s ident id secs).
Proof using All.
  intros Hi. unfold connect. pose proof (resume_spec inv record visible s ident id secs Hi) as Hr.
  destruct (ResumeSandbox s ident id secs) as [[d|] s1]; destruct Hr as (Hr & Hv & Hd).
  { by apply (confined_seen _ _ id _ _ (Some d)). }
  set (s2 := if bool_decide (0 < secs)%Z then _ else _).
  assert (H2 : touches inv record visible s ident id s2 ∧ same_sight visible s ident s2).
  { unfold s2. case_bool_decide; [|done]. pose proof (timeout_spec inv record visible s1 ident id secs (proj1 Hr)) as Ht.
    destruct (SetTimeout s1 ident id secs) as [ok s3]. destruct Ht as (Ht & Hv' & _). simpl. split.
    - by eapply touches_trans.
    - intros other. by rewrite (Hv' other), (Hv other). }
  destruct H2 as (H2 & Hv2). pose proof (get_spec inv record visible s2 ident id (proj1 H2)) as Hg.
  destruct (GetSandbox s2 ident id) as [d s3]. destruct Hg as (Hg & Hgd).
  apply (confined_seen _ _ id _ _ d); [by eapply touches_trans| |by destruct d].
  intros d0 Hd0. destruct (Hgd d0 Hd0) as (? & ?). split; [by apply Hv2|done].
Qed.

Lemma action_confined s r id action : inv s → confined s (cp_ident r) (sandbox_action s r id action).
Proof using All.
  intros Hi. unfold sandbox_action. set (ident := cp_ident r).
  destruct (_ && _).
  { pose proof (get_spec inv record visible s ident id Hi) as H1. destruct (GetSandbox s ident id) as [d s'].
    destruct H1. apply (confined_seen _ _ id _ _ d); [done|done|by destruct d]. }
  destruct (_ && _).
  { pose proof (kill_spec inv record visible s ident id Hi) as H1. destruct (KillSandbox s ident id) as [[|] s'];
      apply (confined_none _ _ id); by try apply H1. }
  destruct (_ && _).
  { pose proof (timeout_spec inv record visible s ident id (cp_seconds r) Hi) as H1.
    destruct (SetTimeout s ident id _) as [[|] s']; apply (confined_none _ _ id); by try apply H1. }
  destruct (_ && _).
  { pose proof (timeout_spec inv record visible s ident id (or_default (cp_seconds r)) Hi) as H1.
    destruct (SetTimeout s ident id _) as [[|] s']; apply (confined_none _ _ id); by try apply H1. }
  destruct (_ && _); [by apply connect_confined|].
  destruct (_ && _).
  { pose proof (pause_spec inv record visible s ident id Hi) as H1. destruct (PauseSandbox s ident id) as [[|] s'];
      apply (confined_none _ _ id); by try apply H1. }
  destruct (_ && _).
  { pose proof (resume_spec inv record visible s ident id (or_default (cp_seconds r)) Hi) as H1.
    destruct (ResumeSandbox s ident id _) as [d s']. destruct H1 as (? & _ & ?).
    apply (confined_seen _ _ id _ _ d); [done|done|by destruct d]. }
  destruct (_ && _); [|by apply confined_still]. apply confined_still; [done|]. by destruct (GetMetrics s ident id).
Qed.

(** The control plane over any backend that keeps its promises: short of creating
    one, a request changes at most one sandbox record, and only one its caller
    sees, and its answer mentions no sandbox its caller does not see. *)
Lemma control_plane_confined s r : inv s → creates r = false → confined s (cp_ident r) (control_plane s r).
Proof using All.
  intros Hi Hc. unfold control_plane, handleSandboxByID. destruct (bool_decide _); [by apply confined_still|].
  destruct (bool_decide (cp_path r = "/sandboxes") || _) eqn:Hp.
  - unfold handleSandboxes. unfold creates in Hc. rewrite Hp, andb_true_r in Hc. rewrite Hc.
    destruct (bool_decide (cp_method r = "GET")); [|by apply confined_still]. split; [by exists ""|]. simpl.
    intros i (d & -> & Hd)%list_elem_of_fmap. by eapply list_spec.
  - destruct (has_prefix (cp_path r) "/sandboxes/" || _).
    + destruct (bool_decide (trim_prefix _ _ = "")); [by apply confined_still|].
      destruct (cut slash _) as [[id action]|]; by apply action_confined.
    + destruct (bool_decide (cp_path r = "/health")); by apply confined_still.
Qed.
End Isolation.

(** A path [/v2/sandboxes/{id}] keeps its version when the prefix is cut, so every
    such request is refused as a method that is not allowed. *)
Lemma v2_by_id_refused {S M : Type} `{SandboxBackend S M} (s : S) (r : CpReq) rest :
  cp_path r = "/v2/sandboxes/" +:+ rest → clean_path (cp_path r) = cp_path r →
  control_plane s r = (CStatus 405, s).
Proof.
  intros Hp Hclean. unfold control_plane. rewrite bool_decide_eq_false_2 by (by intros E).
  rewrite Hp. rewrite !bool_decide_eq_false_2 by done.
  assert (E : has_prefix ("/v2/sandboxes/" +:+ rest) "/v2/sandboxes/" = true) by (apply has_prefix_spec; by exists rest).
  rewrite E, orb_true_r. unfold handleSandboxByID. rewrite Hp. reflexivity.
Qed.

(** ** Witnesses *)

(** A gateway with one key, which belongs to alice, and a sandbox of hers. *)
Definition demo_gw : GwConfig :=
  mkGw "e2b.app" None (Some (λ key, if bool_decide (key = "e2b_1") then Some (mkE2BIdentity "alice" "" false) else None)) None 0
    None (Some (λ ident sandbox, bool_decide (ident = "alice" ∧ sandbox = "e2b7"))) None (Some (λ _ _, true)) None false.
Definition demo_files : E2BReq := mkE2BReq "GET" "49983-e2b7.e2b.app" "/files" {[ "X-Api-Key" := ["e2b_1"] ]}.
Definition demo_list : E2BReq := mkE2BReq "GET" "api.e2b.app" "/sandboxes" {[ "X-Api-Key" := ["e2b_1"] ]}.

Lemma data_plane_gated_witness :
  reaches (Handler demo_gw demo_files) = Some ("alice", "e2b7") ∧
  granted demo_gw "alice" "e2b7".
Proof.
  assert (H : reaches (Handler demo_gw demo_files) = Some ("alice", "e2b7")) by (vm_compute; reflexivity).
  split; [exact H|]. destruct (data_plane_gated demo_gw demo_files "alice" "e2b7" H) as [[(_ & _ & Hg)|(Hn & _)] _];
    [exact Hg|vm_compute in Hn; discriminate].
Defined.

(** Nobody, at alice's sandbox: a request without a key for the contexts of the placeholder. *)
Example placeholder_escape :
  Handler demo_gw (mkE2BReq "GET" "49999-debug_sandbox_id.e2b.app" "/contexts" {[ "X-Sandbox-Id" := ["e2b7"] ]}) = ToCode "" "e2b7" ∧
  ¬ granted demo_gw "" "e2b7".
Proof. split; [vm_compute; reflexivity|]. intros H. by specialize (H _ eq_refl). Qed.

Lemma control_plane_gate_witness :
  Handler demo_gw demo_list = ToControl "alice" false "" ∧
  ((∃ id, authenticate_key demo_gw (request_key demo_list) = Some id ∧ "alice" = ei_name id ∧ false = ei_admin id ∧
      "" = ei_tenant id ∧ throttled demo_gw id = false) ∨
   (gw_private demo_gw = false ∧ request_key demo_list = "" ∧ public_port demo_gw demo_list = true ∧ "alice" = "" ∧
      false = false ∧ "" = "")).
Proof.
  assert (H : Handler demo_gw demo_list = ToControl "alice" false "") by (vm_compute; reflexivity).
  split; [exact H|]. exact (control_plane_gate demo_gw demo_list "alice" "" false H).
Defined.
