(* ===== verification/E2BServer.v ===== *)
(** pkg/server/e2bgateway.go: the server behind the E2B gateway. It gives the
    gateway its hooks (keys, ownership, forwarding, ports) and implements the
    sandbox interface over the stores, the scheduler and the tunnels. The toolbox
    inside a sandbox is reached over a tunnel; its answers are arguments. *)

From S2P Require Import Prelude GoStrings GoFloat GoHTTP GoTime EgressPolicy PoderStore JobStore SandboxStore Leases Scheduler TokenStore Auth Create Reclaim E2BGateway.

(** ** State *)

Inductive e2b_call :=
| PodAction (poderID name action : string)
| PodDelete (poderID name : string)
| ToolboxCall (url : string).

(** The stores and the two tables of tunnels this instance holds; a tunnel is its
    closed flag. *)
Record ew := mkEW {
  ew_jobs : JobStore;
  ew_ss : SandboxStore;
  ew_ps : PoderStore;
  ew_sched : Sched;
  ew_ts : gmap string bool;
  ew_ds : gmap string bool;
  ew_fx : list create_fx;
  ew_calls : list e2b_call;
}.

Definition ew_with_ss (w : ew) (ss : SandboxStore) : ew :=
  mkEW (ew_jobs w) ss (ew_ps w) (ew_sched w) (ew_ts w) (ew_ds w) (ew_fx w) (ew_calls w).
Definition ew_call (w : ew) (c : e2b_call) : ew :=
  mkEW (ew_jobs w) (ew_ss w) (ew_ps w) (ew_sched w) (ew_ts w) (ew_ds w) (ew_fx w) (ew_calls w ++ [c]).
Definition ew_update (w : ew) (name : string) (fn : SandboxInfo → SandboxInfo) : ew :=
  match sb_Update (ew_ss w) name fn with Ok s => ew_with_ss w s | Err _ => w end.

(** ** Labels *)

Definition e2bEnvdTokenLabel : string := "e2b.envd-token".
Definition e2bMetaPrefix : string := "e2b.meta/".
Definition e2bTemplateLabel : string := "e2b.template".

(** [func e2bMetaFromLabels(labels) map[string]string] *)
Definition meta_entry (kv : string * string) : option (string * string) :=
  if has_prefix kv.1 e2bMetaPrefix then Some (drop_prefix kv.1 e2bMetaPrefix, kv.2) else None.
Definition e2bMetaFromLabels (labels : gmap string string) : gmap string string :=
  list_to_map (omap meta_entry (map_to_list labels)).

(** [func e2bTemplateFromLabels(labels) string] *)
Definition e2bTemplateFromLabels (labels : gmap string string) : string :=
  let t := default "" (labels !! e2bTemplateLabel) in if bool_decide (t ≠ "") then t else "base".

(** [func metaMatches(meta, filter) bool] *)
Definition metaMatches (meta filter : gmap string string) : bool :=
  forallb (λ kv, bool_decide (default "" (meta !! kv.1) = kv.2)) (map_to_list filter).

(** [func stateFor(sb) e2bcompat.SandboxState] *)
Definition stateFor (sb : SandboxInfo) : SandboxState :=
  if bool_decide (sb_state sb = StateStopped) then StPaused else StRunning.

Definition with_labels (labels : gmap string string) (sb : SandboxInfo) : SandboxInfo :=
  mkSandbox (sb_id sb) (sb_name sb) (sb_region sb) (sb_provider sb) (sb_instance_type sb) (sb_image_id sb)
    (sb_state sb) (sb_ip sb) (sb_owner sb) (sb_ttl sb) (sb_cpu sb) (sb_memory sb) (sb_poder_id sb)
    (sb_poder_url sb) (sb_container_id sb) (sb_proxy_url sb) (sb_api_url sb) (sb_arch sb) (sb_os sb)
    (sb_os_version sb) (sb_created sb) (sb_activity sb) labels (sb_network sb).
Definition with_ttl (ttl : Z) (now : gotime) (sb : SandboxInfo) : SandboxInfo :=
  mkSandbox (sb_id sb) (sb_name sb) (sb_region sb) (sb_provider sb) (sb_instance_type sb) (sb_image_id sb)
    (sb_state sb) (sb_ip sb) (sb_owner sb) ttl (sb_cpu sb) (sb_memory sb) (sb_poder_id sb)
    (sb_poder_url sb) (sb_container_id sb) (sb_proxy_url sb) (sb_api_url sb) (sb_arch sb) (sb_os sb)
    (sb_os_version sb) (sb_created sb) now (sb_labels sb) (sb_network sb).

(** The labels [CreateSandbox] writes. *)
Definition create_labels (metadata : gmap string string) (template : string) (labels : gmap string string)
    : gmap string string :=
  let labels := kmap (String.append e2bMetaPrefix) metadata ∪ labels in
  if bool_decide (template ≠ "") then <[e2bTemplateLabel := template]> labels else labels.

(** [func (b e2bSandboxBackend) owns(ident, sb) bool] *)
Definition owns (ident : string) (sb : SandboxInfo) : bool :=
  bool_decide (ident = "") || bool_decide (sb_owner sb = "") || bool_decide (sb_owner sb = ident).

Definition is_direct (sb : SandboxInfo) : bool := has_prefix (sb_proxy_url sb) "direct://".

(** ** Routing *)

(** [func e2bHostRouter(domain, gateway, next)]: whether the gateway serves it. *)
Definition e2bHostRouter (domain host path : string) : bool :=
  isSome (envd_host domain (hostOnly host)) ||
  (bool_decide (hostOnly host = "api." +:+ domain) && IsControlPlanePath path).

(** [func (d e2bDeps) authorizeSandbox(ident, sandbox) bool] *)
Definition authorizeSandbox (w : ew) (ident sandbox : string) : bool :=
  match sb_Get (ew_ss w) sandbox with None => true | Some sb => owns ident sb end.

(** [func (d e2bDeps) resolveSingleSandbox(ident) string] *)
Fixpoint resolve_loop (ident found : string) (l : list SandboxInfo) : string :=
  match l with
  | [] => found
  | sb :: l =>
      if bool_decide (ident ≠ "") && bool_decide (sb_owner sb ≠ "") && bool_decide (sb_owner sb ≠ ident)
      then resolve_loop ident found l
      else if negb (has_prefix (sb_name sb) "e2b") then resolve_loop ident found l
      else if bool_decide (found ≠ "") then "" else resolve_loop ident (sb_name sb) l
  end.
Definition resolveSingleSandbox (w : ew) (ident : string) : string := resolve_loop ident "" (sb_List (ew_ss w)).

(** [func (d e2bDeps) envdTokenIdentity(key) (string, bool)] *)
Definition envd_label (sb : SandboxInfo) : string := default "" (sb_labels sb !! e2bEnvdTokenLabel).
Definition envdTokenIdentity (w : ew) (key : string) : option string :=
  sb_owner <$> find_first (λ sb, bool_decide (envd_label sb ≠ "") && bool_decide (envd_label sb = key)) (sb_List (ew_ss w)).

(** [func (d e2bDeps) toolboxTarget(name, subpath)]: the tunnel's key, whether it is
    an agent's, and the URL; or the words of the not-found error. *)
Definition toolboxTarget (w : ew) (name subpath : string) : result (string * bool * string) :=
  match sb_Get (ew_ss w) name with
  | None => Err "sandbox not found"
  | Some sb =>
      if bool_decide (sb_state sb ≠ StateRunning) then Err ("sandbox " +:+ name +:+ " is not running")
      else if is_direct sb then
        match ew_ds w !! name with
        | None => Err "agent offline"
        | Some _ => Ok (name, true, "http://agent/" +:+ subpath)
        end
      else match ew_ts w !! sb_poder_id sb with
           | None => Err "poder offline"
           | Some _ => Ok (sb_poder_id sb, false, "http://poder/toolbox/" +:+ name +:+ "/" +:+ subpath)
           end
  end.

(** [func (d e2bDeps) portProxy(w, r, sandbox, port) bool], for a request path. *)
Definition portProxy (w : ew) (path : string) (sandbox : string) (port : Z) : bool :=
  match toolboxTarget w sandbox ("proxy/" +:+ itoa port +:+ path) with Ok _ => true | Err _ => false end.

(** [func (d e2bDeps) forwardE2B(w, r, sandbox) bool]: the peer it is sent to. *)
Definition forwardE2B (w : ew) (nodeURL : string) (node_for : option (string → option string)) (hop : string)
    (sandbox : string) : option string :=
  match node_for with
  | None => None
  | Some node_for =>
      if bool_decide (nodeURL = "") || bool_decide (hop ≠ "") then None
      else match sb_Get (ew_ss w) sandbox with
      | None => None
      | Some sb =>
          let '(key, tunnels) := if is_direct sb then (sandbox, ew_ds w) else (sb_poder_id sb, ew_ts w) in
          match tunnels !! key with
          | Some _ => None
          | None => match node_for key with
                    | Some owner => if bool_decide (owner = nodeURL) then None else Some owner
                    | None => None
                    end
          end
      end
  end.

(** [func e2bSubstrate()] *)
Definition e2bSubstrate (getenv : string → string) : string * string * string :=
  let provider := getenv "SANDRPOD_E2B_PROVIDER" in
  if bool_decide (provider = "") then ("local", "local", "")
  else (provider, orDefault (getenv "SANDRPOD_E2B_REGION") "local", getenv "SANDRPOD_E2B_INSTANCE_TYPE").

Section Server.
  Context {S M : Type} `{PoderRepository S}.

(** What the gateway is built from, and what the outside answers in one request.
    [de_pod] is a worker's answer to a lifecycle action, [de_metrics] the sample a
    toolbox returns, [de_mint] the next key and [de_rand] the next random name. *)
Record e2bDeps := mkDeps {
  de_domain : string;
  de_cfg : Config;
  de_host_keys : option (string → option Identity);
  de_store : TokenRepo;
  de_hash : string → string;
  de_node_for : option (string → option string);
  de_admission : option Admission;
  de_create : CreateEnv (S := S);
  de_getenv : string → string;
  de_now : gotime;
  de_mint : string;
  de_rand : string;
  de_pod : string → string → bool;
  de_stat : string → bool;
  de_metrics : string → option M;
}.

Variable d : e2bDeps.

(** [func (d e2bDeps) envdToken(sb) string] *)
Definition envdToken (w : ew) (sb : SandboxInfo) : string * ew :=
  if bool_decide (envd_label sb ≠ "") then (envd_label sb, w)
  else (de_mint d, ew_update w (sb_name sb) (λ s, with_labels (<[e2bEnvdTokenLabel := de_mint d]> (sb_labels s)) s)).

(** [func (b e2bSandboxBackend) detailFromInfo(sb)] *)
Definition detailFromInfo (w : ew) (sb : SandboxInfo) : SandboxDetail * ew :=
  let '(tok, w) := envdToken w sb in
  (mkDetail (e2bTemplateFromLabels (sb_labels sb)) (sb_name sb) (sb_created sb) tok 2 512
     (e2bMetaFromLabels (sb_labels sb)) (stateFor sb), w).

(** [func (d e2bDeps) poderPodAction(sb, action) error]: true when it succeeds. *)
Definition poderPodAction (w : ew) (sb : SandboxInfo) (action : string) : bool * ew :=
  match ew_ts w !! sb_poder_id sb with
  | None => (false, w)
  | Some _ => (de_pod d (sb_name sb) action, ew_call w (PodAction (sb_poder_id sb) (sb_name sb) action))
  end.

Definition e2b_GetSandbox (w : ew) (ident id : string) : option SandboxDetail * ew :=
  match sb_Get (ew_ss w) id with
  | Some sb => if owns ident sb then let '(x, w) := detailFromInfo w sb in (Some x, w) else (None, w)
  | None => (None, w)
  end.

Definition listed (sb : SandboxInfo) : ListedSandbox :=
  mkListed (e2bTemplateFromLabels (sb_labels sb)) (sb_name sb) (sb_created sb) 2 512 (e2bMetaFromLabels (sb_labels sb))
    (stateFor sb).
Definition e2b_ListSandboxes (w : ew) (ident : string) (f : gmap string string) : list ListedSandbox :=
  listed <$> keep (λ sb, owns ident sb && metaMatches (e2bMetaFromLabels (sb_labels sb)) f) (sb_List (ew_ss w)).

Definition teardown (w : ew) (sb : SandboxInfo) : ew :=
  let f := teardownSandbox (mkRW (ew_ps w) (ew_ss w) (ew_ts w) (mkTombs ∅ 0) []) sb in
  let calls := match rc_log f with DeleteContainer p n :: _ => [PodDelete p n] | _ => [] end in
  mkEW (ew_jobs w) (rc_ss f) (rc_ps f) (ew_sched w) (ew_ts w) (ew_ds w) (ew_fx w) (ew_calls w ++ calls).

Definition e2b_KillSandbox (w : ew) (ident id : string) : bool * ew :=
  match sb_Get (ew_ss w) id with
  | Some sb => if owns ident sb then (true, teardown w sb) else (false, w)
  | None => (false, w)
  end.

Definition e2b_SetTimeout (w : ew) (ident id : string) (seconds : Z) : bool * ew :=
  match sb_Get (ew_ss w) id with
  | Some sb => if owns ident sb then (true, ew_update w id (with_ttl seconds (de_now d))) else (false, w)
  | None => (false, w)
  end.

Definition e2b_PauseSandbox (w : ew) (ident id : string) : bool * ew :=
  match sb_Get (ew_ss w) id with
  | Some sb =>
      if negb (owns ident sb) || is_direct sb then (false, w)
      else let '(ok, w) := poderPodAction w sb "stop" in
           if ok then (true, ew_update w id (set_state StateStopped)) else (false, w)
  | None => (false, w)
  end.

Definition e2b_ResumeSandbox (w : ew) (ident id : string) (seconds : Z) : option SandboxDetail * ew :=
  match sb_Get (ew_ss w) id with
  | Some sb =>
      if negb (owns ident sb) || is_direct sb then (None, w)
      else let '(ok, w) := poderPodAction w sb "start" in
           if negb ok then (None, w)
           else
             let w := ew_update w id (set_state StateRunning) in
             let w := if bool_decide (0 < seconds)%Z then snd (e2b_SetTimeout w ident id seconds) else w in
             match sb_Get (ew_ss w) id with
             | Some sb => let '(x, w) := detailFromInfo w sb in (Some x, w)
             | None => (None, w)
             end
  | None => (None, w)
  end.

Definition e2b_GetMetrics (w : ew) (ident id : string) : option (list M) :=
  match sb_Get (ew_ss w) id with
  | Some sb =>
      if owns ident sb then
        Some (match toolboxTarget w id "metrics" with
              | Ok _ => match de_metrics d id with Some m => [m] | None => [] end
              | Err _ => []
              end)
      else None
  | None => None
  end.

(** The request [CreateSandbox] makes of an E2B one. *)
Definition e2b_create_request (req : NewSandbox) : CreateSandboxRequest :=
  let '(provider, region, instanceType) := e2bSubstrate (de_getenv d) in
  mkCreate ("e2b" +:+ de_rand d) region provider instanceType
    (if contains_any (ns_template req) "/:" then ns_template req else "") (ns_timeout req) (f_of_int 0) 0 "" false None.

Definition e2b_requester (ident : string) (admin : bool) (req : NewSandbox) : Identity :=
  mkIdentity ident (if admin then RoleAdmin else RoleUser) (ns_tenant req).

Definition e2b_admission : Admission :=
  default (admissionFor None (cf_max_sandboxes (de_cfg d))) (de_admission d).

Definition e2b_CreateSandbox (w : ew) (ident : string) (admin : bool) (req : NewSandbox) : (SandboxDetail + BackendErr) * ew :=
  let name := "e2b" +:+ de_rand d in
  let '(r, _, c) := runSandboxCreate (de_create d) (mkCW (ew_jobs w) (ew_ss w) (ew_sched w) (ew_fx w))
                      (e2b_create_request req) "" ident (Some e2b_admission) (e2b_requester ident admin req) in
  let w := mkEW (cw_jobs c) (cw_ss c) (ew_ps w) (cw_sched c) (ew_ts w) (ew_ds w) (cw_fx c) (ew_calls w) in
  match r with
  | inr (CErrAdmission QuotaReached) => (inr (ErrQuotaExceeded (itoa (cf_max_sandboxes (de_cfg d)))), w)
  | inr _ => (inr (ErrCreate ""), w)
  | inl sb =>
      let '(sb, w) :=
        if bool_decide (ns_metadata req ≠ ∅) || bool_decide (ns_template req ≠ "") then
          let w := ew_update w name (λ s, with_labels (create_labels (ns_metadata req) (ns_template req) (sb_labels s)) s) in
          (sb_Get (ew_ss w) name, w)
        else (sb, w) in
      match sb with
      | Some sb => let '(x, w) := detailFromInfo w sb in (inl x, w)
      | None => (inr ErrNilRecord, w)
      end
  end.

#[local] Instance e2bSandboxBackend : SandboxBackend ew M := {
  CreateSandbox := e2b_CreateSandbox;
  GetSandbox := e2b_GetSandbox;
  ListSandboxes := e2b_ListSandboxes;
  KillSandbox := e2b_KillSandbox;
  SetTimeout := e2b_SetTimeout;
  PauseSandbox := e2b_PauseSandbox;
  ResumeSandbox := e2b_ResumeSandbox;
  GetMetrics := e2b_GetMetrics;
}.

(** ** The gateway's hooks *)

(** [func (d e2bDeps) authenticator()] and what it leaves of the configuration. *)
Definition authenticator (w : ew) (key : string) : option (string * bool) * Config :=
  let cfg := de_cfg d in
  if authDisabled cfg then (Some ("", true), cfg)
  else if bool_decide (key = "") then (None, cfg)
  else match match de_host_keys d with Some f => f key | None => None end with
  | Some id => (Some (id_name id, IsAdmin id), cfg)
  | None =>
      match resolveToken (de_hash d) cfg (de_store d) key with
      | (Some id, cfg) => (Some (id_name id, IsAdmin id), cfg)
      | (None, cfg) => ((λ owner, (owner, false)) <$> envdTokenIdentity w key, cfg)
      end
  end.

(** [func (d e2bDeps) authz()] *)
Definition authz (w : ew) : option (string → option E2BIdentity) :=
  match de_host_keys d with
  | None => None
  | Some f => Some (λ key,
      match f key with
      | Some id => Some (mkE2BIdentity (id_name id) (id_tenant id) (IsAdmin id))
      | None => (λ owner, mkE2BIdentity owner "" false) <$> envdTokenIdentity w key
      end)
  end.

(** [func (d e2bDeps) throttle(ident, admin) bool] *)
Definition throttle (limit : option rateLimiter) (ident : string) (admin : bool) : bool * option rateLimiter :=
  match limit with
  | None => (true, limit)
  | Some rl => if admin || bool_decide (ident = "") then (true, limit)
               else let '(ok, rl) := rl_allow (de_now d) rl ident in (ok, Some rl)
  end.

Definition forwardedHeader : string := "X-Sandrpod-Forwarded".

(** [func newE2BGateway(domain, d) http.Handler], for one request. *)
Definition newE2BGateway (w : ew) (limit : option rateLimiter) (r : E2BReq) : GwConfig :=
  mkGw (de_domain d) (Some (λ key, fst (authenticator w key))) (authz w)
    (Some (λ ident admin, fst (throttle limit ident admin))) 0 (Some (resolveSingleSandbox w)) (Some (authorizeSandbox w))
    (Some (λ sandbox, isSome (forwardE2B w (cf_node_url (de_cfg d)) (de_node_for d)
                                (h_get (eq_header r) forwardedHeader) sandbox)))
    (Some (portProxy w (eq_path r)))
    (Some (λ sandbox, match toolboxTarget w sandbox "files/info" with Ok _ => de_stat d sandbox | Err _ => false end))
    (bool_decide (de_getenv d "SANDRPOD_E2B_PRIVATE_PORTS" ≠ "")).

(** A request to the gateway, with its body as decoded. *)
Record E2BCall := mkCall {
  er_req : E2BReq;
  er_metadata : string;
  er_new : option NewSandbox;
  er_seconds : Z;
}.

Definition to_control (c : E2BCall) (ident : string) (admin : bool) (tenant : string) : CpReq :=
  mkCpReq ident admin tenant (eq_method (er_req c)) (eq_path (er_req c)) (er_metadata c) (er_new c) (er_seconds c).

(** The answer of the gateway: an outcome of its own, or the control plane's. *)
Definition e2b_serve (w : ew) (limit : option rateLimiter) (c : E2BCall) : (outcome + cp_answer M) * ew :=
  match Handler (newE2BGateway w limit (er_req c)) (er_req c) with
  | ToControl ident admin tenant =>
      let '(a, w) := control_plane w (to_control c ident admin tenant) in (inr a, w)
  | o => (inl o, w)
  end.

(** ** What the backend touches *)

Lemma ew_update_ss w name fn : ew_ss (ew_update w name fn) = alter fn name (ew_ss w).
Proof.
  unfold ew_update, sb_Update. destruct (ew_ss w !! name) as [sb|] eqn:E; simpl.
  - apply map_eq. intros k. destruct (decide (k = name)) as [->|].
    + by rewrite lookup_insert_eq, lookup_alter_eq, E.
    + by rewrite lookup_insert_ne, lookup_alter_ne.
  - by rewrite alter_id by (intros x; by rewrite E).
Qed.

Definition keyed (w : ew) : Prop := well_keyed sb_name (ew_ss w).
Definition record (w : ew) (id : string) : option SandboxInfo := ew_ss w !! id.
(** The caller owns the record, or nobody does, or the caller is nobody. *)
Definition visible (w : ew) (ident id : string) : Prop := ∃ sb, ew_ss w !! id = Some sb ∧ owns ident sb = true.

(** An update keeps what decides who sees a record. *)
Definition tame (fn : SandboxInfo → SandboxInfo) : Prop := ∀ sb, sb_name (fn sb) = sb_name sb ∧ sb_owner (fn sb) = sb_owner sb.

Lemma owns_same ident sb sb' : sb_owner sb' = sb_owner sb → owns ident sb' = owns ident sb.
Proof. unfold owns. by intros ->. Qed.

(** [w'] is [w] after tame updates of the record [id]. *)
Definition tamed (id : string) (w w' : ew) : Prop := ∃ fn, tame fn ∧ ew_ss w' = alter fn id (ew_ss w).

Lemma tamed_still id w w' : ew_ss w' = ew_ss w → tamed id w w'.
Proof.
  intros E. exists (λ x, x). split; [done|]. rewrite E. apply map_eq. intros k.
  destruct (decide (k = id)) as [->|]; [rewrite lookup_alter_eq; by destruct (ew_ss w !! id)|by rewrite lookup_alter_ne].
Qed.

#[local] Instance tamed_pre id : PreOrder (tamed id).
Proof.
  split.
  - intros w. by apply tamed_still.
  - intros w1 w2 w3 (f & Hf & E) (g & Hg & E'). exists (g ∘ f). split.
    + intros sb. simpl. destruct (Hg (f sb)) as (-> & ->). apply Hf.
    + rewrite E', E. apply map_eq. intros k. destruct (decide (k = id)) as [->|].
      * rewrite !lookup_alter_eq. by destruct (ew_ss w1 !! id).
      * by rewrite !lookup_alter_ne.
Qed.

Lemma tamed_update w name fn : tame fn → tamed name w (ew_update w name fn).
Proof. intros Hf. exists fn. split; [done|]. apply ew_update_ss. Qed.

Lemma tamed_lookup id w w' k : tamed id w w' →
  match ew_ss w !! k with
  | Some sb => ∃ sb', ew_ss w' !! k = Some sb' ∧ sb_name sb' = sb_name sb ∧ sb_owner sb' = sb_owner sb ∧ (k ≠ id → sb' = sb)
  | None => ew_ss w' !! k = None
  end.
Proof.
  intros (f & Hf & ->). destruct (decide (k = id)) as [->|Hk].
  - rewrite lookup_alter_eq. destruct (ew_ss w !! id) as [sb|]; simpl; [|done]. exists (f sb). by destruct (Hf sb).
  - rewrite lookup_alter_ne by done. destruct (ew_ss w !! k) as [sb|]; [|done]. by exists sb.
Qed.

Lemma tamed_keyed id w w' : tamed id w w' → keyed w → keyed w'.
Proof.
  intros Ht Hk k sb' Hs. pose proof (tamed_lookup id w w' k Ht) as H1.
  destruct (ew_ss w !! k) as [sb|] eqn:E; [|congruence]. destruct H1 as (x & ? & Hn & _). rewrite <- (Hk k sb E). congruence.
Qed.

Lemma tamed_sight id w w' ident : tamed id w w' → same_sight visible w ident w'.
Proof.
  intros Ht k. pose proof (tamed_lookup id w w' k Ht) as H1. unfold visible.
  destruct (ew_ss w !! k) as [sb|] eqn:E.
  - destruct H1 as (x & -> & _ & Ho & _). split; intros (y & [= <-] & Hy).
    + exists sb. split; [done|]. by rewrite <- (owns_same ident sb x).
    + exists x. split; [done|]. by rewrite (owns_same ident sb x).
  - rewrite H1. by split; intros (? & ? & _).
Qed.

Lemma tamed_other id w w' k : tamed id w w' → k ≠ id → record w' k = record w k.
Proof.
  intros Ht Hk. pose proof (tamed_lookup id w w' k Ht) as H1. unfold record. destruct (ew_ss w !! k); [|done].
  destruct H1 as (x & -> & _ & _ & ->); done.
Qed.

Lemma tamed_touches id w w' ident : tamed id w w' → visible w ident id → keyed w → touches keyed record visible w ident id w'.
Proof.
  intros Ht Hv Hk. split; [by eapply tamed_keyed|]. intros k Hne.
  assert (Hkid : k ≠ id) by (destruct Hne as [|Hn]; [done|by intros ->]).
  by eapply tamed_other.
Qed.

Lemma touches_still w ident id : keyed w → touches keyed record visible w ident id w.
Proof. by split. Qed.

Lemma detail_tamed w sb : let '(x, w') := detailFromInfo w sb in tamed (sb_name sb) w w' ∧ sd_id x = sb_name sb.
Proof.
  unfold detailFromInfo, envdToken. case_bool_decide; (split; [|done]); [done|]. by apply tamed_update.
Qed.

(** ** The interface's laws *)

Lemma visible_get w ident id :
  visible w ident id ↔ match sb_Get (ew_ss w) id with Some sb => owns ident sb = true | None => False end.
Proof.
  unfold visible, sb_Get. split; [by intros (sb & -> & ?)|]. destruct (ew_ss w !! id) as [sb|]; [|done]. by exists sb.
Qed.

Lemma get_law w ident id : keyed w →
  let '(x, w') := e2b_GetSandbox w ident id in touches keyed record visible w ident id w' ∧ seen visible w ident id x.
Proof.
  intros Hk. unfold e2b_GetSandbox. destruct (sb_Get (ew_ss w) id) as [sb|] eqn:E; [|split; [by apply touches_still|done]].
  destruct (owns ident sb) eqn:Ho; [|split; [by apply touches_still|done]].
  assert (Hv : visible w ident id) by (by exists sb). pose proof (detail_tamed w sb) as Hd.
  destruct (detailFromInfo w sb) as [x w']. rewrite (Hk id sb E) in Hd. destruct Hd as (Ht & Hid).
  split; [by apply tamed_touches|]. by intros ? [= <-].
Qed.

Lemma list_law w ident f x : keyed w → x ∈ e2b_ListSandboxes w ident f → visible w ident (ls_id x).
Proof.
  intros Hk (sb & -> & Hs)%list_elem_of_fmap. apply elem_of_keep in Hs as (Hs & Hp). simpl_bool.
  unfold sb_List in Hs. apply list_elem_of_fmap in Hs as ([k y] & -> & Hs%elem_of_map_to_list). simpl in *.
  rewrite (Hk k y Hs). by exists y.
Qed.

Lemma kill_law w ident id : keyed w →
  let '(ok, w') := e2b_KillSandbox w ident id in
  touches keyed record visible w ident id w' ∧ (ok = true ↔ visible w ident id) ∧ (ok = true → record w' id = None).
Proof.
  intros Hk. unfold e2b_KillSandbox. pose proof (visible_get w ident id) as Hv. destruct (sb_Get (ew_ss w) id) as [sb|] eqn:E;
    [|split; [by apply touches_still|naive_solver]].
  destruct (owns ident sb) eqn:Ho; [|split; [by apply touches_still|naive_solver]].
  assert (Hss : ew_ss (teardown w sb) = delete id (ew_ss w)).
  { unfold teardown, teardownSandbox, sb_Delete, orelse. unfold sb_Get in E. rewrite (Hk id sb E). simpl.
    rewrite !E. by destruct (ew_ts w !! sb_poder_id sb). }
  unfold touches, keyed, record. rewrite Hss. split_and!; [..|naive_solver|by rewrite lookup_delete_eq].
  - intros k x [_ Hx]%lookup_delete_Some. by apply Hk.
  - intros k Hne. rewrite lookup_delete_ne; [done|]. intros <-. destruct Hne as [|Hne]; [done|].
    apply Hne. by exists sb.
Qed.

Lemma timeout_law w ident id secs : keyed w →
  let '(ok, w') := e2b_SetTimeout w ident id secs in
  touches keyed record visible w ident id w' ∧ same_sight visible w ident w' ∧ (ok = true ↔ visible w ident id).
Proof.
  intros Hk. unfold e2b_SetTimeout. pose proof (visible_get w ident id) as Hv.
  destruct (sb_Get (ew_ss w) id) as [sb|] eqn:E; [|split_and!; [by apply touches_still|done|naive_solver]].
  destruct (owns ident sb) eqn:Ho; [|split_and!; [by apply touches_still|done|naive_solver]].
  assert (Ht : tamed id w (ew_update w id (with_ttl secs (de_now d)))) by (by apply tamed_update).
  split_and!; [|by eapply tamed_sight|naive_solver]. apply tamed_touches; [done|by exists sb|done].
Qed.

Lemma pod_tamed w sb action id : let '(_, w') := poderPodAction w sb action in tamed id w w'.
Proof. unfold poderPodAction. destruct (ew_ts w !! sb_poder_id sb); [by apply tamed_still|done]. Qed.

Lemma pause_law w ident id : keyed w →
  let '(ok, w') := e2b_PauseSandbox w ident id in
  touches keyed record visible w ident id w' ∧ (ok = true → visible w ident id).
Proof.
  intros Hk. unfold e2b_PauseSandbox. pose proof (visible_get w ident id) as Hv.
  destruct (sb_Get (ew_ss w) id) as [sb|] eqn:E; [|split; [by apply touches_still|naive_solver]].
  destruct (negb (owns ident sb) || is_direct sb) eqn:Ho; [split; [by apply touches_still|naive_solver]|]. simpl_bool.
  pose proof (pod_tamed w sb "stop" id) as Ht. destruct (poderPodAction w sb "stop") as [[|] w1].
  - split; [|naive_solver]. apply tamed_touches; [|by exists sb|done]. etransitivity; [exact Ht|by apply tamed_update].
  - split; [|naive_solver]. apply tamed_touches; [done|by exists sb|done].
Qed.

Lemma resume_law w ident id secs : keyed w →
  let '(x, w') := e2b_ResumeSandbox w ident id secs in
  touches keyed record visible w ident id w' ∧ same_sight visible w ident w' ∧ seen visible w ident id x.
Proof.
  intros Hk. unfold e2b_ResumeSandbox.
  destruct (sb_Get (ew_ss w) id) as [sb|] eqn:E; [|split; [by apply touches_still|done]].
  destruct (negb (owns ident sb) || is_direct sb) eqn:Ho; [split; [by apply touches_still|done]|]. simpl_bool.
  assert (Hv : visible w ident id) by (by exists sb).
  pose proof (pod_tamed w sb "start" id) as Ht. destruct (poderPodAction w sb "start") as [[|] w1]; simpl negb.
  2: { split_and!; [by apply tamed_touches|by eapply tamed_sight|done]. }
  set (w2 := ew_update w1 id (set_state StateRunning)).
  assert (Ht2 : tamed id w w2) by (etransitivity; [exact Ht|by apply tamed_update]).
  set (w3 := if bool_decide (0 < secs)%Z then _ else w2).
  assert (Ht3 : tamed id w w3).
  { unfold w3. case_bool_decide; [|done]. unfold e2b_SetTimeout. destruct (sb_Get (ew_ss w2) id); [|done].
    destruct (owns ident s); [|done]. simpl. etransitivity; [exact Ht2|by apply tamed_update]. }
  pose proof (tamed_keyed _ _ _ Ht3 Hk) as Hk3. unfold sb_Get. destruct (ew_ss w3 !! id) as [sb3|] eqn:E3.
  2: { split_and!; [by apply tamed_touches|by eapply tamed_sight|done]. }
  pose proof (detail_tamed w3 sb3) as Hd. destruct (detailFromInfo w3 sb3) as [x w4].
  rewrite (Hk3 id sb3 E3) in Hd. destruct Hd as (Ht4 & Hid). assert (Ht5 : tamed id w w4) by (by transitivity w3).
  split_and!; [by apply tamed_touches|by eapply tamed_sight|]. by intros ? [= <-].
Qed.

Lemma metrics_law w ident id : isSome (e2b_GetMetrics w ident id) = true ↔ visible w ident id.
Proof.
  unfold e2b_GetMetrics. rewrite visible_get. destruct (sb_Get (ew_ss w) id) as [sb|]; [|done]. by destruct (owns ident sb).
Qed.

#[local] Instance backend_laws : SandboxBackendLaws (H := e2bSandboxBackend) keyed record visible.
Proof.
  split; [exact get_law|exact list_law|exact kill_law|exact timeout_law|exact pause_law|exact resume_law|].
  intros w ident id _. apply metrics_law.
Qed.

(** ** Isolation *)

(** The sandboxes an answer names or is forwarded to. *)
Definition answer_names (a : outcome + cp_answer M) : list string :=
  match a with
  | inl o => match reaches o with Some (_, s) => [s] | None => [] end
  | inr a => mentions a
  end.

(** What a create may rely on: nobody else moves the stores, its random name is new,
    and a peer reports the record it was asked to make. *)
Definition fair_create (w : ew) : Prop :=
  let name := "e2b" +:+ de_rand d in
  quiet (de_create d) ∧ record w name = None ∧
  ∀ peer sb, ce_peer (de_create d) peer = Ok (Some sb) → sb_name sb = name.

Lemma create_confined w ident admin req : fair_create w → keyed w →
  let '(r, w') := e2b_CreateSandbox w ident admin req in
  (∀ id, id ≠ "e2b" +:+ de_rand d → record w' id = record w id) ∧
  ∀ x, r = inl x → sd_id x = "e2b" +:+ de_rand d.
Proof.
  intros (Hq & Hnew & Hpeer) Hk. unfold e2b_CreateSandbox. set (name := "e2b" +:+ de_rand d) in *.
  set (c0 := mkCW _ _ _ _). set (rq := e2b_create_request req). assert (Hname : cs_name rq = name).
  { unfold rq, e2b_create_request. by destruct (e2bSubstrate _) as [[? ?] ?]. }
  pose proof (create_only (de_create d) c0 rq "" ident (Some e2b_admission) (e2b_requester ident admin req) Hq) as Hc.
  destruct (runSandboxCreate _ c0 rq _ _ _ _) as [[r j] c]. rewrite Hname in Hc. destruct Hc as ((Hkc & Hother) & Hrep).
  set (w1 := mkEW _ (cw_ss c) _ _ _ _ _ _).
  assert (Hrec : ∀ id, id ≠ name → record w1 id = record w id) by exact Hother. assert (Hk1 : keyed w1) by (by apply Hkc).
  destruct r as [sb|e]; [|destruct e as [?|[]|?|?|?|?|?]; by split].
  set (p := if bool_decide _ || bool_decide _ then _ else _).
  assert (Hp : tamed name w1 p.2 ∧ ∀ sb', p.1 = Some sb' → sb_name sb' = name).
  { unfold p. destruct (bool_decide _ || bool_decide _).
    - set (w2 := ew_update w1 name _). assert (Ht : tamed name w1 w2) by (by apply tamed_update). split; [exact Ht|].
      intros sb' Hs. by apply (tamed_keyed _ _ _ Ht Hk1).
    - split; [done|]. intros sb' E. simpl in E. subst sb. destruct (Hrep sb' eq_refl) as [Hs|(peer & Hs)]; [by apply Hk1|by eapply Hpeer]. }
  clearbody p. destruct p as [[sb'|] w2]; destruct Hp as (Ht & Hn).
  - specialize (Hn sb' eq_refl). pose proof (detail_tamed w2 sb') as Hd. destruct (detailFromInfo w2 sb') as [x w3].
    rewrite Hn in Hd. destruct Hd as (Ht3 & Hid). split; [|by intros ? [= <-]]. intros id Hne. rewrite <- (Hrec id Hne).
    apply (tamed_other name); [|done]. by transitivity w2.
  - split; [|done]. intros id Hne. rewrite <- (Hrec id Hne).
    by apply (tamed_other name).
Qed.

(** Whoever a request comes in as, the record of a sandbox that is not theirs is
    left alone and the answer does not name it. *)
Lemma control_keeps w c ident admin tenant id : fair_create w → keyed w → ¬ visible w ident id → is_Some (record w id) →
  let '(a, w') := control_plane w (to_control c ident admin tenant) in
  record w' id = record w id ∧ id ∉ mentions a.
Proof.
  intros Hf Hk Hv (sb & Hsb). set (r := to_control c ident admin tenant).
  assert (Hi : ident = cp_ident r) by done. clearbody r. subst ident.
  destruct (creates r) eqn:Hc.
  - unfold control_plane. destruct (bool_decide _); [by split; [|set_solver]|].
    unfold creates in Hc. apply andb_true_iff in Hc as (Hm & Hp). rewrite Hp. unfold handleSandboxes. rewrite Hm. destruct (cp_new r) as [req|]; [|by split; [|set_solver]].
    set (rq := mkNewSandbox _ _ _ _).
    pose proof (create_confined w (cp_ident r) (cp_admin r) rq Hf Hk) as Hcc. simpl CreateSandbox.
    destruct (e2b_CreateSandbox w (cp_ident r) (cp_admin r) rq) as [out w']. destruct Hcc as (Ho & Hx).
    assert (Hne : id ≠ "e2b" +:+ de_rand d) by (intros ->; destruct Hf as (_ & Hn & _); congruence).
    destruct out as [x|[]]; (split; [by apply Ho|]); simpl; try set_solver.
  - pose proof (control_plane_confined keyed record visible w r Hk Hc) as ((i & (_ & Ht)) & Hm).
    destruct (control_plane w r) as [a w']. simpl in *. split; [apply Ht; by right|]. intros Hin. by apply Hv, Hm.
Qed.

(** The one way around the gate: a request whose host or E2b-Sandbox-Id header spells the
    placeholder debug_sandbox_id, from somebody who has not exactly one sandbox for the
    resolver to find, to an envd or code path; its X-Sandbox-ID header says where to. *)
Definition slips_by (w : ew) (limit : option rateLimiter) (r : E2BReq) (who : E2BIdentity) (id : string) : Prop :=
  let cfg := newE2BGateway w limit r in
  throttled cfg who = false ∧ health_probe cfg r = false ∧ isEnvdPath (eq_path r) || code_path r = true ∧
  spelled cfg r = "debug_sandbox_id" ∧ resolveSingleSandbox w (ei_name who) = "" ∧ h_get (eq_header r) "X-Sandbox-ID" = id.

Lemma slips_nameless w limit r who id : id ≠ "" →
  slips_by w limit r who id ↔
  let cfg := newE2BGateway w limit r in
  throttled cfg who = false ∧ health_probe cfg r = false ∧ isEnvdPath (eq_path r) || code_path r = true ∧
  nameless cfg r (ei_name who) ∧ h_get (eq_header r) "X-Sandbox-ID" = id.
Proof.
  intros Hne. unfold slips_by. cbv zeta. split.
  - intros (? & ? & ? & Hsp & Hr & ?). split_and!; try done. unfold nameless, resolved, target_sandbox. by rewrite Hsp.
  - intros (? & ? & ? & Hn & Hx). assert (Hsp := nameless_header _ _ _ Hn ltac:(congruence)). split_and!; try done.
    revert Hn. unfold nameless, resolved, target_sandbox. by rewrite Hsp.
Qed.

(** C7: Isolation of tenants. A request with a key that authenticates as somebody
    changes no sandbox record that belongs to somebody else, and its answer names such a
    sandbox, or hands the request to it, in one case and in that one exactly: it goes to
    an envd or code path, spells the placeholder debug_sandbox_id where the sandbox is
    named, its caller has not exactly one sandbox, and its X-Sandbox-ID header names the
    other tenant's, which no check sees. Records are filed under their own names; of a
    create, [fair_create] holds. *)
Theorem e2b_isolation (w : ew) (limit : option rateLimiter) (c : E2BCall) (who : E2BIdentity) (id : string) (sb : SandboxInfo) :
  fair_create w → keyed w →
  authenticate_key (newE2BGateway w limit (er_req c)) (request_key (er_req c)) = Some who → ei_name who ≠ "" →
  record w id = Some sb → id ≠ "" → sb_owner sb ≠ "" → sb_owner sb ≠ ei_name who →
  let '(a, w') := e2b_serve w limit c in
  record w' id = Some sb ∧ (id ∈ answer_names a ↔ slips_by w limit (er_req c) who id).
Proof.
  intros Hf Hk Ha Hwho Hid Hne Ho1 Ho2. pose proof (slips_nameless w limit (er_req c) who id Hne) as Hiff.
  cbv zeta in Hiff. unfold e2b_serve. set (cfg := newE2BGateway w limit (er_req c)) in *.
  assert (Hadm : letThrough cfg (er_req c) = inl who) by (unfold letThrough; by rewrite Ha).
  assert (Hown : ¬ granted cfg (ei_name who) id).
  { intros Hg. specialize (Hg _ eq_refl). unfold authorizeSandbox, sb_Get in Hg. unfold record in Hid. rewrite Hid in Hg.
    unfold owns in Hg. by rewrite !bool_decide_eq_false_2 in Hg. }
  set (slip := slips_by w limit (er_req c) who id) in *.
  assert (Hslip : slip → reaches (Handler cfg (er_req c)) = Some (ei_name who, id)).
  { intros (Ht & Hh & Hp & Hn & <-)%Hiff. rewrite (header_unasked _ _ who) by done. by case_match. }
  assert (Hout : id ∈ answer_names (inl (Handler cfg (er_req c))) → slip).
  { simpl. destruct (reaches _) as [[i s]|] eqn:Hr; [|by intros ?%elem_of_nil]. intros ->%list_elem_of_singleton.
    destruct (reach_admitted cfg _ _ _ Hr) as (id' & Hadm' & Hthr & _ & Hreach & Hby). rewrite Hadm in Hadm'.
    injection Hadm' as <-. destruct Hby as [(_ & _ & ?)|(Hn & Hx & Ho)]; [done|].
    destruct (reach_data _ _ _ _ _ Hadm Hthr Ho) as (Hh & Hp). by apply Hiff. }
  destruct (Handler cfg (er_req c)) as [|??|???|??|??|ident admin tenant] eqn:Hh;
    try (split; [done|split; [exact Hout|]]; intros Hs; specialize (Hslip Hs); simpl in Hslip |- *; simplify_eq; set_solver).
  destruct (control_admitted cfg _ _ _ _ Hh) as (id' & Hadm' & _ & _ & -> & _ & _). rewrite Hadm in Hadm'.
  injection Hadm' as <-.
  pose proof (control_keeps w c (ei_name who) admin tenant id Hf Hk) as Hck. destruct (control_plane _ _) as [a w'].
  destruct Hck as [Hr Hm]; [intros (y & Hy & Hoy); apply Hown; intros f [= <-]; unfold authorizeSandbox, sb_Get; by rewrite Hy|by exists sb|].
  split; [congruence|]. split; [done|]. intros Hs. by specialize (Hslip Hs).
Qed.

(** Who a key is: with authentication on and no host resolver, a key that comes in
    is a credential of the server, or the envd token of a recorded sandbox, and
    then it is that sandbox's owner and no administrator. *)
Lemma e2b_key_sources w limit r key who : authDisabled (de_cfg d) = false → de_host_keys d = None →
  authenticate_key (newE2BGateway w limit r) key = Some who →
  key ≠ "" ∧
  ((∃ id, credential (de_hash d) (de_cfg d) (de_store d) key id ∧ who = mkE2BIdentity (id_name id) "" (IsAdmin id)) ∨
   (∃ sb, sb ∈ sb_List (ew_ss w) ∧ envd_label sb = key ∧ who = mkE2BIdentity (sb_owner sb) "" false)).
Proof.
  intros Hd Hh. unfold authenticate_key, newE2BGateway, authz, authenticator. simpl. rewrite Hh, Hd.
  case_bool_decide as Hk; [done|]. destruct (resolveToken _ _ _ key) as [[id|] cfg'] eqn:Hr; simpl.
  - intros [= <-]. split; [done|]. left. exists id. split; [by eapply resolveToken_Some|done].
  - unfold envdTokenIdentity. destruct (find_first _ _) as [sb|] eqn:Hf; [|done]. simpl. intros [= <-]. split; [done|].
    right. exists sb. apply find_first_Some in Hf as (Hin & Hp). simpl_bool. done.
Qed.

(** Nobody at all. When ports are public, a request without a key whose host names a
    sandbox that does not exist is served by the control plane under the empty
    identity, which owns every record: it can read any sandbox, with its envd
    token, and kill it. *)
Lemma anonymous_reads_every_token w limit c port id victim sb :
  authDisabled (de_cfg d) = false → de_host_keys d = None → de_getenv d "SANDRPOD_E2B_PRIVATE_PORTS" = "" →
  request_key (er_req c) = "" → eq_method (er_req c) = "GET" → h_get (eq_header (er_req c)) "E2b-Sandbox-Port" = "" →
  envd_host (de_domain d) (hostOnly (eq_host (er_req c))) = Some (port, id) → port ≠ "49999" → (0 < host_port port)%Z →
  id ≠ "debug_sandbox_id" → id ≠ "" → record w id = None →
  eq_path (er_req c) = "/sandboxes/" +:+ victim → cut slash victim = None → victim ≠ "" →
  clean_path ("/sandboxes/" +:+ victim) = "/sandboxes/" +:+ victim →
  record w victim = Some sb → envd_label sb ≠ "" → keyed w →
  ∃ x w', e2b_serve w limit c = (inr (CDetail 200 x), w') ∧ sd_id x = victim ∧ sd_envd_token x = envd_label sb.
Proof.
  intros Hd Hhk Hpriv Hkey Hm Hsp Hhost Hport Hpos Hdbg Hid Hnone Hpath Hcut Hvne Hclean Hv Htok Hk.
  set (cfg := newE2BGateway w limit (er_req c)). set (r := er_req c) in *.
  assert (Hnamed : named_by_host cfg r = (id, false, host_port port)).
  { unfold named_by_host. simpl. rewrite Hhost. by rewrite bool_decide_eq_false_2. }
  assert (Htarget : target_sandbox cfg r = id).
  { unfold target_sandbox, spelled. cbv zeta. rewrite Hnamed. simpl. rewrite (bool_decide_eq_false_2 (id = "")) by done.
    by rewrite (bool_decide_eq_false_2 (id = "debug_sandbox_id")). }
  assert (Hh : Handler cfg r = ToControl "" false "").
  { apply anonymous_falls_through; [done|..].
    - unfold authenticate_key. simpl. unfold authz, authenticator. by rewrite Hhk, Hd.
    - unfold public_port. rewrite Hnamed. simpl. rewrite Hpriv. unfold isEnvdPath, code_ctx_path. rewrite Hpath.
      rewrite (bool_decide_eq_true_2 (id ≠ "")), (bool_decide_eq_true_2 (0 < _)%Z) by done. reflexivity.
    - by rewrite Hpath.
    - unfold throttled, cfg. simpl. unfold throttle. by destruct limit.
    - right. intros s ->. rewrite Htarget. unfold resolved. rewrite bool_decide_eq_false_2 by done.
      unfold record in Hnone. unfold unauthorized, forwarded, cfg. simpl.
      unfold authorizeSandbox, forwardE2B, portProxy, toolboxTarget, sb_Get. rewrite Hnone. split_and!; [done|..].
      + destruct (de_node_for d); [|done]. by destruct (bool_decide _ || bool_decide _).
      + intros f [= <-]. by rewrite Hnone. }
  unfold e2b_serve. fold r cfg. rewrite Hh. unfold control_plane. simpl cp_path. fold r. rewrite Hpath.
  rewrite bool_decide_eq_false_2 by (intros E; by apply E). rewrite !bool_decide_eq_false_2 by done.
  assert (Hp : has_prefix ("/sandboxes/" +:+ victim) "/sandboxes/" = true) by (apply has_prefix_spec; by eexists).
  rewrite Hp. simpl. unfold handleSandboxByID. simpl cp_path. fold r. rewrite Hpath.
  assert (Ht : trim_prefix ("/sandboxes/" +:+ victim) "/sandboxes/" = victim).
  { unfold trim_prefix. rewrite Hp. apply drop_prefix_app. }
  rewrite Ht, bool_decide_eq_false_2 by done. rewrite Hcut. unfold sandbox_action. simpl cp_method. fold r.
  rewrite Hm. simpl. unfold e2b_GetSandbox, sb_Get. unfold record in Hv. rewrite Hv. simpl.
  unfold detailFromInfo, envdToken. rewrite bool_decide_eq_true_2 by done. eexists _, _. split; [done|].
  split; [by apply Hk|done].
Qed.

(** The envd token of a sandbox without an owner authenticates as the empty
    identity, and that identity owns every sandbox. *)
Lemma envd_token_of_nobody w limit r key sb : authDisabled (de_cfg d) = false → de_host_keys d = None → key ≠ "" →
  (resolveToken (de_hash d) (de_cfg d) (de_store d) key).1 = None →
  find_first (λ sb, bool_decide (envd_label sb ≠ "") && bool_decide (envd_label sb = key)) (sb_List (ew_ss w)) = Some sb →
  sb_owner sb = "" →
  authenticate_key (newE2BGateway w limit r) key = Some anonymous ∧ ∀ other, owns (ei_name anonymous) other = true.
Proof.
  intros Hd Hh Hk Hr Hf Ho. split; [|done]. unfold authenticate_key, newE2BGateway, authz, authenticator. simpl.
  rewrite Hh, Hd, bool_decide_eq_false_2 by done. destruct (resolveToken _ _ _ key) as [[id|] cfg']; [done|].
  unfold envdTokenIdentity. rewrite Hf. simpl. by rewrite Ho.
Qed.
End Server.

(** ** Metadata *)

Lemma meta_entry_Some kv k v : meta_entry kv = Some (k, v) ↔ kv = (e2bMetaPrefix +:+ k, v).
Proof.
  unfold meta_entry. destruct kv as [l v']. cbn [fst snd]. destruct (has_prefix l e2bMetaPrefix) eqn:Hp.
  - apply has_prefix_spec in Hp as (r & ->). rewrite drop_prefix_app. split; [by intros [= -> ->]|].
    intros [= Hr ->]. by apply app_inj_l_str in Hr as ->.
  - split; [done|]. intros [= -> ->]. assert (has_prefix (e2bMetaPrefix +:+ k) e2bMetaPrefix = true) by (apply has_prefix_spec; by exists k).
    congruence.
Qed.

Lemma meta_keys_NoDup (l : list (string * string)) : NoDup l.*1 → NoDup (omap meta_entry l).*1.
Proof.
  induction l as [|x l IH]; [constructor|]. rewrite fmap_cons. intros (Hk & Hl)%NoDup_cons. cbn [omap list_omap].
  destruct (meta_entry x) as [[k v]|] eqn:Hx; [|by apply IH]. rewrite fmap_cons. constructor; [|by apply IH].
  intros ([k' v'] & E & (y & Hin & Hy)%list_elem_of_omap)%list_elem_of_fmap. simpl in E. subst k'.
  apply meta_entry_Some in Hx, Hy. subst x y. apply Hk, list_elem_of_fmap. by exists (e2bMetaPrefix +:+ k, v').
Qed.

Lemma meta_lookup labels k : e2bMetaFromLabels labels !! k = labels !! (e2bMetaPrefix +:+ k).
Proof.
  apply option_eq. intros v. unfold e2bMetaFromLabels. rewrite <- elem_of_list_to_map by apply meta_keys_NoDup, NoDup_fst_map_to_list.
  rewrite list_elem_of_omap. setoid_rewrite meta_entry_Some. rewrite <- elem_of_map_to_list. naive_solver.
Qed.

#[local] Instance meta_inj : Inj (=) (=) (String.append e2bMetaPrefix).
Proof. intros a b. apply app_inj_l_str. Qed.

(** C30: Metadata goes round: the labels written for a new sandbox read back as the
    metadata and the template it was created with, and no metadata key, whatever
    the client calls it, reaches the label of the access token or another label
    outside its name space. *)
Theorem metadata_roundtrip (md : gmap string string) (template : string) (labels : gmap string string) :
  (∀ k, labels !! (e2bMetaPrefix +:+ k) = None) →
  e2bMetaFromLabels (create_labels md template labels) = md ∧
  (template ≠ "" → e2bTemplateFromLabels (create_labels md template labels) = template) ∧
  (∀ l, has_prefix l e2bMetaPrefix = false → l ≠ e2bTemplateLabel → create_labels md template labels !! l = labels !! l).
Proof.
  intros Hl.
  assert (Hkm : ∀ l, has_prefix l e2bMetaPrefix = false → (kmap (String.append e2bMetaPrefix) md ∪ labels) !! l = labels !! l).
  { intros l Hp. apply option_eq. intros v. rewrite lookup_union_Some_raw, lookup_kmap_None by apply _. split.
    - intros [Hk|(_ & ?)]; [|done]. apply lookup_kmap_Some in Hk as (k & -> & _); [|apply _]. exfalso.
      assert (has_prefix (e2bMetaPrefix +:+ k) e2bMetaPrefix = true) by (apply has_prefix_spec; by exists k). congruence.
    - intros Hv. right. split; [|done]. intros k ->. by rewrite Hl in Hv. }
  split_and!.
  - apply map_eq. intros k. rewrite meta_lookup. unfold create_labels.
    assert (Hu : (kmap (String.append e2bMetaPrefix) md ∪ labels) !! (e2bMetaPrefix +:+ k) = md !! k).
    { rewrite lookup_union, Hl, (lookup_kmap (String.append e2bMetaPrefix)). by destruct (md !! k). }
    case_bool_decide; [|exact Hu]. rewrite lookup_insert_ne; [exact Hu|]. intros E.
    assert (has_prefix e2bTemplateLabel e2bMetaPrefix = true) by (apply has_prefix_spec; by exists k). done.
  - intros Ht. unfold e2bTemplateFromLabels, create_labels. rewrite (bool_decide_eq_true_2 (template ≠ "")) by done.
    rewrite lookup_insert_eq. simpl. by rewrite bool_decide_eq_true_2.
  - intros l Hp Hne. unfold create_labels. case_bool_decide; [rewrite lookup_insert_ne by done|]; by apply Hkm.
Qed.

Lemma metadata_roundtrip_witness :
  let labels := {[ e2bEnvdTokenLabel := "e2b_ab" ]} : gmap string string in
  (∀ k, labels !! (e2bMetaPrefix +:+ k) = None) ∧
  e2bMetaFromLabels (create_labels {[ "user" := "7" ]} "" labels) = {[ "user" := "7" ]}.
Proof.
  split; [intros k; by apply lookup_singleton_ne|].
  by apply (metadata_roundtrip {[ "user" := "7" ]} "" {[ e2bEnvdTokenLabel := "e2b_ab" ]}).
Defined.

(** ** Witnesses *)

(** A server with one administrator token and two named users, where alice has a
    sandbox with an envd token and bob another. *)
Definition demo_sandbox (name owner tok : string) : SandboxInfo :=
  mkSandbox name name "" "local" "" "" StateRunning "" owner 0 (f_of_int 0) 0 "p" "" "" "tunnel://p" "" "" "" "" 1 1
    {[ e2bEnvdTokenLabel := tok ]} None.
Definition demo_world : ew :=
  mkEW NewJobStore {[ "e2ba" := demo_sandbox "e2ba" "alice" "e2b_aa"; "e2bb" := demo_sandbox "e2bb" "bob" "e2b_bb" ]} ∅
    (NewScheduler "" "") {[ "p" := false ]} ∅ [] [].
Definition demo_auth : Config :=
  mkConfig "root" [mkNamed "alice" "ka" RoleUser; mkNamed "bob" "kb" RoleUser] None None "" false 0.
Definition demo_deps : e2bDeps (S := ordered_store) (M := unit) :=
  mkDeps "e2b.app" demo_auth None ∅ id None None (demo_cenv (demo_sched_env [demo_poder "p" 3]) true) (λ _, "") 9 "e2b_cc" "00"
    (λ _ _, true) (λ _, true) (λ _, None).
Definition demo_call (host method path key : string) : E2BCall :=
  mkCall (mkE2BReq method host path (if bool_decide (key = "") then ∅ else {[ "X-Api-Key" := [key] ]})) "" None 0.

Lemma demo_keyed : keyed demo_world.
Proof.
  intros k x. unfold demo_world. simpl. rewrite lookup_insert_Some, lookup_singleton_Some.
  intros [(<- & <-)|(_ & <- & <-)]; done.
Qed.

(** Bob asks for alice's sandbox: not found, and it is left alone. *)
Lemma e2b_isolation_witness :
  let c := demo_call "api.e2b.app" "GET" "/sandboxes/e2ba" "kb" in
  let '(a, w') := e2b_serve demo_deps demo_world None c in
  record w' "e2ba" = Some (demo_sandbox "e2ba" "alice" "e2b_aa") ∧
  ("e2ba" ∈ answer_names a ↔ slips_by demo_deps demo_world None (er_req c) (mkE2BIdentity "bob" "" false) "e2ba").
Proof.
  apply (e2b_isolation demo_deps demo_world None _ (mkE2BIdentity "bob" "" false) "e2ba" (demo_sandbox "e2ba" "alice" "e2b_aa"));
    [|exact demo_keyed|vm_compute; reflexivity|done|reflexivity|done|done|done].
  split; [by split|]. split; [vm_compute; reflexivity|]. done.
Defined.

(** Bob, who has no sandbox, reads a file of alice's: the header says whose. *)
Example demo_slip :
  let w := ew_with_ss demo_world {[ "e2ba" := demo_sandbox "e2ba" "alice" "e2b_aa" ]} in
  let r := mkE2BReq "GET" "49983-debug_sandbox_id.e2b.app" "/files" {[ "X-Api-Key" := ["kb"]; "X-Sandbox-Id" := ["e2ba"] ]} in
  (e2b_serve demo_deps w None (mkCall r "" None 0)).1 = inl (ToEnvd "bob" "e2ba").
Proof. vm_compute. reflexivity. Qed.

(** Nobody asks for alice's sandbox under a host name that is nobody's: it is found. *)
Example demo_leak :
  let '(a, _) := e2b_serve demo_deps demo_world None (demo_call "8080-nosuch.e2b.app" "GET" "/sandboxes/e2ba" "") in
  match a with inr (CDetail 200 x) => sd_envd_token x = "e2b_aa" | _ => False end.
Proof. vm_compute. reflexivity. Qed.
