(* ===== verification/E2BWire.v ===== *)
(** pkg/e2bcompat/protobuf.go and protobuf_process.go, with the Connect frames of
    envd.go: the hand-written protobuf codec of the envd messages.

    The wire primitives are those of google.golang.org/protobuf/encoding/protowire,
    a library outside the repository: the class [Protowire] lists what the codec
    calls and [ProtowireLaws] what it relies on, which is that each Consume reads
    back what the matching Append wrote and moves forward. Instance [leb128] has
    such primitives. A decoder of the code is a loop with a switch on the field
    number and the wire type; here the switch is a table and the loop is shared. *)

From S2P Require Import Prelude GoStrings GoTime.

(** ** Bytes and the primitives *)

Definition byte_of (z : Z) : char := ascii_of_nat (Z.to_nat (z mod 256)).
Definition code_z (c : char) : Z := Z.of_nat (code c).
Definition uint32 (z : Z) : Z := (z mod 2 ^ 32)%Z.
Definition uint64 (z : Z) : Z := (z mod 2 ^ 64)%Z.
Definition int32 (z : Z) : Z := ((z + 2 ^ 31) mod 2 ^ 32 - 2 ^ 31)%Z.

#[local] Arguments uint32 z : simpl never.
#[local] Arguments uint64 z : simpl never.
#[local] Arguments int32 z : simpl never.

Definition VarintType : Z := 0.
Definition BytesType : Z := 2.

(** A Consume function returns what it read and the rest, or [None] for a negative
    length. [ConsumeString] is [ConsumeBytes]. *)
Class Protowire := {
  ConsumeTag : string → option (Z * Z * string);
  ConsumeVarint : string → option (Z * string);
  ConsumeBytes : string → option (string * string);
  ConsumeFieldValue : Z → Z → string → option string;
  AppendTag : string → Z → Z → string;
  AppendVarint : string → Z → string;
  AppendBytes : string → string → string;
  EncodeZigZag : Z → Z;
  DecodeZigZag : Z → Z;
}.

Definition field_number (n : Z) : Prop := (1 ≤ n < 2 ^ 29)%Z.
Definition u64 (v : Z) : Prop := (0 ≤ v < 2 ^ 64)%Z.

Class ProtowireLaws `{Protowire} := {
  tag_inverse n t rest : field_number n → t = VarintType ∨ t = BytesType →
    ConsumeTag (AppendTag "" n t +:+ rest) = Some (n, t, rest);
  varint_inverse v rest : u64 v → ConsumeVarint (AppendVarint "" v +:+ rest) = Some (v, rest);
  bytes_inverse s rest : ConsumeBytes (AppendBytes "" s +:+ rest) = Some (s, rest);
  skip_varint n v rest : u64 v → ConsumeFieldValue n VarintType (AppendVarint "" v +:+ rest) = Some rest;
  skip_bytes n s rest : ConsumeFieldValue n BytesType (AppendBytes "" s +:+ rest) = Some rest;
  append_tag b n t : AppendTag b n t = b +:+ AppendTag "" n t;
  append_varint b v : AppendVarint b v = b +:+ AppendVarint "" v;
  append_bytes b s : AppendBytes b s = b +:+ AppendBytes "" s;
  tag_forward b n t rest : ConsumeTag b = Some (n, t, rest) → (String.length rest < String.length b)%nat;
  varint_forward b v rest : ConsumeVarint b = Some (v, rest) → (String.length rest ≤ String.length b)%nat;
  bytes_forward b s rest : ConsumeBytes b = Some (s, rest) → (String.length rest ≤ String.length b)%nat;
  skip_forward n t b rest : ConsumeFieldValue n t b = Some rest → (String.length rest ≤ String.length b)%nat;
  zigzag_u64 z : (- 2 ^ 63 ≤ z < 2 ^ 63)%Z → u64 (EncodeZigZag z);
  zigzag_inverse z : (- 2 ^ 63 ≤ z < 2 ^ 63)%Z → DecodeZigZag (EncodeZigZag z) = z;
}.

(** ** Decoding *)

(** What a case of the switch does with its field: take bytes or a varint into the
    result, and go on or return. *)
Inductive action (A : Type) :=
| OnBytes (f : string → A → A) (more : bool)
| OnVarint (f : Z → A → A) (more : bool).
Arguments OnBytes {A} f more.
Arguments OnVarint {A} f more.

Section Codec.
Context `{Protowire}.

(** The loop of every decoder. [b] shrinks at every turn, so its length bounds the
    turns; what does not parse ends the loop with what was read so far. *)
Fixpoint decode_loop {A} (switch : Z → Z → option (action A)) (fuel : nat) (b : string) (a : A) : A :=
  match fuel with
  | O => a
  | S fuel =>
      if bool_decide (b = "") then a
      else match ConsumeTag b with
      | None => a
      | Some (num, typ, b) =>
          match switch num typ with
          | Some (OnBytes f more) =>
              match ConsumeBytes b with
              | None => a
              | Some (v, b) => if more then decode_loop switch fuel b (f v a) else f v a
              end
          | Some (OnVarint f more) =>
              match ConsumeVarint b with
              | None => a
              | Some (v, b) => if more then decode_loop switch fuel b (f v a) else f v a
              end
          | None =>
              match ConsumeFieldValue num typ b with
              | None => a
              | Some b => decode_loop switch fuel b a
              end
          end
      end
  end.
Definition decode {A} (switch : Z → Z → option (action A)) (b : string) (a : A) : A :=
  decode_loop switch (S (String.length b)) b a.

(** [case num == n && typ == t] *)
Definition is_field (num typ n t : Z) : bool := bool_decide (num = n) && bool_decide (typ = t).

(** *** Process messages *)

(** [type ProcessConfig struct] and [type PTYSize struct] *)
Record ProcessConfig := mkProc {
  pc_cmd : string;
  pc_args : list string;
  pc_envs : gmap string string;
  pc_cwd : option string;
}.
Definition no_config : ProcessConfig := mkProc "" [] ∅ None.
Record PTYSize := mkPTY { pty_rows : Z; pty_cols : Z }.

(** [func decodeProcessConfig(b) ProcessConfig] *)
Definition config_switch (num typ : Z) : option (action ProcessConfig) :=
  if is_field num typ 1 BytesType then Some (OnBytes (λ v c, mkProc v (pc_args c) (pc_envs c) (pc_cwd c)) true)
  else if is_field num typ 2 BytesType then Some (OnBytes (λ v c, mkProc (pc_cmd c) (pc_args c ++ [v]) (pc_envs c) (pc_cwd c)) true)
  else if is_field num typ 4 BytesType then Some (OnBytes (λ v c, mkProc (pc_cmd c) (pc_args c) (pc_envs c) (Some v)) true)
  else None.
Definition decodeProcessConfig (b : string) : ProcessConfig := decode config_switch b no_config.

(** [func decodeStartRequest(b) ProcessConfig] *)
Definition start_switch (num typ : Z) : option (action ProcessConfig) :=
  if is_field num typ 1 BytesType then Some (OnBytes (λ v _, decodeProcessConfig v) true) else None.
Definition decodeStartRequest (b : string) : ProcessConfig := decode start_switch b no_config.

(** [func decodePTYSize(b) (rows, cols)]: the inner loop, then the outer one. *)
Definition size_switch (num typ : Z) : option (action PTYSize) :=
  if bool_decide (typ = VarintType) then
    Some (OnVarint (λ v p, if bool_decide (num = 1%Z) then mkPTY (uint32 v) (pty_cols p)
                           else if bool_decide (num = 2%Z) then mkPTY (pty_rows p) (uint32 v) else p) true)
  else None.
Definition pty_switch (num typ : Z) : option (action PTYSize) :=
  if is_field num typ 1 BytesType then Some (OnBytes (λ v p, decode size_switch v p) false) else None.
Definition decodePTYSize (b : string) : PTYSize := decode pty_switch b (mkPTY 0 0).

(** [func decodeStartRequestFull(b) (ProcessConfig, *PTYSize, bool)] *)
Record StartRequest := mkStart { st_config : ProcessConfig; st_pty : option PTYSize; st_stdin : bool }.
Definition start_full_switch (num typ : Z) : option (action StartRequest) :=
  if is_field num typ 1 BytesType then Some (OnBytes (λ v s, mkStart (decodeProcessConfig v) (st_pty s) (st_stdin s)) true)
  else if is_field num typ 2 BytesType then Some (OnBytes (λ v s, mkStart (st_config s) (Some (decodePTYSize v)) (st_stdin s)) true)
  else if is_field num typ 4 VarintType then Some (OnVarint (λ v s, mkStart (st_config s) (st_pty s) (bool_decide (v ≠ 0%Z))) true)
  else None.
Definition decodeStartRequestFull (b : string) : StartRequest := decode start_full_switch b (mkStart no_config None false).

(** [func decodeSelectorPID(b) uint32] *)
Definition selector_switch (num typ : Z) : option (action Z) :=
  if is_field num typ 1 VarintType then Some (OnVarint (λ v _, uint32 v) false) else None.
Definition decodeSelectorPID (b : string) : Z := decode selector_switch b 0%Z.

(** [func decodeSubMessagePID(b, field) uint32] and [func decodeConnectRequest(b)] *)
Definition sub_pid_switch (field num typ : Z) : option (action Z) :=
  if is_field num typ field BytesType then Some (OnBytes (λ v _, decodeSelectorPID v) false) else None.
Definition decodeSubMessagePID (b : string) (field : Z) : Z := decode (sub_pid_switch field) b 0%Z.
Definition decodeConnectRequest (b : string) : Z := decodeSubMessagePID b 1.

(** [func decodeSignalRequest(b) (pid, signal)] *)
Definition signal_switch (num typ : Z) : option (action (Z * Z)) :=
  if is_field num typ 1 BytesType then Some (OnBytes (λ v p, (decodeSelectorPID v, p.2)) true)
  else if is_field num typ 2 VarintType then Some (OnVarint (λ v p, (p.1, int32 v)) true)
  else None.
Definition decodeSignalRequest (b : string) : Z * Z := decode signal_switch b (0, 0)%Z.

(** [func decodeProcessInput(b) (data, isPTY)] *)
Definition process_input_switch (num typ : Z) : option (action (string * bool)) :=
  if bool_decide (typ = BytesType) && (bool_decide (num = 1%Z) || bool_decide (num = 2%Z))
  then Some (OnBytes (λ v _, (v, bool_decide (num = 2%Z))) true) else None.
Definition decodeProcessInput (b : string) : string * bool := decode process_input_switch b ("", false).

(** [func decodeInputRequest(b) (pid, data, isPTY)] *)
Definition input_switch (num typ : Z) : option (action (Z * (string * bool))) :=
  if is_field num typ 1 BytesType then Some (OnBytes (λ v p, (decodeSelectorPID v, p.2)) true)
  else if is_field num typ 2 BytesType then Some (OnBytes (λ v p, (p.1, decodeProcessInput v)) true)
  else None.
Definition decodeInputRequest (b : string) : Z * (string * bool) := decode input_switch b (0%Z, ("", false)).

(** [func decodeUpdateRequest(b) (pid, rows, cols)] *)
Definition update_switch (num typ : Z) : option (action (Z * PTYSize)) :=
  if is_field num typ 1 BytesType then Some (OnBytes (λ v p, (decodeSelectorPID v, p.2)) true)
  else if is_field num typ 2 BytesType then Some (OnBytes (λ v p, (p.1, decodePTYSize v)) true)
  else None.
Definition decodeUpdateRequest (b : string) : Z * PTYSize := decode update_switch b (0%Z, mkPTY 0 0).

(** *** File-system messages *)

(** [func decodeStringField(b, field) string] and [func decodeBoolField(b, field) bool] *)
Definition string_switch (field num typ : Z) : option (action string) :=
  if is_field num typ field BytesType then Some (OnBytes (λ v _, v) false) else None.
Definition decodeStringField (b : string) (field : Z) : string := decode (string_switch field) b "".
Definition bool_switch (field num typ : Z) : option (action bool) :=
  if is_field num typ field VarintType then Some (OnVarint (λ v _, bool_decide (v ≠ 0%Z)) false) else None.
Definition decodeBoolField (b : string) (field : Z) : bool := decode (bool_switch field) b false.

(** [func decodeListDirRequest(b) (string, uint32)] *)
Definition list_dir_switch (num typ : Z) : option (action (string * Z)) :=
  if is_field num typ 1 BytesType then Some (OnBytes (λ v p, (v, p.2)) true)
  else if is_field num typ 2 VarintType then Some (OnVarint (λ v p, (p.1, uint32 v)) true)
  else None.
Definition decodeListDirRequest (b : string) : string * Z := decode list_dir_switch b ("", 0%Z).

(** [func decodeMoveRequest(b) (string, string)] *)
Definition decodeMoveRequest (b : string) : string * string := (decodeStringField b 1, decodeStringField b 2).

(** ** Encoding *)

Definition FileTypeUnspecified : string := "FILE_TYPE_UNSPECIFIED".
Definition FileTypeFile : string := "FILE_TYPE_FILE".
Definition FileTypeDirectory : string := "FILE_TYPE_DIRECTORY".

(** [type EntryInfo struct] *)
Record EntryInfo := mkEntry {
  en_name : string;
  en_type : string;
  en_path : string;
  en_size : Z;
  en_mode : Z;
  en_permissions : string;
  en_owner : string;
  en_group : string;
  en_modified : option gotime;
  en_symlink : option string;
}.

(** [func fileTypeEnum(t) uint64] *)
Definition fileTypeEnum (t : string) : Z :=
  if bool_decide (t = FileTypeFile) then 1 else if bool_decide (t = FileTypeDirectory) then 2 else 0.

(** [func encodeEntryInfo(e) []byte] *)
Definition encodeEntryInfo (e : EntryInfo) : string :=
  let b := AppendTag "" 1 BytesType in
  let b := AppendBytes b (en_name e) in
  let b := AppendTag b 2 VarintType in
  let b := AppendVarint b (fileTypeEnum (en_type e)) in
  let b := AppendTag b 3 BytesType in
  let b := AppendBytes b (en_path e) in
  let b := AppendTag b 4 VarintType in
  let b := AppendVarint b (uint64 (en_size e)) in
  let b := if bool_decide (en_mode e ≠ 0%Z) then AppendVarint (AppendTag b 5 VarintType) (en_mode e) else b in
  if bool_decide (en_permissions e ≠ "") then AppendBytes (AppendTag b 6 BytesType) (en_permissions e) else b.

(** [func encodeMsgField(num, inner) []byte] *)
Definition encodeMsgField (num : Z) (inner : string) : string := AppendBytes (AppendTag "" num BytesType) inner.

(** [func encodeStatResponse(e)], [func encodeEntryResponse(e)] and [func encodeListDirResponse(entries)] *)
Definition encodeStatResponse (e : EntryInfo) : string := encodeMsgField 1 (encodeEntryInfo e).
Definition encodeEntryResponse (e : EntryInfo) : string := encodeMsgField 1 (encodeEntryInfo e).
Definition encodeListDirResponse (entries : list EntryInfo) : string :=
  fold_left (λ b e, b +:+ encodeMsgField 1 (encodeEntryInfo e)) entries "".

Definition wrapStartResponse (event : string) : string := encodeMsgField 1 event.

(** [func procStartEvent(pid)], [func procDataEvent(data, channel)] and [func procEndEvent(exitCode, status)] *)
Definition procStartEvent (pid : Z) : string :=
  let start := AppendTag "" 1 VarintType in
  let start := AppendVarint start pid in
  wrapStartResponse (encodeMsgField 1 start).

Definition chStdout : Z := 1.
Definition chStderr : Z := 2.
Definition chPTY : Z := 3.
Definition procDataEvent (data : string) (channel : Z) : string :=
  let inner := AppendTag "" channel BytesType in
  let inner := AppendBytes inner data in
  wrapStartResponse (encodeMsgField 2 inner).

Definition procEndEvent (exitCode : Z) (status : string) : string :=
  let e := AppendTag "" 1 VarintType in
  let e := AppendVarint e (EncodeZigZag exitCode) in
  let e := AppendTag e 2 VarintType in
  let e := AppendVarint e 1 in
  let e := AppendTag e 3 BytesType in
  let e := AppendBytes e status in
  wrapStartResponse (encodeMsgField 3 e).

(** [func encodeCreateWatcherResponse(id)], [func watchEventTypeEnum(name)] and
    [func encodeWatcherEventsResponse(events)] *)
Definition encodeCreateWatcherResponse (id : string) : string := AppendBytes (AppendTag "" 1 BytesType) id.

Record WatchEvent := mkWatch { we_name : string; we_type : string }.
Definition watchEventTypeEnum (name : string) : Z :=
  if bool_decide (name = "EVENT_TYPE_CREATE") then 1
  else if bool_decide (name = "EVENT_TYPE_WRITE") then 2
  else if bool_decide (name = "EVENT_TYPE_REMOVE") then 3
  else if bool_decide (name = "EVENT_TYPE_RENAME") then 4
  else if bool_decide (name = "EVENT_TYPE_CHMOD") then 5 else 0.
Definition encode_watch (ev : WatchEvent) : string :=
  let fe := AppendTag "" 1 BytesType in
  let fe := AppendBytes fe (we_name ev) in
  let fe := AppendTag fe 2 VarintType in
  AppendVarint fe (watchEventTypeEnum (we_type ev)).
Definition encodeWatcherEventsResponse (events : list WatchEvent) : string :=
  fold_left (λ out ev, out +:+ encodeMsgField 1 (encode_watch ev)) events "".

(** [type ProcInfo struct] and [func encodeListResponse(procs)] *)
Record ProcInfo := mkInfo { pi_pid : Z; pi_tag : string; pi_cmd : string; pi_args : list string; pi_cwd : string }.
Definition encode_info (p : ProcInfo) : string :=
  let cfg := AppendTag "" 1 BytesType in
  let cfg := AppendBytes cfg (pi_cmd p) in
  let cfg := fold_left (λ cfg a, AppendBytes (AppendTag cfg 2 BytesType) a) (pi_args p) cfg in
  let cfg := if bool_decide (pi_cwd p ≠ "") then AppendBytes (AppendTag cfg 4 BytesType) (pi_cwd p) else cfg in
  let info := encodeMsgField 1 cfg in
  let info := AppendTag info 2 VarintType in
  let info := AppendVarint info (pi_pid p) in
  if bool_decide (pi_tag p ≠ "") then AppendBytes (AppendTag info 3 BytesType) (pi_tag p) else info.
Definition encodeListResponse (procs : list ProcInfo) : string :=
  fold_left (λ out p, out +:+ encodeMsgField 1 (encode_info p)) procs "".

(** ** Frames *)

(** The four bytes of [binary.BigEndian.PutUint32] and their value. *)
Definition put_uint32 (z : Z) : string :=
  String (byte_of (z / 2 ^ 24)) (String (byte_of (z / 2 ^ 16)) (String (byte_of (z / 2 ^ 8)) (String (byte_of z) ""))).
Definition get_uint32 (s : string) : Z :=
  match s with
  | String a (String b (String c (String d _))) =>
      (code_z a * 2 ^ 24 + code_z b * 2 ^ 16 + code_z c * 2 ^ 8 + code_z d)%Z
  | _ => 0%Z
  end.

(** [func writeEnvelope(w, flag, msg)]: the bytes written; the length is cut to 32 bits. *)
Definition writeEnvelope (flag : Z) (msg : string) : string :=
  String (byte_of flag) (put_uint32 (uint32 (len msg)) +:+ msg).
Definition writeConnectEndFrame : string := writeEnvelope 2 "{}".

(** [type procEvent struct], an event of the toolbox's stream. *)
Record procEvent := mkEvent { pe_type : string; pe_pid : Z; pe_data : string; pe_exit : Z }.

(** The protobuf message of an event, if the switch knows it. *)
Definition proc_message (ev : procEvent) : option string :=
  if bool_decide (pe_type ev = "start") then Some (procStartEvent (pe_pid ev))
  else if bool_decide (pe_type ev = "stdout") then Some (procDataEvent (pe_data ev) chStdout)
  else if bool_decide (pe_type ev = "stderr") then Some (procDataEvent (pe_data ev) chStderr)
  else if bool_decide (pe_type ev = "pty") then Some (procDataEvent (pe_data ev) chPTY)
  else if bool_decide (pe_type ev = "end") then Some (procEndEvent (pe_exit ev) "exited")
  else None.

(** The values [json.Marshal] is given, and its text: the keys of an object come sorted,
    no text needs an escape, and bytes are in base64, none at all being null. *)
Inductive jval := JObj (l : list (string * jval)) | JNum (z : Z) | JBool (b : bool) | JStr (s : string) | JBytes (s : string).
Definition b64_digit (z : Z) : string :=
  match String.get (Z.to_nat (z mod 64)) "ABCDEFGHIJKLMNOPQRSTUVWXYZabcdefghijklmnopqrstuvwxyz0123456789+/" with
  | Some c => str1 c | None => "" end.
Fixpoint b64_encode (s : string) : string :=
  match s with
  | "" => ""
  | String a "" => b64_digit (code_z a / 4) +:+ b64_digit (code_z a * 16) +:+ "=="
  | String a (String b "") =>
      b64_digit (code_z a / 4) +:+ b64_digit (code_z a * 16 + code_z b / 16) +:+ b64_digit (code_z b * 4) +:+ "="
  | String a (String b (String c s)) =>
      b64_digit (code_z a / 4) +:+ b64_digit (code_z a * 16 + code_z b / 16) +:+
      b64_digit (code_z b * 4 + code_z c / 64) +:+ b64_digit (code_z c) +:+ b64_encode s
  end.
Definition in_quotes (s : string) : string := str1 dquote +:+ s +:+ str1 dquote.
Fixpoint json_text (v : jval) : string :=
  match v with
  | JObj l => "{" +:+ join "," ((fix go l := match l with [] => [] | (k, v) :: l => (in_quotes k +:+ ":" +:+ json_text v) :: go l end) l) +:+ "}"
  | JNum z => itoa z
  | JBool b => if b then "true" else "false"
  | JStr s => in_quotes s
  | JBytes s => if bool_decide (s = "") then "null" else in_quotes (b64_encode s)
  end.

(** The JSON message of an event. *)
Definition event_json (v : jval) : jval := JObj [("event", v)].
Definition start_json (pid : Z) : jval := event_json (JObj [("start", JObj [("pid", JNum pid)])]).
Definition data_json (key data : string) : jval := event_json (JObj [("data", JObj [(key, JBytes data)])]).
Definition end_json (exit : Z) : jval :=
  event_json (JObj [("end", JObj [("exitCode", JNum exit); ("exited", JBool true); ("status", JStr "exited")])]).
Definition proc_json (ev : procEvent) : option jval :=
  if bool_decide (pe_type ev = "start") then Some (start_json (pe_pid ev))
  else if bool_decide (pe_type ev = "stdout") then Some (data_json "stdout" (pe_data ev))
  else if bool_decide (pe_type ev = "stderr") then Some (data_json "stderr" (pe_data ev))
  else if bool_decide (pe_type ev = "pty") then Some (data_json "pty" (pe_data ev))
  else if bool_decide (pe_type ev = "end") then Some (end_json (pe_exit ev))
  else None.

(** [func writeConnectFrame(w, v)] *)
Definition writeConnectFrame (v : jval) : string := writeEnvelope 0 (json_text v).

(** [func writeProcEventFrame(w, proto, ev)] and [func streamProcEvents(ctx, w, proto, rc)]:
    the bytes written. *)
Definition writeProcEventFrame (proto : bool) (ev : procEvent) : string :=
  if proto then match proc_message ev with Some m => writeEnvelope 0 m | None => "" end
  else match proc_json ev with Some v => writeConnectFrame v | None => "" end.
Definition streamProcEvents (proto : bool) (evs : list procEvent) : string :=
  foldr (λ ev s, writeProcEventFrame proto ev +:+ s) writeConnectEndFrame evs.

(** [type ProcResult struct] and what [procStartBuffered] writes for one: a stream made
    of a result that is already there. *)
Record ProcResult := mkResult { pr_pid : Z; pr_stdout : string; pr_stderr : string; pr_exit : Z }.
Definition procStartBuffered (proto : bool) (r : ProcResult) : string :=
  let out := bool_decide (0 < len (pr_stdout r))%Z in
  let err := bool_decide (0 < len (pr_stderr r))%Z in
  if proto then
    writeEnvelope 0 (procStartEvent (pr_pid r)) +:+
    (if out then writeEnvelope 0 (procDataEvent (pr_stdout r) chStdout) else "") +:+
    (if err then writeEnvelope 0 (procDataEvent (pr_stderr r) chStderr) else "") +:+
    writeEnvelope 0 (procEndEvent (pr_exit r) "exited") +:+ writeConnectEndFrame
  else
    writeConnectFrame (start_json (pr_pid r)) +:+
    (if out then writeConnectFrame (data_json "stdout" (pr_stdout r)) else "") +:+
    (if err then writeConnectFrame (data_json "stderr" (pr_stderr r)) else "") +:+
    writeConnectFrame (end_json (pr_exit r)) +:+ writeConnectEndFrame.

(** [s[lo:hi]]: nothing when the bounds are not in order within the string. *)
Definition go_slice (s : string) (lo hi : Z) : option string :=
  if bool_decide (0 ≤ lo)%Z && bool_decide (lo ≤ hi)%Z && bool_decide (hi ≤ len s)%Z
  then Some (take_str (Z.to_nat (hi - lo)) (drop_str (Z.to_nat lo) s)) else None.

(** [func stripEnvelope(body) []byte]; [None] is a slice out of range. The end of the
    frame is computed in 32 bits. *)
Definition stripEnvelope (body : string) : option string :=
  if bool_decide (len body < 5)%Z then Some body
  else
    head ← go_slice body 1 5;
    let n := get_uint32 head in
    if bool_decide (n ≤ len body - 5)%Z then go_slice body 5 (uint32 (5 + n)) else go_slice body 5 (len body).

(** ** What the messages say *)

(** A field of a message, and a message of fields. *)
Inductive wire := WVarint (v : Z) | WBytes (s : string).
Notation field := (Z * wire)%type.

Definition encode_field (f : field) : string :=
  match f.2 with
  | WVarint v => AppendVarint (AppendTag "" f.1 VarintType) v
  | WBytes s => AppendBytes (AppendTag "" f.1 BytesType) s
  end.
Definition encode_fields (fs : list field) : string := foldr (λ f s, encode_field f +:+ s) "" fs.

Definition valid_field (f : field) : Prop :=
  field_number f.1 ∧ match f.2 with WVarint v => u64 v | WBytes _ => True end.

(** What a switch makes of a field, and whether it goes on; and of a message. *)
Definition apply_field {A} (switch : Z → Z → option (action A)) (f : field) (a : A) : A * bool :=
  match f.2 with
  | WBytes s => match switch f.1 BytesType with Some (OnBytes g more) => (g s a, more) | _ => (a, true) end
  | WVarint v => match switch f.1 VarintType with Some (OnVarint g more) => (g v a, more) | _ => (a, true) end
  end.
Fixpoint interp {A} (switch : Z → Z → option (action A)) (fs : list field) (a : A) : A :=
  match fs with
  | [] => a
  | f :: fs => let '(a, more) := apply_field switch f a in if more then interp switch fs a else a
  end.

(** A switch that reads bytes where bytes are, and a varint where a varint is. *)
Definition typed {A} (switch : Z → Z → option (action A)) : Prop :=
  ∀ num typ, match switch num typ with
             | Some (OnBytes _ _) => typ = BytesType
             | Some (OnVarint _ _) => typ = VarintType
             | None => True
             end.

Ltac prove_typed :=
  intros ? ?; unfold is_field;
  repeat match goal with
         | |- context [if ?b then _ else _] => let E := fresh "E" in destruct b eqn:E; simpl; simpl_bool; try done
         end.

Lemma config_typed : typed config_switch. Proof. unfold config_switch. prove_typed. Qed.
Lemma start_typed : typed start_switch. Proof. unfold start_switch. prove_typed. Qed.
Lemma start_full_typed : typed start_full_switch. Proof. unfold start_full_switch. prove_typed. Qed.
Lemma size_typed : typed size_switch. Proof. unfold size_switch. prove_typed. Qed.
Lemma pty_typed : typed pty_switch. Proof. unfold pty_switch. prove_typed. Qed.
Lemma selector_typed : typed selector_switch. Proof. unfold selector_switch. prove_typed. Qed.
Lemma sub_pid_typed n : typed (sub_pid_switch n). Proof. unfold sub_pid_switch. prove_typed. Qed.
Lemma signal_typed : typed signal_switch. Proof. unfold signal_switch. prove_typed. Qed.
Lemma process_input_typed : typed process_input_switch. Proof. unfold process_input_switch. prove_typed. Qed.
Lemma input_typed : typed input_switch. Proof. unfold input_switch. prove_typed. Qed.
Lemma update_typed : typed update_switch. Proof. unfold update_switch. prove_typed. Qed.
Lemma string_typed n : typed (string_switch n). Proof. unfold string_switch. prove_typed. Qed.
Lemma bool_typed n : typed (bool_switch n). Proof. unfold bool_switch. prove_typed. Qed.
Lemma list_dir_typed : typed list_dir_switch. Proof. unfold list_dir_switch. prove_typed. Qed.

(** *** What a client sends *)

Definition flag_of (b : bool) : Z := if b then 1 else 0.
Definition sdk_selector (pid : Z) : string := encode_fields [(1%Z, WVarint pid)].
Definition sdk_process (pid : Z) : string := encode_fields [(1%Z, WBytes (sdk_selector pid))].
Definition sdk_path (path : string) : string := encode_fields [(1%Z, WBytes path)].
Definition sdk_list_dir (path : string) (depth : Z) : string := encode_fields [(1%Z, WBytes path); (2%Z, WVarint depth)].
Definition sdk_move (src dst : string) : string := encode_fields [(1%Z, WBytes src); (2%Z, WBytes dst)].
Definition sdk_watch (path : string) (recursive : bool) : string :=
  encode_fields [(1%Z, WBytes path); (2%Z, WVarint (flag_of recursive))].
Definition sdk_signal (pid signal : Z) : string := encode_fields [(1%Z, WBytes (sdk_selector pid)); (2%Z, WVarint signal)].
Definition sdk_input (pid : Z) (data : string) (isPTY : bool) : string :=
  encode_fields [(1%Z, WBytes (sdk_selector pid));
                 (2%Z, WBytes (encode_fields [(if isPTY then 2%Z else 1%Z, WBytes data)]))].
Definition sdk_pty (p : PTYSize) : string :=
  encode_fields [(1%Z, WBytes (encode_fields [(1%Z, WVarint (pty_rows p)); (2%Z, WVarint (pty_cols p))]))].
Definition sdk_update (pid : Z) (p : PTYSize) : string :=
  encode_fields [(1%Z, WBytes (sdk_selector pid)); (2%Z, WBytes (sdk_pty p))].
Definition sdk_config (c : ProcessConfig) : string :=
  encode_fields ((1%Z, WBytes (pc_cmd c)) :: ((λ a, (2%Z, WBytes a)) <$> pc_args c) ++
    ((λ kv, (3%Z, WBytes (encode_fields [(1%Z, WBytes kv.1); (2%Z, WBytes kv.2)]))) <$> map_to_list (pc_envs c)) ++
    match pc_cwd c with Some d => [(4%Z, WBytes d)] | None => [] end).
Definition sdk_start (s : StartRequest) : string :=
  encode_fields ((1%Z, WBytes (sdk_config (st_config s))) ::
    match st_pty s with Some p => [(2%Z, WBytes (sdk_pty p))] | None => [] end ++
    [(4%Z, WVarint (flag_of (st_stdin s)))]).

(** One field of a process configuration, and of a start request, read on its own. *)
Definition config_field (c : ProcessConfig) (f : field) : ProcessConfig :=
  match f with
  | (1%Z, WBytes v) => mkProc v (pc_args c) (pc_envs c) (pc_cwd c)
  | (2%Z, WBytes v) => mkProc (pc_cmd c) (pc_args c ++ [v]) (pc_envs c) (pc_cwd c)
  | (4%Z, WBytes v) => mkProc (pc_cmd c) (pc_args c) (pc_envs c) (Some v)
  | _ => c
  end.
Definition start_field (s : StartRequest) (f : field) : StartRequest :=
  match f with
  | (1%Z, WBytes v) => mkStart (decodeProcessConfig v) (st_pty s) (st_stdin s)
  | (2%Z, WBytes v) => mkStart (st_config s) (Some (decodePTYSize v)) (st_stdin s)
  | (4%Z, WVarint v) => mkStart (st_config s) (st_pty s) (bool_decide (v ≠ 0%Z))
  | _ => s
  end.

(** A switch that always goes on reads each field by itself. *)
Lemma interp_fold {A} (switch : Z → Z → option (action A)) (step : A → field → A) fs : ∀ a,
  (∀ f a, apply_field switch f a = (step a f, true)) → interp switch fs a = fold_left step fs a.
Proof.
  induction fs as [|f fs IH]; intros a Hs; simpl; [done|]. rewrite Hs. by apply IH.
Qed.

Ltac by_number :=
  repeat match goal with
         | |- context [bool_decide (?n = ?k)] => is_var n; destruct (bool_decide_reflect (n = k)) as [->|]; simpl; try done
         end;
  repeat match goal with
         | |- context [match ?n with Z0 => _ | Zpos _ => _ | Zneg _ => _ end] => destruct n; try done
         | |- context [match ?p with xI _ => _ | xO _ => _ | xH => _ end] => destruct p; try done
         end.

Lemma config_apply f a : apply_field config_switch f a = (config_field a f, true).
Proof.
  destruct f as [n [v|s]]; unfold apply_field, config_switch, config_field, is_field; simpl; by_number.
Qed.

Lemma start_apply f a : apply_field start_full_switch f a = (start_field a f, true).
Proof. destruct f as [n [v|s]]; unfold apply_field, start_full_switch, start_field, is_field; simpl; by_number. Qed.

Lemma start_config_apply f a : apply_field start_switch f a = (match f with (1%Z, WBytes v) => decodeProcessConfig v | _ => a end, true).
Proof. destruct f as [n [v|s]]; unfold apply_field, start_switch, is_field; simpl; by_number. Qed.

Definition u32 (v : Z) : Prop := (0 ≤ v < 2 ^ 32)%Z.

Lemma uint32_id v : u32 v → uint32 v = v.
Proof. intros Hv. unfold uint32. by apply Z.mod_small. Qed.

Lemma int32_id v : (0 ≤ v < 2 ^ 31)%Z → int32 v = v.
Proof. intros Hv. unfold int32. rewrite Z.mod_small; lia. Qed.

Lemma valid_bytes n s : field_number n → valid_field (n, WBytes s).
Proof. by split. Qed.

Lemma valid_varint n v : field_number n → u64 v → valid_field (n, WVarint v).
Proof. by split. Qed.

Lemma u32_u64 v : u32 v → u64 v.
Proof. unfold u32, u64. lia. Qed.

Lemma flag_u64 b : u64 (flag_of b).
Proof. destruct b; unfold u64; simpl; lia. Qed.

Lemma read_args l : ∀ c, fold_left config_field ((λ a, (2%Z, WBytes a)) <$> l) c = mkProc (pc_cmd c) (pc_args c ++ l) (pc_envs c) (pc_cwd c).
Proof.
  induction l as [|a l IH]; intros c; simpl; [rewrite app_nil_r; by destruct c|]. rewrite IH. simpl.
  by rewrite <- app_assoc.
Qed.

Lemma read_envs {B} (g : B → string) l : ∀ c, fold_left config_field ((λ kv, (3%Z, WBytes (g kv))) <$> l) c = c.
Proof. induction l as [|kv l IH]; intros c; simpl; [done|]. apply IH. Qed.

(** The fields of a message, as a client's library finds them. *)
Definition fields_switch (num typ : Z) : option (action (list field)) :=
  if bool_decide (typ = BytesType) then Some (OnBytes (λ v l, l ++ [(num, WBytes v)]) true)
  else if bool_decide (typ = VarintType) then Some (OnVarint (λ v l, l ++ [(num, WVarint v)]) true)
  else None.
Definition fields_of (b : string) : list field := decode fields_switch b [].

Lemma fields_typed : typed fields_switch.
Proof. unfold fields_switch. prove_typed. Qed.

Lemma uint64_u64 z : u64 (uint64 z).
Proof. unfold uint64, u64. apply Z.mod_pos_bound. lia. Qed.

Lemma int64_uint64 z : (- 2 ^ 63 ≤ z < 2 ^ 63)%Z → int64 (uint64 z) = z.
Proof.
  intros Hz. unfold int64, uint64. rewrite Zplus_mod_idemp_l. rewrite Z.mod_small; lia.
Qed.

Lemma fmap_back {A} (enc : A → string) (read : string → A) l :
  Forall (λ x, read (enc x) = x) l → read <$> (enc <$> l) = l.
Proof. induction 1 as [|x l Hx _ IH]; [done|]. exact (f_equal2 cons Hx IH). Qed.

(** *** Frames *)

(** A client's reading of a stream: the flag and the payload of each frame. *)
Fixpoint read_frames (fuel : nat) (s : string) : option (list (Z * string)) :=
  match fuel, s with
  | _, EmptyString => Some []
  | S fuel, String f rest =>
      let n := get_uint32 rest in
      let body := drop_str 4 rest in
      if bool_decide (len rest < 4)%Z || bool_decide (len body < n)%Z then None
      else cons (code_z f, take_str (Z.to_nat n) body) <$> read_frames fuel (drop_str (Z.to_nat n) body)
  | O, String _ _ => None
  end.
Definition frames_of (s : string) : option (list (Z * string)) := read_frames (String.length s) s.

Lemma code_byte_of z : code_z (byte_of z) = (z mod 256)%Z.
Proof.
  unfold code_z, code, byte_of. rewrite nat_ascii_embedding by (pose proof (Z.mod_pos_bound z 256); lia).
  pose proof (Z.mod_pos_bound z 256). lia.
Qed.

Lemma get_put z s : u32 z → get_uint32 (put_uint32 z +:+ s) = z.
Proof.
  unfold u32. intros Hz. unfold put_uint32. rewrite !app_cons_str. cbn [get_uint32]. rewrite !code_byte_of.
  pose proof (Z.div_mod z 256) as H1. pose proof (Z.div_mod (z / 2 ^ 8) 256) as H2. pose proof (Z.div_mod (z / 2 ^ 16) 256) as H3.
  assert (E1 : (z / 2 ^ 8 = z / 256)%Z) by done.
  assert (E2 : (z / 2 ^ 16 = (z / 2 ^ 8) / 256)%Z) by (rewrite Z.div_div; done).
  assert (E3 : (z / 2 ^ 24 = (z / 2 ^ 16) / 256)%Z) by (rewrite Z.div_div; done).
  assert (E4 : (z / 2 ^ 24 < 256)%Z) by (apply Z.div_lt_upper_bound; lia).
  assert (E5 : (0 ≤ z / 2 ^ 24)%Z) by (apply Z.div_pos; lia).
  rewrite (Z.mod_small (z / 2 ^ 24)) by lia. lia.
Qed.

Lemma len_put z s : len (put_uint32 z +:+ s) = (len s + 4)%Z.
Proof. unfold len, put_uint32. rewrite !app_cons_str. change ("" +:+ s) with s. cbn [String.length]. lia. Qed.

Lemma drop_put z s : drop_str 4 (put_uint32 z +:+ s) = s.
Proof. done. Qed.

Lemma len_app a b : len (a +:+ b) = (len a + len b)%Z.
Proof. unfold len. rewrite length_app_str. lia. Qed.

Lemma len_nonneg s : (0 ≤ len s)%Z.
Proof. unfold len. lia. Qed.

Lemma envelope_shape flag msg rest : (len msg < 2 ^ 32)%Z →
  writeEnvelope flag msg +:+ rest = String (byte_of flag) (put_uint32 (len msg) +:+ msg +:+ rest).
Proof.
  intros Hm. unfold writeEnvelope. rewrite uint32_id by (unfold u32, len in *; lia).
  by rewrite app_cons_str, app_assoc_str.
Qed.

Lemma len_envelope flag msg : (len msg < 2 ^ 32)%Z → len (writeEnvelope flag msg) = (len msg + 5)%Z.
Proof.
  intros Hm. unfold writeEnvelope. rewrite uint32_id by (unfold u32, len in *; lia).
  pose proof (len_put (len msg) msg) as E. unfold len in *. cbn [String.length]. lia.
Qed.

Lemma drop_str_le n : ∀ s, (String.length (drop_str n s) ≤ String.length s)%nat.
Proof. induction n as [|n IH]; intros [|c s]; simpl; auto with lia. Qed.
Lemma drop_str_length n : ∀ s, (String.length (drop_str n s) = String.length s - n)%nat.
Proof. induction n as [|n IH]; intros [|c s]; simpl; done || apply IH. Qed.
Lemma take_str_all n : ∀ s, (String.length s ≤ n)%nat → take_str n s = s.
Proof. induction n as [|n IH]; intros [|c s] Hn; simpl in *; [done|lia|done|]. by rewrite IH by lia. Qed.

Lemma slice_app a b c lo hi : lo = len a → hi = (len a + len b)%Z → go_slice (a +:+ b +:+ c) lo hi = Some b.
Proof.
  intros -> ->. unfold go_slice. rewrite !len_app. pose proof (len_nonneg a). pose proof (len_nonneg b). pose proof (len_nonneg c).
  rewrite !bool_decide_eq_true_2 by lia. simpl. rewrite Z.add_simpl_l. unfold len.
  by rewrite !Nat2Z.id, drop_str_app, take_str_app.
Qed.

Lemma slice_tail s lo : (0 ≤ lo ≤ len s)%Z → go_slice s lo (len s) = Some (drop_str (Z.to_nat lo) s).
Proof.
  intros Hl. unfold go_slice. rewrite !bool_decide_eq_true_2 by lia. simpl. f_equal. apply take_str_all.
  rewrite drop_str_length. unfold len in *. lia.
Qed.

Lemma put_uint32_four z : len (put_uint32 z) = 4%Z.
Proof. done. Qed.

Lemma strip_framed (flag : Z) (msg rest : string) : (len msg < 2 ^ 32 - 5)%Z →
  stripEnvelope (writeEnvelope flag msg +:+ rest) = Some msg.
Proof.
  intros Hm. rewrite envelope_shape by lia. unfold stripEnvelope.
  change (String (byte_of flag) (put_uint32 (len msg) +:+ msg +:+ rest)) with
    (str1 (byte_of flag) +:+ (put_uint32 (len msg) +:+ (msg +:+ rest))).
  pose proof (len_nonneg msg). pose proof (len_nonneg rest).
  assert (Hl : len (str1 (byte_of flag) +:+ put_uint32 (len msg) +:+ msg +:+ rest) = (5 + (len msg + len rest))%Z).
  { rewrite !len_app, put_uint32_four. change (len (str1 _)) with 1%Z. lia. }
  rewrite (slice_app (str1 (byte_of flag)) (put_uint32 (len msg)) (msg +:+ rest) 1 5) by done. rewrite Hl, bool_decide_eq_false_2 by lia. cbn [mbind option_bind].
  replace (get_uint32 (put_uint32 (len msg))) with (len msg) by (symmetry; rewrite <- (app_nil_r_str (put_uint32 (len msg))); apply get_put; unfold u32; lia).
  rewrite bool_decide_eq_true_2 by lia. rewrite uint32_id by (unfold u32; lia).
  rewrite <- app_assoc_str. apply slice_app; rewrite len_app, put_uint32_four; change (len (str1 _)) with 1%Z; lia.
Qed.

(** What is no frame: shorter than a frame's head, or too short for the length the head
    gives. *)
Lemma strip_unframed body :
  (len body < 5 → stripEnvelope body = Some body)%Z ∧
  (5 ≤ len body → len body - 5 < get_uint32 (drop_str 1 body) → stripEnvelope body = Some (drop_str 5 body))%Z.
Proof.
  unfold stripEnvelope. split; intros Hb; [by rewrite bool_decide_eq_true_2|]. intros Hn.
  rewrite bool_decide_eq_false_2 by lia.
  assert (Hh : ∃ h, go_slice body 1 5 = Some h ∧ get_uint32 h = get_uint32 (drop_str 1 body)).
  { unfold go_slice. rewrite !bool_decide_eq_true_2 by lia. simpl. eexists. split; [done|].
    destruct body as [|? [|? [|? [|? [|? ?]]]]]; done. }
  destruct Hh as (h & -> & Hh). simpl. rewrite Hh, bool_decide_eq_false_2 by lia. apply slice_tail. lia.
Qed.

Lemma get_uint32_range s : u32 (get_uint32 s).
Proof.
  unfold u32. destruct s as [|a [|b [|c [|d s]]]]; simpl; try lia.
  assert (Hc : ∀ c, (0 ≤ code_z c < 256)%Z) by (intros c'; unfold code_z, code; pose proof (nat_ascii_bounded c'); lia).
  pose proof (Hc a). pose proof (Hc b). pose proof (Hc c). pose proof (Hc d). lia.
Qed.

(** Below four gigabytes no slice is out of range. *)
Lemma strip_total body : (len body < 2 ^ 32)%Z → is_Some (stripEnvelope body).
Proof.
  intros Hb. unfold stripEnvelope. case_bool_decide; [done|].
  assert (Hh : is_Some (go_slice body 1 5)) by (unfold go_slice; rewrite !bool_decide_eq_true_2 by lia; by eexists).
  destruct Hh as (h & ->). simpl. pose proof (get_uint32_range h) as Hr. unfold u32 in Hr.
  case_bool_decide; [|rewrite slice_tail by lia; by eexists].
  rewrite uint32_id by (unfold u32; lia). unfold go_slice. rewrite !bool_decide_eq_true_2 by lia. by eexists.
Qed.

(** C38: A framed message is stripped to itself, whatever follows it, as long as the end
    of its frame fits 32 bits, and the frame adds five bytes. No body below four gigabytes
    (the handlers read 16 megabytes at most) is sliced out of range. A body too short for
    a frame's head is left alone; one too short for the length in its head loses its
    first five bytes, although the function's comment says it is returned unchanged. *)
Theorem envelope_roundtrip (flag : Z) (msg rest body : string) : (len msg < 2 ^ 32 - 5)%Z → (len body < 2 ^ 32)%Z →
  stripEnvelope (writeEnvelope flag msg +:+ rest) = Some msg ∧
  len (writeEnvelope flag msg) = (len msg + 5)%Z ∧
  is_Some (stripEnvelope body) ∧
  (len body < 5 → stripEnvelope body = Some body)%Z ∧
  (5 ≤ len body → len body - 5 < get_uint32 (drop_str 1 body) → stripEnvelope body = Some (drop_str 5 body))%Z.
Proof.
  intros Hm Hb. split_and!; [by apply strip_framed|apply len_envelope; lia|by apply strip_total|apply strip_unframed..].
Qed.

(** The bound is there: a frame of four gigabytes would end before it begins. *)
Example strip_wraps : uint32 (5 + (2 ^ 32 - 4)) = 1%Z.
Proof. reflexivity. Qed.

Lemma read_frame fuel flag msg rest : (0 ≤ flag < 256)%Z → (len msg < 2 ^ 32)%Z →
  read_frames (S fuel) (writeEnvelope flag msg +:+ rest) = cons (flag, msg) <$> read_frames fuel rest.
Proof.
  intros Hf Hm. rewrite envelope_shape by done. cbn [read_frames]. rewrite code_byte_of, Z.mod_small by done.
  rewrite get_put by (pose proof (len_nonneg msg); unfold u32; lia). rewrite drop_put, len_put, len_app.
  pose proof (len_nonneg msg). pose proof (len_nonneg rest).
  rewrite !bool_decide_eq_false_2 by lia. simpl. unfold len. rewrite Nat2Z.id, take_str_app, drop_str_app. done.
Qed.

Section Reading.
Context `{!ProtowireLaws}.
#[local] Set Default Proof Using "All".

(** The loop ends by itself: its length many turns are as good as any more. *)
Lemma decode_loop_fuel {A} (switch : Z → Z → option (action A)) n m : ∀ b a,
  (String.length b < n)%nat → (String.length b < m)%nat → decode_loop switch n b a = decode_loop switch m b a.
Proof.
  revert m. induction n as [|n IH]; intros m b a Hn Hm; [lia|]. destruct m as [|m]; [lia|]. simpl.
  case_bool_decide; [done|]. destruct (ConsumeTag b) as [[[num typ] b']|] eqn:Ht; [|done]. apply tag_forward in Ht.
  destruct (switch num typ) as [[f more|f more]|].
  - destruct (ConsumeBytes b') as [[v b2]|] eqn:Hb; [|done]. apply bytes_forward in Hb. destruct more; [|done]. apply IH; lia.
  - destruct (ConsumeVarint b') as [[v b2]|] eqn:Hb; [|done]. apply varint_forward in Hb. destruct more; [|done]. apply IH; lia.
  - destruct (ConsumeFieldValue num typ b') as [b2|] eqn:Hb; [|done]. apply skip_forward in Hb. apply IH; lia.
Qed.

Lemma decode_step {A} (switch : Z → Z → option (action A)) f rest a : typed switch → valid_field f →
  decode switch (encode_field f +:+ rest) a = let '(a, more) := apply_field switch f a in if more then decode switch rest a else a.
Proof.
  intros Hty (Hn & Hv). unfold decode at 1.
  rewrite (decode_loop_fuel switch _ (S (S (String.length (encode_field f +:+ rest))))) by lia.
  assert (Hlen : (String.length rest < S (String.length (encode_field f +:+ rest)))%nat) by (rewrite length_app_str; lia).
  set (n := S (String.length (encode_field f +:+ rest))) in *.
  assert (Hend : ∀ a', decode_loop switch n rest a' = decode switch rest a') by (intros a'; apply decode_loop_fuel; lia).
  assert (Hne : encode_field f +:+ rest ≠ "").
  { intros E. destruct f as [num [v|s]]; unfold encode_field in E; simpl in E;
      [rewrite append_varint in E|rewrite append_bytes in E]; rewrite app_assoc_str in E;
      [pose proof (tag_inverse num VarintType (AppendVarint "" v +:+ rest) Hn (or_introl eq_refl)) as Ht
      |pose proof (tag_inverse num BytesType (AppendBytes "" s +:+ rest) Hn (or_intror eq_refl)) as Ht];
      rewrite E in Ht; apply tag_forward in Ht; simpl in Ht; lia. }
  cbn [decode_loop]. rewrite bool_decide_eq_false_2 by done.
  destruct f as [num [v|s]]; unfold encode_field, apply_field in *; cbn [fst snd] in *.
  - rewrite append_varint, app_assoc_str, tag_inverse by auto. pose proof (Hty num VarintType) as Hs.
    destruct (switch num VarintType) as [[g more|g more]|]; [done|..].
    + rewrite varint_inverse by done. destruct more; [apply Hend|done].
    + rewrite skip_varint by done. apply Hend.
  - rewrite append_bytes, app_assoc_str, tag_inverse by auto. pose proof (Hty num BytesType) as Hs.
    destruct (switch num BytesType) as [[g more|g more]|]; [|done|].
    + rewrite bytes_inverse. destruct more; [apply Hend|done].
    + rewrite skip_bytes. apply Hend.
Qed.

(** A decoder gives what the fields say, in their order, and stops quietly at
    anything that is no field. *)
Lemma decode_fields {A} (switch : Z → Z → option (action A)) fs tail : ∀ a,
  typed switch → Forall valid_field fs → tail = "" ∨ ConsumeTag tail = None →
  decode switch (encode_fields fs +:+ tail) a = interp switch fs a.
Proof.
  induction fs as [|f fs IH]; intros a Hty Hfs Htail; simpl.
  - change ("" +:+ tail) with tail. unfold decode. cbn [decode_loop].
    destruct Htail as [->|Ht]; [done|]. rewrite Ht. by case_bool_decide.
  - apply Forall_cons in Hfs as (Hf & Hfs). rewrite app_assoc_str, decode_step by done.
    destruct (apply_field switch f a) as [a' [|]]; [|done]. by apply IH.
Qed.

Lemma decode_message {A} (switch : Z → Z → option (action A)) fs a :
  typed switch → Forall valid_field fs → decode switch (encode_fields fs) a = interp switch fs a.
Proof. intros. rewrite <- (app_nil_r_str (encode_fields fs)). apply decode_fields; auto. Qed.

(** *** Requests *)

(** Reading a start request: whatever order its fields come in, and whatever other
    fields lie between them, each field of it counts once and the last of a kind
    wins, arguments in their order; bytes after it that are no field change
    nothing. The environment is never read. *)
Theorem start_request_read (fs pfs : list field) (tail : string) :
  Forall valid_field fs → Forall valid_field pfs → tail = "" ∨ ConsumeTag tail = None →
  decodeStartRequestFull (encode_fields fs +:+ tail) = fold_left start_field fs (mkStart no_config None false) ∧
  decodeProcessConfig (encode_fields pfs +:+ tail) = fold_left config_field pfs no_config ∧
  pc_envs (decodeProcessConfig (encode_fields pfs +:+ tail)) = ∅.
Proof.
  intros Hfs Hpfs Ht. split_and!.
  - unfold decodeStartRequestFull. rewrite decode_fields; [|apply start_full_typed|done|done]. apply interp_fold, start_apply.
  - unfold decodeProcessConfig. rewrite decode_fields; [|apply config_typed|done|done]. apply interp_fold, config_apply.
  - unfold decodeProcessConfig. rewrite decode_fields; [|apply config_typed|done|done].
    rewrite (interp_fold _ config_field) by apply config_apply.
    assert (Hc : ∀ l c, pc_envs c = ∅ → pc_envs (fold_left config_field l c) = ∅); [|by apply Hc].
    induction l as [|[n [v|s']] l IH]; intros c Hc; simpl; [done|..]; apply IH; by_number.
Qed.

(** *** Requests as a client writes them *)

Ltac valid_fields :=
  repeat first
    [ apply Forall_nil_2 | apply Forall_cons_2 | apply Forall_app_2 | apply valid_bytes | apply valid_varint
    | apply flag_u64 | by apply u32_u64 | by (unfold field_number; lia) ].

Ltac read_message :=
  rewrite decode_message;
    [ | eauto using config_typed, start_typed, start_full_typed, size_typed, pty_typed, selector_typed, sub_pid_typed, signal_typed,
            process_input_typed, input_typed, update_typed, string_typed, bool_typed, list_dir_typed | valid_fields ].

(** The message reads as [x], up to computation. *)
Ltac read_as x := transitivity x; [read_message; reflexivity|].

Lemma read_selector pid : u32 pid → decodeSelectorPID (sdk_selector pid) = pid.
Proof. intros. unfold decodeSelectorPID, sdk_selector. read_as (uint32 pid). by apply uint32_id. Qed.

Lemma read_process pid : u32 pid → decodeSubMessagePID (sdk_process pid) 1 = pid.
Proof.
  intros. unfold decodeSubMessagePID, sdk_process. read_as (decodeSelectorPID (sdk_selector pid)). by apply read_selector.
Qed.

Lemma read_path p : decodeStringField (sdk_path p) 1 = p.
Proof. unfold decodeStringField, sdk_path. by read_as p. Qed.

Lemma read_move src dst : decodeMoveRequest (sdk_move src dst) = (src, dst).
Proof. unfold decodeMoveRequest, decodeStringField, sdk_move. f_equal; [by read_as src|by read_as dst]. Qed.

Lemma read_list_dir p d : u32 d → decodeListDirRequest (sdk_list_dir p d) = (p, d).
Proof. intros. unfold decodeListDirRequest, sdk_list_dir. read_as (p, uint32 d). by rewrite uint32_id. Qed.

Lemma read_watch p r : decodeStringField (sdk_watch p r) 1 = p ∧ decodeBoolField (sdk_watch p r) 2 = r.
Proof.
  unfold decodeStringField, decodeBoolField, sdk_watch.
  split; [by read_as p|]. read_as (bool_decide (flag_of r ≠ 0%Z)). by destruct r.
Qed.

Lemma read_signal pid s : u32 pid → (0 ≤ s < 2 ^ 31)%Z → decodeSignalRequest (sdk_signal pid s) = (pid, s).
Proof.
  intros Hp Hs. unfold decodeSignalRequest, sdk_signal. assert (u32 s) by (unfold u32; lia).
  read_as (decodeSelectorPID (sdk_selector pid), int32 s). by rewrite read_selector, int32_id.
Qed.

Lemma read_input pid d t : u32 pid → decodeInputRequest (sdk_input pid d t) = (pid, (d, t)).
Proof.
  intros. unfold decodeInputRequest, sdk_input. set (m := encode_fields [(if t then _ else _, _)]).
  read_as (decodeSelectorPID (sdk_selector pid), decodeProcessInput m). rewrite read_selector by done. f_equal.
  unfold m, decodeProcessInput. destruct t; [by read_as (d, true)|by read_as (d, false)].
Qed.

Lemma read_pty p : u32 (pty_rows p) → u32 (pty_cols p) → decodePTYSize (sdk_pty p) = p.
Proof.
  intros. unfold decodePTYSize, sdk_pty. set (m := encode_fields [_; _]). read_as (decode size_switch m (mkPTY 0 0)).
  unfold m. read_as (mkPTY (uint32 (pty_rows p)) (uint32 (pty_cols p))). rewrite !uint32_id by done. by destruct p.
Qed.

Lemma read_update pid p : u32 pid → u32 (pty_rows p) → u32 (pty_cols p) → decodeUpdateRequest (sdk_update pid p) = (pid, p).
Proof.
  intros. unfold decodeUpdateRequest, sdk_update. read_as (decodeSelectorPID (sdk_selector pid), decodePTYSize (sdk_pty p)).
  by rewrite read_selector, read_pty.
Qed.

(** The configuration arrives without its environment. *)
Definition without_envs (c : ProcessConfig) : ProcessConfig := mkProc (pc_cmd c) (pc_args c) ∅ (pc_cwd c).

Lemma read_config c : decodeProcessConfig (sdk_config c) = without_envs c.
Proof.
  unfold decodeProcessConfig, sdk_config. rewrite decode_message; [|apply config_typed|].
  - rewrite (interp_fold _ config_field) by apply config_apply. cbn [fold_left config_field].
    rewrite !fold_left_app, read_args, read_envs. unfold without_envs. by destruct (pc_cwd c).
  - valid_fields; [| |destruct (pc_cwd c); valid_fields]; apply Forall_fmap, Forall_true; intros; by valid_fields.
Qed.

Lemma read_start s : match st_pty s with Some p => u32 (pty_rows p) ∧ u32 (pty_cols p) | None => True end →
  decodeStartRequestFull (sdk_start s) = mkStart (without_envs (st_config s)) (st_pty s) (st_stdin s).
Proof.
  intros Hp. unfold decodeStartRequestFull, sdk_start. rewrite decode_message; [|apply start_full_typed|].
  - rewrite (interp_fold _ start_field) by apply start_apply. destruct s as [c [p|] b]; cbn [st_config st_pty st_stdin] in *.
    + transitivity (mkStart (decodeProcessConfig (sdk_config c)) (Some (decodePTYSize (sdk_pty p))) (bool_decide (flag_of b ≠ 0%Z)));
        [reflexivity|]. destruct Hp. rewrite read_config, read_pty by done. by destruct b.
    + transitivity (mkStart (decodeProcessConfig (sdk_config c)) None (bool_decide (flag_of b ≠ 0%Z))); [reflexivity|].
      rewrite read_config. by destruct b.
  - destruct (st_pty s); simpl; valid_fields.
Qed.

Lemma read_start_config s : decodeStartRequest (sdk_start s) = without_envs (st_config s).
Proof.
  unfold decodeStartRequest, sdk_start. rewrite decode_message; [|apply start_typed|].
  - rewrite (interp_fold _ (λ a f, match f with (1%Z, WBytes v) => decodeProcessConfig v | _ => a end)) by apply start_config_apply.
    destruct s as [c [p|] b]; simpl; apply read_config.
  - destruct (st_pty s); simpl; valid_fields.
Qed.

(** *** Responses *)

Lemma put_bytes b n s : AppendBytes (AppendTag b n BytesType) s = b +:+ encode_field (n, WBytes s).
Proof.
  unfold encode_field. simpl. rewrite append_bytes, append_tag, (append_bytes (AppendTag "" n BytesType)).
  by rewrite app_assoc_str.
Qed.
Lemma put_varint b n v : AppendVarint (AppendTag b n VarintType) v = b +:+ encode_field (n, WVarint v).
Proof.
  unfold encode_field. simpl. rewrite append_varint, append_tag, (append_varint (AppendTag "" n VarintType)).
  by rewrite app_assoc_str.
Qed.
Lemma put_msg n s : encodeMsgField n s = encode_fields [(n, WBytes s)].
Proof. unfold encodeMsgField. rewrite put_bytes. simpl. by rewrite app_nil_r_str. Qed.

Lemma encode_app fs gs : encode_fields (fs ++ gs) = encode_fields fs +:+ encode_fields gs.
Proof. induction fs as [|f fs IH]; simpl; [done|]. by rewrite IH, app_assoc_str. Qed.

Lemma encode_cons f fs : encode_fields (f :: fs) = encode_field f +:+ encode_fields fs.
Proof. done. Qed.

Lemma encode_one f : encode_fields [f] = encode_field f.
Proof. rewrite encode_cons. apply app_nil_r_str. Qed.

Lemma encode_concat {A} (f : A → string) (g : A → field) l : (∀ x, f x = encode_fields [g x]) → ∀ b,
  fold_left (λ b x, b +:+ f x) l b = b +:+ encode_fields (g <$> l).
Proof.
  intros Hf. induction l as [|x l IH]; intros b; simpl; [by rewrite app_nil_r_str|].
  rewrite IH, Hf, app_assoc_str. simpl. by rewrite app_nil_r_str.
Qed.

(** The fields of an entry. *)
Definition entry_fields (e : EntryInfo) : list field :=
  [(1%Z, WBytes (en_name e)); (2%Z, WVarint (fileTypeEnum (en_type e))); (3%Z, WBytes (en_path e));
   (4%Z, WVarint (uint64 (en_size e)))] ++
  (if bool_decide (en_mode e ≠ 0%Z) then [(5%Z, WVarint (en_mode e))] else []) ++
  (if bool_decide (en_permissions e ≠ "") then [(6%Z, WBytes (en_permissions e))] else []).

Lemma encode_entry e : encodeEntryInfo e = encode_fields (entry_fields e).
Proof.
  unfold encodeEntryInfo, entry_fields. rewrite !encode_app.
  case_bool_decide; case_bool_decide; rewrite ?put_bytes, ?put_varint; simpl; by rewrite ?app_nil_r_str, ?app_assoc_str.
Qed.

(** How a client reads an entry: the last of each field, missing ones empty. *)
Definition type_of_enum (v : Z) : string :=
  if bool_decide (v = 1%Z) then FileTypeFile else if bool_decide (v = 2%Z) then FileTypeDirectory else FileTypeUnspecified.
Definition entry_field (e : EntryInfo) (f : field) : EntryInfo :=
  let set name type path size mode perm := mkEntry name type path size mode perm "" "" None None in
  match f with
  | (1%Z, WBytes v) => set v (en_type e) (en_path e) (en_size e) (en_mode e) (en_permissions e)
  | (2%Z, WVarint v) => set (en_name e) (type_of_enum v) (en_path e) (en_size e) (en_mode e) (en_permissions e)
  | (3%Z, WBytes v) => set (en_name e) (en_type e) v (en_size e) (en_mode e) (en_permissions e)
  | (4%Z, WVarint v) => set (en_name e) (en_type e) (en_path e) (int64 v) (en_mode e) (en_permissions e)
  | (5%Z, WVarint v) => set (en_name e) (en_type e) (en_path e) (en_size e) (uint32 v) (en_permissions e)
  | (6%Z, WBytes v) => set (en_name e) (en_type e) (en_path e) (en_size e) (en_mode e) v
  | _ => e
  end.

Lemma fields_read fs : Forall valid_field fs → fields_of (encode_fields fs) = fs.
Proof.
  intros Hv. unfold fields_of. rewrite decode_message by (done || apply fields_typed).
  rewrite (interp_fold _ (λ l f, l ++ [f])).
  - assert (Hl : ∀ l (a : list field), fold_left (λ l f, l ++ [f]) l a = a ++ l); [|by rewrite Hl].
    induction l as [|f l IH]; intros a; simpl; [by rewrite app_nil_r|]. by rewrite IH, <- app_assoc.
  - by intros [n [v|s]] a.
Qed.

Definition empty_entry : EntryInfo := mkEntry "" FileTypeUnspecified "" 0 0 "" "" "" None None.
Definition read_entry (b : string) : EntryInfo := fold_left entry_field (fields_of b) empty_entry.
(** The messages in the fields numbered 1. *)
Definition submessages (b : string) : list string :=
  omap (λ f : field, match f with (1%Z, WBytes v) => Some v | _ => None end) (fields_of b).

(** An entry the message can say everything of. *)
Definition plain_entry (e : EntryInfo) : Prop :=
  en_type e ∈ [FileTypeUnspecified; FileTypeFile; FileTypeDirectory] ∧ (- 2 ^ 63 ≤ en_size e < 2 ^ 63)%Z ∧ u32 (en_mode e) ∧
  en_owner e = "" ∧ en_group e = "" ∧ en_modified e = None ∧ en_symlink e = None.

Lemma entry_valid e : u32 (en_mode e) → Forall valid_field (entry_fields e).
Proof.
  intros Hm. unfold entry_fields. valid_fields; try apply uint64_u64; try (case_bool_decide; valid_fields).
  unfold fileTypeEnum, u64. repeat case_bool_decide; lia.
Qed.

(** What the message carries of an entry whose numbers have the width of their Go types:
    no owner, group, time or link, and only the types the enumeration has. *)
Definition sized_entry (e : EntryInfo) : Prop := (- 2 ^ 63 ≤ en_size e < 2 ^ 63)%Z ∧ u32 (en_mode e).
Definition shown (e : EntryInfo) : EntryInfo :=
  mkEntry (en_name e) (if bool_decide (en_type e ∈ [FileTypeFile; FileTypeDirectory]) then en_type e else FileTypeUnspecified)
    (en_path e) (en_size e) (en_mode e) (en_permissions e) "" "" None None.

Lemma read_entry_shown e : sized_entry e → read_entry (encodeEntryInfo e) = shown e.
Proof.
  intros (Hs & Hm). unfold read_entry. rewrite encode_entry, fields_read by by apply entry_valid.
  unfold entry_fields, shown. destruct e as [name type path size mode perm owner group modif sym]. simpl in *.
  rewrite int64_uint64 by done.
  replace (if bool_decide (type ∈ _) then type else FileTypeUnspecified) with (type_of_enum (fileTypeEnum type)).
  2: { unfold type_of_enum, fileTypeEnum. destruct (decide (type = FileTypeFile)) as [->|]; [done|].
       destruct (decide (type = FileTypeDirectory)) as [->|]; [done|].
       rewrite (bool_decide_eq_false_2 (type = FileTypeFile)), (bool_decide_eq_false_2 (type = FileTypeDirectory)) by done.
       rewrite (bool_decide_eq_false_2 (type ∈ _)); [done|]. intros [?|[?|?%elem_of_nil]%elem_of_cons]%elem_of_cons; done. }
  case_bool_decide as Hmode; simpl.
  - rewrite uint32_id by done. case_bool_decide as Hp; simpl; [done|]. by subst.
  - subst. case_bool_decide as Hp; simpl; [done|]. by subst.
Qed.

Lemma read_entry_encode e : plain_entry e → read_entry (encodeEntryInfo e) = e.
Proof.
  intros (Ht & Hs & Hm & Ho & Hg & Hmod & Hsym). rewrite read_entry_shown by done. unfold shown.
  destruct e as [name type path size mode perm owner group modif sym]. simpl in *. subst. f_equal.
  case_bool_decide; set_solver.
Qed.

Lemma submessages_read l : submessages (encode_fields ((λ s, (1%Z, WBytes s)) <$> l)) = l.
Proof.
  unfold submessages. rewrite fields_read.
  - induction l as [|x l IH]; [done|]. exact (f_equal (cons x) IH).
  - apply Forall_fmap, Forall_true. intros x. valid_fields.
Qed.

Lemma message_read m : submessages (encodeMsgField 1 m) = [m].
Proof. rewrite put_msg. apply (submessages_read [m]). Qed.

Lemma repeated_read {A} (enc : A → string) (f : A → string) l : (∀ x, f x = encodeMsgField 1 (enc x)) →
  submessages (fold_left (λ b x, b +:+ f x) l "") = enc <$> l.
Proof.
  intros Hf. rewrite (encode_concat f (λ x, (1%Z, WBytes (enc x)))) by (intros x; by rewrite Hf, put_msg). simpl.
  rewrite (list_fmap_compose enc (λ s, (1%Z, WBytes s))). apply submessages_read.
Qed.

(** A process as the client reads it. *)
Definition info_field (p : ProcInfo) (f : field) : ProcInfo :=
  match f with
  | (1%Z, WBytes v) =>
      let c := fold_left config_field (fields_of v) no_config in
      mkInfo (pi_pid p) (pi_tag p) (pc_cmd c) (pc_args c) (default "" (pc_cwd c))
  | (2%Z, WVarint v) => mkInfo (uint32 v) (pi_tag p) (pi_cmd p) (pi_args p) (pi_cwd p)
  | (3%Z, WBytes v) => mkInfo (pi_pid p) v (pi_cmd p) (pi_args p) (pi_cwd p)
  | _ => p
  end.
Definition read_info (b : string) : ProcInfo := fold_left info_field (fields_of b) (mkInfo 0 "" "" [] "").

Definition info_config (p : ProcInfo) : list field :=
  (1%Z, WBytes (pi_cmd p)) :: ((λ a, (2%Z, WBytes a)) <$> pi_args p) ++
  (if bool_decide (pi_cwd p ≠ "") then [(4%Z, WBytes (pi_cwd p))] else []).
Definition info_fields (p : ProcInfo) : list field :=
  [(1%Z, WBytes (encode_fields (info_config p))); (2%Z, WVarint (pi_pid p))] ++
  (if bool_decide (pi_tag p ≠ "") then [(3%Z, WBytes (pi_tag p))] else []).

Lemma encode_args l : ∀ b, fold_left (λ cfg a, AppendBytes (AppendTag cfg 2 BytesType) a) l b
                           = b +:+ encode_fields ((λ a, (2%Z, WBytes a)) <$> l).
Proof.
  induction l as [|a l IH]; intros b; simpl; [by rewrite app_nil_r_str|]. by rewrite IH, put_bytes, app_assoc_str.
Qed.

Lemma encode_info_fields p : encode_info p = encode_fields (info_fields p).
Proof.
  unfold encode_info, info_fields. rewrite encode_app. cbv zeta. rewrite encode_args.
  assert (Hc : (if bool_decide (pi_cwd p ≠ "")
                then AppendBytes (AppendTag (AppendBytes (AppendTag "" 1 BytesType) (pi_cmd p) +:+
                       encode_fields ((λ a, (2%Z, WBytes a)) <$> pi_args p)) 4 BytesType) (pi_cwd p)
                else AppendBytes (AppendTag "" 1 BytesType) (pi_cmd p) +:+
                       encode_fields ((λ a, (2%Z, WBytes a)) <$> pi_args p)) = encode_fields (info_config p)).
  { unfold info_config. rewrite encode_cons, encode_app, (put_bytes ""). change ("" +:+ ?x) with x.
    case_bool_decide; [rewrite put_bytes, encode_one; by rewrite !app_assoc_str|].
    change (encode_fields []) with "". by rewrite app_nil_r_str. }
  rewrite Hc, put_msg, encode_one, encode_cons, encode_one. clear Hc.
  case_bool_decide; rewrite ?put_bytes, ?put_varint, ?encode_one, ?app_assoc_str; [done|].
  change (encode_fields []) with "". by rewrite app_nil_r_str.
Qed.

Lemma read_info_encode p : u32 (pi_pid p) → read_info (encode_info p) = p.
Proof.
  intros Hp. unfold read_info. rewrite encode_info_fields, fields_read.
  2: { unfold info_fields. valid_fields. case_bool_decide; valid_fields. }
  assert (Hc : fold_left config_field (fields_of (encode_fields (info_config p))) no_config
               = mkProc (pi_cmd p) (pi_args p) ∅ (if bool_decide (pi_cwd p ≠ "") then Some (pi_cwd p) else None)).
  { rewrite fields_read.
    - unfold info_config. cbn [fold_left config_field]. rewrite fold_left_app, read_args. by case_bool_decide.
    - unfold info_config. valid_fields; [apply Forall_fmap, Forall_true; intros; valid_fields|].
      case_bool_decide; valid_fields. }
  unfold info_fields. cbn [app fold_left info_field]. rewrite Hc. simpl. rewrite uint32_id by done.
  clear Hc. destruct p as [pid tag cmd args cwd]. simpl. case_bool_decide; case_bool_decide; simpl; by subst.
Qed.

Definition watch_type_of_enum (v : Z) : string :=
  if bool_decide (v = 1%Z) then "EVENT_TYPE_CREATE" else if bool_decide (v = 2%Z) then "EVENT_TYPE_WRITE"
  else if bool_decide (v = 3%Z) then "EVENT_TYPE_REMOVE" else if bool_decide (v = 4%Z) then "EVENT_TYPE_RENAME"
  else if bool_decide (v = 5%Z) then "EVENT_TYPE_CHMOD" else "EVENT_TYPE_UNSPECIFIED".
Definition watch_field (e : WatchEvent) (f : field) : WatchEvent :=
  match f with
  | (1%Z, WBytes v) => mkWatch v (we_type e)
  | (2%Z, WVarint v) => mkWatch (we_name e) (watch_type_of_enum v)
  | _ => e
  end.
Definition read_watch_event (b : string) : WatchEvent := fold_left watch_field (fields_of b) (mkWatch "" "EVENT_TYPE_UNSPECIFIED").
Definition watch_types : list string :=
  ["EVENT_TYPE_CREATE"; "EVENT_TYPE_WRITE"; "EVENT_TYPE_REMOVE"; "EVENT_TYPE_RENAME"; "EVENT_TYPE_CHMOD"; "EVENT_TYPE_UNSPECIFIED"].

Definition shown_watch (e : WatchEvent) : WatchEvent :=
  mkWatch (we_name e) (if bool_decide (we_type e ∈ watch_types) then we_type e else "EVENT_TYPE_UNSPECIFIED").

Lemma read_watch_shown e : read_watch_event (encode_watch e) = shown_watch e.
Proof.
  unfold read_watch_event.
  assert (E : encode_watch e = encode_fields [(1%Z, WBytes (we_name e)); (2%Z, WVarint (watchEventTypeEnum (we_type e)))]).
  { unfold encode_watch. rewrite put_bytes, put_varint. simpl. by rewrite app_nil_r_str. }
  rewrite E, fields_read.
  2: { valid_fields. unfold watchEventTypeEnum, u64. repeat case_bool_decide; lia. }
  cbn [fold_left watch_field we_type we_name]. unfold shown_watch. f_equal.
  unfold watchEventTypeEnum. destruct (decide (we_type e ∈ watch_types)) as [Ht|Ht].
  - rewrite (bool_decide_eq_true_2 (_ ∈ _)) by done. unfold watch_types in Ht. set_unfold in Ht.
    by repeat destruct Ht as [->|Ht].
  - rewrite (bool_decide_eq_false_2 (_ ∈ _)) by done.
    repeat (let Hx := fresh "Hx" in case_bool_decide as Hx; [destruct Ht; rewrite Hx; unfold watch_types; set_solver|]). done.
Qed.

Lemma read_watch_encode e : we_type e ∈ watch_types → read_watch_event (encode_watch e) = e.
Proof. intros Ht. rewrite read_watch_shown. unfold shown_watch. rewrite bool_decide_eq_true_2 by done. by destruct e. Qed.

(** Listings go round: a client reads from the response exactly the entries, the
    processes or the events it was made of, in their order, sizes below zero
    included. *)
Theorem listing_roundtrip (entries : list EntryInfo) (procs : list ProcInfo) (events : list WatchEvent) :
  Forall plain_entry entries → Forall (λ p, u32 (pi_pid p)) procs → Forall (λ e, we_type e ∈ watch_types) events →
  read_entry <$> submessages (encodeListDirResponse entries) = entries ∧
  read_info <$> submessages (encodeListResponse procs) = procs ∧
  read_watch_event <$> submessages (encodeWatcherEventsResponse events) = events.
Proof.
  intros He Hp Hw. unfold encodeListDirResponse, encodeListResponse, encodeWatcherEventsResponse.
  rewrite (repeated_read encodeEntryInfo _ entries (λ _, eq_refl)), (repeated_read encode_info _ procs (λ _, eq_refl)),
    (repeated_read encode_watch _ events (λ _, eq_refl)).
  split_and!; apply fmap_back; eapply Forall_impl; eauto using read_entry_encode, read_info_encode, read_watch_encode.
Qed.

(** How a client reads an event message. *)
Inductive pevent := PStart (pid : Z) | PData (channel : Z) (data : string) | PEnd (code : Z) (exited : bool) (status : string).

Definition end_field (e : Z * bool * string) (f : field) : Z * bool * string :=
  match f with
  | (1%Z, WVarint v) => (DecodeZigZag v, e.1.2, e.2)
  | (2%Z, WVarint v) => (e.1.1, bool_decide (v ≠ 0%Z), e.2)
  | (3%Z, WBytes v) => (e.1.1, e.1.2, v)
  | _ => e
  end.
Definition read_process_event (b : string) : option pevent :=
  match fields_of b with
  | [(1%Z, WBytes v)] => match fields_of v with [(1%Z, WVarint pid)] => Some (PStart pid) | _ => None end
  | [(2%Z, WBytes v)] => match fields_of v with [(n, WBytes d)] => Some (PData n d) | _ => None end
  | [(3%Z, WBytes v)] => let '(code, exited, status) := fold_left end_field (fields_of v) (0%Z, false, "") in
                         Some (PEnd code exited status)
  | _ => None
  end.
Definition read_event (b : string) : option pevent :=
  match submessages b with [m] => read_process_event m | _ => None end.

(** What an event of the toolbox says. *)
Definition event_said (ev : procEvent) : option pevent :=
  if bool_decide (pe_type ev = "start") then Some (PStart (pe_pid ev))
  else if bool_decide (pe_type ev = "stdout") then Some (PData 1 (pe_data ev))
  else if bool_decide (pe_type ev = "stderr") then Some (PData 2 (pe_data ev))
  else if bool_decide (pe_type ev = "pty") then Some (PData 3 (pe_data ev))
  else if bool_decide (pe_type ev = "end") then Some (PEnd (pe_exit ev) true "exited") else None.

Lemma read_wrapped n v : field_number n → read_event (wrapStartResponse (encodeMsgField n v)) = read_process_event (encode_fields [(n, WBytes v)]).
Proof.
  intros Hn. unfold read_event, wrapStartResponse. rewrite !put_msg.
  change [(1%Z, WBytes ?x)] with ((λ s, (1%Z, WBytes s)) <$> [x]). by rewrite submessages_read.
Qed.

Lemma message_said ev m : u32 (pe_pid ev) → (- 2 ^ 31 ≤ pe_exit ev < 2 ^ 31)%Z → proc_message ev = Some m → read_event m = event_said ev.
Proof.
  intros Hp Hx. unfold proc_message, event_said, procStartEvent, procDataEvent, procEndEvent.
  assert (Hdata : ∀ ch d, field_number ch → read_event (wrapStartResponse (encodeMsgField 2 (AppendBytes (AppendTag "" ch BytesType) d)))
                          = Some (PData ch d)).
  { intros ch d Hch. rewrite read_wrapped, put_bytes by done. change ("" +:+ ?x) with x. rewrite <- encode_one.
    unfold read_process_event. rewrite fields_read by valid_fields. rewrite fields_read; [done|]. by valid_fields. }
  repeat (case_bool_decide; [intros [= <-]|]); try done; try (by apply Hdata).
  - rewrite read_wrapped, put_varint by done. change ("" +:+ ?x) with x. rewrite <- encode_one.
    unfold read_process_event. rewrite fields_read by valid_fields. rewrite fields_read; [done|]. valid_fields.
  - assert (E : AppendBytes (AppendTag (AppendVarint (AppendTag (AppendVarint (AppendTag "" 1 VarintType)
                  (EncodeZigZag (pe_exit ev))) 2 VarintType) 1) 3 BytesType) "exited"
                = encode_fields [(1%Z, WVarint (EncodeZigZag (pe_exit ev))); (2%Z, WVarint 1); (3%Z, WBytes "exited")]).
    { rewrite put_bytes, !put_varint, !encode_cons. change (encode_fields []) with "". by rewrite app_nil_r_str, !app_assoc_str. }
    cbv zeta. rewrite E, read_wrapped by done. unfold read_process_event. rewrite fields_read by valid_fields.
    rewrite fields_read; [|valid_fields; apply zigzag_u64; lia].
    cbn [fold_left end_field fst snd]. rewrite zigzag_inverse by lia. done.
Qed.

(** The frames a client finds in a stream. *)
Definition said (f : Z * string) : option pevent := if bool_decide (f.1 = 0%Z) then read_event f.2 else None.

Lemma frames_cat fuel l rest fs : (String.length rest ≤ fuel)%nat → Forall (λ m, len m < 2 ^ 32)%Z l →
  read_frames fuel rest = Some fs →
  ∃ n, read_frames n (foldr (λ m s, writeEnvelope 0 m +:+ s) rest l) = Some (((λ m, (0%Z, m)) <$> l) ++ fs).
Proof.
  intros Hlen Hl Hr. induction Hl as [|m l Hm _ (n & IH)]; [by exists fuel|]. exists (S n). simpl foldr.
  rewrite read_frame by done. rewrite IH. done.
Qed.

Lemma read_frames_fuel n : ∀ s m fs, read_frames n s = Some fs → (String.length s ≤ m)%nat → read_frames m s = Some fs.
Proof.
  induction n as [|n IH]; intros s m fs; destruct s as [|c s]; simpl; try done; [by destruct m|by destruct m|].
  destruct m as [|m]; simpl; [lia|]. destruct (bool_decide _ || bool_decide _) eqn:E; [done|].
  intros Hr Hm. destruct (read_frames n _) as [fs'|] eqn:Hn; [|done]. rewrite (IH _ m fs' Hn); [done|].
  assert (Hd : ∀ k t, (String.length (drop_str k t) ≤ String.length t)%nat).
  { induction k as [|k IHk]; intros [|c' t]; simpl; auto with lia. }
  etransitivity; [apply Hd|]. etransitivity; [apply (Hd 4%nat)|]. simpl in Hm. lia.
Qed.

(** The text of an event's message in either encoding, and an event whose values have the
    width of their Go types and whose message fits a frame. *)
Definition event_text (proto : bool) (ev : procEvent) : option string :=
  if proto then proc_message ev else json_text <$> proc_json ev.
Definition carried (ev : procEvent) : Prop :=
  u32 (pe_pid ev) ∧ (- 2 ^ 31 ≤ pe_exit ev < 2 ^ 31)%Z ∧
  ∀ proto m, event_text proto ev = Some m → (len m < 2 ^ 32)%Z.

Lemma stream_frames proto evs :
  Forall (λ ev, ∀ m, event_text proto ev = Some m → (len m < 2 ^ 32)%Z) evs →
  frames_of (streamProcEvents proto evs) = Some (((λ m, (0%Z, m)) <$> omap (event_text proto) evs) ++ [(2%Z, "{}")]).
Proof.
  intros Hev. set (ms := omap (event_text proto) evs).
  assert (Hstream : streamProcEvents proto evs = foldr (λ m s, writeEnvelope 0 m +:+ s) writeConnectEndFrame ms).
  { unfold streamProcEvents, ms, writeProcEventFrame, event_text, writeConnectFrame. clear Hev.
    induction evs as [|ev evs IH]; [done|]. cbn [foldr omap list_omap].
    destruct proto; [destruct (proc_message ev)|destruct (proc_json ev)]; simpl; [by rewrite IH|exact IH|by rewrite IH|exact IH]. }
  assert (Hms : Forall (λ m, len m < 2 ^ 32)%Z ms).
  { apply Forall_forall. intros m (ev & Hin & Hm)%list_elem_of_omap. rewrite Forall_forall in Hev. by eapply Hev. }
  destruct (frames_cat (String.length writeConnectEndFrame) ms writeConnectEndFrame [(2%Z, "{}")]) as (n & Hn);
    [done|done|vm_compute; reflexivity|].
  unfold frames_of. rewrite Hstream. by eapply read_frames_fuel.
Qed.

Lemma omap_fmap_said {A} (msg : procEvent → option A) (read : A → option pevent) evs :
  Forall (λ ev, match msg ev with Some m => is_Some (event_said ev) ∧ read m = event_said ev | None => event_said ev = None end) evs →
  read <$> omap msg evs = Some <$> omap event_said evs.
Proof.
  induction 1 as [|ev evs Hev _ IH]; [done|]. cbn [omap list_omap]. destruct (msg ev) as [m|].
  - destruct Hev as ((x & He) & Hr). rewrite He in Hr |- *. exact (f_equal2 cons Hr IH).
  - by rewrite Hev.
Qed.

Lemma proc_message_said ev : u32 (pe_pid ev) → (- 2 ^ 31 ≤ pe_exit ev < 2 ^ 31)%Z →
  match proc_message ev with Some m => is_Some (event_said ev) ∧ read_event m = event_said ev | None => event_said ev = None end.
Proof.
  intros Hp Hx. destruct (proc_message ev) as [m|] eqn:Hm.
  - split; [|by apply message_said]. unfold proc_message in Hm. unfold event_said. repeat (case_bool_decide; [by eexists|]). done.
  - unfold proc_message in Hm. unfold event_said. by repeat (case_bool_decide; [done|]).
Qed.

(** How a client reads a JSON message. *)
Definition jget (key : string) (v : jval) : option jval :=
  match v with JObj l => snd <$> find_first (λ kv, bool_decide (kv.1 = key)) l | _ => None end.
Definition read_channel (d : jval) : option pevent :=
  match jget "stdout" d, jget "stderr" d, jget "pty" d with
  | Some (JBytes b), None, None => Some (PData 1 b)
  | None, Some (JBytes b), None => Some (PData 2 b)
  | None, None, Some (JBytes b) => Some (PData 3 b)
  | _, _, _ => None
  end.
Definition read_end (x : jval) : option pevent :=
  match jget "exitCode" x, jget "exited" x, jget "status" x with
  | Some (JNum code), Some (JBool b), Some (JStr st) => Some (PEnd code b st)
  | _, _, _ => None
  end.
Definition read_json (v : jval) : option pevent :=
  e ← jget "event" v;
  match jget "start" e, jget "data" e, jget "end" e with
  | Some st, None, None => match jget "pid" st with Some (JNum n) => Some (PStart n) | _ => None end
  | None, Some d, None => read_channel d
  | None, None, Some x => read_end x
  | _, _, _ => None
  end.

Lemma proc_json_said ev :
  match proc_json ev with Some v => is_Some (event_said ev) ∧ read_json v = event_said ev | None => event_said ev = None end.
Proof.
  unfold proc_json, event_said. repeat (case_bool_decide; [split; [by eexists|vm_compute; reflexivity]|]). done.
Qed.

(** A stream that says [said], frame by frame, and then ends: in protobuf, and in JSON. *)
Definition tells (proto : bool) (bytes : string) (evs : list pevent) : Prop :=
  if proto then ∃ fs, frames_of bytes = Some (fs ++ [(2%Z, "{}")]) ∧ said <$> fs = Some <$> evs
  else ∃ vs, frames_of bytes = Some (((λ v, (0%Z, json_text v)) <$> vs) ++ [(2%Z, "{}")]) ∧ read_json <$> vs = Some <$> evs.

Lemma stream_tells proto evs : Forall carried evs → tells proto (streamProcEvents proto evs) (omap event_said evs).
Proof.
  intros Hev. assert (Hf := stream_frames proto evs). destruct proto; simpl.
  - exists ((λ m, (0%Z, m)) <$> omap proc_message evs). split; [apply Hf; eapply Forall_impl; [done|]; intros ev (_ & _ & Hm); apply (Hm true)|].
    rewrite <- list_fmap_compose. apply omap_fmap_said. eapply Forall_impl; [done|]. intros ev (? & ? & _). by apply proc_message_said.
  - exists (omap proc_json evs). split.
    + rewrite Hf by (eapply Forall_impl; [done|]; intros ev (_ & _ & Hm); apply (Hm false)). do 2 f_equal. unfold event_text. clear.
      induction evs as [|ev evs IH]; [done|]. cbn [omap list_omap]. destruct (proc_json ev); simpl; [by f_equal|exact IH].
    + apply omap_fmap_said, Forall_true. apply proc_json_said.
Qed.

(** C37: The process stream goes round: the client finds one frame per event that the
    toolbox reported, in the toolbox's order and with the same process id, bytes
    and exit code, and then one end-of-stream frame and nothing else. Events of an
    unknown type are left out. *)
Theorem stream_roundtrip (evs : list procEvent) :
  Forall (λ ev, u32 (pe_pid ev) ∧ (- 2 ^ 31 ≤ pe_exit ev < 2 ^ 31)%Z ∧
                ∀ m, proc_message ev = Some m → (len m < 2 ^ 32)%Z) evs →
  ∃ fs, frames_of (streamProcEvents true evs) = Some (fs ++ [(2%Z, "{}")]) ∧
        said <$> fs = Some <$> omap event_said evs.
Proof.
  intros Hev. exists ((λ m, (0%Z, m)) <$> omap proc_message evs). split.
  - apply (stream_frames true). eapply Forall_impl; [done|]. intros ev (_ & _ & Hm). exact Hm.
  - rewrite <- list_fmap_compose. apply omap_fmap_said. eapply Forall_impl; [done|]. intros ev (? & ? & _). by apply proc_message_said.
Qed.

(** A finished result as the events of a stream, and the stream made of it. *)
Definition result_events (r : ProcResult) : list procEvent :=
  [mkEvent "start" (pr_pid r) "" 0] ++
  (if bool_decide (0 < len (pr_stdout r))%Z then [mkEvent "stdout" 0 (pr_stdout r) 0] else []) ++
  (if bool_decide (0 < len (pr_stderr r))%Z then [mkEvent "stderr" 0 (pr_stderr r) 0] else []) ++
  [mkEvent "end" 0 "" (pr_exit r)].
Lemma buffered_stream proto r : procStartBuffered proto r = streamProcEvents proto (result_events r).
Proof. unfold procStartBuffered, streamProcEvents, result_events. destruct proto; by case_bool_decide; case_bool_decide. Qed.
End Reading.
End Codec.

(** ** Primitives that satisfy the laws *)

(** Little-endian base-128 numbers, with no bound on their length. *)
Fixpoint leb_enc (fuel : nat) (v : Z) : string :=
  match fuel with
  | O => ""
  | S fuel => if bool_decide (v < 128)%Z then String (byte_of v) ""
              else String (byte_of (v mod 128 + 128)) (leb_enc fuel (v / 128))
  end.
Definition leb (v : Z) : string := leb_enc (S (Z.to_nat (Z.log2 v))) v.
Fixpoint leb_dec (s : string) : option (Z * string) :=
  match s with
  | EmptyString => None
  | String c s =>
      if bool_decide (code_z c < 128)%Z then Some (code_z c, s)
      else match leb_dec s with Some (v, rest) => Some (code_z c - 128 + 128 * v, rest)%Z | None => None end
  end.

Definition leb_bytes (b : string) : option (string * string) :=
  match leb_dec b with
  | Some (n, rest) => if bool_decide (len rest < n)%Z then None else Some (take_str (Z.to_nat n) rest, drop_str (Z.to_nat n) rest)
  | None => None
  end.
Definition leb_tag (b : string) : option (Z * Z * string) :=
  match leb_dec b with
  | Some (v, rest) => if bool_decide (v / 8 < 1)%Z then None else Some ((v / 8)%Z, (v mod 8)%Z, rest)
  | None => None
  end.
Definition leb_skip (t : Z) (b : string) : option string :=
  if bool_decide (t = VarintType) then snd <$> leb_dec b
  else if bool_decide (t = BytesType) then snd <$> leb_bytes b
  else if bool_decide (t = 1%Z) then (if bool_decide (len b < 8)%Z then None else Some (drop_str 8 b))
  else if bool_decide (t = 5%Z) then (if bool_decide (len b < 4)%Z then None else Some (drop_str 4 b))
  else None.

#[local] Instance leb128 : Protowire := {
  ConsumeTag := leb_tag;
  ConsumeVarint := leb_dec;
  ConsumeBytes := leb_bytes;
  ConsumeFieldValue := λ _, leb_skip;
  AppendTag b n t := b +:+ leb (8 * n + t);
  AppendVarint b v := b +:+ leb v;
  AppendBytes b s := b +:+ leb (len s) +:+ s;
  EncodeZigZag z := if bool_decide (0 ≤ z)%Z then (2 * z)%Z else (- 2 * z - 1)%Z;
  DecodeZigZag v := if bool_decide (v mod 2 = 0)%Z then (v / 2)%Z else (- (v / 2) - 1)%Z;
}.

Lemma leb_dec_enc fuel : ∀ v rest, (0 ≤ v < 2 ^ Z.of_nat fuel)%Z → (0 < fuel)%nat → leb_dec (leb_enc fuel v +:+ rest) = Some (v, rest).
Proof.
  induction fuel as [|fuel IH]; intros v rest Hv Hf; [lia|]. cbn [leb_enc]. case_bool_decide as H.
  - rewrite app_cons_str. cbn [leb_dec]. rewrite code_byte_of, Z.mod_small by lia. by rewrite bool_decide_eq_true_2.
  - rewrite app_cons_str. cbn [leb_dec]. pose proof (Z.mod_pos_bound v 128). rewrite code_byte_of, Z.mod_small by lia.
    rewrite bool_decide_eq_false_2 by lia.
    assert (Hp : (2 ^ Z.of_nat (S fuel) = 2 * 2 ^ Z.of_nat fuel)%Z) by (rewrite Nat2Z.inj_succ, Z.pow_succ_r; lia).
    assert (Hpos : (0 < 2 ^ Z.of_nat fuel)%Z) by (apply Z.pow_pos_nonneg; lia).
    rewrite IH.
    + f_equal. f_equal. pose proof (Z.div_mod v 128). lia.
    + split; [apply Z.div_pos; lia|]. apply Z.div_lt_upper_bound; lia.
    + destruct fuel; [simpl in *; lia|lia].
Qed.

Lemma leb_inverse v rest : (0 ≤ v)%Z → leb_dec (leb v +:+ rest) = Some (v, rest).
Proof.
  intros Hv. apply leb_dec_enc; [|lia]. split; [done|]. rewrite Nat2Z.inj_succ.
  destruct (decide (v = 0%Z)) as [->|Hn]; [done|]. rewrite Z2Nat.id by apply Z.log2_nonneg. apply Z.log2_spec. lia.
Qed.

Lemma leb_forward b : ∀ v rest, leb_dec b = Some (v, rest) → (String.length rest < String.length b)%nat.
Proof.
  induction b as [|c b IH]; intros v rest; [done|]. cbn [leb_dec String.length]. case_bool_decide; [intros [= _ <-]; lia|].
  destruct (leb_dec b) as [[v' rest']|] eqn:E; [|done]. intros [= _ <-]. pose proof (IH _ _ eq_refl). lia.
Qed.

Lemma leb_bytes_inverse s rest : leb_bytes ((leb (len s) +:+ s) +:+ rest) = Some (s, rest).
Proof.
  unfold leb_bytes. rewrite app_assoc_str, leb_inverse by apply len_nonneg. rewrite len_app.
  pose proof (len_nonneg rest). rewrite bool_decide_eq_false_2 by lia. unfold len. rewrite Nat2Z.id.
  by rewrite take_str_app, drop_str_app.
Qed.

Lemma leb_bytes_forward b s rest : leb_bytes b = Some (s, rest) → (String.length rest ≤ String.length b)%nat.
Proof.
  unfold leb_bytes. destruct (leb_dec b) as [[n r]|] eqn:E; [|done]. case_bool_decide; [done|]. intros [= _ <-].
  apply leb_forward in E. pose proof (drop_str_le (Z.to_nat n) r). lia.
Qed.

#[local] Instance leb128_laws : ProtowireLaws.
Proof.
  split; simpl.
  - intros n t rest Hn Ht. unfold field_number in Hn. unfold leb_tag, VarintType, BytesType in *.
    change ("" +:+ ?x) with x. rewrite leb_inverse by lia.
    assert ((8 * n + t) / 8 = n ∧ (8 * n + t) mod 8 = t)%Z as (-> & ->).
    { pose proof (Z.div_mod (8 * n + t) 8). pose proof (Z.mod_pos_bound (8 * n + t) 8). lia. }
    by rewrite bool_decide_eq_false_2 by lia.
  - intros v rest Hv. apply leb_inverse. apply Hv.
  - intros s rest. apply leb_bytes_inverse.
  - intros n v rest Hv. unfold leb_skip. simpl. change ("" +:+ ?x) with x. by rewrite leb_inverse by apply Hv.
  - intros n s rest. unfold leb_skip. simpl. pose proof (leb_bytes_inverse s rest) as E. change ("" +:+ ?x) with x in *.
    by rewrite E.
  - done.
  - done.
  - done.
  - intros b n t rest. unfold leb_tag. destruct (leb_dec b) as [[v r]|] eqn:E; [|done]. case_bool_decide; [done|].
    intros [= _ _ <-]. by eapply leb_forward.
  - intros b v rest E. apply leb_forward in E. lia.
  - apply leb_bytes_forward.
  - intros n t b rest. unfold leb_skip. repeat case_bool_decide; try done.
    + destruct (leb_dec b) as [[v r]|] eqn:E; [|done]. intros [= <-]. apply leb_forward in E. lia.
    + destruct (leb_bytes b) as [[v r]|] eqn:E; [|done]. intros [= <-]. by eapply leb_bytes_forward.
    + intros [= <-]. apply (drop_str_le 8).
    + intros [= <-]. apply (drop_str_le 4).
  - intros z Hz. unfold u64. case_bool_decide; lia.
  - intros z Hz. case_bool_decide; case_bool_decide; Z.to_euclidean_division_equations; lia.
Qed.

(** ** Witnesses *)

Lemma envelope_roundtrip_witness :
  stripEnvelope (writeEnvelope 0 "hello" +:+ "more") = Some "hello" ∧ len (writeEnvelope 0 "hello") = 10%Z ∧
  is_Some (stripEnvelope "abc").
Proof.
  destruct (envelope_roundtrip 0 "hello" "more" "abc") as (H1 & H2 & H3 & _); [reflexivity|reflexivity|].
  split; [exact H1|split; [exact H2|exact H3]].
Defined.

Lemma stream_roundtrip_witness :
  let evs := [mkEvent "start" 17 "" 0; mkEvent "stdout" 0 "hi" 0; mkEvent "end" 0 "" (-1)] in
  ∃ fs, frames_of (streamProcEvents true evs) = Some (fs ++ [(2%Z, "{}")]) ∧
        said <$> fs = [Some (PStart 17); Some (PData 1 "hi"); Some (PEnd (-1) true "exited")].
Proof.
  apply (stream_roundtrip [mkEvent "start" 17 "" 0; mkEvent "stdout" 0 "hi" 0; mkEvent "end" 0 "" (-1)]).
  assert (Hlen : ∀ ev m, proc_message ev = Some m →
    default "" (proc_message ev) = m) by (by intros ev m ->).
  repeat (constructor; [split; [split; vm_compute; congruence|split; [split; vm_compute; congruence|]];
    intros m Hm; rewrite <- (Hlen _ _ Hm); vm_compute; reflexivity|]). constructor.
Defined.
