(* ===== verification/E2BEnvd.v ===== *)
(** pkg/e2bcompat/envd.go, process.go, watch.go and codeinterp.go: the handlers of
    the envd services (files, processes, watchers) and of the code interpreter, over
    the backends the server provides. Every remote call comes in one of two
    encodings, protobuf or JSON; the JSON body arrives as the value it decodes to
    (the zero value when it does not). A backend changes a state and answers. *)

From S2P Require Import Prelude GoStrings GoTime E2BWire.

(** ** Backends *)

(** An error of a backend: [NotFoundError] or any other. *)
Inductive berr := BNotFound (msg : string) | BInternal (msg : string).

Record ReadStream := mkStream { rs_events : list procEvent }.

Section Envd.
Context `{Protowire} {S : Type}.

(** [type EnvdBackend interface], [type EnvdProcBackend interface] and
    [type EnvdWatchBackend interface]. A process stream is given by the events it
    will bring before it ends. *)
Record EnvdBackend := mkEnvd {
  eb_Stat : S → string → string → (EntryInfo + berr) * S;
  eb_MakeDir : S → string → string → (EntryInfo + berr) * S;
  eb_Move : S → string → string → string → (EntryInfo + berr) * S;
  eb_ListDir : S → string → string → Z → (list EntryInfo + berr) * S;
  eb_Remove : S → string → string → option berr * S;
  eb_ReadFile : S → string → string → (string + berr) * S;
  eb_WriteFile : S → string → string → string → (EntryInfo + berr) * S;
  eb_StartProcess : S → string → ProcessConfig → (ProcResult + berr) * S;
}.
Record EnvdProcBackend := mkProcs {
  pb_StartProc : S → string → ProcessConfig → option PTYSize → bool → (ReadStream + berr) * S;
  pb_ConnectProc : S → string → Z → (ReadStream + berr) * S;
  pb_ListProcs : S → string → (list ProcInfo + berr) * S;
  pb_SendProcInput : S → string → Z → string → bool → option berr * S;
  pb_SignalProc : S → string → Z → Z → option berr * S;
  pb_ResizeProc : S → string → Z → Z → Z → option berr * S;
  pb_CloseProcStdin : S → string → Z → option berr * S;
}.
Record EnvdWatchBackend := mkWatches {
  wb_CreateWatcher : S → string → string → bool → (string + berr) * S;
  wb_GetWatcherEvents : S → string → string → (list WatchEvent + berr) * S;
  wb_RemoveWatcher : S → string → string → option berr * S;
}.

(** [type envd struct], with what the backend also implements. *)
Record envd := mkEnvdServer {
  ev_backend : EnvdBackend;
  ev_procs : option EnvdProcBackend;
  ev_watches : option EnvdWatchBackend;
}.
Variable e : envd.

(** ** Requests and answers *)

(** A request for the sandbox [ur_sandbox]; [ur_json] decodes a JSON body. *)
Record UReq (T : Type) := mkUReq {
  ur_method : string;
  ur_type : string;
  ur_sandbox : string;
  ur_body : string;
  ur_json : string → T;
}.
Arguments ur_method {T}. Arguments ur_type {T}. Arguments ur_sandbox {T}. Arguments ur_body {T}. Arguments ur_json {T}.

(** A Connect error, or a message in one of the two encodings. *)
Inductive uresp (J : Type) :=
| UErr (status : Z) (code msg : string)
| UProto (msg : string)
| UJson (v : J).
Arguments UErr {J} status code msg.
Arguments UProto {J} msg.
Arguments UJson {J} v.

(** [func isProtoContentType(ct) bool] *)
Definition isProtoContentType (ct : string) : bool := contains ct "proto".

(** [http.MaxBytesReader], when the error of reading is dropped. *)
Definition max_bytes (n : Z) (body : string) : string :=
  if bool_decide (len body ≤ n)%Z then body else take_str (Z.to_nat n) body.

(** [func readUnary(w, r)]: the body and whether it is protobuf. *)
Definition readUnary {T} (r : UReq T) : option (string * bool) :=
  if bool_decide (ur_method r ≠ "POST") then None
  else Some (max_bytes (2 ^ 24) (ur_body r), isProtoContentType (ur_type r)).
Definition post_required {J} : uresp J := UErr 405 "unimplemented" "POST required".
Definition unsupported {J} (what : string) : uresp J := UErr 501 "unimplemented" (what +:+ " not supported").

(** [func writeConnectErr(w, err)]; the empty message of [NotFoundError] has a text. *)
Definition writeConnectErr {J} (err : berr) : uresp J :=
  match err with
  | BNotFound m => UErr 404 "not_found" (if bool_decide (m = "") then "not found" else m)
  | BInternal m => UErr 500 "internal" m
  end.

(** [func writeUnary(w, proto, protoMsg, jsonMsg)] *)
Definition writeUnary {J} (proto : bool) (msg : string) (v : J) : uresp J := if proto then UProto msg else UJson v.

(** A unary handler: read, decode, call, answer. *)
Definition unary {T Q A J} (dec : string → Q) (json : T → Q) (call : S → string → Q → (A + berr) * S)
    (enc : A → string) (view : A → J) (s : S) (r : UReq T) : uresp J * S :=
  match readUnary r with
  | None => (post_required, s)
  | Some (body, proto) =>
      let q := if proto then dec body else json (ur_json r body) in
      let '(res, s) := call s (ur_sandbox r) q in
      (match res with inl a => writeUnary proto (enc a) (view a) | inr err => writeConnectErr err end, s)
  end.

(** Calls that answer nothing but an error. *)
Definition no_answer {Q} (call : S → string → Q → option berr * S) (s : S) (sid : string) (q : Q) : (unit + berr) * S :=
  let '(err, s) := call s sid q in (match err with Some err => inr err | None => inl tt end, s).
Definition nothing (_ : unit) : string := "".

(** ** Files *)

(** [func (e envd) fsStat(w, r)] and its like. *)
Definition fsStat : S → UReq string → uresp EntryInfo * S :=
  unary (λ b, decodeStringField b 1) id (eb_Stat (ev_backend e)) encodeStatResponse id.
Definition fsMakeDir : S → UReq string → uresp EntryInfo * S :=
  unary (λ b, decodeStringField b 1) id (eb_MakeDir (ev_backend e)) encodeEntryResponse id.
Definition fsMove : S → UReq (string * string) → uresp EntryInfo * S :=
  unary decodeMoveRequest id (λ s sid q, eb_Move (ev_backend e) s sid q.1 q.2) encodeEntryResponse id.
Definition fsListDir : S → UReq (string * Z) → uresp (list EntryInfo) * S :=
  unary decodeListDirRequest id (λ s sid q, eb_ListDir (ev_backend e) s sid q.1 q.2) encodeListDirResponse id.
Definition fsRemove : S → UReq string → uresp unit * S :=
  unary (λ b, decodeStringField b 1) id (no_answer (eb_Remove (ev_backend e))) nothing id.

(** [func (e envd) fsCreateWatcher(w, r)], [fsGetWatcherEvents] and [fsRemoveWatcher]:
    the method is looked at before the backend. *)
Definition with_backend {B T J} (b : option B) (what : string) (h : B → S → UReq T → uresp J * S) (s : S) (r : UReq T)
    : uresp J * S :=
  match b with
  | Some b => h b s r
  | None => (if bool_decide (ur_method r ≠ "POST") then post_required else unsupported what, s)
  end.
Definition fsCreateWatcher : S → UReq (string * bool) → uresp string * S :=
  with_backend (ev_watches e) "watch" (λ wb,
    unary (λ b, (decodeStringField b 1, decodeBoolField b 2)) id (λ s sid q, wb_CreateWatcher wb s sid q.1 q.2)
      encodeCreateWatcherResponse id).
Definition watcherIDOf (b : string) : string := decodeStringField b 1.
Definition fsGetWatcherEvents : S → UReq string → uresp (list WatchEvent) * S :=
  with_backend (ev_watches e) "watch" (λ wb, unary watcherIDOf id (wb_GetWatcherEvents wb) encodeWatcherEventsResponse id).
Definition fsRemoveWatcher : S → UReq string → uresp unit * S :=
  with_backend (ev_watches e) "watch" (λ wb, unary watcherIDOf id (no_answer (wb_RemoveWatcher wb)) nothing id).

(** ** Processes *)

(** [func (e envd) procList(w, r)]: without a process table there are no processes. *)
Definition procList : S → UReq unit → uresp (list ProcInfo) * S :=
  unary (λ _, tt) id (λ s sid _, match ev_procs e with Some pb => pb_ListProcs pb s sid | None => (inl [], s) end)
    encodeListResponse id.

(** [func (e envd) procSendInput(w, r)]; in JSON both inputs are there. *)
Definition json_input (q : Z * string * string) : Z * (string * bool) :=
  let '(pid, stdin, pty) := q in if bool_decide (0 < len pty)%Z then (pid, (pty, true)) else (pid, (stdin, false)).
Definition procSendInput : S → UReq (Z * string * string) → uresp unit * S :=
  with_backend (ev_procs e) "send_input" (λ pb,
    unary decodeInputRequest json_input (no_answer (λ s sid q, pb_SendProcInput pb s sid q.1 q.2.1 q.2.2)) nothing id).

(** [func signalNumber(v any) int32]; a JSON number is given as the [int32] it converts to. *)
Inductive json_any := JText (s : string) | JNumber (n : Z) | JElse.
Definition signalNumber (v : json_any) : Z :=
  match v with
  | JText s => if bool_decide (s = "SIGNAL_SIGTERM") then 15 else if bool_decide (s = "SIGNAL_SIGKILL") then 9 else 9
  | JNumber n => n
  | JElse => 9
  end.
Definition procSendSignal : S → UReq (Z * json_any) → uresp unit * S :=
  with_backend (ev_procs e) "send_signal" (λ pb,
    unary decodeSignalRequest (λ q, (q.1, signalNumber q.2)) (no_answer (λ s sid q, pb_SignalProc pb s sid q.1 q.2)) nothing id).
Definition procCloseStdin : S → UReq Z → uresp unit * S :=
  with_backend (ev_procs e) "close_stdin" (λ pb,
    unary (λ b, decodeSubMessagePID b 1) id (no_answer (pb_CloseProcStdin pb)) nothing id).
Definition procUpdate : S → UReq (Z * PTYSize) → uresp unit * S :=
  with_backend (ev_procs e) "update" (λ pb,
    unary decodeUpdateRequest id (no_answer (λ s sid q, pb_ResizeProc pb s sid q.1 (pty_rows q.2) (pty_cols q.2))) nothing id).

(** The answer of a streaming call: an error, the bytes of the stream, or a panic that
    [net/http] recovers. *)
Inductive sresp :=
| SErr (status : Z) (code msg : string)
| SStream (bytes : string)
| SAborted.
Definition connect_err (err : berr) : sresp :=
  match writeConnectErr (J := unit) err with UErr st c m => SErr st c m | _ => SErr 500 "internal" "" end.
Definition stream_answer (proto : bool) (res : ReadStream + berr) : sresp :=
  match res with
  | inr err => connect_err err
  | inl rc => SStream (streamProcEvents proto (rs_events rc))
  end.

(** [func (e envd) procStartBuffered(w, r, msg, proto)] *)
Definition start_buffered (s : S) (sid : string) (cfg : ProcessConfig) (proto : bool) : sresp * S :=
  let '(res, s) := eb_StartProcess (ev_backend e) s sid cfg in
  (match res with
   | inr err => connect_err err
   | inl res => SStream (procStartBuffered proto res)
   end, s).

(** [func (e envd) procStart(w, r)] *)
Definition procStart (s : S) (r : UReq StartRequest) : sresp * S :=
  let body := max_bytes (2 ^ 24) (ur_body r) in
  let proto := isProtoContentType (ur_type r) in
  match stripEnvelope body with
  | None => (SAborted, s)
  | Some msg =>
      match ev_procs e with
      | None => start_buffered s (ur_sandbox r) (if proto then decodeStartRequest msg else st_config (ur_json r msg)) proto
      | Some pb =>
          let q := if proto then decodeStartRequestFull msg else ur_json r msg in
          let '(res, s) := pb_StartProc pb s (ur_sandbox r) (st_config q) (st_pty q) (st_stdin q) in
          (stream_answer proto res, s)
      end
  end.

(** [func (e envd) procConnect(w, r)] *)
Definition procConnect (s : S) (r : UReq Z) : sresp * S :=
  match ev_procs e with
  | None => (SErr 501 "unimplemented" "connect not supported", s)
  | Some pb =>
      let proto := isProtoContentType (ur_type r) in
      match stripEnvelope (max_bytes (2 ^ 20) (ur_body r)) with
      | None => (SAborted, s)
      | Some msg =>
          let pid := if proto then decodeConnectRequest msg else ur_json r msg in
          let '(res, s) := pb_ConnectProc pb s (ur_sandbox r) pid in
          (stream_answer proto res, s)
      end
  end.

(** ** File content *)

(** A part of a multipart body: the name of its form field, the file name of its
    disposition, and its bytes. *)
Record part := mkPart { pt_form : string; pt_filename : string; pt_data : string }.

(** [func collectWrites(r, queryPath) ([]fileWrite, error)]: the parts up to the end
    or to an error of the reader, or the raw body. *)
Definition collectWrites (ctype body : string) (parts : list part * option string) (queryPath : string)
    : result (list (string * string)) :=
  if has_prefix ctype "multipart/" then
    match parts with
    | (_, Some err) => Err err
    | (l, None) => Ok ((λ p, (if bool_decide (pt_filename p = "") then queryPath else pt_filename p, pt_data p))
                         <$> keep (λ p, bool_decide (pt_form p = "file")) l)
    end
  else if bool_decide (100 * 2 ^ 20 < len body)%Z then Err "http: request body too large"
  else Ok [(queryPath, body)].

(** The loop over the writes, which stops at the first error. *)
Fixpoint write_all (s : S) (sid : string) (l : list (string * string)) : (list EntryInfo + berr) * S :=
  match l with
  | [] => (inl [], s)
  | (path, data) :: l =>
      match eb_WriteFile (ev_backend e) s sid path data with
      | (inr err, s) => (inr err, s)
      | (inl entry, s) => match write_all s sid l with
                          | (inl rest, s) => (inl (entry :: rest), s)
                          | (inr err, s) => (inr err, s)
                          end
      end
  end.

Inductive fresp := FStatus (status : Z) | FErr (status : Z) (code msg : string) | FData (data : string) | FEntries (l : list EntryInfo).
Definition file_err (err : berr) : fresp :=
  match writeConnectErr (J := unit) err with UErr st c m => FErr st c m | _ => FStatus 500 end.

(** [func (e envd) files(w, r)] *)
Definition files (s : S) (sid method path ctype body : string) (parts : list part * option string) : fresp * S :=
  if bool_decide (method = "GET") then
    if bool_decide (path = "") then (FStatus 400, s)
    else let '(res, s) := eb_ReadFile (ev_backend e) s sid path in
         (match res with inl data => FData data | inr err => file_err err end, s)
  else if bool_decide (method = "POST") || bool_decide (method = "PUT") then
    match collectWrites ctype body parts path with
    | Err err => (FErr 400 "invalid_argument" err, s)
    | Ok writes =>
        let '(res, s) := write_all s sid writes in
        (match res with inl l => FEntries l | inr err => file_err err end, s)
    end
  else (FStatus 405, s).
End Envd.
Arguments mkUReq {T}. Arguments UErr {J}. Arguments UProto {J}. Arguments UJson {J}.

(** ** The code interpreter *)

(** [type CodeExecution struct], [type CodeContext struct]; the value of a rich
    result's entry is whatever JSON value the backend gave. *)
Record CodeExecution (V : Type) := mkExec {
  ex_Stdout : string;
  ex_Stderr : string;
  ex_Text : string;
  ex_Error : string;
  ex_Images : list string;
  ex_Results : list (gmap string V);
}.
Arguments mkExec {V}. Arguments ex_Stdout {V}. Arguments ex_Stderr {V}. Arguments ex_Text {V}. Arguments ex_Error {V}.
Arguments ex_Images {V}. Arguments ex_Results {V}.
Record CodeContext := mkCtx { ctx_ID : string; ctx_Language : string; ctx_Cwd : string }.

(** A value in a line of the stream. *)
Inductive lineval (V : Type) := LText (s : string) | LFlag (b : bool) | LAny (v : V).
Arguments LText {V}. Arguments LFlag {V}. Arguments LAny {V}.
#[local] Notation line V := (gmap string (lineval V)).

Section Interp.
Context {S V : Type}.

(** [type CodeInterpreter interface] *)
Record CodeInterpreter := mkInterp {
  ci_RunCode : S → string → string → string → (CodeExecution V + berr) * S;
  ci_CreateContext : S → string → string → string → (CodeContext + berr) * S;
  ci_ListContexts : S → string → (list CodeContext + berr) * S;
  ci_RemoveContext : S → string → string → option berr * S;
  ci_RestartContext : S → string → string → option berr * S;
}.
Variable c : CodeInterpreter.

(** An answer of the interpreter's routes. *)
Inductive cresp := CErr (status : Z) (code msg : string) | CNone | CContext (ctx : CodeContext) | CContexts (l : list CodeContext)
  | CLines (l : list (line V)).
Definition interp_err (err : berr) : cresp :=
  match writeConnectErr (J := unit) err with UErr st code m => CErr st code m | _ => CErr 500 "internal" "" end.
Definition no_method : cresp := CErr 405 "unimplemented" "method not allowed".

(** [func (c *codeInterp) contexts(w, r)]; [body] is the language and directory the
    request decodes to, empty when it does not. *)
Definition contexts (s : S) (sid method : string) (body : string * string) : cresp * S :=
  if bool_decide (method = "POST") then
    let '(res, s) := ci_CreateContext c s sid body.1 body.2 in
    (match res with inl ctx => CContext ctx | inr err => interp_err err end, s)
  else if bool_decide (method = "GET") then
    let '(res, s) := ci_ListContexts c s sid in
    (match res with inl l => CContexts l | inr err => interp_err err end, s)
  else (no_method, s).

(** [func (c *codeInterp) contextByID(w, r)] *)
Definition contextByID (s : S) (sid method path : string) : cresp * S :=
  let rest := trim_prefix path "/contexts/" in
  let '(id, action) := match cut slash rest with Some p => p | None => (rest, "") end in
  let answer (r : option berr * S) := (match r.1 with Some err => interp_err err | None => CNone end, r.2) in
  if bool_decide (action = "restart") && bool_decide (method = "POST") then answer (ci_RestartContext c s sid id)
  else if bool_decide (action = "") && bool_decide (method = "DELETE") then answer (ci_RemoveContext c s sid id)
  else (no_method, s).

(** [strings.TrimRight(s, "\n")] and [func firstLine(s) string], which takes the last line. *)
Fixpoint trim_newlines (s : string) : string :=
  match s with
  | EmptyString => EmptyString
  | String a s => let t := trim_newlines s in if bool_decide (t = "" ∧ a = newline) then "" else String a t
  end.
Definition firstLine (s : string) : string :=
  let s := trim_newlines s in match cut_last newline s with Some (_, l) => l | None => s end.

(** The lines written for an execution. *)
Definition text_line (type text : string) : line V := <["type" := LText type]> (<["text" := LText text]> ∅).
Definition error_line (err : string) : line V :=
  <["type" := LText "error"]> (<["name" := LText "Error"]> (<["value" := LText (firstLine err)]> (<["traceback" := LText err]> ∅))).
Definition rich_line (res : gmap string V) : line V :=
  map_fold (λ k v msg, <[k := LAny v]> msg) {["type" := LText "result"]} res.
Definition image_line (img : string) : line V :=
  <["type" := LText "result"]> (<["png" := LText img]> (<["is_main_result" := LFlag false]> ∅)).
Definition main_line (text : string) : line V :=
  <["type" := LText "result"]> (<["text" := LText text]> (<["is_main_result" := LFlag true]> ∅)).
Definition end_line : line V := {["type" := LText "end_of_execution"]}.
Definition when_text (s : string) (l : list (line V)) : list (line V) := if bool_decide (s = "") then [] else l.
Definition outcome_lines (ex : CodeExecution V) : list (line V) :=
  if bool_decide (ex_Error ex ≠ "") then [error_line (ex_Error ex)]
  else match ex_Results ex with
       | [] => (image_line <$> ex_Images ex) ++ when_text (ex_Text ex) [main_line (ex_Text ex)]
       | results => rich_line <$> results
       end.
Definition execution_lines (ex : CodeExecution V) : list (line V) :=
  when_text (ex_Stdout ex) [text_line "stdout" (ex_Stdout ex)] ++
  when_text (ex_Stderr ex) [text_line "stderr" (ex_Stderr ex)] ++ outcome_lines ex ++ [end_line].

(** [func (c *codeInterp) execute(w, r)]; [body] is the code and the context the
    request decodes to, or the decoder's error. *)
Definition execute (s : S) (sid method : string) (body : result (string * string)) : cresp * S :=
  if bool_decide (method ≠ "POST") then (CErr 405 "unimplemented" "POST required", s)
  else match body with
       | Err err => (CErr 400 "invalid_argument" err, s)
       | Ok (code, ctx) =>
           let ctx := if bool_decide (ctx = "") then "default" else ctx in
           let '(res, s) := ci_RunCode c s sid ctx code in
           (match res with inl ex => CLines (execution_lines ex) | inr err => interp_err err end, s)
       end.
End Interp.

(** ** Theorems *)

(** *** Both encodings say the same *)

Section Agree.
Context `{ProtowireLaws} {S : Type} (e : envd (S := S)).
#[local] Set Default Proof Using "All".

Definition proto_type : string := "application/proto".
Definition json_type : string := "application/json".

(** A handler treats a protobuf body [msg] as it treats a JSON body for [v]: the same
    state after, the same error, and an answer from which a client that knows the field
    numbers reads what [seen] says of the value the JSON answer carries. *)
Definition agrees {T J R} (h : S → UReq T → uresp J * S) (fits : J → Prop) (read : string → R) (seen : J → R)
    (msg : string) (v : T) : Prop :=
  (len msg ≤ 2 ^ 24)%Z → ∀ s sid body json, (len body ≤ 2 ^ 24)%Z → json body = v →
  let p := h s (mkUReq "POST" proto_type sid msg json) in
  let j := h s (mkUReq "POST" json_type sid body json) in
  p.2 = j.2 ∧ match j.1 with
              | UJson a => ∃ m, p.1 = UProto m ∧ (fits a → read m = seen a)
              | UErr st c m => p.1 = UErr st c m
              | UProto _ => False
              end.

(** An answer without fields, one with an entry, and one with a list. *)
Definition agrees_empty {T} (h : S → UReq T → uresp unit * S) : string → T → Prop :=
  agrees h (λ _, True) fields_of (λ _, []).
Definition agrees_entry {T} (h : S → UReq T → uresp EntryInfo * S) : string → T → Prop :=
  agrees h sized_entry (λ m, read_entry <$> submessages m) (λ a, [shown a]).
Definition agrees_list {T A} (h : S → UReq T → uresp (list A) * S) (fits : A → Prop) (read : string → A) (seen : A → A) : string → T → Prop :=
  agrees h (Forall fits) (λ m, read <$> submessages m) (λ l, seen <$> l).

(** The same for a streaming handler: both streams tell the same events. *)
Definition stream_agrees {T} (h : S → UReq T → sresp * S) (limit : Z) (msg : string) (v : T) : Prop :=
  (len (writeEnvelope 0 msg) ≤ limit)%Z → ∀ s sid body json,
  (len (writeEnvelope 0 body) ≤ limit)%Z → json body = v →
  let p := h s (mkUReq "POST" proto_type sid (writeEnvelope 0 msg) json) in
  let j := h s (mkUReq "POST" json_type sid (writeEnvelope 0 body) json) in
  p.2 = j.2 ∧ match j.1 with
              | SStream bj => ∃ bp evs, p.1 = SStream bp ∧ tells true bp evs ∧ tells false bj evs
              | SErr st c m => p.1 = SErr st c m
              | SAborted => False
              end.

(** The events a backend brings have the width of their Go types, and fit a frame. *)
Definition sized_streams : Prop :=
  (∀ pb s sid c pty b rc s', ev_procs e = Some pb → pb_StartProc pb s sid c pty b = (inl rc, s') → Forall carried (rs_events rc)) ∧
  (∀ pb s sid pid rc s', ev_procs e = Some pb → pb_ConnectProc pb s sid pid = (inl rc, s') → Forall carried (rs_events rc)) ∧
  (∀ s sid c res s', eb_StartProcess (ev_backend e) s sid c = (inl res, s') → Forall carried (result_events res)).

Lemma max_bytes_id n body : (len body ≤ n)%Z → max_bytes n body = body.
Proof. intros. unfold max_bytes. by rewrite bool_decide_eq_true_2. Qed.

Lemma unary_agrees {T Q A R} dec (tr : T → Q) call (enc : A → string) (fits : A → Prop) (read : string → R) (seen : A → R) msg v :
  dec msg = tr v → (∀ a, fits a → read (enc a) = seen a) → agrees (unary dec tr call enc id) fits read seen msg v.
Proof.
  intros Hd Henc Hm s sid body json Hb Hj. unfold unary, readUnary. simpl. rewrite !max_bytes_id, Hj, Hd by done.
  destruct (call s sid (tr v)) as [[a|[m|m]] s']; [|done..]. split; [done|]. eexists. split; [done|]. apply Henc.
Qed.

Lemma backend_agrees {B T J R} (b : option B) what (h : B → S → UReq T → uresp J * S) fits (read : string → R) seen msg v :
  (∀ b, agrees (h b) fits read seen msg v) → agrees (with_backend b what h) fits read seen msg v.
Proof. intros Hh Hm s sid body json Hb Hj. destruct b as [b|]; simpl; [by apply Hh|done]. Qed.

Lemma entry_answer a : sized_entry a → read_entry <$> submessages (encodeMsgField 1 (encodeEntryInfo a)) = [shown a].
Proof. intros Ha. rewrite message_read. simpl. by rewrite read_entry_shown. Qed.

Lemma list_answer {A} (enc : A → string) (f : A → string) (read : string → A) (fits : A → Prop) (seen : A → A) l :
  (∀ x, f x = encodeMsgField 1 (enc x)) → (∀ x, fits x → read (enc x) = seen x) → Forall fits l →
  read <$> submessages (fold_left (λ b x, b +:+ f x) l "") = seen <$> l.
Proof.
  intros Hf Hr Hl. rewrite (repeated_read enc) by done. rewrite <- list_fmap_compose. apply list_fmap_ext.
  intros i x Hi. apply Hr. by eapply Forall_lookup_1.
Qed.

Lemma framed_small limit msg : (limit < 2 ^ 32)%Z → (len (writeEnvelope 0 msg) ≤ limit)%Z → (len msg ≤ limit)%Z.
Proof. intros Hl Hm. unfold writeEnvelope in Hm. unfold len in *. cbn [String.length] in Hm. rewrite length_app_str in Hm. lia. Qed.

Lemma framed_body limit msg : (limit < 2 ^ 32 - 5)%Z → (len (writeEnvelope 0 msg) ≤ limit)%Z →
  stripEnvelope (max_bytes limit (writeEnvelope 0 msg)) = Some msg.
Proof.
  intros Hl Hm. rewrite max_bytes_id by done. rewrite <- (app_nil_r_str (writeEnvelope 0 msg)). apply strip_framed.
  pose proof (framed_small limit msg). lia.
Qed.

(** A start request as the client's protobuf message carries it. *)
Definition startable (q : StartRequest) : Prop :=
  pc_envs (st_config q) = ∅ ∧
  match st_pty q with Some p => u32 (pty_rows p) ∧ u32 (pty_cols p) | None => True end.

Lemma no_envs q : startable q → without_envs (st_config q) = st_config q.
Proof. intros (He & _). unfold without_envs. rewrite <- He. by destruct (st_config q). Qed.

Lemma stream_answer_agrees res : (∀ rc, res = inl rc → Forall carried (rs_events rc)) →
  match stream_answer false res with
  | SStream bj => ∃ bp evs, stream_answer true res = SStream bp ∧ tells true bp evs ∧ tells false bj evs
  | SErr st c m => stream_answer true res = SErr st c m
  | SAborted => False
  end.
Proof.
  destruct res as [rc|[m|m]]; simpl; [|done..]. intros Hc. specialize (Hc rc eq_refl).
  eexists _, _. split_and!; [done|by apply (stream_tells true)|by apply (stream_tells false)].
Qed.

Lemma start_agrees q : sized_streams → startable q → stream_agrees (procStart e) (2 ^ 24) (sdk_start q) q.
Proof.
  intros (Hs1 & _ & Hs2) Hq Hm s sid body json Hb Hj. unfold procStart. cbn [ur_body ur_type ur_sandbox ur_json].
  rewrite !framed_body, Hj by done.
  change (isProtoContentType proto_type) with true. change (isProtoContentType json_type) with false. cbv iota.
  destruct (ev_procs e) as [pb|] eqn:Hpb.
  - rewrite read_start, no_envs by apply Hq || done. cbn [st_config st_pty st_stdin].
    destruct (pb_StartProc pb s sid _ _ _) as [res s'] eqn:Hst. split; [done|]. apply stream_answer_agrees.
    intros rc ->. by eapply Hs1.
  - rewrite read_start_config, no_envs by done. unfold start_buffered.
    destruct (eb_StartProcess _ _ _ _) as [[res|[m|m]] s'] eqn:Hst; cbn [fst snd]; [|done..]. split; [done|].
    apply Hs2 in Hst. eexists _, _. rewrite !buffered_stream. split_and!; [done|by apply (stream_tells true)|by apply (stream_tells false)].
Qed.

Lemma connect_agrees pid : sized_streams → u32 pid → stream_agrees (procConnect e) (2 ^ 20) (sdk_process pid) pid.
Proof.
  intros (_ & Hs & _) Hp Hm s sid body json Hb Hj. unfold procConnect. destruct (ev_procs e) as [pb|] eqn:Hpb; [|done].
  cbn [ur_body ur_type ur_sandbox ur_json]. rewrite !framed_body, Hj by done.
  change (isProtoContentType proto_type) with true. change (isProtoContentType json_type) with false. cbv iota.
  unfold decodeConnectRequest. rewrite read_process by done.
  destruct (pb_ConnectProc pb s sid _) as [res s'] eqn:Hc. split; [done|]. apply stream_answer_agrees.
  intros rc ->. by eapply Hs.
Qed.

Lemma input_agrees pid data isPTY : u32 pid → (isPTY = true → data ≠ "") →
  agrees_empty (procSendInput e) (sdk_input pid data isPTY) (pid, (if isPTY then "" else data), (if isPTY then data else "")).
Proof.
  intros Hp Hd. apply backend_agrees. intros pb. apply unary_agrees; [|done]. rewrite read_input by done. unfold json_input.
  destruct isPTY; [|done]. rewrite bool_decide_eq_true_2; [done|]. destruct data; [by destruct Hd|]. unfold len. simpl. lia.
Qed.

End Agree.

(** *** What the interpreter streams *)

Section Lines.
Context {V : Type}.
Implicit Types l : list (line V).

Definition has_type (t : string) (x : line V) : bool :=
  match x !! "type" with Some (LText t') => bool_decide (t' = t) | _ => false end.
Definition of_type (t : string) (l : list (line V)) : list (line V) := keep (has_type t) l.

Lemma rich_lookup (res : gmap string V) k :
  rich_line res !! k = match res !! k with Some v => Some (LAny v) | None => if decide (k = "type") then Some (LText "result") else None end.
Proof.
  unfold rich_line. revert k. apply (map_fold_weak_ind (λ r (res : gmap string V), ∀ k, r !! k =
    match res !! k with Some v => Some (LAny v) | None => if decide (k = "type") then Some (LText "result") else None end)).
  - intros k. rewrite lookup_empty. case_decide; [subst; apply lookup_singleton_eq|].
    by apply lookup_singleton_ne.
  - intros i x m r Hi Hm k. destruct (decide (k = i)) as [->|].
    + by rewrite !lookup_insert_eq.
    + rewrite !lookup_insert_ne by done. apply Hm.
Qed.

Lemma rich_all (rs : list (gmap string V)) : Forall (λ r : gmap string V, r !! "type" = None) rs →
  Forall2 (λ (x : line V) r, x !! "type" = Some (LText "result") ∧ ∀ k, k ≠ "type" → x !! k = LAny <$> r !! k)
    (rich_line <$> rs) rs.
Proof.
  induction 1 as [|r rs Hr _ IH]; constructor; [|exact IH]. rewrite rich_lookup, Hr. split; [done|]. intros k Hk.
  rewrite rich_lookup. destruct (r !! k); [done|]. by rewrite decide_False.
Qed.

Lemma of_app t (l1 l2 : list (line V)) : of_type t (l1 ++ l2) = of_type t l1 ++ of_type t l2.
Proof. apply keep_app. Qed.

Lemma of_when t s x : of_type t (when_text s [x]) = if has_type t x then when_text s [x] else [].
Proof. unfold when_text, of_type. case_bool_decide; simpl; by destruct (has_type t x). Qed.

Lemma of_all t l (b : bool) : (∀ x, x ∈ l → has_type t x = b) → of_type t l = if b then l else [].
Proof.
  unfold of_type. induction l as [|x l IH]; intros Hx; [by destruct b|]. simpl.
  rewrite (Hx x), IH by set_solver. by destruct b.
Qed.

(** The last line of a text, once the line breaks at its end are left out: [v] fills a
    whole line, only line breaks follow, and it is empty only when there is nothing else. *)
Definition summary_of (err v : string) : Prop :=
  ∃ pre nls, err = pre +:+ v +:+ nls ∧ (∀ c, mem_char c nls = true → c = newline) ∧ mem_char newline v = false ∧
    (pre = "" ∨ ∃ p, pre = p +:+ str1 newline) ∧ (v = "" → pre = "").

Lemma trim_newlines_split s : ∃ nls, s = trim_newlines s +:+ nls ∧ (∀ c, mem_char c nls = true → c = newline).
Proof.
  induction s as [|c s (nls & Hs & Hn)]; [by exists ""|]. cbn [trim_newlines]. case_bool_decide as Hc.
  - destruct Hc as (Ht & ->). exists (String newline nls). rewrite Ht in Hs. change ("" +:+ nls) with nls in Hs. subst.
    split; [done|]. intros c. cbn [mem_char]. intros [?%bool_decide_eq_true|?]%orb_true_iff; auto.
  - exists nls. rewrite app_cons_str. split; [by f_equal|done].
Qed.

Lemma trim_newlines_end s : ∀ a, trim_newlines s ≠ a +:+ str1 newline.
Proof.
  induction s as [|c s IH]; intros a; cbn [trim_newlines]; [by destruct a|]. case_bool_decide as Hc; [by destruct a|].
  destruct a as [|d a]; cbn; intros [= -> Ht]; [by destruct Hc|by apply (IH a)].
Qed.

Lemma firstLine_summary s : summary_of s (firstLine s).
Proof.
  destruct (trim_newlines_split s) as (nls & Hs & Hn). unfold firstLine.
  destruct (cut_last newline (trim_newlines s)) as [[a b]|] eqn:E.
  - apply cut_last_spec in E as (Ha & Hb). exists (a +:+ str1 newline), nls. split_and!; [|done|done|by right; exists a|].
    + rewrite Hs at 1. rewrite Ha, !app_assoc_str. done.
    + intros ->. by apply trim_newlines_end in Ha.
  - apply cut_last_None in E. exists "", nls. split_and!; [done|done|done|by left|done].
Qed.

(** C39: What a client makes of the stream of an execution: it ends exactly once, at its
    last line; the output is there if there was any; an error is there exactly when
    the code failed, with its traceback in full and, as its value, the last line of that,
    and then there is no result. Otherwise the results are the backend's, each with all
    its entries and nothing else, in their order; a backend that gives none has its images
    sent as results, and its text, if any, as the main one. Held to results that do not
    name their own type: one that does takes the place of the marker the client goes by. *)
Theorem execution_reported (ex : CodeExecution V) :
  Forall (λ r : gmap string V, r !! "type" = None) (ex_Results ex) →
  let ls := execution_lines ex in
  last ls = Some {["type" := LText "end_of_execution"]} ∧
  of_type "end_of_execution" ls = [{["type" := LText "end_of_execution"]}] ∧
  of_type "stdout" ls = when_text (ex_Stdout ex) [{["type" := LText "stdout"; "text" := LText (ex_Stdout ex)]}] ∧
  of_type "stderr" ls = when_text (ex_Stderr ex) [{["type" := LText "stderr"; "text" := LText (ex_Stderr ex)]}] ∧
  (ex_Error ex ≠ "" →
     (∃ v, summary_of (ex_Error ex) v ∧
        of_type "error" ls = [{["type" := LText "error"; "name" := LText "Error"; "value" := LText v; "traceback" := LText (ex_Error ex)]}]) ∧
     of_type "result" ls = []) ∧
  (ex_Error ex = "" → of_type "error" ls = [] ∧
     (ex_Results ex ≠ [] →
        Forall2 (λ x r, x !! "type" = Some (LText "result") ∧ ∀ k, k ≠ "type" → x !! k = LAny <$> r !! k)
          (of_type "result" ls) (ex_Results ex)) ∧
     (ex_Results ex = [] →
        of_type "result" ls =
          ((λ img, {["type" := LText "result"; "png" := LText img; "is_main_result" := LFlag false]}) <$> ex_Images ex) ++
          when_text (ex_Text ex) [{["type" := LText "result"; "text" := LText (ex_Text ex); "is_main_result" := LFlag true]}])).
Proof.
  intros Hr ls.
  assert (Hres : ex_Error ex = "" → ∀ x t, x ∈ outcome_lines ex → has_type t x = bool_decide ("result" = t)).
  { intros He x t. unfold outcome_lines. rewrite He. destruct (ex_Results ex) as [|r rs] eqn:Ers; intros Hx.
    - apply elem_of_app in Hx as [Hx|Hx]; [by apply list_elem_of_fmap in Hx as (i & -> & _)|].
      unfold when_text in Hx. case_bool_decide; [by apply elem_of_nil in Hx|]. by apply list_elem_of_singleton in Hx as ->.
    - apply list_elem_of_fmap in Hx as (r' & -> & Hin). unfold has_type. rewrite rich_lookup.
      rewrite Forall_forall in Hr. by rewrite (Hr _ Hin). }
  assert (Hout : ∀ t, of_type t (outcome_lines ex) =
    if bool_decide (ex_Error ex = "") then (if bool_decide ("result" = t) then outcome_lines ex else [])
    else if bool_decide ("error" = t) then outcome_lines ex else []).
  { intros t. case_bool_decide as He.
    - apply of_all. auto.
    - apply of_all. intros x. unfold outcome_lines. rewrite bool_decide_eq_true_2 by done.
      intros ->%list_elem_of_singleton. done. }
  assert (Hls : ∀ t, of_type t ls = (if bool_decide ("stdout" = t) then when_text (ex_Stdout ex) [text_line "stdout" (ex_Stdout ex)] else []) ++
     (if bool_decide ("stderr" = t) then when_text (ex_Stderr ex) [text_line "stderr" (ex_Stderr ex)] else []) ++
     of_type t (outcome_lines ex) ++ (if bool_decide ("end_of_execution" = t) then [end_line] else [])).
  { intros t. unfold ls, execution_lines. by rewrite !of_app, !of_when. }
  split_and!.
  - unfold ls, execution_lines. by rewrite !last_app.
  - rewrite Hls, Hout. by case_bool_decide.
  - rewrite Hls, Hout. case_bool_decide; by rewrite app_nil_r.
  - rewrite Hls, Hout. case_bool_decide; by rewrite ?app_nil_r.
  - intros He. rewrite !Hls, !Hout, (bool_decide_eq_false_2 (ex_Error ex = "")) by done. unfold outcome_lines.
    rewrite (bool_decide_eq_true_2 (ex_Error ex ≠ "")) by done. split; [|done]. exists (firstLine (ex_Error ex)).
    split; [apply firstLine_summary|done].
  - intros He. rewrite !Hls, !Hout, (bool_decide_eq_true_2 (ex_Error ex = "")) by done. simpl. rewrite app_nil_r.
    unfold outcome_lines. rewrite He. split_and!; [done|..]; intros Hne; simpl; destruct (ex_Results ex) as [|r rs]; try done.
    apply (rich_all (r :: rs)). exact Hr.
Qed.
End Lines.

(** ** Witnesses *)

#[local] Existing Instance leb128.
#[local] Existing Instance leb128_laws.

(** A backend that keeps nothing and knows one file and one process. *)
Definition demo_info : EntryInfo := mkEntry "a" FileTypeFile "/a" 3 420 "" "" "" None None.
Definition demo_backend : EnvdBackend (S := list string) :=
  mkEnvd (λ s sid p, (inl demo_info, p :: s)) (λ s sid p, (inr (BNotFound p), s)) (λ s sid a b, (inl demo_info, a :: b :: s))
    (λ s sid p d, (inl [demo_info], p :: s)) (λ s sid p, (None, p :: s)) (λ s sid p, (inl "abc", s))
    (λ s sid p d, (inl demo_info, p :: s)) (λ s sid c, (inl (mkResult 1 "out" "" 0), pc_cmd c :: s)).
Definition demo_envd : envd (S := list string) := mkEnvdServer demo_backend None None.

Lemma demo_text_fits r : pr_stdout r = "out" → pr_stderr r = "" → pr_pid r = 1%Z → pr_exit r = 0%Z →
  Forall carried (result_events r).
Proof.
  intros Ho He Hp Hx. unfold result_events. rewrite Ho, He, Hp, Hx. simpl.
  repeat (constructor; [split; [split; vm_compute; congruence|split; [split; vm_compute; congruence|]];
    intros [|] m Hm; vm_compute in Hm; injection Hm as <-; vm_compute; reflexivity|]). constructor.
Qed.


Lemma execution_reported_witness :
  let ex : CodeExecution nat := mkExec "hi" "" "" "" [] [{["text" := 3]}] in
  last (execution_lines ex) = Some {["type" := LText "end_of_execution"]} ∧
  of_type "end_of_execution" (execution_lines ex) = [{["type" := LText "end_of_execution"]}].
Proof.
  intros ex. destruct (execution_reported ex) as (H1 & H2 & _); [by repeat constructor|]. exact (conj H1 H2).
Defined.

(** A result that names its own type ends the stream early. *)
Example ends_twice :
  let ex : CodeExecution string := mkExec "" "" "" "" [] [{["type" := "end_of_execution"]}] in
  length (execution_lines ex) = 2%nat ∧ (head (execution_lines ex) ≫= (λ x, x !! "type")) = Some (LAny "end_of_execution").
Proof. vm_compute. done. Qed.
