(* ===== verification/OsSandbox.v ===== *)
(** pkg/sandbox/sandbox.go and bwrap.go: the policy of the operating-system sandbox
    and the plan bubblewrap is started with.

    The plan is the list of arguments the code builds. What a plan does is read off
    it as bubblewrap documents: mounts are made in the order of the arguments, and a
    path shows what the last mount at or above it holds. *)

From S2P Require Import Prelude GoStrings GoShell GoPaths PermTypes PermManager.

(** ** The host *)

(** What the code asks the host: [filepath.EvalSymlinks], the working and home
    directories ([OSView]), the directory for temporary files, whether the agent is
    root, [os.Lstat] (whether it is a directory) and [os.Stat]. *)
Record Host := mkHost {
  ho_os : OSView;
  ho_temp : string;
  ho_root : bool;
  ho_lstat : string → option bool;
  ho_stat : string → bool;
}.

(** ** Policies *)

Record ReadSubstitution := mkSub { rs_RealPath : string; rs_FakePath : string }.

(** [type Relay struct] *)
Record Relay := mkRelay {
  re_Binary : string;
  re_BinaryInSandbox : string;
  re_SocketDir : string;
  re_SocketDirInSandbox : string;
  re_SocketName : string;
  re_Listen : string;
}.

(** [func (r *Relay) Complete() bool] *)
Definition Relay_Complete (r : option Relay) : bool :=
  match r with
  | None => false
  | Some r => negb (bool_decide (re_Binary r = "")) && negb (bool_decide (re_BinaryInSandbox r = ""))
              && negb (bool_decide (re_SocketDir r = "")) && negb (bool_decide (re_SocketDirInSandbox r = ""))
              && negb (bool_decide (re_SocketName r = "")) && negb (bool_decide (re_Listen r = ""))
  end.

(** [type Policy struct] of pkg/sandbox *)
Record OSPolicy := mkPol {
  po_WorkDir : string;
  po_ReadDeny : list string;
  po_WriteAllow : list string;
  po_ReadSubstitute : list ReadSubstitution;
  po_WriteDeny : list string;
  po_ProxyOnlyPort : Z;
  po_NetworkNone : bool;
  po_Relay : option Relay;
}.

(** ** Paths *)

(** The loops over a map [seen]: the first of equal paths stays. *)
Fixpoint first_seen (seen l : list string) : list string :=
  match l with
  | [] => []
  | p :: l => if bool_decide (p ∈ seen) then first_seen seen l else p :: first_seen (p :: seen) l
  end.
Definition dedupe (l : list string) : list string := first_seen [] l.

Definition real_path (h : Host) (p : string) : string := default p (os_eval_symlinks (ho_os h) p).

(** [func expanded(paths) []string]: the body of its loop, and the loop. *)
Definition expand_home (h : Host) (p : string) : string :=
  if bool_decide (p = "~") || has_prefix p "~/"
  then join2 (os_user_home (ho_os h)) (trim_prefix (trim_prefix p "~") "/") else p.
Definition expand_one (h : Host) (p : string) : option string :=
  if bool_decide (p = "") then None
  else
    let p := expand_home h p in
    if negb (is_abs p) then None
    else let p := real_path h (clean p) in match ho_lstat h p with None => None | Some _ => Some p end.
Definition expanded (h : Host) (paths : list string) : list string := dedupe (omap (expand_one h) paths).

(** [func resolveExisting(p) (string, bool)] *)
Definition resolveExisting (h : Host) (p : string) : option string :=
  if bool_decide (p = "") then None
  else match abs (ho_os h) p with
       | Err _ => None
       | Ok a => let a := real_path h a in if ho_stat h a then Some a else None
       end.

(** ** The plan *)

Definition flag2 (f a : string) : list string := [f; a].
Definition flag3 (f a b : string) : list string := [f; a; b].

Definition base_args : list string :=
  ["--ro-bind"; "/"; "/"; "--dev"; "/dev"; "--proc"; "/proc"; "--die-with-parent"; "--unshare-pid"; "--unshare-ipc";
   "--unshare-uts"; "--new-session"; "--cap-drop"; "ALL"].
Definition root_args (h : Host) : list string :=
  if ho_root h then ["--cap-add"; "CAP_DAC_OVERRIDE"; "--cap-add"; "CAP_DAC_READ_SEARCH"] else [].
Definition netns_args (r : Relay) : list string :=
  ["--unshare-net"; "--tmpfs"; "/run"; "--ro-bind"; re_Binary r; re_BinaryInSandbox r;
   "--ro-bind"; re_SocketDir r; re_SocketDirInSandbox r].

(** The writable trees. *)
Definition writable_dirs (h : Host) (temp : list string) (p : OSPolicy) : list string :=
  dedupe (keep (λ d, negb (bool_decide (d = "/") || bool_decide (d = "")))
            (expanded h ((po_WorkDir p :: po_WriteAllow p) ++ temp))).
Definition bwrap_temp (h : Host) : list string := ["/tmp"; ho_temp h].
Definition bind_args (l : list string) : list string := concat ((λ d, flag3 "--bind" d d) <$> l).

(** The read-only islands in them. *)
Definition island_args (l : list string) : list string := concat ((λ p, flag3 "--ro-bind" p p) <$> l).

(** The masks, [sort.Sort(sort.Reverse(...))] first. *)
#[global] Instance reverse_dec : RelDecision (λ a b : string, Is_true (String.leb b a)).
Proof. intros a b. apply _. Defined.
Definition reversed (l : list string) : list string := merge_sort (λ a b : string, Is_true (String.leb b a)) l.
Definition mask_arg (h : Host) (p : string) : list string :=
  if bool_decide (p = "/") then []
  else match ho_lstat h p with
       | None => []
       | Some true => flag2 "--tmpfs" p
       | Some false => flag3 "--ro-bind" "/dev/null" p
       end.
Definition mask_args (h : Host) (p : OSPolicy) : list string := concat (mask_arg h <$> reversed (expanded h (po_ReadDeny p))).

Definition relay_args (r : option Relay) : list string :=
  match r with
  | Some r' => if Relay_Complete r then flag3 "--ro-bind" (re_SocketDir r') (re_SocketDir r') else []
  | None => []
  end.

(** The masked files. *)
Fixpoint substitute_args (h : Host) (l : list ReadSubstitution) : result (list string) :=
  match l with
  | [] => Ok []
  | m :: l =>
      match resolveExisting h (rs_RealPath m) with
      | None => substitute_args h l
      | Some real =>
          match resolveExisting h (rs_FakePath m) with
          | None => Err ("masked file " +:+ rs_RealPath m +:+ " has no sentinel copy (" +:+ rs_FakePath m +:+
                         "); refusing to start a sandbox that would expose it")
          | Some fake => let! rest := substitute_args h l in Ok (flag3 "--ro-bind" fake real ++ rest)
          end
      end
  end.

(** [func BuildBwrapArgs(policy) ([]string, error)] *)
Definition network_args (p : OSPolicy) : result (list string) :=
  if po_NetworkNone p then
    match po_Relay p with
    | Some r => if Relay_Complete (po_Relay p) then Ok (netns_args r)
                else Err "NetworkNone requires a Relay (the sandbox would have no way to reach the proxy)"
    | None => Err "NetworkNone requires a Relay (the sandbox would have no way to reach the proxy)"
    end
  else Ok [].
Definition BuildBwrapArgs (h : Host) (p : OSPolicy) : result (list string) :=
  let! net := network_args p in
  let! subs := substitute_args h (po_ReadSubstitute p) in
  Ok (base_args ++ root_args h ++ net ++ bind_args (writable_dirs h (bwrap_temp h) p) ++
      island_args (expanded h (po_WriteDeny p)) ++ mask_args h p ++ relay_args (po_Relay p) ++ subs).

(** ** The command *)

(** The closure [q]. *)
Definition q (v : string) : string := sh_quoted v.

(** The script that starts the relay and then runs ["$@"]. *)
Definition relay_script (r : Relay) : string :=
  let d := trim_suffix (dir (re_BinaryInSandbox r)) "/" in
  let ready := d +:+ "/relay.ready" in
  let log := d +:+ "/relay.log" in
  let socket := trim_suffix (re_SocketDirInSandbox r) "/" +:+ "/" +:+ re_SocketName r in
  q (re_BinaryInSandbox r) +:+ " relay --listen " +:+ q (re_Listen r) +:+ " --unix " +:+ q socket +:+ " --ready " +:+ q ready +:+
  " >" +:+ q log +:+ " 2>&1 & relay_pid=$!; " +:+
  "i=0; while [ ! -e " +:+ q ready +:+ " ]; do i=$((i+1)); [ $i -gt 500 ] && break; sleep 0.01; done; " +:+
  "if [ ! -e " +:+ q ready +:+ " ] || ! kill -0 " +:+ str1 dquote +:+ "$relay_pid" +:+ str1 dquote +:+ " 2>/dev/null; then " +:+
  "echo " +:+ str1 dquote +:+ "sandrpod: the egress relay did not start (see " +:+ log +:+ ")" +:+ str1 dquote +:+
  " >&2; exit 125; fi; exec " +:+ str1 dquote +:+ "$@" +:+ str1 dquote.

(** [func (b *Bwrap) Command(policy, path, args)]: the binary and its arguments. *)
Definition Bwrap_Command (h : Host) (bin : string) (p : OSPolicy) (path : string) (args : list string)
    : result (string * list string) :=
  let! plan := BuildBwrapArgs h p in
  let bin := if bool_decide (bin = "") then "bwrap" else bin in
  match po_NetworkNone p, po_Relay p with
  | true, Some r => Ok (bin, plan ++ ["--"; "/bin/sh"; "-c"; relay_script r; "sh"; path] ++ args)
  | _, _ => Ok (bin, plan ++ ["--"; path] ++ args)
  end.

(** ** What a plan does *)

Inductive mount := Bind (src dst : string) (rw : bool) | Tmpfs (dst : string) | Special (dst : string).
Definition mount_dst (m : mount) : string := match m with Bind _ d _ => d | Tmpfs d => d | Special d => d end.

(** The mounts among the arguments, up to the program. *)
Fixpoint mounts (args : list string) : list mount :=
  match args with
  | [] => []
  | a :: args =>
      if bool_decide (a = "--") then []
      else if bool_decide (a = "--ro-bind") || bool_decide (a = "--bind") then
        match args with
        | s :: d :: args => Bind s d (bool_decide (a = "--bind")) :: mounts args
        | _ => []
        end
      else if bool_decide (a = "--tmpfs") then match args with d :: args => Tmpfs d :: mounts args | [] => [] end
      else if bool_decide (a = "--dev") || bool_decide (a = "--proc")
      then match args with d :: args => Special d :: mounts args | [] => [] end
      else if bool_decide (a = "--cap-drop") || bool_decide (a = "--cap-add")
      then match args with _ :: args => mounts args | [] => [] end
      else mounts args
  end.

(** Whether a path lies at or below another. *)
Definition covers (d p : string) : bool := bool_decide (d = "/") || bool_decide (p = d) || has_prefix p (d +:+ "/").

(** The mount that decides about a path, and what the sandbox finds there: a place
    of the host, read-only or writable; nothing of the host; a device or process
    file system. *)
Definition deciding (ms : list mount) (p : string) : option mount := last (keep (λ m, covers (mount_dst m) p) ms).
Inductive sight := OnHost (path : string) (rw : bool) | Hidden | Kernel.
Definition sight_of (m : mount) (p : string) : sight :=
  match m with
  | Bind s d rw => if bool_decide (s = "/dev/null") then Hidden
                   else OnHost (if bool_decide (d = "/") then p else s +:+ drop_prefix p d) rw
  | Tmpfs _ => Hidden
  | Special _ => Kernel
  end.
Definition sees (ms : list mount) (p : string) : option sight := (λ m, sight_of m p) <$> deciding ms p.

(** ** Lemmas *)

(** *** Reading a plan *)

(** Arguments that read as these mounts, whatever follows. *)
Definition reads (xs : list string) (ms : list mount) : Prop := ∀ rest, mounts (xs ++ rest) = ms ++ mounts rest.

Lemma reads_nil : reads [] [].
Proof. done. Qed.

Lemma reads_app xs ys ms ns : reads xs ms → reads ys ns → reads (xs ++ ys) (ms ++ ns).
Proof. intros Hx Hy rest. by rewrite <- app_assoc, Hx, Hy, app_assoc. Qed.

Lemma reads_concat {A} (f : A → list string) (g : A → list mount) l :
  (∀ x, reads (f x) (g x)) → reads (concat (f <$> l)) (concat (g <$> l)).
Proof. intros Hf. induction l as [|x l IH]; [done|]. by apply reads_app. Qed.

Lemma reads_bind s d : reads (flag3 "--bind" s d) [Bind s d true].
Proof. done. Qed.
Lemma reads_ro s d : reads (flag3 "--ro-bind" s d) [Bind s d false].
Proof. done. Qed.
Lemma reads_tmpfs d : reads (flag2 "--tmpfs" d) [Tmpfs d].
Proof. done. Qed.
#[local] Hint Resolve reads_nil reads_app reads_bind reads_ro reads_tmpfs : core.

(** The mounts of each part of the plan. *)
Definition mask_mount (h : Host) (p : string) : list mount :=
  if bool_decide (p = "/") then []
  else match ho_lstat h p with None => [] | Some true => [Tmpfs p] | Some false => [Bind "/dev/null" p false] end.
Definition sub_mount (h : Host) (m : ReadSubstitution) : option mount :=
  match resolveExisting h (rs_RealPath m), resolveExisting h (rs_FakePath m) with
  | Some real, Some fake => Some (Bind fake real false)
  | _, _ => None
  end.
Definition base_mounts (p : OSPolicy) : list mount :=
  [Bind "/" "/" false; Special "/dev"; Special "/proc"] ++
  match po_NetworkNone p, po_Relay p with
  | true, Some r => [Tmpfs "/run"; Bind (re_Binary r) (re_BinaryInSandbox r) false; Bind (re_SocketDir r) (re_SocketDirInSandbox r) false]
  | _, _ => []
  end.
Definition work_mounts (h : Host) (p : OSPolicy) : list mount := (λ d, Bind d d true) <$> writable_dirs h (bwrap_temp h) p.
Definition island_mounts (h : Host) (p : OSPolicy) : list mount := (λ d, Bind d d false) <$> expanded h (po_WriteDeny p).
Definition mask_mounts (h : Host) (p : OSPolicy) : list mount := concat (mask_mount h <$> reversed (expanded h (po_ReadDeny p))).
Definition relay_mounts (p : OSPolicy) : list mount :=
  match po_Relay p with
  | Some r => if Relay_Complete (po_Relay p) then [Bind (re_SocketDir r) (re_SocketDir r) false] else []
  | None => []
  end.
Definition sub_mounts (h : Host) (p : OSPolicy) : list mount := omap (sub_mount h) (po_ReadSubstitute p).

Lemma concat_singles {A B} (f : A → B) l : concat ((λ x, [f x]) <$> l) = f <$> l.
Proof. induction l as [|x l IH]; [done|]. simpl. by f_equal. Qed.

Lemma reads_binds l : reads (bind_args l) ((λ d, Bind d d true) <$> l).
Proof. rewrite <- concat_singles. by apply reads_concat. Qed.
Lemma reads_islands l : reads (island_args l) ((λ d, Bind d d false) <$> l).
Proof. rewrite <- concat_singles. by apply reads_concat. Qed.
Lemma reads_masks h p : reads (mask_args h p) (mask_mounts h p).
Proof.
  apply reads_concat. intros x. unfold mask_arg, mask_mount. case_bool_decide; [done|]. by destruct (ho_lstat h x) as [[]|].
Qed.
Lemma reads_relay p : reads (relay_args (po_Relay p)) (relay_mounts p).
Proof. unfold relay_args, relay_mounts. destruct (po_Relay p) as [r|]; [|done]. by destruct (Relay_Complete (Some r)). Qed.
Lemma reads_subs h l : ∀ xs, substitute_args h l = Ok xs → reads xs (omap (sub_mount h) l).
Proof.
  induction l as [|m l IH]; intros xs; cbn [substitute_args]; [by intros [= <-]|]. cbn [omap list_omap]. unfold sub_mount at 1.
  destruct (resolveExisting h (rs_RealPath m)) as [real|]; [|by apply IH].
  destruct (resolveExisting h (rs_FakePath m)) as [fake|]; [|done].
  destruct (substitute_args h l) as [ys|] eqn:E; simpl; [|done]. intros [= <-].
  intros rest. change (Bind fake real false :: mounts (ys ++ rest) = Bind fake real false :: omap (sub_mount h) l ++ mounts rest).
  f_equal. by apply IH.
Qed.

(** A plan that is rendered is made of its parts. *)
Lemma plan_parts h p plan : BuildBwrapArgs h p = Ok plan → ∀ rest,
  mounts (plan ++ "--" :: rest) =
  base_mounts p ++ work_mounts h p ++ island_mounts h p ++ mask_mounts h p ++ relay_mounts p ++ sub_mounts h p.
Proof.
  intros Hp rest. unfold BuildBwrapArgs in Hp. apply rbind_Ok in Hp as (net & Hnet & Hp). apply rbind_Ok in Hp as (subs & Hsubs & Hp).
  assert (Hbase : reads (base_args ++ root_args h ++ net) (base_mounts p)).
  { unfold network_args in Hnet. unfold base_mounts, root_args. destruct (po_NetworkNone p).
    - destruct (po_Relay p) as [r|]; [|done]. destruct (Relay_Complete (Some r)); [|done]. injection Hnet as <-. by destruct (ho_root h).
    - injection Hnet as <-. by destruct (ho_root h). }
  assert (Hplan : plan = base_args ++ root_args h ++ net ++ bind_args (writable_dirs h (bwrap_temp h) p) ++
    island_args (expanded h (po_WriteDeny p)) ++ mask_args h p ++ relay_args (po_Relay p) ++ subs) by congruence.
  rewrite Hplan, (app_assoc (root_args h) net), (app_assoc base_args).
  assert (Hall : reads ((base_args ++ root_args h ++ net) ++ bind_args (writable_dirs h (bwrap_temp h) p) ++
      island_args (expanded h (po_WriteDeny p)) ++ mask_args h p ++ relay_args (po_Relay p) ++ subs)
    (base_mounts p ++ work_mounts h p ++ island_mounts h p ++ mask_mounts h p ++ relay_mounts p ++ sub_mounts h p)).
  { apply reads_app; [done|]. apply reads_app; [apply reads_binds|]. apply reads_app; [apply reads_islands|].
    apply reads_app; [apply reads_masks|]. apply reads_app; [apply reads_relay|]. by apply reads_subs. }
  rewrite Hall. simpl. by rewrite app_nil_r.
Qed.

Lemma command_parts h bin p path args b full : Bwrap_Command h bin p path args = Ok (b, full) →
  mounts full = base_mounts p ++ work_mounts h p ++ island_mounts h p ++ mask_mounts h p ++ relay_mounts p ++ sub_mounts h p.
Proof.
  unfold Bwrap_Command. intros Hc. apply rbind_Ok in Hc as (plan & Hp & Hc).
  pose proof (plan_parts h p plan Hp) as E. destruct (po_NetworkNone p), (po_Relay p); injection Hc as _ <-;
    rewrite <- app_assoc || idtac; exact (E _).
Qed.

(** *** Which mount decides *)

Lemma deciding_app l1 l2 p :
  deciding (l1 ++ l2) p = match deciding l2 p with Some m => Some m | None => deciding l1 p end.
Proof. unfold deciding. by rewrite keep_app, last_app. Qed.

Lemma deciding_Some l p m : deciding l p = Some m → m ∈ l ∧ covers (mount_dst m) p = true.
Proof. intros Hl. apply last_Some_elem_of, elem_of_keep in Hl. exact Hl. Qed.

Lemma deciding_None l p : deciding l p = None ↔ ∀ m, m ∈ l → covers (mount_dst m) p = false.
Proof.
  unfold deciding. rewrite last_None. split.
  - intros Hk m Hm. destruct (covers (mount_dst m) p) eqn:E; [|done]. assert (Hin : m ∈ keep (λ m, covers (mount_dst m) p) l).
    { by apply elem_of_keep. } rewrite Hk in Hin. by apply elem_of_nil in Hin.
  - intros Hl. destruct (keep _ l) as [|m ms] eqn:E; [done|]. assert (Hm : m ∈ keep (λ m, covers (mount_dst m) p) l).
    { rewrite E. by left. } apply elem_of_keep in Hm as (Hm & Hc). by rewrite (Hl m Hm) in Hc.
Qed.

Lemma elem_of_first_seen l : ∀ seen p, p ∈ first_seen seen l ↔ p ∈ l ∧ p ∉ seen.
Proof.
  induction l as [|x l IH]; intros seen p; simpl; [set_solver|]. case_bool_decide as Hx.
  - rewrite IH. set_solver.
  - rewrite elem_of_cons, IH, elem_of_cons. destruct (decide (p = x)); set_solver.
Qed.
Lemma elem_of_dedupe l p : p ∈ dedupe l ↔ p ∈ l.
Proof. unfold dedupe. rewrite elem_of_first_seen. set_solver. Qed.

Lemma expanded_exists h l d : d ∈ expanded h l → is_Some (ho_lstat h d).
Proof.
  unfold expanded. rewrite elem_of_dedupe. intros (x & _ & Hx)%list_elem_of_omap. unfold expand_one in Hx.
  repeat case_bool_decide; try done. destruct (negb _); [done|]. destruct (ho_lstat h _) eqn:E; [|done]. injection Hx as <-. by eexists.
Qed.

Lemma elem_of_reversed l p : p ∈ reversed l ↔ p ∈ l.
Proof. unfold reversed. by rewrite merge_sort_Permutation. Qed.

Lemma elem_of_masks h p m : m ∈ mask_mounts h p ↔ ∃ d, d ∈ expanded h (po_ReadDeny p) ∧ m ∈ mask_mount h d.
Proof.
  unfold mask_mounts. rewrite list_elem_of_In, in_concat. split.
  - intros (x & Hx & Hm). apply list_elem_of_In, list_elem_of_fmap in Hx as (d & -> & Hd). exists d. rewrite elem_of_reversed in Hd.
    split; [done|by apply list_elem_of_In].
  - intros (d & Hd & Hm). exists (mask_mount h d). rewrite <- !list_elem_of_In. split; [|done]. apply list_elem_of_fmap.
    exists d. by rewrite elem_of_reversed.
Qed.

Lemma mask_of h d m : m ∈ mask_mount h d → d ≠ "/" ∧ mount_dst m = d ∧ ∀ p, sight_of m p = Hidden.
Proof.
  unfold mask_mount. case_bool_decide; [by intros ?%elem_of_nil|].
  destruct (ho_lstat h d) as [[]|]; intros Hm; [apply list_elem_of_singleton in Hm as ->..|by apply elem_of_nil in Hm]; done.
Qed.

Lemma mask_made h p d : d ∈ expanded h (po_ReadDeny p) → d ≠ "/" → ∃ m, m ∈ mask_mounts h p ∧ mount_dst m = d.
Proof.
  intros Hd Hn. pose proof (expanded_exists _ _ _ Hd) as (b & Hb).
  exists (if b then Tmpfs d else Bind "/dev/null" d false). split; [|by destruct b].
  apply elem_of_masks. exists d. split; [done|]. unfold mask_mount. rewrite bool_decide_eq_false_2, Hb by done. destruct b; set_solver.
Qed.

Lemma elem_of_relay_mounts p m : m ∈ relay_mounts p →
  ∃ r, po_Relay p = Some r ∧ Relay_Complete (po_Relay p) = true ∧ m = Bind (re_SocketDir r) (re_SocketDir r) false.
Proof.
  unfold relay_mounts. destruct (po_Relay p) as [r|] eqn:E; [|by intros ?%elem_of_nil].
  destruct (Relay_Complete (Some r)); [|by intros ?%elem_of_nil]. intros ->%list_elem_of_singleton. by exists r.
Qed.

Lemma elem_of_sub_mounts h p m : m ∈ sub_mounts h p →
  ∃ s real fake, s ∈ po_ReadSubstitute p ∧ resolveExisting h (rs_RealPath s) = Some real ∧
                 resolveExisting h (rs_FakePath s) = Some fake ∧ m = Bind fake real false.
Proof.
  unfold sub_mounts. intros (s & Hs & Hm)%list_elem_of_omap. unfold sub_mount in Hm.
  destruct (resolveExisting h (rs_RealPath s)) as [real|] eqn:Hr; [|done].
  destruct (resolveExisting h (rs_FakePath s)) as [fake|] eqn:Hf; [|done]. injection Hm as <-. by exists s, real, fake.
Qed.

Lemma covers_drop d p : covers d p = true → d ≠ "/" → d +:+ drop_prefix p d = p.
Proof.
  unfold covers. intros Hc Hd. rewrite bool_decide_eq_false_2 in Hc by done. simpl in Hc.
  apply orb_true_iff in Hc as [->%bool_decide_eq_true|(r & ->)%has_prefix_spec].
  - rewrite <- (app_nil_r_str d) at 2. rewrite drop_prefix_app. apply app_nil_r_str.
  - rewrite app_assoc_str. by rewrite drop_prefix_app.
Qed.

(** The last four parts of a plan are read-only. *)
Lemma writable_part h p path m :
  deciding (base_mounts p ++ work_mounts h p ++ island_mounts h p ++ mask_mounts h p ++ relay_mounts p ++ sub_mounts h p) path = Some m →
  match m with Bind _ _ true => True | _ => False end →
  m ∈ work_mounts h p ∧ deciding (island_mounts h p) path = None ∧ deciding (mask_mounts h p) path = None ∧
  deciding (relay_mounts p) path = None ∧ deciding (sub_mounts h p) path = None.
Proof.
  rewrite !deciding_app. intros Hd Hw. destruct (deciding (sub_mounts h p) path) as [m'|] eqn:Es.
  { injection Hd as ->. apply deciding_Some in Es as ((? & ? & ? & _ & _ & _ & ->)%elem_of_sub_mounts & _). done. }
  destruct (deciding (relay_mounts p) path) as [m'|] eqn:Er.
  { injection Hd as ->. apply deciding_Some in Er as ((? & _ & _ & ->)%elem_of_relay_mounts & _). done. }
  destruct (deciding (mask_mounts h p) path) as [m'|] eqn:Em.
  { injection Hd as ->. apply deciding_Some in Em as ((d & _ & Hm)%elem_of_masks & _). unfold mask_mount in Hm.
    case_bool_decide; [by apply elem_of_nil in Hm|]. destruct (ho_lstat h d) as [[]|];
      [apply list_elem_of_singleton in Hm as ->..|by apply elem_of_nil in Hm]; done. }
  destruct (deciding (island_mounts h p) path) as [m'|] eqn:Ei.
  { injection Hd as ->. apply deciding_Some in Ei as ((? & -> & _)%list_elem_of_fmap & _). done. }
  destruct (deciding (work_mounts h p) path) as [m'|] eqn:Ew.
  { injection Hd as ->. apply deciding_Some in Ew as (? & _). done. }
  apply deciding_Some in Hd as (Hm & _). exfalso. unfold base_mounts in Hm.
  destruct (po_NetworkNone p), (po_Relay p); simpl in Hm; repeat (apply elem_of_cons in Hm as [->|Hm]; [done|]); by apply elem_of_nil in Hm.
Qed.

(** ** Properties *)

(** A hard-locked path is not readable in the sandbox: whatever the command, at or
    below such a path, which the plan found to exist, the sandbox sees nothing of the
    host, even inside the work tree. Held to paths outside the relay's socket
    directory and outside the masked files, which are mounted last. *)
Theorem hardlocks_masked (h : Host) (bin : string) (p : OSPolicy) (prog : string) (args : list string) b full (d path : string) :
  Bwrap_Command h bin p prog args = Ok (b, full) →
  d ∈ expanded h (po_ReadDeny p) → d ≠ "/" → covers d path = true →
  (∀ r, po_Relay p = Some r → covers (re_SocketDir r) path = false) →
  (∀ s real, s ∈ po_ReadSubstitute p → resolveExisting h (rs_RealPath s) = Some real → covers real path = false) →
  sees (mounts full) path = Some Hidden.
Proof.
  intros Hc Hd Hn Hp Hr Hs. unfold sees. rewrite (command_parts _ _ _ _ _ _ _ Hc), !deciding_app.
  rewrite (proj2 (deciding_None (sub_mounts h p) path)).
  2: { intros m (s & real & fake & Hin & Hreal & _ & ->)%elem_of_sub_mounts. by apply (Hs s). }
  rewrite (proj2 (deciding_None (relay_mounts p) path)).
  2: { intros m (r & Hrel & _ & ->)%elem_of_relay_mounts. by apply Hr. }
  destruct (mask_made h p d Hd Hn) as (m & Hm & Hdst). destruct (deciding (mask_mounts h p) path) as [m'|] eqn:E.
  - apply deciding_Some in E as ((d' & _ & Hm')%elem_of_masks & _). simpl. by destruct (mask_of h d' m' Hm') as (_ & _ & ->).
  - rewrite deciding_None in E. specialize (E m Hm). rewrite Hdst in E. congruence.
Qed.

(** What a sandboxed command can change on the host lies in the work tree, the extra
    writable trees or the temporary directories, at its own place, and never at or
    below a path that must not be written, a hard-locked path or a masked file. *)
Theorem writes_confined (h : Host) (bin : string) (p : OSPolicy) (prog : string) (args : list string) b full (path place : string) :
  Bwrap_Command h bin p prog args = Ok (b, full) → sees (mounts full) path = Some (OnHost place true) →
  place = path ∧
  (∃ d, d ∈ expanded h ((po_WorkDir p :: po_WriteAllow p) ++ bwrap_temp h) ∧ d ≠ "/" ∧ covers d path = true) ∧
  (∀ d, d ∈ expanded h (po_WriteDeny p) → covers d path = false) ∧
  (∀ d, d ∈ expanded h (po_ReadDeny p) → d ≠ "/" → covers d path = false) ∧
  (∀ s real, s ∈ po_ReadSubstitute p → resolveExisting h (rs_RealPath s) = Some real →
             is_Some (resolveExisting h (rs_FakePath s)) → covers real path = false).
Proof.
  unfold sees. intros Hc Hsee. rewrite (command_parts _ _ _ _ _ _ _ Hc) in Hsee.
  destruct (deciding _ path) as [m|] eqn:E; [|done]. injection Hsee as Hsee.
  destruct m as [s d rw| |]; simpl in Hsee; [|done..]. case_bool_decide as Hnull; [done|]. injection Hsee as Hplace ->.
  pose proof (proj2 (deciding_Some _ _ _ E)) as Hcov. apply writable_part in E as (Hw & Hi & Hm & _ & Hs); [|done].
  apply list_elem_of_fmap in Hw as (d' & [= -> ->] & Hd). unfold writable_dirs in Hd. rewrite elem_of_dedupe, elem_of_keep in Hd.
  destruct Hd as (Hd & Hroot). rewrite negb_true_iff, orb_false_iff, !bool_decide_eq_false in Hroot. destruct Hroot as (Hroot & _).
  split_and!.
  - rewrite bool_decide_eq_false_2 in Hplace by done. rewrite <- Hplace. by apply covers_drop.
  - by exists d'.
  - intros d Hin. rewrite deciding_None in Hi. apply (Hi (Bind d d false)). apply list_elem_of_fmap. by exists d.
  - intros d Hin Hne. destruct (mask_made h p d Hin Hne) as (m & Hmm & <-). rewrite deciding_None in Hm. by apply Hm.
  - intros s real Hin Hreal (fake & Hfake). rewrite deciding_None in Hs. apply (Hs (Bind fake real false)).
    apply list_elem_of_omap. exists s. split; [done|]. unfold sub_mount. by rewrite Hreal, Hfake.
Qed.

Lemma substitutes_ok h l : is_ok (substitute_args h l) = true ↔
  ∀ s, s ∈ l → is_Some (resolveExisting h (rs_RealPath s)) → is_Some (resolveExisting h (rs_FakePath s)).
Proof.
  induction l as [|s l IH]; cbn [substitute_args]; [split; [set_solver|done]|].
  rewrite <- Forall_forall, Forall_cons, Forall_forall. destruct (resolveExisting h (rs_RealPath s)) as [real|].
  - destruct (resolveExisting h (rs_FakePath s)) as [fake|].
    + destruct (substitute_args h l); simpl in *; rewrite <- IH; naive_solver.
    + simpl. split; [done|]. intros (Hs & _). by destruct Hs.
  - rewrite IH. split; [|naive_solver]. intros Hl. split; [by intros [? ?]|done].
Qed.

(** C9: The sandbox fails closed. A command is refused exactly when its network is to be
    taken away without a complete relay to the proxy, or when a masked file that is
    there has no sentinel copy. Otherwise every masked file that is there shows its
    copy, read-only, whatever else the plan does at that path. *)
Theorem sandbox_fails_closed (h : Host) (bin : string) (p : OSPolicy) (prog : string) (args : list string) :
  (is_ok (Bwrap_Command h bin p prog args) = false ↔
   (po_NetworkNone p = true ∧ Relay_Complete (po_Relay p) = false) ∨
   ∃ s, s ∈ po_ReadSubstitute p ∧ is_Some (resolveExisting h (rs_RealPath s)) ∧ resolveExisting h (rs_FakePath s) = None) ∧
  (∀ b full l1 s l2 real, Bwrap_Command h bin p prog args = Ok (b, full) → po_ReadSubstitute p = l1 ++ s :: l2 →
   resolveExisting h (rs_RealPath s) = Some real →
   (∀ s' real', s' ∈ l2 → resolveExisting h (rs_RealPath s') = Some real' → covers real' real = false) →
   ∃ fake, resolveExisting h (rs_FakePath s) = Some fake ∧ deciding (mounts full) real = Some (Bind fake real false)).
Proof.
  assert (Hok : is_ok (Bwrap_Command h bin p prog args) = true ↔
    (po_NetworkNone p = true → Relay_Complete (po_Relay p) = true) ∧ is_ok (substitute_args h (po_ReadSubstitute p)) = true).
  { unfold Bwrap_Command, BuildBwrapArgs, network_args. destruct (po_Relay p) as [r|];
      [destruct (Relay_Complete (Some r))|]; destruct (po_NetworkNone p), (substitute_args h (po_ReadSubstitute p));
      simpl; intuition congruence. }
  split.
  - rewrite <- not_true_iff_false, Hok, substitutes_ok. split.
    + intros Hn. destruct (decide (po_NetworkNone p = true ∧ Relay_Complete (po_Relay p) = false)) as [?|Hrel]; [by left|]. right.
      destruct (decide (Exists (λ s, is_Some (resolveExisting h (rs_RealPath s)) ∧ resolveExisting h (rs_FakePath s) = None)
                  (po_ReadSubstitute p))) as [He|He].
      { by apply Exists_exists in He. }
      exfalso. apply Hn. split; [intros Hnn; destruct (Relay_Complete (po_Relay p)) eqn:E; [done|by destruct Hrel]|]. intros s Hs Hr.
      destruct (resolveExisting h (rs_FakePath s)) eqn:Ef; [by eexists|]. exfalso. apply He, Exists_exists. by exists s.
    + intros [(Hnet & Hrel)|(s & Hs & Hr & Hf)] (Hn & Ha); [by rewrite Hn in Hrel|]. destruct (Ha s Hs Hr) as (? & E). congruence.
  - intros b full l1 s l2 real Hc Hl Hreal Hlater.
    assert (Hf : is_Some (resolveExisting h (rs_FakePath s))).
    { assert (Ht : is_ok (Bwrap_Command h bin p prog args) = true) by (by rewrite Hc). apply Hok in Ht as (_ & Ht).
      rewrite substitutes_ok in Ht. apply (Ht s); [rewrite Hl; set_solver|by eexists]. }
    destruct Hf as (fake & Hf). exists fake. split; [done|].
    rewrite (command_parts _ _ _ _ _ _ _ Hc), !deciding_app. unfold sub_mounts. rewrite Hl, omap_app, deciding_app.
    change (s :: l2) with ([s] ++ l2). rewrite omap_app, deciding_app.
    rewrite (proj2 (deciding_None (omap (sub_mount h) l2) real)).
    2: { intros m (s' & Hs' & Hm)%list_elem_of_omap. unfold sub_mount in Hm.
         destruct (resolveExisting h (rs_RealPath s')) eqn:E; [|done]. destruct (resolveExisting h (rs_FakePath s')); [|done].
         injection Hm as <-. by apply (Hlater s'). }
    assert (E : omap (sub_mount h) [s] = [Bind fake real false]) by (simpl; unfold sub_mount; by rewrite Hreal, Hf).
    rewrite E. unfold deciding. simpl. unfold covers. by rewrite (bool_decide_eq_true_2 (real = real)), orb_true_r by done.
Qed.

(** *** Quoting for the shell *)

(** The shell that starts the relay runs it with exactly the relay's fields as its
    arguments, whatever characters they hold: a quote in one of them neither ends an
    argument nor starts a command. *)
Theorem relay_started_as_meant (r : Relay) :
  sh_words 8 (relay_script r) = Some
    [re_BinaryInSandbox r; "relay"; "--listen"; re_Listen r; "--unix";
     trim_suffix (re_SocketDirInSandbox r) "/" +:+ "/" +:+ re_SocketName r; "--ready";
     trim_suffix (dir (re_BinaryInSandbox r)) "/" +:+ "/relay.ready"].
Proof.
  unfold relay_script, q.
  set (d := trim_suffix (dir (re_BinaryInSandbox r)) "/"). set (sock := trim_suffix (re_SocketDirInSandbox r) "/").
  rewrite sh_words_q by done. cbv beta.
  transitivity (cons (re_BinaryInSandbox r) <$> (cons "relay" <$> (cons "--listen" <$> (cons (re_Listen r) <$> (cons "--unix" <$>
    (cons (sock +:+ "/" +:+ re_SocketName r) <$> (cons "--ready" <$> (cons (d +:+ "/relay.ready") <$> Some [])))))))); [|done].
  f_equal. etrans; [apply (sh_words_plain _ _ "elay"); done|]. f_equal.
  etrans; [apply (sh_words_plain _ _ "-listen"); done|]. f_equal.
  etrans; [apply sh_words_space; done|]. f_equal.
  etrans; [apply (sh_words_plain _ _ "-unix"); done|]. f_equal.
  etrans; [apply sh_words_space; done|]. f_equal.
  etrans; [apply (sh_words_plain _ _ "-ready"); done|]. f_equal.
  etrans; [apply sh_words_space; done|]. done.
Qed.

(** ** Witnesses *)

Definition demo_dirs : list string := ["/home/u"; "/home/u/w"; "/home/u/.ssh"; "/home/u/w/.git/hooks"; "/tmp"].
Definition demo_files : list string := ["/home/u/.aws/credentials"; "/m/credentials"].
Definition demo_host : Host :=
  mkHost (mkOS Linux (λ p, if bool_decide (p ∈ demo_dirs ++ demo_files) then Some p else None) (Ok "/home/u") "/home/u" (λ _, false))
    "/tmp" false (λ p, if bool_decide (p ∈ demo_dirs) then Some true else if bool_decide (p ∈ demo_files) then Some false else None)
    (λ p, bool_decide (p ∈ demo_dirs ++ demo_files)).
Definition demo_policy : OSPolicy :=
  mkPol "/home/u/w" ["~/.ssh"; "~/.gone"] [] [mkSub "/home/u/.aws/credentials" "/m/credentials"] ["/home/u/w/.git/hooks"] 0 false None.
Definition demo_full : list string := match Bwrap_Command demo_host "" demo_policy "/bin/ls" ["-l"] with Ok (_, l) => l | Err _ => [] end.

(** Below the protected directory nothing is writable. *)
Example demo_hooks : sees (mounts demo_full) "/home/u/w/.git/hooks/pre-commit" = Some (OnHost "/home/u/w/.git/hooks/pre-commit" false).
Proof. vm_compute. reflexivity. Qed.

Lemma sandbox_fails_closed_witness :
  deciding (mounts demo_full) "/home/u/.aws/credentials" = Some (Bind "/m/credentials" "/home/u/.aws/credentials" false).
Proof.
  destruct (proj2 (sandbox_fails_closed demo_host "" demo_policy "/bin/ls" ["-l"]) "bwrap" demo_full []
    (mkSub "/home/u/.aws/credentials" "/m/credentials") [] "/home/u/.aws/credentials") as (fake & Hf & Hd);
    [vm_compute; reflexivity|reflexivity|vm_compute; reflexivity|by intros ? ? ?%elem_of_nil|].
  assert (E : resolveExisting demo_host "/m/credentials" = Some "/m/credentials") by (vm_compute; reflexivity).
  assert (Some fake = Some "/m/credentials") as [= ->] by (rewrite <- E; symmetry; exact Hf). exact Hd.
Defined.
