(* ===== verification/Seatbelt.v ===== *)
(** pkg/sandbox/seatbelt.go: the profile sandbox-exec is started with.

    The profile is written rule by rule; each rule is an S-expression with its text.
    [rules] gives the rules in the order the code writes them, [BuildSeatbeltProfile]
    their text, and [read_profile] reads a text back. What a profile allows follows
    the documented reading: everything is denied, and the last rule that matches an
    operation decides it. *)

From S2P Require Import Prelude GoStrings GoPaths PermTypes PermManager OsSandbox.

(** ** Expressions and their text *)

Inductive sexp := Atom (s : string) | Str (s : string) | Regex (s : string) | Lst (l : list sexp).

(** The replacer of [sbplString]: a backslash before a backslash or a quote. *)
Fixpoint sbpl_escape (s : string) : string :=
  match s with
  | EmptyString => EmptyString
  | String c s => if bool_decide (c = backslash) || bool_decide (c = dquote) then String backslash (String c (sbpl_escape s))
                  else String c (sbpl_escape s)
  end.
Definition sbpl_quote (s : string) : string := String dquote (sbpl_escape s +:+ str1 dquote).

(** [func sbplString(p) string] *)
Definition sbplString (p : string) : string := sbpl_quote (clean p).
Definition path_str (p : string) : sexp := Str (clean p).

Fixpoint render (e : sexp) : string :=
  match e with
  | Atom s => s
  | Str s => sbpl_quote s
  | Regex s => "#" +:+ str1 dquote +:+ s +:+ str1 dquote
  | Lst l => "(" +:+ join " " (render <$> l) +:+ ")"
  end.
Definition render_line (e : sexp) : string := render e +:+ str1 newline.

(** ** The rules *)

Definition rule (action op : string) (filters : list sexp) : sexp := Lst (Atom action :: Atom op :: filters).
Definition allow_rule (op : string) (filters : list sexp) : sexp := rule "allow" op filters.
Definition deny_rule (op : string) (filters : list sexp) : sexp := rule "deny" op filters.
Definition subpath (e : sexp) : sexp := Lst [Atom "subpath"; e].

Definition run_rules : list sexp :=
  [Lst [Atom "version"; Atom "1"]; deny_rule "default" []; allow_rule "process*" []; allow_rule "pseudo-tty" [];
   allow_rule "file-ioctl" [subpath (Str "/dev")]; allow_rule "signal" [Lst [Atom "target"; Atom "same-sandbox"]];
   allow_rule "file-read-metadata" []; allow_rule "sysctl-read" []; allow_rule "mach-lookup" []; allow_rule "ipc-posix-shm" []].

Definition network_rules (p : OSPolicy) : list sexp :=
  if po_NetworkNone p then []
  else if bool_decide (0 < po_ProxyOnlyPort p)%Z then
    [allow_rule "network-outbound" [Lst [Atom "remote"; Atom "ip"; path_str ("localhost:" +:+ itoa (po_ProxyOnlyPort p))]];
     allow_rule "network-outbound" [Lst [Atom "remote"; Atom "unix-socket"; Str "/var/run/mDNSResponder"]];
     allow_rule "network-bind" [Lst [Atom "local"; Atom "ip"; Str "localhost:*"]]]
  else [allow_rule "network-outbound" []].

(** Reads: all, the hard-locked paths taken back, the preference roots given again. *)
Definition home_prefs (h : Host) : list string :=
  let home := os_user_home (ho_os h) in if bool_decide (home = "") then [] else [join2 home "Library/Preferences"].
Definition prefs (h : Host) : list string := ["/Library/Preferences"; "/Library/Managed Preferences"] ++ home_prefs h.
Definition read_rules (h : Host) (p : OSPolicy) : list sexp :=
  [allow_rule "file-read*" []] ++
  ((λ d, deny_rule "file-read*" [subpath (path_str d)]) <$> keep (λ d, negb (bool_decide (d = "/"))) (expanded h (po_ReadDeny p))) ++
  ((λ d, allow_rule "file-read*" [subpath (path_str d)]) <$> prefs h).
Definition extension_rules (h : Host) : list sexp :=
  [allow_rule "file-issue-extension" [subpath (Str "/Library/Preferences")];
   allow_rule "file-issue-extension" [subpath (Str "/Library/Managed Preferences")]] ++
  ((λ d, allow_rule "file-issue-extension" [subpath (path_str d)]) <$> home_prefs h) ++
  [allow_rule "mach-lookup" [Lst [Atom "global-name"; Str "com.apple.cfprefsd.daemon"]];
   allow_rule "mach-lookup" [Lst [Atom "global-name"; Str "com.apple.cfprefsd.agent"]]].

(** [regexp.QuoteMeta] and the pattern of the shells' state files. *)
Fixpoint quote_meta (s : string) : string :=
  match s with
  | EmptyString => EmptyString
  | String c s => if mem_char c "\.+*?()|[]{}^$" then String backslash (String c (quote_meta s)) else String c (quote_meta s)
  end.
Definition shellStateRegex (h : Host) : string :=
  let home := os_user_home (ho_os h) in
  if bool_decide (home = "") then ""
  else "^" +:+ quote_meta home +:+ "/(\.zsh_history|\.zcompdump|\.bash_history|\.zsh_sessions)[^/]*$".

Definition seatbelt_temp (h : Host) : list string := ["/tmp"; "/private/tmp"; ho_temp h; "/dev"].
Definition writable_roots (h : Host) (p : OSPolicy) : list string :=
  keep (λ d, negb (bool_decide (d = "/") || bool_decide (d = ""))) (expanded h ((po_WorkDir p :: po_WriteAllow p) ++ seatbelt_temp h)).
Definition write_rules (h : Host) (p : OSPolicy) : list sexp :=
  let rules := (λ d, subpath (path_str d)) <$> writable_roots h p in
  let rx := shellStateRegex h in
  (match rules with [] => [] | _ => [allow_rule "file-write*" rules] end) ++
  (if bool_decide (rx ≠ "") && negb (mem_char dquote rx) then [allow_rule "file-write*" [Lst [Atom "regex"; Regex rx]]] else []) ++
  ((λ d, deny_rule "file-write*" [subpath (path_str d)]) <$> expanded h (po_WriteDeny p)).

Definition masked_rules (h : Host) (p : OSPolicy) : list sexp :=
  (λ m, deny_rule "file-read*" [Lst [Atom "literal"; path_str (real_path h (rs_RealPath m))]]) <$> po_ReadSubstitute p.

(** [func BuildSeatbeltProfile(policy) (string, error)]: it never fails. *)
Definition rules (h : Host) (p : OSPolicy) : list sexp :=
  run_rules ++ network_rules p ++ read_rules h p ++ extension_rules h ++ write_rules h p ++ masked_rules h p.
Definition BuildSeatbeltProfile (h : Host) (p : OSPolicy) : string := foldr (λ e s, render_line e +:+ s) "" (rules h p).

(** [func (s *Seatbelt) Command(policy, path, args)] *)
Definition Seatbelt_Command (h : Host) (bin : string) (p : OSPolicy) (path : string) (args : list string)
    : result (string * list string) :=
  Ok ((if bool_decide (bin = "") then "/usr/bin/sandbox-exec" else bin), ["-p"; BuildSeatbeltProfile h p; "--"; path] ++ args).

(** ** Noise *)

(** [func seatbeltNoise(line) bool] and [func StripSeatbeltNoise(stderr) string] *)
Definition noise_prefix : string := "sandbox_extension_issue_file failed for ".
Definition seatbeltNoise (line : string) : bool :=
  has_prefix line noise_prefix && (contains line "/Library/Preferences" || contains line "/Library/Managed Preferences").
Definition StripSeatbeltNoise (stderr : string) : string :=
  if bool_decide (stderr = "") || negb (contains stderr noise_prefix) then stderr
  else join (str1 newline) (keep (λ l, negb (seatbeltNoise l)) (split newline stderr)).

(** ** Choosing the backend *)

Inductive SandboxMode := SbOff | SbAuto | SbBwrap | SbSeatbelt | SbOther (s : string).
Inductive Wrapper := WBwrap (path : string) | WSeatbelt (path : string).

(** What the host says of the backends: whether each can run here ([Available], which
    starts a probe) and where a program is found ([exec.LookPath]). *)
Record Backends := mkBackends { bk_available : Wrapper → result unit; bk_lookup : string → option string }.

Definition detect (goos : GOOS) : option Wrapper :=
  match goos with Linux => Some (WBwrap "bwrap") | Darwin => Some (WSeatbelt "/usr/bin/sandbox-exec") | _ => None end.
Definition firstNonEmpty (a b : string) : string := if bool_decide (a = "") then b else a.
Definition pinned (b : Backends) (w : Wrapper) : Wrapper :=
  match w with
  | WBwrap p => WBwrap (default p (bk_lookup b p))
  | WSeatbelt p => WSeatbelt (default p (bk_lookup b p))
  end.
Definition probed (b : Backends) (auto : bool) (w : Wrapper) : result (option Wrapper) :=
  match bk_available b w with
  | Err e => if auto then Ok None else Err e
  | Ok _ => Ok (Some (pinned b w))
  end.

(** [func Resolve(mode, bwrapPath, sandboxExecPath) (Wrapper, error)] *)
Definition Resolve (b : Backends) (goos : GOOS) (mode : SandboxMode) (bwrapPath sandboxExecPath : string) : result (option Wrapper) :=
  match mode with
  | SbOff => Ok None
  | SbAuto => match detect goos with None => Ok None | Some w => probed b true w end
  | SbBwrap => probed b false (WBwrap (firstNonEmpty bwrapPath "bwrap"))
  | SbSeatbelt => probed b false (WSeatbelt (firstNonEmpty sandboxExecPath "/usr/bin/sandbox-exec"))
  | SbOther m => Err ("unknown sandbox mode " +:+ quote m +:+ " (expected off|auto|bwrap|seatbelt)")
  end.

(** [Wrapper.Command] and [func Apply(w, policy, path, args)] *)
Definition Command (h : Host) (w : Wrapper) (p : OSPolicy) (path : string) (args : list string) : result (string * list string) :=
  match w with WBwrap bin => Bwrap_Command h bin p path args | WSeatbelt bin => Seatbelt_Command h bin p path args end.
Definition Apply (h : Host) (w : option Wrapper) (p : OSPolicy) (path : string) (args : list string) : result (string * list string) :=
  match w with None => Ok (path, args) | Some w => Command h w p path args end.

(** pkg/toolbox/sandbox.go: what is installed, and [func wrapSandbox(cmd)], which gives
    the program and the arguments of the process. *)
Record Installed := mkInstalled {
  in_wrapper : option Wrapper;
  in_policy : OSPolicy;
  in_provider : option (Host → OSPolicy);
}.
Definition SetSandbox (w : option Wrapper) (p : OSPolicy) (i : Installed) : Installed :=
  mkInstalled w p (match w with None => None | Some _ => in_provider i end).
Definition SetSandboxPolicyFunc (f : option (Host → OSPolicy)) (i : Installed) : Installed :=
  mkInstalled (in_wrapper i) (in_policy i) f.
Definition wrapSandbox (h : Host) (b : Backends) (i : Installed) (path : string) (args : list string) : result (string * list string) :=
  match in_wrapper i with
  | None => Ok (path, args)
  | Some w =>
      let p := match in_provider i with Some f => f h | None => in_policy i end in
      let! r := wrap_err "os sandbox: " (Apply h (Some w) p path args) in
      Ok ((if mem_char slash r.1 then r.1 else default r.1 (bk_lookup b r.1)), r.2)
  end.

(** ** Reading a profile *)

Inductive token := TOpen | TClose | TAtom (s : string) | TStr (s : string) | TRegex (s : string).
Inductive lmode := Between | InAtom (acc : string) | InStr (acc : string) | InEsc (acc : string) | Sharp | InRegex (acc : string).

Definition open_paren : char := "("%char.
Definition close_paren : char := ")"%char.
Definition sharp : char := "#"%char.
Definition emit_atom (m : lmode) (k : option (list token)) : option (list token) :=
  match m with InAtom a => cons (TAtom a) <$> k | _ => k end.

Fixpoint lex (m : lmode) (s : string) : option (list token) :=
  match s with
  | EmptyString => match m with Between => Some [] | InAtom a => Some [TAtom a] | _ => None end
  | String c s =>
      match m with
      | InStr a => if bool_decide (c = backslash) then lex (InEsc a) s
                   else if bool_decide (c = dquote) then cons (TStr a) <$> lex Between s else lex (InStr (a +:+ str1 c)) s
      | InEsc a => lex (InStr (a +:+ str1 c)) s
      | Sharp => if bool_decide (c = dquote) then lex (InRegex "") s else None
      | InRegex a => if bool_decide (c = dquote) then cons (TRegex a) <$> lex Between s else lex (InRegex (a +:+ str1 c)) s
      | _ =>
          if bool_decide (c = open_paren) then emit_atom m (cons TOpen <$> lex Between s)
          else if bool_decide (c = close_paren) then emit_atom m (cons TClose <$> lex Between s)
          else if is_space c then emit_atom m (lex Between s)
          else if bool_decide (c = dquote) then emit_atom m (lex (InStr "") s)
          else if bool_decide (c = sharp) then emit_atom m (lex Sharp s)
          else lex (InAtom (match m with InAtom a => a +:+ str1 c | _ => str1 c end)) s
      end
  end.

Fixpoint parse (ts : list token) (cur : list sexp) (stack : list (list sexp)) : option (list sexp) :=
  match ts with
  | [] => match stack with [] => Some (rev cur) | _ => None end
  | TOpen :: ts => parse ts [] (cur :: stack)
  | TClose :: ts => match stack with [] => None | outer :: stack => parse ts (Lst (rev cur) :: outer) stack end
  | TAtom s :: ts => parse ts (Atom s :: cur) stack
  | TStr s :: ts => parse ts (Str s :: cur) stack
  | TRegex s :: ts => parse ts (Regex s :: cur) stack
  end.
Definition read_profile (text : string) : option (list sexp) :=
  match lex Between text with Some ts => parse ts [] [] | None => None end.

(** ** What a profile allows *)

(** An operation is on a path, or on a destination of the network given by the kind
    and the name the profile's filters use; [rx] matches regular expressions. *)
Inductive object := OnPath (p : string) | OnNet (kind name : string).

Section Decisions.
Variable rx : string → string → bool.

Definition filter_matches (o : object) (f : sexp) : bool :=
  match o, f with
  | OnPath p, Lst [Atom a; Str s] =>
      (bool_decide (a = "subpath") && covers s p) || (bool_decide (a = "literal") && bool_decide (p = s))
  | OnPath p, Lst [Atom a; Regex r] => bool_decide (a = "regex") && rx r p
  | OnNet kind name, Lst [Atom a; Atom k; Str s] => bool_decide (a = "remote") && bool_decide (k = kind) && bool_decide (s = name)
  | _, _ => false
  end.
(** Whether a rule speaks of an operation, and if so whether it allows it. *)
Definition verdict (op : string) (o : object) (e : sexp) : option bool :=
  match e with
  | Lst (Atom a :: Atom op' :: fs) =>
      if (bool_decide (op' = op) || bool_decide (op' = "default")) && (bool_decide (fs = []) || any (filter_matches o) fs)
      then if bool_decide (a = "allow") then Some true else if bool_decide (a = "deny") then Some false else None
      else None
  | _ => None
  end.
Definition allowed (op : string) (o : object) (l : list sexp) : bool := default false (last (omap (verdict op o) l)).
End Decisions.

(** ** Lemmas *)

(** *** The text of a profile *)

Section SexpInd.
Variable P : sexp → Prop.
Hypothesis HAtom : ∀ s, P (Atom s).
Hypothesis HStr : ∀ s, P (Str s).
Hypothesis HRegex : ∀ s, P (Regex s).
Hypothesis HLst : ∀ l, Forall P l → P (Lst l).
Fixpoint sexp_nested (e : sexp) : P e :=
  match e with
  | Atom s => HAtom s
  | Str s => HStr s
  | Regex s => HRegex s
  | Lst l => HLst l ((fix go (l : list sexp) : Forall P l :=
                        match l with [] => List.Forall_nil P | x :: l => @List.Forall_cons sexp P x l (sexp_nested x) (go l) end) l)
  end.
End SexpInd.

Fixpoint toks (e : sexp) : list token :=
  match e with
  | Atom s => [TAtom s]
  | Str s => [TStr s]
  | Regex s => [TRegex s]
  | Lst l => TOpen :: concat (toks <$> l) ++ [TClose]
  end.

(** Atoms without special characters, patterns without a quote. *)
Fixpoint atom_chars (s : string) : bool :=
  match s with
  | EmptyString => true
  | String c s => negb (bool_decide (c = open_paren)) && negb (bool_decide (c = close_paren)) && negb (is_space c)
                  && negb (bool_decide (c = dquote)) && negb (bool_decide (c = sharp)) && atom_chars s
  end.
Fixpoint wf (e : sexp) : bool :=
  match e with
  | Atom s => negb (bool_decide (s = "")) && atom_chars s
  | Str _ => true
  | Regex s => negb (mem_char dquote s)
  | Lst l => forallb wf l
  end.

Definition ends_token (rest : string) : Prop :=
  match rest with EmptyString => True | String c _ => c = close_paren ∨ c = " "%char ∨ c = newline end.

Lemma lex_str s : ∀ a rest, lex (InStr a) (sbpl_escape s +:+ String dquote rest) = cons (TStr (a +:+ s)) <$> lex Between rest.
Proof.
  induction s as [|c s IH]; intros a rest; cbn [sbpl_escape].
  - change ("" +:+ String dquote rest) with (String dquote rest). cbn [lex]. rewrite (bool_decide_eq_false_2 (dquote = backslash)) by done.
    rewrite bool_decide_eq_true_2 by done. by rewrite app_nil_r_str.
  - destruct (bool_decide_reflect (c = backslash)) as [->|Hb]; [|destruct (bool_decide_reflect (c = dquote)) as [->|Hd]]; cbn [orb];
      rewrite ?app_cons_str; cbn [lex].
    + rewrite bool_decide_eq_true_2 by done. rewrite IH. by rewrite app_assoc_str.
    + rewrite bool_decide_eq_true_2 by done. rewrite IH. by rewrite app_assoc_str.
    + rewrite !bool_decide_eq_false_2 by done. rewrite IH. by rewrite app_assoc_str.
Qed.

Lemma lex_regex s : ∀ a rest, mem_char dquote s = false →
  lex (InRegex a) (s +:+ String dquote rest) = cons (TRegex (a +:+ s)) <$> lex Between rest.
Proof.
  induction s as [|c s IH]; intros a rest Hm.
  - change ("" +:+ String dquote rest) with (String dquote rest). cbn [lex]. rewrite bool_decide_eq_true_2 by done.
    by rewrite app_nil_r_str.
  - cbn [mem_char] in Hm. apply orb_false_iff in Hm as (Hc & Hm). apply bool_decide_eq_false in Hc.
    rewrite app_cons_str. cbn [lex]. rewrite bool_decide_eq_false_2 by congruence. rewrite IH by done. by rewrite app_assoc_str.
Qed.

Lemma lex_atom_end a rest : ends_token rest → lex (InAtom a) rest = cons (TAtom a) <$> lex Between rest.
Proof. destruct rest as [|c rest]; [done|]. by intros [->|[->| ->]]. Qed.

Lemma lex_atom s : ∀ m rest, atom_chars s = true → ends_token rest →
  match m with Between => s ≠ "" | InAtom _ => True | _ => False end →
  lex m (s +:+ rest) = cons (TAtom (match m with InAtom a => a +:+ s | _ => s end)) <$> lex Between rest.
Proof.
  induction s as [|c s IH]; intros m rest Hs Hr Hm.
  - destruct m as [|a| | | |]; try done. change ("" +:+ rest) with rest. rewrite app_nil_r_str. by apply lex_atom_end.
  - cbn [atom_chars] in Hs. rewrite !andb_true_iff, !negb_true_iff in Hs. destruct Hs as (((((H1 & H2) & H3) & H4) & H5) & Hs).
    rewrite app_cons_str. destruct m as [|a| | | |]; try done; cbn [lex]; rewrite H1, H2, H3, H4, H5; rewrite IH by done.
    + done.
    + by rewrite app_assoc_str.
Qed.

(** The text of expressions reads back, one by one, separated by spaces. *)
Definition text_reads (e : sexp) : Prop := wf e = true → ∀ rest ts,
  ends_token rest → lex Between rest = Some ts → lex Between (render e +:+ rest) = Some (toks e ++ ts).

Lemma list_reads l : Forall text_reads l → forallb wf l = true → ∀ rest ts,
  ends_token rest → lex Between rest = Some ts → lex Between (join " " (render <$> l) +:+ rest) = Some (concat (toks <$> l) ++ ts).
Proof.
  induction l as [|e l IH]; intros Hl Hwf rest ts Hr Hts; [done|]. apply Forall_cons in Hl as (He & Hl).
  cbn [forallb] in Hwf. apply andb_true_iff in Hwf as (Hwe & Hwl). destruct l as [|e' l].
  - simpl. rewrite app_nil_r. by apply He.
  - change (join " " (render <$> e :: e' :: l)) with (render e +:+ " " +:+ join " " (render <$> e' :: l)).
    change (concat (toks <$> e :: e' :: l)) with (toks e ++ concat (toks <$> e' :: l)).
    rewrite !app_assoc_str, <- app_assoc. apply He; [done|by right; left|].
    transitivity (lex Between (join " " (render <$> e' :: l) +:+ rest)); [done|by apply IH].
Qed.

Lemma render_reads e : text_reads e.
Proof.
  induction e as [s|s|s|l IH] using sexp_nested; intros Hwf rest ts Hr Hts; cbn [wf] in Hwf.
  - apply andb_true_iff in Hwf as (Hn & Hs). apply negb_true_iff, bool_decide_eq_false in Hn. cbn [render].
    rewrite lex_atom by done. by rewrite Hts.
  - cbn [render toks]. unfold sbpl_quote. rewrite app_cons_str, app_assoc_str. change (str1 dquote +:+ rest) with (String dquote rest).
    cbn [lex]. transitivity (lex (InStr "") (sbpl_escape s +:+ String dquote rest)); [done|]. rewrite lex_str, Hts. done.
  - apply negb_true_iff in Hwf. cbn [render toks].
    transitivity (lex (InRegex "") (s +:+ String dquote rest)).
    { rewrite !app_assoc_str. change (str1 dquote +:+ rest) with (String dquote rest). done. }
    rewrite lex_regex by done. by rewrite Hts.
  - cbn [render toks]. rewrite !app_assoc_str.
    assert (Hb : lex Between (join " " (render <$> l) +:+ ")" +:+ rest) = Some (concat (toks <$> l) ++ TClose :: ts)).
    { apply list_reads; [done|done|by left|]. transitivity (cons TClose <$> lex Between rest); [done|]. by rewrite Hts. }
    transitivity (cons TOpen <$> lex Between (join " " (render <$> l) +:+ ")" +:+ rest)); [done|]. rewrite Hb. simpl.
    by rewrite <- app_assoc.
Qed.

Lemma parse_toks e : ∀ ts cur stack, parse (toks e ++ ts) cur stack = parse ts (e :: cur) stack.
Proof.
  induction e as [s|s|s|l IH] using sexp_nested; intros ts cur stack; try done. cbn [toks].
  transitivity (parse (concat (toks <$> l) ++ TClose :: ts) [] (cur :: stack)).
  { simpl. f_equal. by rewrite <- app_assoc. }
  assert (Hl : ∀ acc, parse (concat (toks <$> l) ++ TClose :: ts) acc (cur :: stack) = parse ts (Lst (rev acc ++ l) :: cur) stack).
  { induction IH as [|x l Hx _ IHl]; intros acc; simpl; [by rewrite app_nil_r|].
    rewrite <- app_assoc, Hx, IHl. simpl. by rewrite <- app_assoc. }
  apply Hl.
Qed.

Lemma profile_reads l : forallb wf l = true → read_profile (foldr (λ e s, render_line e +:+ s) "" l) = Some l.
Proof.
  intros Hwf. unfold read_profile.
  assert (Hlex : lex Between (foldr (λ e s, render_line e +:+ s) "" l) = Some (concat (toks <$> l))).
  { induction l as [|e l IH]; [done|]. cbn [forallb] in Hwf. apply andb_true_iff in Hwf as (He & Hl). cbn [foldr].
    unfold render_line at 1. rewrite app_assoc_str. apply render_reads; [done|by right; right|].
    change (str1 newline +:+ ?x) with (String newline x). cbn [lex]. by apply IH. }
  rewrite Hlex.
  assert (Hp : ∀ acc, parse (concat (toks <$> l)) acc [] = Some (rev acc ++ l)).
  { clear. induction l as [|e l IH]; intros acc; simpl; [by rewrite app_nil_r|].
    rewrite parse_toks, IH. simpl. by rewrite <- app_assoc. }
  apply Hp.
Qed.

Lemma wf_app l1 l2 : forallb wf (l1 ++ l2) = forallb wf l1 && forallb wf l2.
Proof. apply forallb_app. Qed.
Lemma wf_map {A} (f : A → sexp) l : (∀ x, wf (f x) = true) → forallb wf (f <$> l) = true.
Proof. intros Hf. induction l as [|x l IH]; [done|]. simpl. by rewrite Hf. Qed.

Lemma rules_wf h p : forallb wf (rules h p) = true.
Proof.
  unfold rules, network_rules, read_rules, extension_rules, write_rules, masked_rules. rewrite !wf_app, !andb_true_iff. split_and!;
    try done; try by apply wf_map.
  - destruct (po_NetworkNone p); [done|]. by case_bool_decide.
  - pose proof (wf_map (λ d, subpath (path_str d)) (writable_roots h p)) as Hw.
    destruct ((λ d, subpath (path_str d)) <$> writable_roots h p) as [|x l]; [done|]. cbn [forallb wf allow_rule rule] in *. rewrite Hw by done. done.
  - destruct (bool_decide _); simpl; [|done]. destruct (mem_char dquote (shellStateRegex h)) eqn:E; simpl; [done|]. by rewrite E.
Qed.

(** *** What the rules decide *)

Section Rulings.
Variable rx : string → string → bool.

Definition ruling (op : string) (o : object) (l : list sexp) : option bool := last (omap (verdict rx op o) l).

Lemma allowed_ruling op o l : allowed rx op o l = default false (ruling op o l).
Proof. done. Qed.

Lemma ruling_app op o l1 l2 : ruling op o (l1 ++ l2) = match ruling op o l2 with Some b => Some b | None => ruling op o l1 end.
Proof. unfold ruling. by rewrite omap_app, last_app. Qed.

Lemma ruling_silent op o l : (∀ e, e ∈ l → verdict rx op o e = None) → ruling op o l = None.
Proof.
  intros Hl. unfold ruling. rewrite last_None. induction l as [|e l IH]; [done|]. cbn [omap list_omap].
  rewrite (Hl e) by by left. apply IH. intros e' He. apply Hl. by right.
Qed.

Lemma ruling_map {A} op o (f : A → sexp) l : (∀ x, verdict rx op o (f x) = None) → ruling op o (f <$> l) = None.
Proof. intros Hf. apply ruling_silent. intros e (x & -> & _)%list_elem_of_fmap. apply Hf. Qed.

(** Rules that all say the same, where they say anything. *)
Lemma ruling_uniform {A} op o (f : A → sexp) (m : A → bool) b l :
  (∀ x, verdict rx op o (f x) = if m x then Some b else None) → ruling op o (f <$> l) = if any m l then Some b else None.
Proof.
  intros Hf. induction l as [|x l IH] using rev_ind; [done|]. rewrite fmap_app, ruling_app. unfold any in *. rewrite existsb_app. simpl.
  unfold ruling at 1. simpl. rewrite Hf. rewrite orb_false_r. destruct (m x); simpl; [by rewrite orb_true_r|].
  rewrite orb_false_r. exact IH.
Qed.

Lemma verdict_subpath action op p s :
  verdict rx op (OnPath p) (rule action op [subpath (path_str s)]) =
  if covers (clean s) p then (if bool_decide (action = "allow") then Some true else if bool_decide (action = "deny") then Some false else None) else None.
Proof.
  unfold verdict, rule, subpath, path_str. rewrite bool_decide_eq_true_2 by done. cbn [orb andb any existsb filter_matches].
  rewrite (bool_decide_eq_false_2 (_ = [])) by done. rewrite (bool_decide_eq_true_2 ("subpath" = "subpath")) by done.
  rewrite (bool_decide_eq_false_2 ("subpath" = "literal")) by done. cbn [orb andb]. by rewrite !orb_false_r.
Qed.
End Rulings.

Section Decided.
Variables (rx : string → string → bool) (h : Host) (p : OSPolicy).

Definition read_op : string := "file-read*".
Definition write_op : string := "file-write*".
Definition net_op : string := "network-outbound".

Lemma run_ruling op o : verdict rx op o (deny_rule "default" []) = Some false →
  (∀ e, e ∈ drop 2 run_rules → verdict rx op o e = None) → ruling rx op o run_rules = Some false.
Proof.
  intros Hd Hs. change run_rules with ([Lst [Atom "version"; Atom "1"]; deny_rule "default" []] ++ drop 2 run_rules).
  rewrite ruling_app, (ruling_silent _ _ _ (drop 2 run_rules)) by done.
  change ([?a; ?b]) with ([a] ++ [b]). rewrite ruling_app. unfold ruling at 1. cbn [omap list_omap last]. by rewrite Hd.
Qed.

Ltac silent :=
  apply ruling_silent; intros e He; repeat (apply elem_of_cons in He as [->|He]; [reflexivity|]); by apply elem_of_nil in He.

Lemma run_write path : ruling rx write_op (OnPath path) run_rules = Some false.
Proof.
  apply run_ruling; [done|]. intros e He. cbn in He. repeat (apply elem_of_cons in He as [->|He]; [reflexivity|]). by apply elem_of_nil in He.
Qed.
Lemma run_net kind name : ruling rx net_op (OnNet kind name) run_rules = Some false.
Proof.
  apply run_ruling; [done|]. intros e He. cbn in He. repeat (apply elem_of_cons in He as [->|He]; [reflexivity|]). by apply elem_of_nil in He.
Qed.

Lemma network_path op path : op = read_op ∨ op = write_op → ruling rx op (OnPath path) (network_rules p) = None.
Proof. unfold network_rules. intros [->| ->]; destruct (po_NetworkNone p); [done| |done|]; case_bool_decide; silent. Qed.

Lemma extension_path op o : op = read_op ∨ op = write_op ∨ op = net_op → ruling rx op o (extension_rules h) = None.
Proof.
  intros Hop. unfold extension_rules. rewrite !ruling_app, ruling_map.
  - by destruct Hop as [->|[->| ->]]; destruct o.
  - intros x. by destruct Hop as [->|[->| ->]].
Qed.

(** Whether one of the paths [l] lies at or above [path]. *)
Definition under (l : list string) (path : string) : bool := any (λ d, covers (clean d) path) l.

Lemma subpath_map action op path (l : list string) :
  ruling rx op (OnPath path) ((λ d, rule action op [subpath (path_str d)]) <$> l) =
  if under l path then (if bool_decide (action = "allow") then Some true else if bool_decide (action = "deny") then Some false else None) else None.
Proof.
  destruct (bool_decide (action = "allow")) eqn:E; [|destruct (bool_decide (action = "deny")) eqn:E'].
  - apply ruling_uniform. intros x. by rewrite verdict_subpath, E.
  - apply ruling_uniform. intros x. by rewrite verdict_subpath, E, E'.
  - rewrite ruling_map; [by destruct (under l path)|]. intros x. rewrite verdict_subpath, E, E'. by destruct (covers _ _).
Qed.

Definition locked_path (path : string) : bool := under (keep (λ d, negb (bool_decide (d = "/"))) (expanded h (po_ReadDeny p))) path.
Definition masked_path (path : string) : bool := any (λ m, bool_decide (path = clean (real_path h (rs_RealPath m)))) (po_ReadSubstitute p).
Definition shell_state (path : string) : bool :=
  bool_decide (shellStateRegex h ≠ "") && negb (mem_char dquote (shellStateRegex h)) && rx (shellStateRegex h) path.

Lemma masked_read path : ruling rx read_op (OnPath path) (masked_rules h p) = if masked_path path then Some false else None.
Proof.
  apply ruling_uniform. intros m. unfold verdict, deny_rule, rule, path_str.
  rewrite bool_decide_eq_true_2 by done. cbn [orb andb any existsb filter_matches].
  rewrite (bool_decide_eq_false_2 (_ = [])) by done. rewrite (bool_decide_eq_false_2 ("literal" = "subpath")) by done.
  rewrite (bool_decide_eq_true_2 ("literal" = "literal")) by done. cbn [orb andb]. rewrite orb_false_r.
  by destruct (bool_decide _).
Qed.

Lemma read_ruling path : ruling rx read_op (OnPath path) (rules h p) =
  Some (negb (masked_path path) && (under (prefs h) path || negb (locked_path path))).
Proof.
  unfold rules. rewrite !ruling_app, masked_read. destruct (masked_path path); [done|].
  assert (Hw : ruling rx read_op (OnPath path) (write_rules h p) = None).
  { apply ruling_silent. unfold write_rules. intros e [He|[He|He]%elem_of_app]%elem_of_app.
    - destruct (_ <$> writable_roots h p); [by apply elem_of_nil in He|]. by apply list_elem_of_singleton in He as ->.
    - destruct (_ && _); [|by apply elem_of_nil in He]. by apply list_elem_of_singleton in He as ->.
    - by apply list_elem_of_fmap in He as (d & -> & _). }
  rewrite Hw, extension_path by auto. unfold read_rules. rewrite !ruling_app.
  rewrite (subpath_map "allow" read_op), (subpath_map "deny" read_op). fold (locked_path path).
  destruct (under (prefs h) path); [done|]. by destruct (locked_path path).
Qed.

Lemma write_ruling path : ruling rx write_op (OnPath path) (rules h p) =
  Some (negb (under (expanded h (po_WriteDeny p)) path) && (shell_state path || under (writable_roots h p) path)).
Proof.
  unfold rules. rewrite !ruling_app.
  assert (Hm : ruling rx write_op (OnPath path) (masked_rules h p) = None) by (by apply ruling_map).
  rewrite Hm. unfold write_rules. rewrite !ruling_app, (subpath_map "deny" write_op).
  destruct (under (expanded h (po_WriteDeny p)) path); [done|].
  assert (Hs : ruling rx write_op (OnPath path)
    (if bool_decide (shellStateRegex h ≠ "") && negb (mem_char dquote (shellStateRegex h))
     then [allow_rule "file-write*" [Lst [Atom "regex"; Regex (shellStateRegex h)]]] else []) = if shell_state path then Some true else None).
  { unfold shell_state. destruct (_ && negb _); [|done]. unfold ruling, verdict, allow_rule, rule. cbn [omap list_omap].
    rewrite bool_decide_eq_true_2 by done. cbn [orb andb any existsb filter_matches].
    rewrite (bool_decide_eq_false_2 (_ = [])) by done. rewrite (bool_decide_eq_true_2 ("regex" = "regex")) by done. cbn [orb andb].
    rewrite orb_false_r. by destruct (rx _ _). }
  rewrite Hs. destruct (shell_state path); [done|].
  assert (Hroots : ruling rx write_op (OnPath path)
    (match (λ d, subpath (path_str d)) <$> writable_roots h p with [] => [] | _ => [allow_rule "file-write*" ((λ d, subpath (path_str d)) <$> writable_roots h p)] end)
    = if under (writable_roots h p) path then Some true else None).
  { destruct (writable_roots h p) as [|d l]; [done|]. cbn [fmap list_fmap].
    unfold ruling, verdict, allow_rule, rule. cbn [omap list_omap]. rewrite bool_decide_eq_true_2 by done. cbn [orb andb].
    rewrite (bool_decide_eq_false_2 (_ :: _ = [])) by done. cbn [orb].
    assert (E : any (filter_matches rx (OnPath path)) (subpath (path_str d) :: ((λ d, subpath (path_str d)) <$> l)) = under (d :: l) path).
    { change (subpath (path_str d) :: _) with ((λ d, subpath (path_str d)) <$> d :: l). generalize (d :: l). clear.
      induction l as [|d l IH]; [done|]. unfold under, any in *. cbn [fmap list_fmap existsb filter_matches subpath path_str].
      rewrite IH. rewrite (bool_decide_eq_true_2 ("subpath" = "subpath")) by done.
      rewrite (bool_decide_eq_false_2 ("subpath" = "literal")) by done. cbn [andb]. by rewrite orb_false_r. }
    rewrite E. by destruct (under (d :: l) path). }
  rewrite Hroots. destruct (under (writable_roots h p) path); [by rewrite andb_true_r|].
  assert (Hr : ruling rx write_op (OnPath path) (read_rules h p) = None).
  { unfold read_rules. rewrite !ruling_app, !ruling_map by done. done. }
  rewrite extension_path, Hr, network_path by auto. apply run_write.
Qed.

Definition net_open (kind name : string) : bool :=
  negb (po_NetworkNone p) &&
  (if bool_decide (0 < po_ProxyOnlyPort p)%Z
   then (bool_decide (kind = "ip") && bool_decide (name = clean ("localhost:" +:+ itoa (po_ProxyOnlyPort p)))) ||
        (bool_decide (kind = "unix-socket") && bool_decide (name = "/var/run/mDNSResponder"))
   else true).

Lemma net_ruling kind name : ruling rx net_op (OnNet kind name) (rules h p) = Some (net_open kind name).
Proof.
  unfold rules. rewrite !ruling_app.
  assert (Hm : ruling rx net_op (OnNet kind name) (masked_rules h p) = None) by (by apply ruling_map).
  assert (Hw : ruling rx net_op (OnNet kind name) (write_rules h p) = None).
  { apply ruling_silent. unfold write_rules. intros e [He|[He|He]%elem_of_app]%elem_of_app.
    - destruct (_ <$> writable_roots h p); [by apply elem_of_nil in He|]. by apply list_elem_of_singleton in He as ->.
    - destruct (_ && _); [|by apply elem_of_nil in He]. by apply list_elem_of_singleton in He as ->.
    - by apply list_elem_of_fmap in He as (d & -> & _). }
  assert (Hr : ruling rx net_op (OnNet kind name) (read_rules h p) = None).
  { unfold read_rules. rewrite !ruling_app, !ruling_map by done. done. }
  rewrite Hm, Hw, extension_path, Hr by auto. unfold network_rules, net_open. destruct (po_NetworkNone p); [apply run_net|].
  case_bool_decide as Hp; [|done].
  assert (Hf : ∀ k s, verdict rx net_op (OnNet kind name) (allow_rule "network-outbound" [Lst [Atom "remote"; Atom k; Str s]])
    = if bool_decide (k = kind) && bool_decide (s = name) then Some true else None).
  { intros k s. unfold verdict, allow_rule, rule. rewrite bool_decide_eq_true_2 by done. cbn [orb andb any existsb filter_matches].
    rewrite (bool_decide_eq_false_2 (_ = [])) by done. rewrite (bool_decide_eq_true_2 ("remote" = "remote")) by done. cbn [orb andb].
    rewrite orb_false_r. by destruct (_ && _). }
  set (port := path_str _). unfold ruling. cbn [omap list_omap].
  assert (Hb : ∀ fs, verdict rx net_op (OnNet kind name) (allow_rule "network-bind" fs) = None) by done.
  unfold port, path_str. rewrite !Hf, Hb.
  rewrite (bool_decide_ext (kind = "ip") ("ip" = kind)), (bool_decide_ext (kind = "unix-socket") ("unix-socket" = kind)) by done.
  rewrite (bool_decide_ext (name = clean _) (clean ("localhost:" +:+ itoa (po_ProxyOnlyPort p)) = name)) by done.
  rewrite (bool_decide_ext (name = "/var/run/mDNSResponder") ("/var/run/mDNSResponder" = name)) by done.
  destruct (bool_decide ("ip" = kind) && _), (bool_decide ("unix-socket" = kind) && _); try done.
Qed.

(** C10: What the profile sandbox-exec is started with says, read back from its text: a
    path cannot break out of its quotes, and the rules decide exactly this. A file is
    readable unless it is a masked one or lies at or below a hard-locked path outside
    the preference roots. It is writable exactly in the writable trees, without the
    protected paths in them, and where the shells keep their state. The network is
    closed, open to the proxy's port and the resolver's socket, or open. *)
Theorem seatbelt_decides : ∃ l, read_profile (BuildSeatbeltProfile h p) = Some l ∧
  (∀ path, allowed rx read_op (OnPath path) l = negb (masked_path path) && (under (prefs h) path || negb (locked_path path))) ∧
  (∀ path, allowed rx write_op (OnPath path) l =
           negb (under (expanded h (po_WriteDeny p)) path) && (shell_state path || under (writable_roots h p) path)) ∧
  (∀ kind name, allowed rx net_op (OnNet kind name) l = net_open kind name).
Proof.
  exists (rules h p). split; [apply profile_reads, rules_wf|]. split_and!; intros; rewrite allowed_ruling.
  - by rewrite read_ruling.
  - by rewrite write_ruling.
  - by rewrite net_ruling.
Qed.
End Decided.

(** *** Choosing and using a backend *)

(** With a wrapper installed a process starts as the wrapper's program or not at all,
    under the policy made for this start. *)
Lemma wrapped_or_refused h b i w path args r : in_wrapper i = Some w → wrapSandbox h b i path args = Ok r →
  ∃ bin, Command h w (match in_provider i with Some f => f h | None => in_policy i end) path args = Ok (bin, r.2) ∧
         r.1 = (if mem_char slash bin then bin else default bin (bk_lookup b bin)).
Proof.
  unfold wrapSandbox. intros -> (x & Hx & Hr)%rbind_Ok. apply wrap_err_Ok in Hx. injection Hr as <-. exists x.1.
  split; [destruct x; exact Hx|done].
Qed.

(** ** Witnesses *)

(** The text of a profile. *)
Example demo_profile : BuildSeatbeltProfile demo_host (mkPol "/home/u/w" [] [] [] [] 8080 false None)
  = foldr (λ l s, l +:+ str1 newline +:+ s) ""
    ["(version 1)"; "(deny default)"; "(allow process*)"; "(allow pseudo-tty)";
     "(allow file-ioctl (subpath " +:+ quote "/dev" +:+ "))"; "(allow signal (target same-sandbox))"; "(allow file-read-metadata)";
     "(allow sysctl-read)"; "(allow mach-lookup)"; "(allow ipc-posix-shm)";
     "(allow network-outbound (remote ip " +:+ quote "localhost:8080" +:+ "))";
     "(allow network-outbound (remote unix-socket " +:+ quote "/var/run/mDNSResponder" +:+ "))";
     "(allow network-bind (local ip " +:+ quote "localhost:*" +:+ "))"; "(allow file-read*)";
     "(allow file-read* (subpath " +:+ quote "/Library/Preferences" +:+ "))";
     "(allow file-read* (subpath " +:+ quote "/Library/Managed Preferences" +:+ "))";
     "(allow file-read* (subpath " +:+ quote "/home/u/Library/Preferences" +:+ "))";
     "(allow file-issue-extension (subpath " +:+ quote "/Library/Preferences" +:+ "))";
     "(allow file-issue-extension (subpath " +:+ quote "/Library/Managed Preferences" +:+ "))";
     "(allow file-issue-extension (subpath " +:+ quote "/home/u/Library/Preferences" +:+ "))";
     "(allow mach-lookup (global-name " +:+ quote "com.apple.cfprefsd.daemon" +:+ "))";
     "(allow mach-lookup (global-name " +:+ quote "com.apple.cfprefsd.agent" +:+ "))";
     "(allow file-write* (subpath " +:+ quote "/home/u/w" +:+ ") (subpath " +:+ quote "/tmp" +:+ "))";
     "(allow file-write* (regex #" +:+ str1 dquote +:+ "^/home/u/(\.zsh_history|\.zcompdump|\.bash_history|\.zsh_sessions)[^/]*$" +:+ str1 dquote +:+ "))"].
Proof. vm_compute. reflexivity. Qed.

(** A hard-locked directory in the work tree: under bubblewrap it is masked, the
    profile only takes reading it back and leaves it writable. *)
Definition demo_home_policy : OSPolicy := mkPol "/home/u" ["~/.ssh"] [] [] [] 0 false None.
Example demo_hardlock_writable :
  allowed (λ _ _, false) read_op (OnPath "/home/u/.ssh/id_rsa") (rules demo_host demo_home_policy) = false ∧
  allowed (λ _ _, false) write_op (OnPath "/home/u/.ssh/id_rsa") (rules demo_host demo_home_policy) = true ∧
  match Bwrap_Command demo_host "" demo_home_policy "/bin/sh" [] with
  | Ok (_, full) => sees (mounts full) "/home/u/.ssh/id_rsa" = Some Hidden
  | Err _ => False
  end.
Proof. vm_compute. done. Qed.
