(* ===== verification/MandatoryWalk.v ===== *)
(** pkg/permission/mandatory.go: the walk that finds the paths of a work tree that must
    not be written, so that the operating-system sandbox can mount over them, and how
    it agrees with the gate's own test [PermManager.IsMandatoryDenied]. *)

From S2P Require Import Prelude GoStrings GoPaths PermTypes PermManager OsSandbox.

(** ** File trees *)

(** What [filepath.WalkDir] finds: anything that is no directory (links included), with
    whether it is a regular file; a directory, with whether it can be listed, and its
    entries in the order of their names. *)
Inductive node := Leaf (regular : bool) | Dir (readable : bool) (children : list (string * node)).
Definition has_child (c : string) (children : list (string * node)) : bool := any (λ x, bool_decide (x.1 = c)) children.

(** ** The walk *)

(** [relDepth > depth], below the root. *)
Definition rel_depth (root path : string) : Z :=
  Z.of_nat (count_char slash (trim_prefix (trim_prefix path root) "/")).
Definition too_deep (root : string) (depth : Z) (path : string) : bool :=
  bool_decide (path ≠ root) && bool_decide (depth < rel_depth root path)%Z.

(** The function given to the walk. *)
Definition leaf_paths (path : string) : list string := if any (equal_fold (base path)) dangerousFiles then [path] else [].
Definition claude_paths (path : string) (children : list (string * node)) : list string :=
  concat ((λ sub, if has_child sub children then [join2 path sub] else []) <$> ["commands"; "agents"]).
Fixpoint walk (root : string) (depth : Z) (path name : string) (n : node) : list string :=
  match n with
  | Leaf _ => if too_deep root depth path then [] else leaf_paths path
  | Dir readable children =>
      let descend := if readable then concat ((λ '(c, m), walk root depth (join2 path c) c m) <$> children) else [] in
      if too_deep root depth path then []
      else if bool_decide (name = ".git") then descend
      else if bool_decide (name = ".vscode") || bool_decide (name = ".idea") then [path]
      else if bool_decide (name = ".claude") then claude_paths path children
      else descend
  end.

(** [func gitDirsUnder(root, depth) []string], each with its entries. *)
Fixpoint gitDirsUnder (root : string) (depth : Z) (path name : string) (n : node) : list (string * list (string * node)) :=
  match n with
  | Leaf _ => []
  | Dir readable children =>
      if too_deep root depth path then []
      else if bool_decide (name = ".git") then [(path, children)]
      else if readable then concat ((λ '(c, m), gitDirsUnder root depth (join2 path c) c m) <$> children) else []
  end.
Definition git_paths (g : string * list (string * node)) : list string :=
  (if has_child "hooks" g.2 then [join2 g.1 "hooks"] else []) ++ (if has_child "config" g.2 then [join2 g.1 "config"] else []).

(** [func MandatoryDenyPaths(root, depth) []string]; [fs] gives what is at a path. *)
Definition MandatoryDenyPaths (fs : string → option node) (root : string) (depth : Z) : list string :=
  if bool_decide (root = "") then []
  else
    let depth := Z.max depth 0 in
    let root := clean root in
    match fs root with
    | None => []
    | Some n => dedupe (walk root depth root (base root) n ++ concat (git_paths <$> gitDirsUnder root depth root (base root) n))
    end.

(** ** Lemmas *)

(** *** Trees *)

Section NodeInd.
Variable P : node → Prop.
Hypothesis HLeaf : ∀ b, P (Leaf b).
Hypothesis HDir : ∀ b l, Forall (λ x : string * node, P x.2) l → P (Dir b l).
Fixpoint node_nested (n : node) : P n :=
  match n with
  | Leaf b => HLeaf b
  | Dir b l => HDir b l ((fix go (l : list (string * node)) : Forall (λ x, P x.2) l :=
                            match l with
                            | [] => @List.Forall_nil (string * node) (λ x, P x.2)
                            | x :: l => @List.Forall_cons (string * node) (λ x, P x.2) x l (node_nested x.2) (go l)
                            end) l)
  end.
End NodeInd.

(** The node [m] lies at [ns] below [n], through directories that can be listed. *)
Inductive at_node : node → list string → node → Prop :=
| at_here n : at_node n [] n
| at_child c ns children m k : (c, m) ∈ children → at_node m ns k → at_node (Dir true children) (c :: ns) k.

Lemma elem_of_concat_map {A B} (f : A → list B) l y : y ∈ concat (f <$> l) ↔ ∃ x, x ∈ l ∧ y ∈ f x.
Proof.
  rewrite list_elem_of_In, in_concat. split.
  - intros (ys & Hys & Hy). apply list_elem_of_In, list_elem_of_fmap in Hys as (x & -> & Hx). exists x. split; [done|].
    by apply list_elem_of_In.
  - intros (x & Hx & Hy). exists (f x). split; [|by apply list_elem_of_In]. apply list_elem_of_In, list_elem_of_fmap. by exists x.
Qed.

(** *** Depth *)

Lemma count_no_slash c : mem_char slash c = false → count_char slash c = 0%nat.
Proof.
  induction c as [|d c IH]; [done|]. cbn [mem_char count_char]. intros [Hd Hc]%orb_false_iff. apply bool_decide_eq_false in Hd.
  rewrite IH by done. by rewrite bool_decide_eq_false_2.
Qed.

Lemma count_app c a b : count_char c (a +:+ b) = (count_char c a + count_char c b)%nat.
Proof. induction a as [|d a IH]; [done|]. rewrite app_cons_str. cbn [count_char]. rewrite IH. lia. Qed.

Lemma count_join ns : Forall normal_comp ns → count_char slash (join "/" ns) = (length ns - 1)%nat.
Proof.
  induction ns as [|c ns IH]; intros Hns; [done|]. apply Forall_cons in Hns as ((_ & _ & _ & Hc) & Hns).
  destruct ns as [|c' ns]; [simpl; by apply count_no_slash|].
  change (join "/" (c :: c' :: ns)) with (c +:+ "/" +:+ join "/" (c' :: ns)). rewrite !count_app, IH, count_no_slash by done.
  change (count_char slash "/") with 1%nat. simpl. lia.
Qed.

Lemma abs_path_app cs ns : ns ≠ [] → abs_path (cs ++ ns) = (match cs with [] => "" | _ => abs_path cs end) +:+ "/" +:+ join "/" ns.
Proof.
  intros Hns. destruct cs as [|c cs]; [done|]. unfold abs_path. change (String slash ?a +:+ ?b) with (String slash (a +:+ b)).
  f_equal. revert c. induction cs as [|c' cs IH]; intros c; [by destruct ns|].
  change (join "/" ((c :: c' :: cs) ++ ns)) with (c +:+ "/" +:+ join "/" ((c' :: cs) ++ ns)). rewrite IH.
  change (join "/" (c :: c' :: cs)) with (c +:+ "/" +:+ join "/" (c' :: cs)). by rewrite !app_assoc_str.
Qed.

Lemma rel_depth_comps cs ns : ns ≠ [] → Forall normal_comp ns → rel_depth (abs_path cs) (abs_path (cs ++ ns)) = Z.of_nat (length ns - 1).
Proof.
  intros Hne Hns. unfold rel_depth. f_equal. rewrite <- count_join by done. f_equal. rewrite abs_path_app by done.
  assert (Hfirst : has_prefix (join "/" ns) "/" = false).
  { destruct ns as [|c ns]; [done|]. apply Forall_cons in Hns as ((Hc & _ & _ & Hm) & _).
    destruct c as [|d c]; [done|]. cbn [mem_char] in Hm. apply orb_false_iff in Hm as (Hd & _). apply bool_decide_eq_false in Hd.
    assert (E : ∃ t, join "/" (String d c :: ns) = String d t) by (destruct ns; by eexists). destruct E as (t & ->). simpl.
    rewrite bool_decide_eq_false_2; [done|]. intros E. by apply Hd. }
  destruct cs as [|c cs].
  - change ("" +:+ "/" +:+ join "/" ns) with ("/" +:+ join "/" ns). change (abs_path []) with "/". rewrite trim_prefix_app.
    unfold trim_prefix. by rewrite Hfirst.
  - rewrite trim_prefix_app. apply trim_prefix_app.
Qed.

Lemma not_deep cs ns depth : Forall normal_comp ns → (Z.of_nat (length ns) - 1 ≤ depth)%Z → (0 ≤ depth)%Z →
  too_deep (abs_path cs) depth (abs_path (cs ++ ns)) = false.
Proof.
  intros Hns Hd H0. unfold too_deep. destruct ns as [|c ns]; [rewrite app_nil_r; by rewrite bool_decide_eq_false_2 by naive_solver|].
  rewrite rel_depth_comps by done. rewrite (bool_decide_eq_false_2 (depth < _)%Z); [by rewrite andb_false_r|]. simpl in *. lia.
Qed.

(** *** What the gate denies *)

Lemma denied_cases os p : p ≠ "" → IsMandatoryDenied os p =
  any (equal_fold (base (clean p))) dangerousFiles ||
  any (λ d, has_suffix (clean p) ("/" +:+ d) || contains (clean p) ("/" +:+ d +:+ "/")) dangerousDirs ||
  (equal_fold (base (clean p)) ".git" && os_lstat_regular os (clean p)) ||
  any (λ f, has_suffix (clean p) ("/" +:+ f)) dangerousFilesInGit.
Proof.
  intros Hp. unfold IsMandatoryDenied. rewrite bool_decide_eq_false_2 by done.
  destruct (any _ dangerousFiles); [done|]. destruct (any _ dangerousDirs); [done|]. by destruct (equal_fold _ _ && _).
Qed.

Lemma abs_path_ne cs : abs_path cs ≠ "".
Proof. done. Qed.

Lemma denied_file os cs : Forall normal_comp cs → any (equal_fold (base (abs_path cs))) dangerousFiles = true →
  IsMandatoryDenied os (abs_path cs) = true.
Proof. intros Hcs Hf. rewrite denied_cases, clean_abs by (done || apply abs_path_ne). by rewrite Hf. Qed.

Lemma denied_dir os cs d : Forall normal_comp cs → d ∈ dangerousDirs ++ dangerousFilesInGit → has_suffix (abs_path cs) ("/" +:+ d) = true →
  IsMandatoryDenied os (abs_path cs) = true.
Proof.
  intros Hcs Hd Hs. rewrite denied_cases, clean_abs by (done || apply abs_path_ne). apply elem_of_app in Hd as [Hd|Hd].
  - assert (E : any (λ d, has_suffix (abs_path cs) ("/" +:+ d) || contains (abs_path cs) ("/" +:+ d +:+ "/")) dangerousDirs = true).
    { apply any_true. exists d. by rewrite Hs. } rewrite E. by rewrite orb_true_r.
  - assert (E : any (λ f, has_suffix (abs_path cs) ("/" +:+ f)) dangerousFilesInGit = true) by (apply any_true; by exists d).
    rewrite E. apply orb_true_r.
Qed.

Lemma suffix_comps cs ns : ns ≠ [] → has_suffix (abs_path (cs ++ ns)) ("/" +:+ join "/" ns) = true.
Proof. intros Hns. apply has_suffix_spec. rewrite abs_path_app by done. by eexists. Qed.

(** A path whose last component is [c] ends in it. *)
Lemma base_comps cs c : Forall normal_comp cs → base (abs_path cs) = c → c ≠ "/" → ∃ cs', cs = cs' ++ [c].
Proof.
  intros Hcs Hb Hc. destruct cs as [|c' cs _] using rev_ind; [by subst|]. rewrite base_abs in Hb by done. subst. by exists cs.
Qed.

(** *** Everything listed is denied by the gate *)

Definition names_ok (n : node) : Prop := ∀ ns m, at_node n ns m → Forall normal_comp ns.

Lemma names_child children c m : names_ok (Dir true children) → (c, m) ∈ children → normal_comp c ∧ names_ok m.
Proof.
  intros Hok Hm. split.
  - apply Forall_singleton, (Hok [c] m). econstructor; [done|constructor].
  - intros ns k Hk. assert (Hn : Forall normal_comp (c :: ns)) by (apply (Hok _ k); by econstructor). by apply Forall_cons in Hn as (_ & ?).
Qed.

Lemma normal_app cs c : Forall normal_comp cs → normal_comp c → Forall normal_comp (cs ++ [c]).
Proof. intros. apply Forall_app. split; [done|by apply Forall_singleton]. Qed.

Lemma walk_sound os root depth n : ∀ ps name, names_ok n → Forall normal_comp ps → name = base (abs_path ps) →
  ∀ p, p ∈ walk root depth (abs_path ps) name n → IsMandatoryDenied os p = true.
Proof.
  induction n as [b|b l IH] using node_nested; intros ps name Hok Hps Hname p Hp; cbn [walk] in Hp.
  - destruct (too_deep _ _ _); [by apply elem_of_nil in Hp|]. unfold leaf_paths in Hp.
    destruct (any _ _) eqn:E; [|by apply elem_of_nil in Hp]. apply list_elem_of_singleton in Hp as ->. by apply denied_file.
  - destruct (too_deep _ _ _); [by apply elem_of_nil in Hp|].
    assert (Hdesc : p ∈ (if b then concat ((λ '(c, m), walk root depth (join2 (abs_path ps) c) c m) <$> l) else []) →
      IsMandatoryDenied os p = true).
    { destruct b; [|by intros ?%elem_of_nil]. intros ([c m] & Hm & Hin)%elem_of_concat_map. destruct (names_child l c m Hok Hm) as (Hc & Hok').
      pose proof (normal_app ps c Hps Hc) as Hpc. rewrite join2_abs in Hin by done. rewrite Forall_forall in IH.
      refine (IH (c, m) _ (ps ++ [c]) c Hok' Hpc _ p Hin); [done|by rewrite base_abs]. }
    case_bool_decide as Hgit; [by apply Hdesc|].
    destruct (bool_decide (name = ".vscode") || bool_decide (name = ".idea")) eqn:Eide.
    { apply list_elem_of_singleton in Hp as ->. apply orb_true_iff in Eide.
      assert (Hd : name = ".vscode" ∨ name = ".idea") by (destruct Eide as [E|E]; apply bool_decide_eq_true in E; auto).
      destruct (base_comps ps name Hps (eq_sym Hname)) as (ps' & ->); [by destruct Hd as [->| ->]|].
      apply (denied_dir os _ name Hps); [destruct Hd as [->| ->]; unfold dangerousDirs; set_solver|]. by apply (suffix_comps ps' [name]). }
    case_bool_decide as Hclaude; [|by apply Hdesc]. subst name.
    unfold claude_paths in Hp. apply elem_of_concat_map in Hp as (sub & Hsub & Hp). destruct (has_child sub l); [|by apply elem_of_nil in Hp].
    apply list_elem_of_singleton in Hp as ->. destruct (base_comps ps ".claude" Hps Hclaude) as (ps' & ->); [done|].
    assert (Hc : normal_comp sub) by (apply elem_of_cons in Hsub as [->| ->%list_elem_of_singleton]; split_and!; done).
    rewrite join2_abs by by apply normal_app. apply (denied_dir os _ (".claude/" +:+ sub)); [by apply normal_app| |].
    + apply elem_of_cons in Hsub as [->| ->%list_elem_of_singleton]; unfold dangerousDirs; set_solver.
    + rewrite <- app_assoc. by apply (suffix_comps ps' [".claude"; sub]).
Qed.

Lemma git_sound os root depth n : ∀ ps name, names_ok n → Forall normal_comp ps → name = base (abs_path ps) →
  ∀ g p, g ∈ gitDirsUnder root depth (abs_path ps) name n → p ∈ git_paths g → IsMandatoryDenied os p = true.
Proof.
  induction n as [b|b l IH] using node_nested; intros ps name Hok Hps Hname g p Hg Hp; cbn [gitDirsUnder] in Hg; [by apply elem_of_nil in Hg|].
  destruct (too_deep _ _ _); [by apply elem_of_nil in Hg|]. case_bool_decide as Hgit.
  - apply list_elem_of_singleton in Hg as ->. subst name. destruct (base_comps ps ".git" Hps Hgit) as (ps' & ->); [done|].
    assert (Hsub : ∃ sub, p = join2 (abs_path (ps' ++ [".git"])) sub ∧ (sub = "hooks" ∨ sub = "config")).
    { unfold git_paths in Hp. apply elem_of_app in Hp as [Hp|Hp]; simpl in Hp;
        (destruct (has_child _ l); [|by apply elem_of_nil in Hp]); apply list_elem_of_singleton in Hp as ->; eauto. }
    destruct Hsub as (sub & -> & Hsub). assert (Hc : normal_comp sub) by (destruct Hsub as [->| ->]; split_and!; done).
    rewrite join2_abs by by apply normal_app. apply (denied_dir os _ (".git/" +:+ sub)); [by apply normal_app| |].
    + destruct Hsub as [->| ->]; unfold dangerousDirs, dangerousFilesInGit; set_solver.
    + rewrite <- app_assoc. by apply (suffix_comps ps' [".git"; sub]).
  - destruct b; [|by apply elem_of_nil in Hg]. apply elem_of_concat_map in Hg as ([c m] & Hm & Hin).
    destruct (names_child l c m Hok Hm) as (Hc & Hok'). pose proof (normal_app ps c Hps Hc) as Hpc. rewrite join2_abs in Hin by done.
    rewrite Forall_forall in IH. refine (IH (c, m) _ (ps ++ [c]) c Hok' Hpc _ g p Hin Hp); [done|by rewrite base_abs].
Qed.

(** *** Everything protected is found *)

(** The names of the directories passed on the way down [ns] from one named [name],
    and the name where it ends. *)
Fixpoint passed (name : string) (ns : list string) : list string :=
  match ns with [] => [] | c :: ns => name :: passed c ns end.
Fixpoint end_name (name : string) (ns : list string) : string := match ns with [] => name | c :: ns => end_name c ns end.

Lemma end_name_snoc name ns c : end_name name (ns ++ [c]) = c.
Proof. revert name. induction ns as [|c' ns IH]; [done|]. intros name. simpl. apply IH. Qed.

Lemma covers_below cs ns : covers (abs_path cs) (abs_path (cs ++ ns)) = true.
Proof.
  unfold covers. destruct ns as [|c ns]; [rewrite app_nil_r, (bool_decide_eq_true_2 (abs_path cs = abs_path cs)) by done; by rewrite orb_true_r|].
  rewrite abs_path_app by done. destruct cs as [|c' cs]; [done|]. apply orb_true_iff. right. apply has_prefix_spec.
  exists (join "/" (c :: ns)). by rewrite app_assoc_str.
Qed.

Section Complete.
Variables (cs : list string) (depth : Z).
Hypothesis Hdepth : (0 ≤ depth)%Z.
Let root := abs_path cs.

Lemma walk_found n ns m : at_node n ns m → ∀ up name target,
  Forall normal_comp (cs ++ up ++ ns) → (Z.of_nat (length (up ++ ns)) - 1 ≤ depth)%Z → ".claude" ∉ passed name ns →
  covers (abs_path (cs ++ up ++ ns)) target = true → (∃ below, target = abs_path (cs ++ up ++ ns ++ below)) →
  (∃ d, d ∈ walk root depth (abs_path (cs ++ up ++ ns)) (end_name name ns) m ∧ covers d target = true) →
  ∃ d, d ∈ walk root depth (abs_path (cs ++ up)) name n ∧ covers d target = true.
Proof using Hdepth.
  induction 1 as [n|c ns children m k Hm _ IH]; intros up name target Hn Hd Hclear Hcov (below & Htarget) Hfound.
  { rewrite app_nil_r in Hfound. exact Hfound. }
  cbn [passed end_name] in *. apply not_elem_of_cons in Hclear as (Hname & Hclear).
  assert (Hup : Forall normal_comp (cs ++ up) ∧ normal_comp c).
  { rewrite app_assoc in Hn. apply Forall_app in Hn as (? & Hn). split; [done|]. by apply Forall_cons in Hn as (? & _). }
  destruct Hup as (Hup & Hc). cbn [walk].
  unfold root. rewrite not_deep; [|by apply Forall_app in Hup as (_ & ?)|rewrite length_app in *; simpl in *; lia|done].
  assert (Hdesc : ∃ d, d ∈ concat ((λ '(c, m), walk (abs_path cs) depth (join2 (abs_path (cs ++ up)) c) c m) <$> children) ∧ covers d target = true).
  { destruct (IH (up ++ [c]) c target) as (d & Hin & Hdc).
    - by rewrite <- app_assoc.
    - by rewrite <- app_assoc.
    - done.
    - by rewrite <- app_assoc.
    - exists below. by rewrite <- app_assoc.
    - by rewrite <- app_assoc.
    - exists d. split; [|done]. apply elem_of_concat_map. exists (c, m). split; [done|].
      rewrite join2_abs by by apply normal_app. by rewrite <- app_assoc. }
  case_bool_decide; [done|]. destruct (_ || _); [|by rewrite bool_decide_eq_false_2 by congruence].
  exists (abs_path (cs ++ up)). split; [by left|]. subst target.
  replace (cs ++ up ++ (c :: ns) ++ below) with ((cs ++ up) ++ ((c :: ns) ++ below)) by by rewrite <- app_assoc. apply covers_below.
Qed.

Lemma git_found n ns m : at_node n ns m → ∀ up name b children, m = Dir b children → end_name name ns = ".git" →
  Forall normal_comp (cs ++ up ++ ns) → (Z.of_nat (length (up ++ ns)) - 1 ≤ depth)%Z → ".git" ∉ passed name ns →
  (abs_path (cs ++ up ++ ns), children) ∈ gitDirsUnder root depth (abs_path (cs ++ up)) name n.
Proof using Hdepth.
  induction 1 as [n|c ns l m k Hm _ IH]; intros up name b children Hk Hname Hn Hd Hclear.
  - subst n. simpl in Hname. subst name. cbn [gitDirsUnder]. rewrite app_nil_r in *. unfold root.
    rewrite not_deep; [|by apply Forall_app in Hn as (_ & ?)|done..]. set_solver.
  - cbn [passed end_name] in *. apply not_elem_of_cons in Hclear as (Hne & Hclear).
    assert (Hup : Forall normal_comp (cs ++ up) ∧ normal_comp c).
    { rewrite app_assoc in Hn. apply Forall_app in Hn as (? & Hn). split; [done|]. by apply Forall_cons in Hn as (? & _). }
    destruct Hup as (Hup & Hc). cbn [gitDirsUnder].
    unfold root. rewrite not_deep; [|by apply Forall_app in Hup as (_ & ?)|rewrite length_app in *; simpl in *; lia|done].
    rewrite bool_decide_eq_false_2 by done. apply elem_of_concat_map. exists (c, m). split; [done|].
    rewrite join2_abs by by apply normal_app. replace (cs ++ up ++ c :: ns) with (cs ++ (up ++ [c]) ++ ns) by by rewrite <- app_assoc.
    rewrite <- (app_assoc cs up [c]). apply (IH (up ++ [c]) c b children); try done; by rewrite <- app_assoc.
Qed.
End Complete.

(** ** Properties *)

(** C25: The two layers agree on what must not be written. Everything the walk lists, the
    gate denies. And the walk covers what lies within the depth: a file with a
    dangerous name and an editor's directory (unless below a .claude directory), the
    commands and agents of a .claude directory, the hooks and the configuration of a
    git directory that is not inside another. *)
Theorem walk_agrees_with_gate (os : OSView) (fs : string → option node) (cs : list string) (depth : Z) (n : node) :
  Forall normal_comp cs → fs (abs_path cs) = Some n → names_ok n → (0 ≤ depth)%Z →
  let out := MandatoryDenyPaths fs (abs_path cs) depth in
  (∀ p, p ∈ out → IsMandatoryDenied os p = true) ∧
  ∀ ns m, at_node n ns m → (Z.of_nat (length ns) - 1 ≤ depth)%Z →
    let name := end_name (base (abs_path cs)) ns in
    let way := passed (base (abs_path cs)) ns in
    let path := abs_path (cs ++ ns) in
    match m with
    | Leaf _ => any (equal_fold name) dangerousFiles = true → ".claude" ∉ way → ∃ d, d ∈ out ∧ covers d path = true
    | Dir _ children =>
        (name ∈ [".vscode"; ".idea"] → ".claude" ∉ way → ∃ d, d ∈ out ∧ covers d path = true) ∧
        (∀ sub, name = ".claude" → ".claude" ∉ way → sub ∈ ["commands"; "agents"] → has_child sub children = true →
           ∃ d, d ∈ out ∧ covers d (abs_path (cs ++ ns ++ [sub])) = true) ∧
        (∀ sub, name = ".git" → ".git" ∉ way → sub ∈ ["hooks"; "config"] → has_child sub children = true →
           abs_path (cs ++ ns ++ [sub]) ∈ out)
    end.
Proof.
  intros Hcs Hfs Hok H0 out.
  assert (Hout : ∀ p, p ∈ out ↔ p ∈ walk (abs_path cs) depth (abs_path cs) (base (abs_path cs)) n ∨
    ∃ g, g ∈ gitDirsUnder (abs_path cs) depth (abs_path cs) (base (abs_path cs)) n ∧ p ∈ git_paths g).
  { intros p. unfold out, MandatoryDenyPaths. rewrite bool_decide_eq_false_2 by apply abs_path_ne. rewrite clean_abs, Hfs, Z.max_l by done.
    rewrite elem_of_dedupe, elem_of_app. by rewrite elem_of_concat_map. }
  split.
  { intros p [Hp|(g & Hg & Hp)]%Hout; [by eapply walk_sound|by eapply git_sound]. }
  intros ns m Hat Hd name way path. assert (Hns : Forall normal_comp ns) by by apply (Hok ns m).
  assert (Hall : Forall normal_comp (cs ++ [] ++ ns)) by by apply Forall_app.
  assert (Hbase : name = base path).
  { unfold name, path. clear -Hall. induction ns as [|c ns _] using rev_ind; [by rewrite app_nil_r|].
    simpl in Hall. rewrite app_assoc in *. rewrite base_abs by done. apply end_name_snoc. }
  assert (Hdeep : too_deep (abs_path cs) depth path = false) by by apply not_deep.
  assert (Hfind : ∀ target, ".claude" ∉ way → (∃ below, target = abs_path (cs ++ ns ++ below)) →
    (∃ d, d ∈ walk (abs_path cs) depth path name m ∧ covers d target = true) → ∃ d, d ∈ out ∧ covers d target = true).
  { intros target Hway (below & Hb) Hf.
    destruct (walk_found cs depth H0 n ns m Hat [] (base (abs_path cs)) target) as (d & Hin & Hc); try done.
    - subst target. change ([] ++ ns) with ns. rewrite (app_assoc cs ns). apply covers_below.
    - by exists below.
    - rewrite app_nil_r in Hin. exists d. split; [|done]. apply Hout. by left. }
  assert (Hself : ∃ below, path = abs_path (cs ++ ns ++ below)) by (exists []; by rewrite app_nil_r).
  assert (Hcov : covers path path = true) by (unfold covers; rewrite (bool_decide_eq_true_2 (path = path)) by done; by rewrite orb_true_r).
  destruct m as [b|b children].
  - intros Hf Hway. apply Hfind; [done..|]. exists path. split; [|done]. cbn [walk]. rewrite Hdeep. unfold leaf_paths.
    rewrite <- Hbase, Hf. by left.
  - split_and!.
    + intros Hide Hway. apply Hfind; [done..|]. exists path. split; [|done]. cbn [walk]. rewrite Hdeep.
      apply elem_of_cons in Hide as [->| ->%list_elem_of_singleton]; by left.
    + intros sub Hn Hway Hsub Hch. apply Hfind; [done|by exists [sub]|]. exists (abs_path (cs ++ ns ++ [sub])). split.
      * cbn [walk]. rewrite Hdeep, Hn. change (abs_path (cs ++ ns ++ [sub]) ∈ claude_paths path children).
        apply elem_of_concat_map. exists sub. rewrite Hch. split; [done|]. unfold path. rewrite join2_abs, <- app_assoc; [by left|].
        apply normal_app; [done|]. apply elem_of_cons in Hsub as [->| ->%list_elem_of_singleton]; split_and!; done.
      * unfold covers. rewrite (bool_decide_eq_true_2 (abs_path (cs ++ ns ++ [sub]) = abs_path (cs ++ ns ++ [sub]))) by done.
        by rewrite orb_true_r.
    + intros sub Hn Hway Hsub Hch. apply Hout. right. exists (path, children). split.
      * pose proof (git_found cs depth H0 n ns _ Hat [] (base (abs_path cs)) b children eq_refl Hn Hall Hd Hway) as Hg.
        by rewrite app_nil_r in Hg.
      * rewrite app_assoc, <- join2_abs.
        2: { apply normal_app; [done|]. apply elem_of_cons in Hsub as [->| ->%list_elem_of_singleton]; split_and!; done. }
        unfold git_paths. simpl. apply elem_of_app. apply elem_of_cons in Hsub as [->| ->%list_elem_of_singleton]; rewrite Hch; [left|right]; by left.
Qed.

(** A tree whose names are all proper. *)
Fixpoint names_all (n : node) : bool :=
  match n with Leaf _ => true | Dir _ l => forallb (λ x, bool_decide (normal_comp x.1) && names_all x.2) l end.
Lemma names_all_ok n : names_all n = true → names_ok n.
Proof.
  intros Hn ns m Hat. induction Hat as [n|c ns l m k Hm _ IH]; [done|]. cbn [names_all] in Hn.
  rewrite List.forallb_forall in Hn. specialize (Hn (c, m)). rewrite <- list_elem_of_In in Hn. specialize (Hn Hm).
  apply andb_true_iff in Hn as (Hc & Hn). apply bool_decide_eq_true in Hc. constructor; [exact Hc|by apply IH].
Qed.

(** ** Witnesses *)

(** A work tree with a repository, an editor's directory and agent commands. *)
Definition demo_tree : node :=
  Dir true [(".bashrc", Leaf true); (".claude", Dir true [("commands", Dir true []); ("x", Dir true [(".bashrc", Leaf true)])]);
            (".git", Dir true [("config", Leaf true); ("hooks", Dir true [])]); ("src", Dir true [(".vscode", Dir true []); ("a.c", Leaf true)]);
            ("sub", Dir true [(".git", Leaf true)])].
Definition demo_fs (p : string) : option node := if bool_decide (p = "/w") then Some demo_tree else None.
Definition demo_os : OSView := mkOS Linux (λ _, None) (Ok "/w") "/home/u" (λ p, bool_decide (p = "/w/sub/.git")).

Example demo_walk : MandatoryDenyPaths demo_fs "/w" 3 =
  ["/w/.bashrc"; "/w/.claude/commands"; "/w/src/.vscode"; "/w/.git/hooks"; "/w/.git/config"].
Proof. vm_compute. reflexivity. Qed.

(** What the gate denies and the walk does not list: the [.git] file of a worktree, and a
    startup file below a .claude directory. *)
Example walk_misses : IsMandatoryDenied demo_os "/w/sub/.git" = true ∧ IsMandatoryDenied demo_os "/w/.claude/x/.bashrc" = true.
Proof. vm_compute. done. Qed.

Lemma walk_agrees_with_gate_witness :
  (∀ p, p ∈ MandatoryDenyPaths demo_fs "/w" 3 → IsMandatoryDenied demo_os p = true) ∧
  "/w/.git/hooks" ∈ MandatoryDenyPaths demo_fs "/w" 3.
Proof.
  destruct (walk_agrees_with_gate demo_os demo_fs ["w"] 3 demo_tree) as (Hs & Hc);
    [repeat constructor; done|reflexivity|by apply names_all_ok; vm_compute|lia|].
  split; [exact Hs|].
  assert (Hat : at_node demo_tree [".git"] (Dir true [("config", Leaf true); ("hooks", Dir true [])])).
  { apply (at_child ".git" [] _ (Dir true [("config", Leaf true); ("hooks", Dir true [])])); [by right; right; left|constructor]. }
  specialize (Hc _ _ Hat ltac:(simpl; lia)) as (_ & _ & Hg). apply (Hg "hooks"); [reflexivity| |by left|reflexivity].
  apply (bool_decide_eq_true_1 (".git" ∉ ["w"])). reflexivity.
Defined.
