(* ===== verification/AgentSandbox.v ===== *)
(** cmd/agent/main.go: how the agent puts the operating-system sandbox together. The
    policy is built from the permission store's hard-locked paths, the walk of the work
    tree and the masked credentials files, again for every process started. *)

From S2P Require Import Prelude GoStrings GoPaths PermTypes PermStore PermManager GoHTTP EgressPolicy EgressMask OsSandbox Seatbelt MandatoryWalk.

(** ** The parts of the policy *)

(** [func splitList(s) []string] *)
Definition splitList (s : string) : list string := keep (λ p, negb (bool_decide (p = ""))) (trim_space <$> split ","%char s).

(** [func hardlockPaths() []string]; no store, no rules. *)
Definition hardlockPaths (store : option Store) : list string :=
  match store with
  | None => []
  | Some st => rule_path <$> keep (λ r, bool_decide (rule_scope r = ScopeHardlock)) (sn_rules (Store_Snapshot st))
  end.

(** [func maskedFiles(m)]: what the file system answers, and the loop over the configured
    paths, which writes the copies into [dir]. *)
Record FileIO := mkFileIO { io_read : string → result string; io_mkdir : option string; io_write : string → option string }.
Definition mask_path (home path : string) : option string :=
  if has_prefix path "~/" then if bool_decide (home = "") then None else Some (join2 home (trim_prefix path "~/")) else Some path.
Fixpoint mask_configured (io : FileIO) (m : Masker) (order : list (string * string)) (home dir : string) (paths : list string)
    (disk : gmap string string) : list MaskedFile * gmap string string :=
  match paths with
  | [] => ([], disk)
  | raw :: paths =>
      match mask_path home raw with
      | None => mask_configured io m order home dir paths disk
      | Some path =>
          match MaskFile m order (io_read io path) (io_mkdir io) (io_write io (join2 dir (base path))) path dir with
          | Ok (mf, Some out) =>
              let '(l, disk) := mask_configured io m order home dir paths (<[mf_fake mf := out]> disk) in (mf :: l, disk)
          | _ => mask_configured io m order home dir paths disk
          end
      end
  end.
Definition maskedFiles (io : FileIO) (m : option Masker) (order : list (string * string)) (home config : string) (tmp : result string)
    (disk : gmap string string) : list MaskedFile * gmap string string :=
  match m with
  | None => ([], disk)
  | Some m =>
      match splitList config, tmp with
      | [], _ | _, Err _ => ([], disk)
      | paths, Ok dir => mask_configured io m order home dir paths disk
      end
  end.

(** What the agent finds when it builds a policy. *)
Record AgentView := mkView {
  av_host : Host;
  av_fs : string → option node;
  av_store : option Store;
  av_workDir : string;
  av_masked : list MaskedFile;
}.

(** [func sandboxPolicyFor(workDir, denyDepth) sandbox.Policy]; without an egress server
    there are no masked files. *)
Definition sandboxPolicyFor (v : AgentView) (denyDepth : Z) : OSPolicy :=
  mkPol (av_workDir v) (hardlockPaths (av_store v)) [] ((λ m, mkSub (mf_real m) (mf_fake m)) <$> av_masked v)
    (if bool_decide (av_workDir v ≠ "") then MandatoryDenyPaths (av_fs v) (av_workDir v) denyDepth else []) 0 false None.

(** ** Installing it *)

(** The way out of the sandbox, decided once: the relay when the proxy listens on a unix
    socket, the proxy's port otherwise. *)
Definition proxy_port (httpAddr : option string) : option Z :=
  match httpAddr with
  | None => None
  | Some a => if bool_decide (a = "") then None else match SplitHostPort a with Some (_, port) => atoi port | None => None end
  end.
Definition with_network (relay : option Relay) (httpAddr : option string) (p : OSPolicy) : OSPolicy :=
  match relay with
  | Some r => mkPol (po_WorkDir p) (po_ReadDeny p) (po_WriteAllow p) (po_ReadSubstitute p) (po_WriteDeny p) (po_ProxyOnlyPort p) true (Some r)
  | None =>
      match proxy_port httpAddr with
      | Some port => mkPol (po_WorkDir p) (po_ReadDeny p) (po_WriteAllow p) (po_ReadSubstitute p) (po_WriteDeny p) port
                       (po_NetworkNone p) (po_Relay p)
      | None => p
      end
  end.

(** The closure given to [SetSandboxPolicyFunc]. *)
Definition spawn_policy (policy : OSPolicy) (denyDepth : Z) (v : AgentView) : OSPolicy :=
  let fresh := sandboxPolicyFor v denyDepth in
  mkPol (po_WorkDir policy) (po_ReadDeny fresh) (po_WriteAllow policy) (po_ReadSubstitute fresh) (po_WriteDeny fresh)
    (po_ProxyOnlyPort policy) (po_NetworkNone policy) (po_Relay policy).

(** [func installOSSandbox(tb) error]: the wrapper and the policy installed, if any. *)
Definition installOSSandbox (b : Backends) (goos : GOOS) (mode : SandboxMode) (relay : option Relay) (httpAddr : option string) (v : AgentView)
    (denyDepth : Z) : result (option (Wrapper * OSPolicy)) :=
  match mode with
  | SbOff => Ok None
  | _ =>
      let! w := Resolve b goos mode "" "" in
      Ok ((λ w, (w, with_network relay httpAddr (sandboxPolicyFor v denyDepth))) <$> w)
  end.

(** Starting a process at a moment when the agent finds [v]. *)
Definition spawn (b : Backends) (installed : option (Wrapper * OSPolicy)) (denyDepth : Z) (v : AgentView) (path : string) (args : list string)
    : result (string * list string) :=
  wrapSandbox (av_host v) b
    (match installed with
     | None => mkInstalled None (sandboxPolicyFor v denyDepth) None
     | Some (w, p) => SetSandboxPolicyFunc (Some (λ _, spawn_policy p denyDepth v)) (SetSandbox (Some w) p (mkInstalled None p None))
     end) path args.

(** ** Properties *)

Lemma spawn_bwrap b bin p depth v path args prog full : spawn b (Some (WBwrap bin, p)) depth v path args = Ok (prog, full) →
  ∃ prog', Bwrap_Command (av_host v) bin (spawn_policy p depth v) path args = Ok (prog', full).
Proof.
  intros Hs. apply (wrapped_or_refused _ _ _ (WBwrap bin)) in Hs as (prog' & Hc & _); [|done]. by exists prog'.
Qed.

Lemma hardlocked_path st r : r ∈ sn_rules (Store_Snapshot st) → rule_scope r = ScopeHardlock → rule_path r ∈ hardlockPaths (Some st).
Proof.
  intros Hr Hs. unfold hardlockPaths. apply list_elem_of_fmap. exists r. split; [done|]. apply elem_of_keep.
  by rewrite bool_decide_eq_true_2.
Qed.

Lemma elem_of_expanded h l x d : x ∈ l → expand_one h x = Some d → d ∈ expanded h l.
Proof. intros Hx Hd. unfold expanded. apply elem_of_dedupe, list_elem_of_omap. by exists x. Qed.

(** C5: What bubblewrap enforces is the agent's policy as it is at the moment a process
    starts, whatever was installed before. Below the path of a rule that is hard-locked now
    and exists, a process sees nothing of the host, except below a masked credentials file
    or the relay's socket directory. At or below a path that the walk of the work tree lists
    now, and that exists, nothing is writable; paths the walk does not list are not covered:
    a name that does not exist yet, one deeper than [depth], a [.git] that is a file. What is
    writable at all lies in the writable trees: the work tree, what the policy allows and
    the temporary directories. *)
Theorem spawn_confined (b : Backends) (bin : string) (p : OSPolicy) (depth : Z) (v : AgentView) (path : string) (args : list string)
    (prog : string) (full : list string) :
  spawn b (Some (WBwrap bin, p)) depth v path args = Ok (prog, full) →
  (∀ st r d target, av_store v = Some st → r ∈ sn_rules (Store_Snapshot st) → rule_scope r = ScopeHardlock →
     expand_one (av_host v) (rule_path r) = Some d → d ≠ "/" → covers d target = true →
     (∀ rel, po_Relay p = Some rel → covers (re_SocketDir rel) target = false) →
     (∀ m real, m ∈ av_masked v → resolveExisting (av_host v) (mf_real m) = Some real → covers real target = false) →
     sees (mounts full) target = Some Hidden) ∧
  (∀ listed d target place, av_workDir v ≠ "" → listed ∈ MandatoryDenyPaths (av_fs v) (av_workDir v) depth →
     expand_one (av_host v) listed = Some d → covers d target = true → sees (mounts full) target ≠ Some (OnHost place true)) ∧
  (∀ target place, sees (mounts full) target = Some (OnHost place true) → place = target ∧
     ∃ d, d ∈ expanded (av_host v) ((po_WorkDir p :: po_WriteAllow p) ++ bwrap_temp (av_host v)) ∧ d ≠ "/" ∧ covers d target = true).
Proof.
  intros Hs. apply spawn_bwrap in Hs as (prog' & Hc). split_and!.
  - intros st r d target Hst Hr Hscope Hd Hroot Hcov Hrel Hm.
    apply (hardlocks_masked _ _ _ _ _ _ _ d target Hc); try done.
    + cbn [spawn_policy sandboxPolicyFor po_ReadDeny]. rewrite Hst. apply (elem_of_expanded _ _ (rule_path r)); [by apply hardlocked_path|done].
    + cbn [spawn_policy sandboxPolicyFor po_ReadSubstitute]. intros s real (m & -> & Hin)%list_elem_of_fmap. by apply (Hm m).
  - intros listed d target place Hw Hl Hd Hcov Hsee.
    destruct (writes_confined _ _ _ _ _ _ _ target place Hc Hsee) as (_ & _ & Hdeny & _ & _).
    assert (Hin : d ∈ expanded (av_host v) (po_WriteDeny (spawn_policy p depth v))).
    { cbn [spawn_policy sandboxPolicyFor po_WriteDeny]. rewrite bool_decide_eq_true_2 by done. by apply (elem_of_expanded _ _ listed). }
    rewrite (Hdeny d Hin) in Hcov. done.
  - intros target place Hsee. by destruct (writes_confined _ _ _ _ _ _ _ target place Hc Hsee) as (? & ? & _).
Qed.

(** ** Witnesses *)

Definition demo_here : list string := ["/w"; "/w/.git/hooks"; "/w/.bashrc"; "/tmp"; "/home/u/.ssh"].
Definition demo_rule : Rule := mkRule "/home/u/.ssh" ModeReadWrite ScopeHardlock 0 0 "" "".
Definition demo_store : Store := mkStore "" (mkSnapshot 1 "" "" [demo_rule] [] (mkCommandPolicy [] []) 0) FileMissing.
Definition demo_view : AgentView :=
  mkView (mkHost demo_os "/tmp" false (λ p, if bool_decide (p ∈ demo_here) then Some (negb (bool_decide (p = "/w/.bashrc"))) else None)
            (λ p, bool_decide (p ∈ demo_here)))
    demo_fs (Some demo_store) "/w" [].
Definition demo_installed : OSPolicy := mkPol "/w" [] [] [] [] 0 false None.
Definition demo_backends : Backends := mkBackends (λ _, Ok tt) (λ p, Some ("/usr/bin/" +:+ p)).
Definition demo_spawn : list string :=
  match spawn demo_backends (Some (WBwrap "bwrap", demo_installed)) 3 demo_view "/bin/sh" [] with Ok (_, l) => l | Err _ => [] end.

Lemma spawn_confined_witness :
  sees (mounts demo_spawn) "/home/u/.ssh/id_rsa" = Some Hidden ∧
  sees (mounts demo_spawn) "/w/.git/hooks/pre-commit" ≠ Some (OnHost "/w/.git/hooks/pre-commit" true) ∧
  ∃ d, d ≠ "/" ∧ covers d "/w/src/a.c" = true.
Proof.
  destruct (spawn_confined demo_backends "bwrap" demo_installed 3 demo_view "/bin/sh" [] "/usr/bin/bwrap" demo_spawn) as (Hh & Hw & Hp).
  - vm_compute. reflexivity.
  - split_and!.
    + apply (Hh demo_store demo_rule "/home/u/.ssh"); [reflexivity|by left|reflexivity|vm_compute; reflexivity|done|reflexivity|by intros ? [=]|].
      intros m real Hm. by apply elem_of_nil in Hm.
    + apply (Hw "/w/.git/hooks" "/w/.git/hooks"); [done| |vm_compute; reflexivity|reflexivity].
      apply (bool_decide_eq_true_1 ("/w/.git/hooks" ∈ MandatoryDenyPaths demo_fs "/w" 3)). vm_compute. reflexivity.
    + destruct (Hp "/w/src/a.c" "/w/src/a.c") as (_ & d & _ & Hd & Hc); [vm_compute; reflexivity|]. exists d. split; [exact Hd|exact Hc].
Defined.

(** Two masked files with the same name get one copy: the first shows the second's content. *)
Definition demo_masker : Masker := mkMasker {["K" := "S1"]} {["S1" := mkCred "K" "secret" ""]} ∅ ∅ false.
Definition demo_io : FileIO :=
  mkFileIO (λ p, if bool_decide (p = "/a/credentials") then Ok "a=secret" else Ok "b=secret") None (λ _, None).
Example same_name_overwrites :
  let '(l, disk) := maskedFiles demo_io (Some demo_masker) [("K", "S1")] "/home/u" "/a/credentials,/b/credentials" (Ok "/t") ∅ in
  mf_real <$> l = ["/a/credentials"; "/b/credentials"] ∧ mf_fake <$> l = ["/t/credentials"; "/t/credentials"] ∧
  disk !! "/t/credentials" = Some "b=S1".
Proof. vm_compute. done. Qed.
